(** * dma_buffer.c: the buddy allocator of DMA buffer segments

    A shallow embedding of [src/dma_buffer.c] (PG-Strom): the chunk
    header, the per-segment free lists, the segment directory with its
    active and inactive lists, and the allocation, release, resize and
    validation entry points, followed by the properties proved of them. *)

From Stdlib Require Import ZArith List Bool Lia String FinFun.
Import ListNotations.
Local Open Scope string_scope.
Local Open Scope list_scope.
Local Open Scope Z_scope.

(** ** Constants and size arithmetic *)

Definition DMABUF_CHUNKSZ_MAX_BIT : Z := 34.
Definition DMABUF_CHUNKSZ_MIN_BIT : Z := 8.
Definition DMABUF_CHUNKSZ_MAX : Z := Z.shiftl 1 DMABUF_CHUNKSZ_MAX_BIT.
Definition DMABUF_CHUNKSZ_MIN : Z := Z.shiftl 1 DMABUF_CHUNKSZ_MIN_BIT.
Definition DMABUF_CHUNK_MAGIC_CODE : Z := 0xDEADBEAF.

(** [Size], [size_t] and [uintptr_t] are 64-bit unsigned on the LP64
    targets the extension builds for; arithmetic on them wraps. *)
Definition Size_wrap (x : Z) : Z := x mod 2 ^ 64.

(** [1UL << n] for a class [n] below 64: the power of two. *)
Definition pow2 (n : Z) : Z := Z.shiftl 1 n.

(** [1UL << n] as the shift instruction of x86-64 computes it, on 64 bits
    with the count taken modulo 64: [pow2 n] for a class up to 63, and 1
    for 64 (a shift C leaves undefined).  The class computed from a
    length can be 64, see [dmaBufferAllocInternal]. *)
Definition shift_1UL (n : Z) : Z := Size_wrap (Z.shiftl 1 (Z.land n 63)).

(** Modelled from the spec: c.h's [TYPEALIGN], the macro behind
    [MAXALIGN] (8 bytes) and [INTALIGN] (4 bytes); the header is not
    part of the sources, the definition is the usual mask. *)
Definition TYPEALIGN (a len : Z) : Z := Z.land (len + (a - 1)) (Z.lnot (a - 1)).
Definition MAXALIGN (len : Z) : Z := TYPEALIGN 8 len.
Definition INTALIGN (len : Z) : Z := TYPEALIGN 4 len.

(** Modelled from the spec: pg_strom.h's [get_next_log2], the exponent of
    the smallest power of two not below its argument (0 for 0 and 1), and
    [get_prev_log2], the exponent of the largest power of two not above
    it; the header is not part of the sources. *)
Definition get_next_log2 (size : Z) : Z := Z.log2_up size.
Definition get_prev_log2 (size : Z) : Z := Z.log2 size.

(** [offsetof(dmaBufferChunk, data)]: two [dlist_node]s (two pointers
    each), one pointer, one [size_t], two [cl_uint]. *)
Definition offsetof_data : Z := 56.
Definition sizeof_cl_uint : Z := 4.

(** Lines 624-628 (and 773-777): the chunk size and its class. *)
Definition chunk_size_of (required : Z) : Z :=
  Z.max (Size_wrap (MAXALIGN (Size_wrap (offsetof_data + required + sizeof_cl_uint))))
        DMABUF_CHUNKSZ_MIN.

Definition mclass_of (required : Z) : Z := get_next_log2 (chunk_size_of required).

(** [dmaBufferMaxAllocSize], for a segment of [dma_segment_size] bytes. *)
Definition dmaBufferMaxAllocSize (dma_segment_size : Z) : Z :=
  Size_wrap (pow2 (get_prev_log2 dma_segment_size)
             - (MAXALIGN offsetof_data + MAXALIGN sizeof_cl_uint)).

(** ** Alignment facts *)

Lemma TYPEALIGN_pow2 (n len : Z) :
  0 <= n -> TYPEALIGN (2 ^ n) len = (len + (2 ^ n - 1)) / 2 ^ n * 2 ^ n.
Proof.
  intros Hn. unfold TYPEALIGN.
  rewrite <- Z.ldiff_land.
  replace (2 ^ n - 1) with (Z.ones n) by (rewrite Z.ones_equiv; lia).
  rewrite Z.ldiff_ones_r by assumption.
  rewrite Z.shiftl_mul_pow2, Z.shiftr_div_pow2 by assumption.
  reflexivity.
Qed.

Lemma MAXALIGN_spec (len : Z) : MAXALIGN len = (len + 7) / 8 * 8.
Proof. unfold MAXALIGN. apply (TYPEALIGN_pow2 3). lia. Qed.

Lemma INTALIGN_spec (len : Z) : INTALIGN len = (len + 3) / 4 * 4.
Proof. unfold INTALIGN. apply (TYPEALIGN_pow2 2). lia. Qed.

Lemma MAXALIGN_bounds (len : Z) :
  len <= MAXALIGN len < len + 8 /\ MAXALIGN len mod 8 = 0.
Proof.
  rewrite MAXALIGN_spec.
  pose proof (Z.div_mod (len + 7) 8 ltac:(lia)).
  pose proof (Z.mod_pos_bound (len + 7) 8 ltac:(lia)).
  split; [lia|]. apply Z.mod_mul. lia.
Qed.

Lemma INTALIGN_bounds (len : Z) :
  len <= INTALIGN len < len + 4 /\ INTALIGN len mod 4 = 0.
Proof.
  rewrite INTALIGN_spec.
  pose proof (Z.div_mod (len + 3) 4 ltac:(lia)).
  pose proof (Z.mod_pos_bound (len + 3) 4 ltac:(lia)).
  split; [lia|]. apply Z.mod_mul. lia.
Qed.

Lemma pow2_spec (n : Z) : 0 <= n -> pow2 n = 2 ^ n.
Proof. intros. unfold pow2. rewrite Z.shiftl_mul_pow2 by assumption. lia. Qed.

Lemma pow2_pos (n : Z) : 0 <= n -> 0 < pow2 n.
Proof. intros. rewrite pow2_spec by assumption. apply Z.pow_pos_nonneg; lia. Qed.

Lemma pow2_mono (a b : Z) : 0 <= a <= b -> pow2 a <= pow2 b.
Proof.
  intros. rewrite !pow2_spec by lia. apply Z.pow_le_mono_r; lia.
Qed.

Lemma pow2_succ (n : Z) : 0 <= n -> pow2 (n + 1) = 2 * pow2 n.
Proof.
  intros. rewrite !pow2_spec by lia. rewrite Z.pow_add_r by lia. lia.
Qed.

(** The shift of line 629 against the power of two. *)
Lemma shift_1UL_spec (n : Z) : 0 <= n -> shift_1UL n = 2 ^ (n mod 64).
Proof.
  intros Hn. unfold shift_1UL.
  change 63 with (Z.ones 6). rewrite Z.land_ones by lia.
  change (2 ^ 6) with 64.
  pose proof (Z.mod_pos_bound n 64 ltac:(lia)) as Hk.
  rewrite Z.shiftl_mul_pow2, Z.mul_1_l by lia.
  unfold Size_wrap. apply Z.mod_small. split.
  - apply Z.pow_nonneg. lia.
  - apply Z.pow_lt_mono_r; lia.
Qed.

Lemma shift_1UL_pow2 (n : Z) : 0 <= n < 64 -> shift_1UL n = pow2 n.
Proof.
  intros Hn. rewrite shift_1UL_spec, pow2_spec by lia.
  now rewrite Z.mod_small.
Qed.

Lemma shift_1UL_le_pow2 (n : Z) : 0 <= n -> shift_1UL n <= pow2 n.
Proof.
  intros Hn. rewrite shift_1UL_spec, pow2_spec by lia.
  apply Z.pow_le_mono_r; [lia|]. apply Z.mod_le; lia.
Qed.

(** A class whose power of two fits the segment passes the test of
    line 629. *)
Lemma size_test_fits (size req : Z) :
  pow2 (mclass_of req) <= size -> (shift_1UL (mclass_of req) >? size) = false.
Proof.
  intros H. rewrite Z.gtb_ltb. apply Z.ltb_ge.
  apply Z.le_trans with (pow2 (mclass_of req)); [|exact H].
  apply shift_1UL_le_pow2. apply Z.log2_up_nonneg.
Qed.

(** The tail guard word fits below the end of the chunk whatever the
    request: [INTALIGN] of the length plus the header and the word is
    what [MAXALIGN] covers. *)
Lemma tail_fits (required : Z) :
  offsetof_data + INTALIGN required + sizeof_cl_uint
  <= MAXALIGN (offsetof_data + required + sizeof_cl_uint).
Proof.
  unfold offsetof_data, sizeof_cl_uint.
  rewrite MAXALIGN_spec, INTALIGN_spec.
  pose proof (Z.div_mod (required + 3) 4 ltac:(lia)).
  pose proof (Z.mod_pos_bound (required + 3) 4 ltac:(lia)).
  pose proof (Z.div_mod (56 + required + 4 + 7) 8 ltac:(lia)).
  pose proof (Z.mod_pos_bound (56 + required + 4 + 7) 8 ltac:(lia)).
  set (q := (required + 3) / 4) in *.
  set (p := (56 + required + 4 + 7) / 8) in *.
  assert (4 * q + 60 <= 8 * p \/ 4 * q + 60 > 8 * p) as [?|?] by lia; [lia|].
  exfalso.
  assert (Hq : 8 * p - 60 < 4 * q) by lia.
  assert (4 * q <= required + 3) by lia.
  assert (required + 60 <= 8 * p) by lia.
  lia.
Qed.

(** ** Data model *)

(** A [dlist_node] embedded in a chunk.  The code only ever tests the two
    link pointers against NULL, and writes them together: [memset] clears
    both, a push sets both (to its neighbours in the circular list), and
    [dlist_delete] leaves them as they were.  The node is therefore kept
    as its NULL-ness; the list itself is kept, in order, at its head. *)
Inductive dlist_node : Type := NodeNull | NodeLinked.

Definition node_is_null (n : dlist_node) : bool :=
  match n with NodeNull => true | NodeLinked => false end.

(** [struct dmaBufferChunk], without the flexible [data] member. *)
Record dmaBufferChunk : Type := mkChunk {
  free_chain : dlist_node;   (* link to free chunks, or zero if active *)
  gcxt_chain : dlist_node;   (* link to GpuContext tracker *)
  shgcon : option Z;         (* GpuContext that owns this chunk *)
  required : Z;              (* required length *)
  mclass : Z;                (* class of the chunk size *)
  magic_head : Z
}.

(** [memset(chunk, 0, offsetof(dmaBufferChunk, data))]. *)
Definition zero_chunk : dmaBufferChunk :=
  mkChunk NodeNull NodeNull None 0 0 0.

(** Process memory under the reserved range: the chunk headers, by the
    address of the chunk, and the bytes of the [data] members (payload
    and tail guard word), by their own address.  The two are kept apart:
    a header is read and written as a whole, and a write to the bytes
    leaves the headers as they are.  This is the memory of the source
    for the headers of the chunks of a segment, free or in use: they
    tile the segment (see [seg_ok]), so that no payload lies over one of
    them.  A header left inside a chunk by an earlier split or merge
    keeps its last contents here, whatever is written into the payload
    over it afterwards, and a header is read whole even where its 56
    bytes would run past the end of its segment. *)
Record memory : Type := mkMem {
  chunks : Z -> dmaBufferChunk;
  data : Z -> Z
}.

Definition upd {A : Type} (f : Z -> A) (k : Z) (v : A) : Z -> A :=
  fun x => if Z.eqb x k then v else f x.
Arguments upd : simpl never.

Definition set_chunk (m : memory) (addr : Z) (c : dmaBufferChunk) : memory :=
  mkMem (upd (chunks m) addr c) (data m).

(** [memset(ptr, byte, len)] and [memcpy(dst, src, len)] on the bytes. *)
Definition memset (m : memory) (ptr byte len : Z) : memory :=
  mkMem (chunks m)
        (fun a => if (ptr <=? a) && (a <? ptr + len) then byte else data m a).

Definition memcpy (m : memory) (dst src len : Z) : memory :=
  mkMem (chunks m)
        (fun a => if (dst <=? a) && (a <? dst + len)
                  then data m (src + (a - dst)) else data m a).

(** A run of [len] bytes at [ptr] that goes past the top of the address
    space: a [memset] or [memcpy] of it faults before it ends, and the
    process dies.  A length within 60 bytes of 2^64, which the sum of
    line 624 wraps around, gives such a run. *)
Definition overruns (ptr len : Z) : bool := 2 ^ 64 <? ptr + len.

(** A 32-bit little-endian word in the bytes. *)
Definition load32 (m : memory) (a : Z) : Z :=
  data m a + 2 ^ 8 * data m (a + 1) + 2 ^ 16 * data m (a + 2)
  + 2 ^ 24 * data m (a + 3).

Definition store32 (m : memory) (a v : Z) : memory :=
  mkMem (chunks m)
        (fun x => if (a <=? x) && (x <? a + 4)
                  then Z.land (Z.shiftr v (8 * (x - a))) 255 else data m x).

(** [DMABUF_CHUNK_DATA(chunk)] and the address of
    [DMABUF_CHUNK_MAGIC_TAIL(chunk)]. *)
Definition DMABUF_CHUNK_DATA (chunk : Z) : Z := chunk + offsetof_data.

Definition magic_tail_addr (chunk required : Z) : Z :=
  DMABUF_CHUNK_DATA chunk + Size_wrap (INTALIGN required).

Definition DMABUF_CHUNK_MAGIC_TAIL (m : memory) (chunk : Z) : Z :=
  load32 m (magic_tail_addr chunk (required (chunks m chunk))).

Definition set_MAGIC_TAIL (m : memory) (chunk : Z) : memory :=
  store32 m (magic_tail_addr chunk (required (chunks m chunk)))
          DMABUF_CHUNK_MAGIC_CODE.

(** [struct dmaBufferSegment].  The constant fields are functions of the
    segment's index, fixed by [pgstrom_startup_dma_buffer]
    (lines 1277-1279): see [mmap_ptr] and [persistent] below. *)
Record dmaBufferSegment : Type := mkSeg {
  revision : Z;                 (* odd number, if segment exists *)
  num_chunks : Z;               (* number of active chunks *)
  free_chunks : Z -> list Z     (* per class, head of the list first *)
}.

Definition SHMSEG_EXISTS (revision : Z) : bool :=
  negb (Z.land revision 1 =? 0).

(** *** Operations of lib/ilist.h on the lists kept at their heads *)

Definition dlist_is_empty (l : list Z) : bool :=
  match l with [] => true | _ => false end.
Definition dlist_push_head (l : list Z) (n : Z) : list Z := n :: l.
Definition dlist_push_tail (l : list Z) (n : Z) : list Z := l ++ [n].
(** [dlist_delete(node)] unlinks the node from the list it is on. *)
Definition dlist_delete (l : list Z) (n : Z) : list Z := remove Z.eq_dec n l.

Definition set_free_chunks (seg : dmaBufferSegment) (cls : Z) (l : list Z)
  : dmaBufferSegment :=
  mkSeg (revision seg) (num_chunks seg) (upd (free_chunks seg) cls l).

(** Unlinking a chunk's [free_chain]: the node is on at most one of the
    segment's lists, so it is removed from whichever holds it. *)
Definition delete_free_chain (seg : dmaBufferSegment) (chunk : Z)
  : dmaBufferSegment :=
  mkSeg (revision seg) (num_chunks seg)
        (fun cls => dlist_delete (free_chunks seg cls) chunk).

Definition set_num_chunks (seg : dmaBufferSegment) (n : Z) : dmaBufferSegment :=
  mkSeg (revision seg) n (free_chunks seg).

Definition set_revision (seg : dmaBufferSegment) (r : Z) : dmaBufferSegment :=
  mkSeg r (num_chunks seg) (free_chunks seg).

(** A free chunk as [dmaBufferCreateSegment], [dmaBufferSplitChunk] and
    the shrinking branch of [__dmaBufferRealloc] write it: header cleared,
    class and head marker set, then linked by the push. *)
Definition fresh_free_chunk (cls : Z) : dmaBufferChunk :=
  mkChunk NodeLinked NodeNull None 0 cls DMABUF_CHUNK_MAGIC_CODE.

(** ** The buddy allocator of one segment *)

(** Lines 544-560 of [dmaBufferSplitChunk]: the head [chunk_1] of the
    free list of [mclass] (the list goes on with [rest]) is replaced by its
    two halves, at the tail of the list of the class below. *)
Definition split_halves (seg1 : dmaBufferSegment) (m1 : memory)
  (mclass chunk_1 : Z) (rest : list Z) : dmaBufferSegment * memory :=
  let seg2 := set_free_chunks seg1 mclass rest in
  (* earlier half *)
  let m2 := set_chunk m1 chunk_1 (fresh_free_chunk (mclass - 1)) in
  let seg3 := set_free_chunks seg2 (mclass - 1)
                (dlist_push_tail (free_chunks seg2 (mclass - 1)) chunk_1) in
  (* later half *)
  let chunk_2 := chunk_1 + pow2 (mclass - 1) in
  let m3 := set_chunk m2 chunk_2 (fresh_free_chunk (mclass - 1)) in
  let seg4 := set_free_chunks seg3 (mclass - 1)
                (dlist_push_tail (free_chunks seg3 (mclass - 1)) chunk_2) in
  (seg4, m3).

(** [dmaBufferSplitChunk] (lines 528-563).  [None] is [false]: nothing
    has been written then.  The recursion climbs the classes and stops at
    [DMABUF_CHUNKSZ_MAX_BIT]; [fuel] counts the classes left, see
    [dmaBufferSplitChunk_eq] for the function as the source has it. *)
Fixpoint dmaBufferSplitChunk_rec (fuel : nat) (seg : dmaBufferSegment)
  (m : memory) (mclass : Z) : option (dmaBufferSegment * memory) :=
  match fuel with
  | O => None
  | S fuel' =>
    if mclass >=? DMABUF_CHUNKSZ_MAX_BIT then None
    else
      match (if dlist_is_empty (free_chunks seg mclass)
             then dmaBufferSplitChunk_rec fuel' seg m (mclass + 1)
             else Some (seg, m)) with
      | None => None
      | Some (seg1, m1) =>
        match free_chunks seg1 mclass with
        | [] => None (* excluded by the Assert of line 542 *)
        | chunk_1 :: rest => Some (split_halves seg1 m1 mclass chunk_1 rest)
        end
      end
  end.

Definition dmaBufferSplitChunk (seg : dmaBufferSegment) (m : memory) (mclass : Z)
  : option (dmaBufferSegment * memory) :=
  dmaBufferSplitChunk_rec (Z.to_nat (DMABUF_CHUNKSZ_MAX_BIT + 1 - mclass))
                          seg m mclass.

(** Lines 585-599 of [dmaBufferAllocChunk]: the head [chunk] of the free
    list of [mclass] is taken off the list and made an active chunk. *)
Definition init_chunk (seg1 : dmaBufferSegment) (m1 : memory)
  (mclass required chunk : Z) (rest : list Z)
  : Z * dmaBufferSegment * memory :=
  let seg2 := set_free_chunks seg1 mclass rest in
  let c := chunks m1 chunk in
  (* init dmaBufferChunk *)
  let m2 := set_chunk m1 chunk
              (mkChunk NodeNull (gcxt_chain c) None required mclass
                       DMABUF_CHUNK_MAGIC_CODE) in
  let m3 := set_MAGIC_TAIL m2 chunk in
  (* update dmaBufferSegment status *)
  (chunk, set_num_chunks seg2 (num_chunks seg2 + 1), m3).

(** [dmaBufferAllocChunk] (lines 570-603).  [None] is the NULL result,
    with the segment untouched.  The array [free_chunks] of the source
    has [DMABUF_CHUNKSZ_MAX_BIT + 1] entries, and the Assert of line 576
    is compiled out of production builds: the one class above them that
    gets here is 64 (see [shift_1UL]), where the source indexes past the
    array.  The lists kept here are empty at such a class, which is the
    NULL result. *)
Definition dmaBufferAllocChunk (seg : dmaBufferSegment) (m : memory)
  (mclass required : Z) : option (Z * dmaBufferSegment * memory) :=
  match (if dlist_is_empty (free_chunks seg mclass)
         then dmaBufferSplitChunk seg m (mclass + 1)
         else Some (seg, m)) with
  | None => None
  | Some (seg1, m1) =>
    match free_chunks seg1 mclass with
    | [] => None (* excluded by the Assert of line 583 *)
    | chunk :: rest => Some (init_chunk seg1 m1 mclass required chunk rest)
    end
  end.

(** The merge loop of [__dmaBufferFree] (lines 943-987) on the segment
    mapped at [base], of [seg_size] bytes: every turn either leaves the
    loop or raises the class of the chunk carried on, so [fuel] counts the
    classes left (see [merge_chunks_eq]).  The result is the chunk to be
    put on the free list. *)
Fixpoint merge_chunks_rec (fuel : nat) (base seg_size : Z)
  (seg : dmaBufferSegment) (m : memory) (chunk : Z)
  : dmaBufferSegment * memory * Z :=
  match fuel with
  | O => (seg, m, chunk)
  | S fuel' =>
    let c := chunks m chunk in
    if mclass c <=? DMABUF_CHUNKSZ_MAX_BIT then
      let offset := Size_wrap (chunk - base) in
      if Z.land offset (pow2 (mclass c)) =? 0 then
        let buddy := chunk + pow2 (mclass c) in
        if buddy >=? base + seg_size then (seg, m, chunk) (* out of the segment *)
        else
          let b := chunks m buddy in
          (* Is the buddy merginable? *)
          if negb (mclass b =? mclass c) || node_is_null (free_chain b)
          then (seg, m, chunk)
          else
            let seg1 := delete_free_chain seg buddy in
            let m1 := set_chunk m chunk
                        (mkChunk (free_chain c) (gcxt_chain c) (shgcon c)
                                 (required c) (mclass c + 1) (magic_head c)) in
            merge_chunks_rec fuel' base seg_size seg1 m1 chunk
      else
        let buddy := chunk - pow2 (mclass c) in
        if buddy <? base then (seg, m, chunk) (* out of the segment *)
        else
          let b := chunks m buddy in
          if negb (mclass b =? mclass c) || node_is_null (free_chain b)
          then (seg, m, chunk)
          else
            let seg1 := delete_free_chain seg buddy in
            let m1 := set_chunk m buddy
                        (mkChunk (free_chain b) (gcxt_chain b) (shgcon b)
                                 (required b) (mclass b + 1) (magic_head b)) in
            merge_chunks_rec fuel' base seg_size seg1 m1 buddy
    else (seg, m, chunk)
  end.

Definition merge_chunks (base seg_size : Z) (seg : dmaBufferSegment)
  (m : memory) (chunk : Z) : dmaBufferSegment * memory * Z :=
  merge_chunks_rec
    (Z.to_nat (DMABUF_CHUNKSZ_MAX_BIT + 1 - mclass (chunks m chunk)))
    base seg_size seg m chunk.

(** Lines 988-990: the chunk, merged or not, goes to the head of the free
    list of its class and the segment counts one active chunk less. *)
Definition release_chunk (base seg_size : Z) (seg : dmaBufferSegment)
  (m : memory) (chunk : Z) : dmaBufferSegment * memory :=
  let '(seg1, m1, chunk1) := merge_chunks base seg_size seg m chunk in
  let c := chunks m1 chunk1 in
  let seg2 := set_free_chunks seg1 (mclass c)
                (dlist_push_head (free_chunks seg1 (mclass c)) chunk1) in
  let m2 := set_chunk m1 chunk1
              (mkChunk NodeLinked (gcxt_chain c) (shgcon c) (required c)
                       (mclass c) (magic_head c)) in
  (set_num_chunks seg2 (num_chunks seg2 - 1), m2).

(** The seeding loop of [dmaBufferCreateSegment] (lines 233-251): from the
    largest class down, a free chunk wherever one still fits before
    [tail_ptr].  A turn lowers the class or places a chunk. *)
Fixpoint seed_chunks (fuel : nat) (seg : dmaBufferSegment) (m : memory)
  (head_ptr tail_ptr mclass : Z) : dmaBufferSegment * memory :=
  match fuel with
  | O => (seg, m)
  | S fuel' =>
    if mclass >=? DMABUF_CHUNKSZ_MIN_BIT then
      if head_ptr + pow2 mclass >? tail_ptr
      then seed_chunks fuel' seg m head_ptr tail_ptr (mclass - 1)
      else
        let m1 := set_chunk m head_ptr (fresh_free_chunk mclass) in
        let seg1 := set_free_chunks seg mclass
                      (dlist_push_head (free_chunks seg mclass) head_ptr) in
        seed_chunks fuel' seg1 m1 (head_ptr + pow2 mclass) tail_ptr mclass
    else (seg, m)
  end.

(** Turns the seeding loop can take: one per class, one per chunk. *)
Definition seed_fuel (seg_size : Z) : nat :=
  Z.to_nat (2 * (DMABUF_CHUNKSZ_MAX_BIT - DMABUF_CHUNKSZ_MIN_BIT + 1)
            + seg_size / DMABUF_CHUNKSZ_MAX + 1).

(** The release loop of the shrinking branch of [__dmaBufferRealloc]
    (lines 804-820). *)
Fixpoint shrink_chunks (fuel : nat) (seg : dmaBufferSegment) (m : memory)
  (head_ptr tail_ptr shift mclass : Z) : dmaBufferSegment * memory :=
  match fuel with
  | O => (seg, m)
  | S fuel' =>
    if shift >=? mclass then
      if head_ptr + pow2 shift >? tail_ptr
      then shrink_chunks fuel' seg m head_ptr tail_ptr (shift - 1) mclass
      else
        let temp := tail_ptr - pow2 shift in
        let m1 := set_chunk m temp (fresh_free_chunk shift) in
        let seg1 := set_free_chunks seg shift
                      (dlist_push_head (free_chunks seg shift) temp) in
        shrink_chunks fuel' seg1 m1 head_ptr (tail_ptr - pow2 shift) shift mclass
    else (seg, m)
  end.

(** ** The segment directory *)

(** [struct dmaBufferLocalMap]: what this process has mapped. *)
Record dmaBufferLocalMap : Type := mkLMap {
  l_revision : Z;       (* revision number when mapped *)
  is_attached : bool    (* true, if segment is already attached *)
}.

(** The part of [SharedGpuContext] the allocator uses: the tracker list of
    the context's chunks.  The profile [pfm] (counters and time stamps) is
    left out: its fields are declared in pg_strom.h, which is not part of
    the sources, and the allocator only adds to them. *)
Record SharedGpuContext : Type := mkCtx {
  dma_buffer_list : list Z
}.

(** [dmaBufSegHead], [dmaBufLocalMaps], the memory under the reserved
    range and the GPU contexts.  The two lists hold segment indexes. *)
Record state : Type := mkState {
  segments : Z -> dmaBufferSegment;
  active_segment_list : list Z;
  inactive_segment_list : list Z;
  dmaBufLocalMaps : Z -> dmaBufferLocalMap;
  mem : memory;
  contexts : Z -> SharedGpuContext
}.

(** How a call ends: it returns; it raises [elog(ERROR)], which unwinds to
    the caller's handler and leaves shared memory as it was at the raise;
    it raises [elog(FATAL)], which ends the process; or the process dies on
    a signal (NULL dereference, access to an unmapped range). *)
Inductive result (A : Type) : Type :=
| OK (a : A) (st : state)
| ERROR (msg : string) (st : state)
| FATAL (msg : string)
| CRASH.
Arguments OK {A} a st.
Arguments ERROR {A} msg st.
Arguments FATAL {A} msg.
Arguments CRASH {A}.

(** Outcomes of the system and CUDA calls made on the way. *)
Record os_calls : Type := mkOs {
  shm_open_ok : bool;
  ftruncate_ok : bool;
  mmap_ok : bool;
  munmap_ok : bool;
  mmap_none_ok : bool;
  shm_unlink_ok : bool;
  cuMemHostRegister_ok : bool;
  cuMemHostUnregister_ok : bool
}.

Definition set_segment (st : state) (id : Z) (seg : dmaBufferSegment) : state :=
  mkState (upd (segments st) id seg) (active_segment_list st)
          (inactive_segment_list st) (dmaBufLocalMaps st) (mem st) (contexts st).

Definition set_mem (st : state) (m : memory) : state :=
  mkState (segments st) (active_segment_list st) (inactive_segment_list st)
          (dmaBufLocalMaps st) m (contexts st).

Definition set_local_map (st : state) (id : Z) (l : dmaBufferLocalMap) : state :=
  mkState (segments st) (active_segment_list st) (inactive_segment_list st)
          (upd (dmaBufLocalMaps st) id l) (mem st) (contexts st).

Definition set_active (st : state) (l : list Z) : state :=
  mkState (segments st) l (inactive_segment_list st) (dmaBufLocalMaps st)
          (mem st) (contexts st).

Definition set_inactive (st : state) (l : list Z) : state :=
  mkState (segments st) (active_segment_list st) l (dmaBufLocalMaps st)
          (mem st) (contexts st).

Definition set_context (st : state) (id : Z) (c : SharedGpuContext) : state :=
  mkState (segments st) (active_segment_list st) (inactive_segment_list st)
          (dmaBufLocalMaps st) (mem st) (upd (contexts st) id c).

(** A shared memory object just created and truncated to its size reads
    as zeroes. *)
Definition map_new_object (m : memory) (base size : Z) : memory :=
  mkMem (fun a => if (base <=? a) && (a <? base + size)
                  then zero_chunk else chunks m a)
        (fun a => if (base <=? a) && (a <? base + size) then 0 else data m a).

(** The static variables set once at start-up: the GUCs, the head of the
    reserved address range, whether this process holds a CUDA context, and
    the outcomes of the system calls. *)
Record config : Type := mkConfig {
  cfg_dma_segment_size : Z;
  cfg_max_dma_segment_nums : Z;
  cfg_min_dma_segment_nums : Z;
  cfg_dma_segment_vaddr_head : Z;
  cfg_gpuserv_cuda_context : bool;
  cfg_os : os_calls
}.

Section Directory.

Variable cfg : config.

Local Abbreviation dma_segment_size := (cfg_dma_segment_size cfg).
Local Abbreviation max_dma_segment_nums := (cfg_max_dma_segment_nums cfg).
Local Abbreviation min_dma_segment_nums := (cfg_min_dma_segment_nums cfg).
Local Abbreviation dma_segment_vaddr_head := (cfg_dma_segment_vaddr_head cfg).
Local Abbreviation gpuserv_cuda_context := (cfg_gpuserv_cuda_context cfg).
Local Abbreviation os := (cfg_os cfg).

Definition dma_segment_vaddr_tail : Z :=
  dma_segment_vaddr_head + max_dma_segment_nums * dma_segment_size.

(** The constant fields of segment [i] (lines 1277-1279). *)
Definition mmap_ptr (i : Z) : Z := dma_segment_vaddr_head + i * dma_segment_size.
Definition persistent (i : Z) : bool := i <? min_dma_segment_nums.

(** The unmapping both [dmaBufferCreateSegment] (ghost mapping) and
    [dmaBufferDetachSegment] do when this process has the segment
    attached; [Some] is the FATAL message. *)
Definition unmap_attached : option string :=
  if gpuserv_cuda_context && negb (cuMemHostUnregister_ok os)
  then Some "failed on cuMemHostUnregister: %s"
  else if negb (munmap_ok os) then Some "failed on munmap('%s'): %m"
  else if negb (mmap_none_ok os)
       then Some "failed on mmap(PROT_NONE) for seg=%u at %p: %m"
       else None.

(** [dmaBufferCreateSegment] (lines 136-269). *)
Definition dmaBufferCreateSegment (st : state) (id : Z) : result unit :=
  let seg := segments st id in
  let l_map := dmaBufLocalMaps st id in
  match (if is_attached l_map then unmap_attached else None) with
  | Some msg => FATAL msg
  | None =>
    let st1 := if is_attached l_map
               then set_local_map st id (mkLMap (l_revision l_map) false)
               else st in
    if negb (shm_open_ok os) then ERROR "failed on shm_open('%s'): %m" st1
    else if negb (ftruncate_ok os) then ERROR "failed on ftruncate(2): %m" st1
    else if negb (mmap_ok os) then ERROR "failed on mmap: %m" st1
    else if gpuserv_cuda_context && negb (cuMemHostRegister_ok os) then
      if negb (munmap_ok os) then FATAL "failed on munmap('%s'): %m"
      else if negb (mmap_none_ok os)
           then FATAL "failed on mmap(PROT_NONE) for seg=%u at %p: %m"
           else ERROR "failed on cuMemHostRegister: %s" st1
    else
      (* successfully mapped, init this segment *)
      let m0 := map_new_object (mem st1) (mmap_ptr id) dma_segment_size in
      let seg0 := mkSeg (revision seg) (num_chunks seg) (fun _ => []) in
      let '(seg1, m1) :=
        seed_chunks (seed_fuel dma_segment_size) seg0 m0 (mmap_ptr id)
                    (mmap_ptr id + dma_segment_size) DMABUF_CHUNKSZ_MAX_BIT in
      let seg2 := set_num_chunks seg1 0 in
      (* Also, update local mapping *)
      let rev := (revision seg2 + 1) mod 2 ^ 32 in
      let st2 := set_segment (set_mem st1 m1) id (set_revision seg2 rev) in
      OK tt (set_local_map st2 id (mkLMap rev true))
  end.

(** [dmaBufferDetachSegment] (lines 278-346). *)
Definition dmaBufferDetachSegment (st : state) (id : Z) : result unit :=
  let seg := segments st id in
  let l_map := dmaBufLocalMaps st id in
  let st1 := set_segment st id
               (set_revision seg ((revision seg + 1) mod 2 ^ 32)) in
  match (if is_attached l_map then unmap_attached else None) with
  | Some msg => FATAL msg
  | None =>
    let st2 := if is_attached l_map
               then set_local_map st1 id (mkLMap (l_revision l_map) false)
               else st1 in
    if negb (shm_open_ok os) then FATAL "failed on shm_open('%s', O_TRUNC): %m"
    else if negb (shm_unlink_ok os) then FATAL "failed on shm_unlink('%s'): %m"
    else OK tt st2
  end.

(** A first access to the memory of segment [id]: nothing happens when the
    current revision is mapped; otherwise the access faults and
    [dmaBufferAttachSegmentOnDemand] (lines 358-520) maps the current
    revision and resumes, or hands over to the original handler ([None]:
    the process dies) when there is no segment or a call fails. *)
Definition dmaBufferAttachSegmentOnDemand (st : state) (id : Z) : option state :=
  let seg := segments st id in
  let l_map := dmaBufLocalMaps st id in
  if is_attached l_map && (l_revision l_map =? revision seg)
     && SHMSEG_EXISTS (revision seg)
  then Some st
  else if negb (SHMSEG_EXISTS (revision seg)) then None
  else if is_attached l_map
          && ((gpuserv_cuda_context && negb (cuMemHostUnregister_ok os))
              || negb (munmap_ok os))
       then None
  else if negb (shm_open_ok os) || negb (mmap_ok os) then None
  else if gpuserv_cuda_context && negb (cuMemHostRegister_ok os) then None
  else Some (set_local_map st id (mkLMap (revision seg) true)).

(** The scan of the active list in [dmaBufferAllocInternal]
    (lines 635-643): the first segment that yields a chunk. *)
Fixpoint scan_active_segments (st : state) (segs : list Z)
  (mclass required : Z) : option (Z * state) :=
  match segs with
  | [] => None
  | id :: rest =>
    match dmaBufferAllocChunk (segments st id) (mem st) mclass required with
    | Some (chunk, seg', m') => Some (chunk, set_segment (set_mem st m') id seg')
    | None => scan_active_segments st rest mclass required
    end
  end.

(** Lines 680-700, from the label [found]: the chunk is billed to the
    context and its payload filled with 0xAE.  The fill takes the length
    from the header: the process dies in it when the run goes past the
    top of the address space. *)
Definition track_chunk (st : state) (shgcon_id chunk_size chunk : Z) : result Z :=
  let c := chunks (mem st) chunk in
  let m1 := set_chunk (mem st) chunk
              (mkChunk (free_chain c) NodeLinked (Some shgcon_id) (required c)
                       (mclass c) (magic_head c)) in
  let cx := contexts st shgcon_id in
  let cx1 := mkCtx (dlist_push_tail (dma_buffer_list cx) chunk) in
  if overruns (DMABUF_CHUNK_DATA chunk) (required c) then CRASH
  else
    let m2 := memset m1 (DMABUF_CHUNK_DATA chunk) 0xAE (required c) in
    OK (DMABUF_CHUNK_DATA chunk) (set_context (set_mem st m2) shgcon_id cx1).

(** [dmaBufferAllocInternal] (lines 608-701).  [has_exclusive_lock] is
    the flag of the same name: the scan is run again once under the
    exclusive lock before a new segment is taken.  The class is an [int]
    from 8 to 64: the test of line 629 shifts by it, and a class above
    [DMABUF_CHUNKSZ_MAX_BIT] that passes the test (64, and no other) goes
    on to index the lists [free_chunks] with it. *)
Fixpoint alloc_retry (retries : nat) (has_exclusive_lock : bool) (st : state)
  (shgcon_id required chunk_size mclass : Z) : result Z :=
  match scan_active_segments st (active_segment_list st) mclass required with
  | Some (chunk, st1) => track_chunk st1 shgcon_id chunk_size chunk
  | None =>
    match has_exclusive_lock, retries with
    | false, S retries' =>
      alloc_retry retries' true st shgcon_id required chunk_size mclass
    | _, _ =>
      match inactive_segment_list st with
      | [] => ERROR "Out of DMA buffer segment" st
      | id :: rest =>
        (* Create a new DMA buffer segment *)
        let st1 := set_inactive st rest in
        match dmaBufferCreateSegment st1 id with
        | ERROR msg st2 =>
          ERROR msg (set_inactive st2
                       (dlist_push_head (inactive_segment_list st2) id))
        | FATAL msg => FATAL msg
        | CRASH => CRASH
        | OK _ st2 =>
          let st3 := set_active st2
                       (dlist_push_head (active_segment_list st2) id) in
          match dmaBufferAllocChunk (segments st3 id) (mem st3) mclass required with
          | None => CRASH (* Assert(chunk != NULL), then chunk->shgcon *)
          | Some (chunk, seg', m') =>
            track_chunk (set_segment (set_mem st3 m') id seg')
                        shgcon_id chunk_size chunk
          end
        end
      end
    end
  end.

Definition dmaBufferAllocInternal (st : state) (shgcon_id required : Z)
  : result Z :=
  (* normalize the required size to 2^N of chunks size *)
  let chunk_size := chunk_size_of required in
  let mclass := get_next_log2 chunk_size in
  if shift_1UL mclass >? dma_segment_size
  then ERROR "DMA buffer request %zu MB too large" st
  else alloc_retry 1 false st shgcon_id required chunk_size mclass.

(** [pointer_validation] (lines 717-750): the chunk and the index of its
    segment. *)
Definition pointer_validation (st : state) (pointer : Z) : result (Z * Z) :=
  let chunk := Size_wrap (pointer - offsetof_data) in
  if (chunk <? dma_segment_vaddr_head) || (chunk >=? dma_segment_vaddr_tail)
  then ERROR "Bug? %p is out of DMA buffer" st
  else
    let seg_id := Size_wrap (chunk - dma_segment_vaddr_head) / dma_segment_size in
    match dmaBufferAttachSegmentOnDemand st seg_id with
    | None => CRASH
    | Some st1 =>
      let c := chunks (mem st1) chunk in
      if (Size_wrap (offsetof_data + required c + sizeof_cl_uint)
          >? pow2 (mclass c))
         || negb (magic_head c =? DMABUF_CHUNK_MAGIC_CODE)
         || negb (DMABUF_CHUNK_MAGIC_TAIL (mem st1) chunk
                  =? DMABUF_CHUNK_MAGIC_CODE)
      then ERROR "Bug? DMA buffer %p is corrupted" st1
      else if negb (node_is_null (free_chain c))
      then ERROR "Bug? %p points a free DMA buffer" st1
      else OK (chunk, seg_id) st1
    end.

(** [dmaBufferValidatePtr] (lines 838-855): the error is caught and
    flushed.  [None] is the process dying inside the probe. *)
Definition dmaBufferValidatePtr (st : state) (pointer : Z) : option bool :=
  match pointer_validation st pointer with
  | OK _ _ => Some true
  | ERROR _ _ => Some false
  | FATAL _ => None
  | CRASH => None
  end.

(** [dmaBufferSize] (lines 860-869). *)
Definition dmaBufferSize (st : state) (pointer : Z) : result Z :=
  match pointer_validation st pointer with
  | OK (chunk, _) st1 => OK (required (chunks (mem st1) chunk)) st1
  | ERROR msg st1 => ERROR msg st1
  | FATAL msg => FATAL msg
  | CRASH => CRASH
  end.

(** [dmaBufferChunkSize] (lines 874-883). *)
Definition dmaBufferChunkSize (st : state) (pointer : Z) : result Z :=
  match pointer_validation st pointer with
  | OK (chunk, _) st1 => OK (pow2 (mclass (chunks (mem st1) chunk))) st1
  | ERROR msg st1 => ERROR msg st1
  | FATAL msg => FATAL msg
  | CRASH => CRASH
  end.

(** [__dmaBufferFree] (lines 888-1017). *)
Definition __dmaBufferFree (st : state) (pointer : Z) : result unit :=
  match pointer_validation st pointer with
  | ERROR msg st1 => ERROR msg st1
  | FATAL msg => FATAL msg
  | CRASH => CRASH
  | OK (chunk, seg_id) st0 =>
    let c := chunks (mem st0) chunk in
    if overruns (DMABUF_CHUNK_DATA chunk) (required c) then CRASH
    else
    let m1 := memset (mem st0) (DMABUF_CHUNK_DATA chunk) 0xf5 (required c) in
    (* detach chunk from the GpuContext *)
    match shgcon c with
    | None => CRASH (* shgcon->pfm.enabled through NULL *)
    | Some ctx =>
      let cx := contexts st0 ctx in
      let cx1 := mkCtx (dlist_delete (dma_buffer_list cx) chunk) in
      let m2 := set_chunk m1 chunk
                  (mkChunk (free_chain c) NodeNull None (required c)
                           (mclass c) (magic_head c)) in
      (* try to merge the neighbor free chunk *)
      let '(seg1, m3) :=
        release_chunk (mmap_ptr seg_id) dma_segment_size
                      (segments st0 seg_id) m2 chunk in
      let st1 := set_segment (set_mem (set_context st0 ctx cx1) m3) seg_id seg1 in
      (* move the segment to inactive list, and remove shm segment *)
      if (num_chunks seg1 >? 0) || persistent seg_id then OK tt st1
      else
        match dmaBufferDetachSegment st1 seg_id with
        | OK _ st2 =>
          let st3 := set_inactive
                       (set_active st2
                          (dlist_delete (active_segment_list st2) seg_id))
                       (dlist_delete (inactive_segment_list st2) seg_id) in
          OK tt (set_inactive st3
                   (dlist_push_head (inactive_segment_list st3) seg_id))
        | other => other
        end
    end
  end.

(** [__dmaBufferRealloc] (lines 755-833). *)
Definition __dmaBufferRealloc (st : state) (pointer new_required : Z) : result Z :=
  (* sanity checks *)
  match pointer_validation st pointer with
  | ERROR msg st1 => ERROR msg st1
  | FATAL msg => FATAL msg
  | CRASH => CRASH
  | OK (chunk, seg_id) st0 =>
    let c := chunks (mem st0) chunk in
    (* normalize the new required size to 2^N of chunks size *)
    let chunk_size := chunk_size_of new_required in
    let mclass' := get_next_log2 chunk_size in
    if mclass' =? mclass c then
      (* no need to expand/shrink *)
      let m1 := set_chunk (mem st0) chunk
                  (mkChunk (free_chain c) (gcxt_chain c) (shgcon c) new_required
                           (mclass c) (magic_head c)) in
      OK (DMABUF_CHUNK_DATA chunk) (set_mem st0 (set_MAGIC_TAIL m1 chunk))
    else if mclass' <? mclass c then
      (* no need to expand, but release unused area *)
      let head_ptr := chunk + pow2 mclass' in
      let tail_ptr := chunk + pow2 (mclass c) in
      let shift := mclass c in
      (* shrink the original chunk *)
      let m1 := set_chunk (mem st0) chunk
                  (mkChunk (free_chain c) (gcxt_chain c) (shgcon c) new_required
                           mclass' (magic_head c)) in
      let m2 := set_MAGIC_TAIL m1 chunk in
      let '(seg1, m3) :=
        shrink_chunks (Z.to_nat (2 * (shift - mclass') + 2))
                      (segments st0 seg_id) m2 head_ptr tail_ptr shift mclass' in
      OK (DMABUF_CHUNK_DATA chunk) (set_segment (set_mem st0 m3) seg_id seg1)
    else
      (* allocate a larger new chunk, then copy the contents *)
      match shgcon c with
      | None => CRASH (* dmaBufferAllocInternal reads shgcon->pfm through NULL *)
      | Some ctx =>
        match dmaBufferAllocInternal st0 ctx new_required with
        | OK result st1 =>
          let len := required (chunks (mem st1) chunk) in
          if overruns result len || overruns (DMABUF_CHUNK_DATA chunk) len
          then CRASH
          else
          let m1 := memcpy (mem st1) result (DMABUF_CHUNK_DATA chunk) len in
          match __dmaBufferFree (set_mem st1 m1) pointer with
          | OK _ st2 => OK result st2
          | ERROR msg st2 => ERROR msg st2
          | FATAL msg => FATAL msg
          | CRASH => CRASH
          end
        | other => other
        end
      end
  end.

(** [__dmaBufferFreeAll] (lines 1023-1041): the tracker list is emptied
    from its head, each chunk released by [dmaBufferFree].  The list loses
    one node a turn, so its length bounds the turns. *)
Fixpoint free_all_rec (fuel : nat) (st : state) (shgcon_id : Z) : result unit :=
  match fuel with
  | O => OK tt st
  | S fuel' =>
    let cx := contexts st shgcon_id in
    match dma_buffer_list cx with
    | [] => OK tt st
    | chunk :: rest =>
      let st1 := set_context st shgcon_id (mkCtx rest) in
      match __dmaBufferFree st1 (DMABUF_CHUNK_DATA chunk) with
      | OK _ st2 => free_all_rec fuel' st2 shgcon_id
      | other => other
      end
    end
  end.

Definition __dmaBufferFreeAll (st : state) (shgcon_id : Z) : result unit :=
  free_all_rec (S (List.length (dma_buffer_list (contexts st shgcon_id))))
               st shgcon_id.

(** [pgstrom_startup_dma_buffer] (lines 1234-1292): every segment starts
    on the inactive list, in the order of its index, with revision 0 and
    nothing mapped. *)
Definition pgstrom_startup_dma_buffer (ctxs : Z -> SharedGpuContext) : state :=
  mkState (fun _ => mkSeg 0 0 (fun _ => []))
          []
          (map Z.of_nat (seq 0 (Z.to_nat max_dma_segment_nums)))
          (fun _ => mkLMap 0 false)
          (mkMem (fun _ => zero_chunk) (fun _ => 0))
          ctxs.

End Directory.

(** A context with an empty tracker list. *)
Definition empty_context : SharedGpuContext := mkCtx [].

(** ** The settings made at start-up *)

(** guc.c's [DefineCustomIntVariable], as far as the variable it sets is
    concerned: the variable holds the value configured for it when there
    is one within the bounds, and its boot value otherwise (a value out of
    bounds is reported and dropped). *)
Definition DefineCustomIntVariable (bootValue minValue maxValue : Z)
  (configured : option Z) : Z :=
  match configured with
  | Some v => if (minValue <=? v) && (v <=? maxValue) then v else bootValue
  | None => bootValue
  end.

(** A value stored in an [int]: 32 bits, two's complement. *)
Definition int_wrap (x : Z) : Z := (x + 2 ^ 31) mod 2 ^ 32 - 2 ^ 31.

(** Lines 1333-1334: the memory of all devices, summed in a [Size]. *)
Definition totalGpuMemSz (devAttrs : list Z) : Z :=
  fold_left (fun total DEV_TOTAL_MEMSZ => Size_wrap (total + DEV_TOTAL_MEMSZ))
            devAttrs 0.

(** Lines 1335-1342: the amount of persistent buffer for that much
    device memory. *)
Definition reservedBufSz (totalGpuMemSz : Z) : Z :=
  if totalGpuMemSz >=? 16 * 2 ^ 30          (* 1/3 of > 16GB part *)
  then Size_wrap (Size_wrap (totalGpuMemSz - 16 * 2 ^ 30) / 3 + 11 * 2 ^ 30)
  else if totalGpuMemSz >=? 10 * 2 ^ 30     (* 1/2 of > 10G part *)
  then Size_wrap (Size_wrap (totalGpuMemSz - 10 * 2 ^ 30) / 2 + 8 * 2 ^ 30)
  else if totalGpuMemSz >=? 4 * 2 ^ 30      (* 2/3 of > 4GB part *)
  then Size_wrap (Size_wrap (Size_wrap (totalGpuMemSz - 4 * 2 ^ 30) * 2) / 3
                  + 4 * 2 ^ 30)
  else totalGpuMemSz.

(** Line 1343: [num_segs = Max(reservedBufSz / dma_segment_size, 2)],
    computed in [Size] and stored in an [int]. *)
Definition num_segs (reserved dma_segment_size : Z) : Z :=
  int_wrap (Z.max (reserved / dma_segment_size) 2).

(** The static variables [pgstrom_init_dma_buffer] sets. *)
Record dma_settings : Type := mkSettings {
  dma_segment_size_kb : Z;
  dma_segment_size : Z;
  max_dma_segment_nums : Z;
  min_dma_segment_nums : Z
}.

Inductive init_result : Type :=
| InitDone (s : dma_settings)
| InitERROR (msg : string).

(** [pgstrom_init_dma_buffer] (lines 1296-1391), given the page size, the
    memory sizes of the devices, the values configured for the three
    variables and the outcomes of the two [sigaction] calls.  The hooks
    it registers are [pgstrom_startup_dma_buffer] and
    [dmaBufferCleanupOnPostmasterExit]. *)
Definition pgstrom_init_dma_buffer (pagesize : Z) (devAttrs : list Z)
  (conf_segment_size conf_max_nums conf_min_nums : option Z)
  (sigaction_segv_ok sigaction_bus_ok : bool) : init_result :=
  (* unit size of DMA buffer segment *)
  let kb := DefineCustomIntVariable (Z.shiftl 2 20)       (* 2GB *)
                                    (Z.shiftl 256 10)     (* 256MB *)
                                    (Z.shiftl 1 (DMABUF_CHUNKSZ_MAX_BIT - 10))
                                    conf_segment_size in
  let size := Size_wrap (Z.shiftl kb 10) in
  if negb (Z.land size (Size_wrap (pagesize - 1)) =? 0)
  then InitERROR "pg_strom.dma_segment_size must be aligned to page size"
  else
    (* number of DMA buffer segment *)
    let max_nums := DefineCustomIntVariable 1024 32 32768 conf_max_nums in
    (* amount of persistent DMA buffer segment *)
    let reserved := reservedBufSz (totalGpuMemSz devAttrs) in
    let min_nums := DefineCustomIntVariable (num_segs reserved size) 0 max_nums
                                            conf_min_nums in
    (* registration of signal handles for DMA buffers *)
    if negb sigaction_segv_ok
    then InitERROR "failed on sigaction for SIGSEGV: %m"
    else if negb sigaction_bus_ok
    then InitERROR "failed on sigaction for SIGBUS: %m"
    else InitDone (mkSettings kb size max_nums min_nums).

(** The configuration of a server started with these settings, once
    [pgstrom_startup_dma_buffer] has reserved the address range at
    [head]. *)
Definition config_of (s : dma_settings) (head : Z) (cuda : bool) (os : os_calls)
  : config :=
  mkConfig (dma_segment_size s) (max_dma_segment_nums s) (min_dma_segment_nums s)
           head cuda os.

(** ** The report of the segments *)

(** The structure [dma_seg_info] of [pgstrom_dma_buffer_info], one row
    of the report: the fields [seg_id], [rev], [mclass], [n_actives] and
    [n_frees], all [cl_int]. *)
Record dma_seg_info : Type := mkInfo {
  info_seg_id : Z;
  info_rev : Z;
  info_mclass : Z;
  n_actives : Z;
  n_frees : Z
}.

(** The walk of lines 1177-1190 over the chunks of a segment, from
    [pos] to [tail], for the class [i]: a chunk of the class is counted
    as active when one of its links is null and as free otherwise, and
    the walk goes on behind the chunk, whatever its class.  [fuel] bounds
    the turns; [None] is a walk that has not reached [tail] by then. *)
Fixpoint info_walk (fuel : nat) (m : memory) (pos tail i : Z)
  (counts : Z * Z) : option (Z * Z) :=
  match fuel with
  | O => None
  | S fuel' =>
    if pos <? tail then
      let chunk := chunks m pos in
      let counts' :=
        if mclass chunk =? i then
          if node_is_null (free_chain chunk)
          then (int_wrap (fst counts + 1), snd counts)
          else (fst counts, int_wrap (snd counts + 1))
        else counts in
      info_walk fuel' m (pos + pow2 (mclass chunk)) tail i counts'
    else Some counts
  end.

(** A chunk takes 256 bytes at least: a walk over chunks ends within as
    many turns as the segment has pieces of 256 bytes. *)
Definition info_fuel (seg_size : Z) : nat :=
  S (Z.to_nat (seg_size / DMABUF_CHUNKSZ_MIN)).

(** Lines 1168-1192: the row of segment [id] for the class [i]. *)
Definition info_of_class (cfg : config) (st : state) (id i : Z)
  : option dma_seg_info :=
  let pos := mmap_ptr cfg id in
  let tail := pos + cfg_dma_segment_size cfg in
  match info_walk (info_fuel (cfg_dma_segment_size cfg)) (mem st) pos tail i
                  (0, 0) with
  | Some counts =>
    Some (mkInfo (int_wrap id) (int_wrap (revision (segments st id))) i
                 (fst counts) (snd counts))
  | None => None
  end.

(** The loop of lines 1164-1193 over the classes, from [i] on, [n]
    classes. *)
Fixpoint info_classes (cfg : config) (st : state) (id i : Z) (n : nat)
  : option (list dma_seg_info) :=
  match n with
  | O => Some []
  | S n' =>
    match info_of_class cfg st id i with
    | None => None
    | Some row =>
      match info_classes cfg st id (i + 1) n' with
      | None => None
      | Some rows => Some (row :: rows)
      end
    end
  end.

(** The loop of lines 1157-1203 over the active list.  The first read of
    a header of a segment is a first access to its memory. *)
Fixpoint info_segments (cfg : config) (st : state) (segs : list Z)
  : option (result (list dma_seg_info)) :=
  match segs with
  | [] => Some (OK [] st)
  | id :: rest =>
    match dmaBufferAttachSegmentOnDemand cfg st id with
    | None => Some CRASH
    | Some st1 =>
      match info_classes cfg st1 id DMABUF_CHUNKSZ_MIN_BIT
              (Z.to_nat (DMABUF_CHUNKSZ_MAX_BIT - DMABUF_CHUNKSZ_MIN_BIT + 1)) with
      | None => None
      | Some rows =>
        match info_segments cfg st1 rest with
        | Some (OK more st2) => Some (OK (rows ++ more) st2)
        | other => other
        end
      end
    end
  end.

(** [pgstrom_dma_buffer_info] (lines 1121-1228), first call: the list
    [results] of all the rows, which the following calls return one by
    one. *)
Definition pgstrom_dma_buffer_info (cfg : config) (st : state)
  : option (result (list dma_seg_info)) :=
  info_segments cfg st (active_segment_list st).

(** * Properties *)

(** ** The recursive functions as the source writes them *)

Lemma upd_same {A : Type} (f : Z -> A) (k : Z) (v : A) : upd f k v k = v.
Proof. unfold upd. now rewrite Z.eqb_refl. Qed.

Lemma upd_other {A : Type} (f : Z -> A) (k x : Z) (v : A) :
  x <> k -> upd f k v x = f x.
Proof. intros H. unfold upd. destruct (Z.eqb_spec x k); congruence. Qed.

Lemma Size_wrap_small (x : Z) : 0 <= x < 2 ^ 64 -> Size_wrap x = x.
Proof. intros. unfold Size_wrap. now apply Z.mod_small. Qed.

(** [dmaBufferSplitChunk] satisfies the recursive equation of the source:
    the fuel of the model never runs out before the class test stops the
    recursion. *)
Lemma dmaBufferSplitChunk_eq (seg : dmaBufferSegment) (m : memory) (cls : Z) :
  dmaBufferSplitChunk seg m cls =
  if cls >=? DMABUF_CHUNKSZ_MAX_BIT then None
  else
    match (if dlist_is_empty (free_chunks seg cls)
           then dmaBufferSplitChunk seg m (cls + 1)
           else Some (seg, m)) with
    | None => None
    | Some (seg1, m1) =>
      match free_chunks seg1 cls with
      | [] => None
      | chunk_1 :: rest => Some (split_halves seg1 m1 cls chunk_1 rest)
      end
    end.
Proof.
  unfold dmaBufferSplitChunk.
  destruct (Z.geb_spec cls DMABUF_CHUNKSZ_MAX_BIT) as [Hge|Hlt].
  - destruct (Z.to_nat (DMABUF_CHUNKSZ_MAX_BIT + 1 - cls)); simpl;
      [reflexivity|].
    destruct (Z.geb_spec cls DMABUF_CHUNKSZ_MAX_BIT); [reflexivity|lia].
  - replace (Z.to_nat (DMABUF_CHUNKSZ_MAX_BIT + 1 - cls))
      with (S (Z.to_nat (DMABUF_CHUNKSZ_MAX_BIT + 1 - (cls + 1)))) by lia.
    simpl.
    destruct (Z.geb_spec cls DMABUF_CHUNKSZ_MAX_BIT); [lia|reflexivity].
Qed.

(** One turn of the merge loop, as a function of where the loop goes on. *)
Definition merge_turn (base seg_size : Z) (seg : dmaBufferSegment)
  (m : memory) (chunk : Z)
  (continue : dmaBufferSegment -> memory -> Z -> dmaBufferSegment * memory * Z)
  : dmaBufferSegment * memory * Z :=
  let c := chunks m chunk in
  if mclass c <=? DMABUF_CHUNKSZ_MAX_BIT then
    let offset := Size_wrap (chunk - base) in
    if Z.land offset (pow2 (mclass c)) =? 0 then
      let buddy := chunk + pow2 (mclass c) in
      if buddy >=? base + seg_size then (seg, m, chunk)
      else
        let b := chunks m buddy in
        if negb (mclass b =? mclass c) || node_is_null (free_chain b)
        then (seg, m, chunk)
        else
          continue (delete_free_chain seg buddy)
            (set_chunk m chunk
               (mkChunk (free_chain c) (gcxt_chain c) (shgcon c)
                        (required c) (mclass c + 1) (magic_head c)))
            chunk
    else
      let buddy := chunk - pow2 (mclass c) in
      if buddy <? base then (seg, m, chunk)
      else
        let b := chunks m buddy in
        if negb (mclass b =? mclass c) || node_is_null (free_chain b)
        then (seg, m, chunk)
        else
          continue (delete_free_chain seg buddy)
            (set_chunk m buddy
               (mkChunk (free_chain b) (gcxt_chain b) (shgcon b)
                        (required b) (mclass b + 1) (magic_head b)))
            buddy
  else (seg, m, chunk).

Lemma merge_chunks_rec_S (fuel : nat) (base seg_size : Z)
  (seg : dmaBufferSegment) (m : memory) (chunk : Z) :
  merge_chunks_rec (S fuel) base seg_size seg m chunk =
  merge_turn base seg_size seg m chunk (merge_chunks_rec fuel base seg_size).
Proof. reflexivity. Qed.

(** More fuel than the classes left changes nothing. *)
Lemma merge_chunks_rec_fuel (f1 : nat) :
  forall f2 base seg_size seg m chunk,
    (Z.to_nat (DMABUF_CHUNKSZ_MAX_BIT + 1 - mclass (chunks m chunk)) <= f1)%nat ->
    (Z.to_nat (DMABUF_CHUNKSZ_MAX_BIT + 1 - mclass (chunks m chunk)) <= f2)%nat ->
    merge_chunks_rec f1 base seg_size seg m chunk =
    merge_chunks_rec f2 base seg_size seg m chunk.
Proof.
  induction f1 as [|f1 IH]; intros f2 base seg_size seg m chunk H1 H2.
  - destruct f2 as [|f2]; [reflexivity|]. simpl.
    destruct (Z.leb_spec (mclass (chunks m chunk)) DMABUF_CHUNKSZ_MAX_BIT);
      [unfold DMABUF_CHUNKSZ_MAX_BIT in *; lia|reflexivity].
  - destruct f2 as [|f2].
    + simpl.
      destruct (Z.leb_spec (mclass (chunks m chunk)) DMABUF_CHUNKSZ_MAX_BIT);
        [unfold DMABUF_CHUNKSZ_MAX_BIT in *; lia|reflexivity].
    + rewrite !merge_chunks_rec_S. unfold merge_turn.
      destruct (mclass (chunks m chunk) <=? DMABUF_CHUNKSZ_MAX_BIT); [|reflexivity].
      destruct (Z.land _ _ =? 0).
      * destruct (_ >=? _); [reflexivity|].
        destruct (negb _ || _); [reflexivity|].
        apply IH; unfold set_chunk; cbn [chunks mclass]; rewrite upd_same;
          cbn [mclass]; unfold DMABUF_CHUNKSZ_MAX_BIT in *; lia.
      * destruct (_ <? _); [reflexivity|].
        destruct (negb (mclass (chunks m (chunk - _)) =? _) || _) eqn:Eb;
          [reflexivity|].
        apply orb_false_elim in Eb as [Eb _].
        apply negb_false_iff, Z.eqb_eq in Eb.
        apply IH; unfold set_chunk; cbn [chunks mclass]; rewrite upd_same;
          cbn [mclass]; unfold DMABUF_CHUNKSZ_MAX_BIT in *; lia.
Qed.

Lemma merge_chunks_rec_enough (fuel : nat) base seg_size seg m chunk :
  (Z.to_nat (DMABUF_CHUNKSZ_MAX_BIT + 1 - mclass (chunks m chunk)) <= fuel)%nat ->
  merge_chunks_rec fuel base seg_size seg m chunk =
  merge_chunks base seg_size seg m chunk.
Proof. intros. unfold merge_chunks. apply merge_chunks_rec_fuel; lia. Qed.

(** The merge loop satisfies the equation of the [while] of the source. *)
Lemma merge_chunks_eq (base seg_size : Z) (seg : dmaBufferSegment)
  (m : memory) (chunk : Z) :
  merge_chunks base seg_size seg m chunk =
  merge_turn base seg_size seg m chunk (merge_chunks base seg_size).
Proof.
  rewrite <- (merge_chunks_rec_enough
                (S (Z.to_nat (DMABUF_CHUNKSZ_MAX_BIT + 1
                              - mclass (chunks m chunk))))) by lia.
  rewrite merge_chunks_rec_S. unfold merge_turn.
  destruct (mclass (chunks m chunk) <=? DMABUF_CHUNKSZ_MAX_BIT); [|reflexivity].
  destruct (Z.land _ _ =? 0).
  - destruct (_ >=? _); [reflexivity|].
    destruct (negb _ || _); [reflexivity|].
    apply merge_chunks_rec_enough.
    unfold set_chunk; cbn [chunks mclass]; rewrite upd_same;
      cbn [mclass]; unfold DMABUF_CHUNKSZ_MAX_BIT in *; lia.
  - destruct (_ <? _); [reflexivity|].
    destruct (negb (mclass (chunks m (chunk - _)) =? _) || _) eqn:Eb;
      [reflexivity|].
    apply orb_false_elim in Eb as [Eb _].
    apply negb_false_iff, Z.eqb_eq in Eb.
    apply merge_chunks_rec_enough.
    unfold set_chunk; cbn [chunks mclass]; rewrite upd_same;
      cbn [mclass]; unfold DMABUF_CHUNKSZ_MAX_BIT in *; lia.
Qed.

(** ** Failure of segment creation *)

(** A scan that finds nothing falls through to the inactive list, once
    the scan has been repeated under the exclusive lock. *)
Lemma alloc_retry_scan_none cfg st ctx req csz cls retries excl :
  scan_active_segments st (active_segment_list st) cls req = None ->
  alloc_retry cfg retries excl st ctx req csz cls =
  match inactive_segment_list st with
  | [] => ERROR "Out of DMA buffer segment" st
  | id :: rest =>
    match dmaBufferCreateSegment cfg (set_inactive st rest) id with
    | ERROR msg st2 =>
      ERROR msg (set_inactive st2 (dlist_push_head (inactive_segment_list st2) id))
    | FATAL msg => FATAL msg
    | CRASH => CRASH
    | OK _ st2 =>
      let st3 := set_active st2 (dlist_push_head (active_segment_list st2) id) in
      match dmaBufferAllocChunk (segments st3 id) (mem st3) cls req with
      | None => CRASH
      | Some (chunk, seg', m') =>
        track_chunk (set_segment (set_mem st3 m') id seg') ctx csz chunk
      end
    end
  end.
Proof.
  intros Hscan. revert excl.
  induction retries as [|n IH]; intros excl; simpl; rewrite Hscan.
  - destruct excl; reflexivity.
  - destruct excl; [reflexivity|]. apply IH.
Qed.

Lemma alloc_retry_scan_some cfg st ctx req csz cls retries excl chunk st1 :
  scan_active_segments st (active_segment_list st) cls req = Some (chunk, st1) ->
  alloc_retry cfg retries excl st ctx req csz cls = track_chunk st1 ctx csz chunk.
Proof. intros Hscan. destruct retries; simpl; rewrite Hscan; reflexivity. Qed.

(** A failed creation leaves everything but this process's mapping record
    as it was. *)
Lemma dmaBufferCreateSegment_error cfg st id msg st2 :
  dmaBufferCreateSegment cfg st id = ERROR msg st2 ->
  segments st2 = segments st /\
  active_segment_list st2 = active_segment_list st /\
  inactive_segment_list st2 = inactive_segment_list st /\
  mem st2 = mem st /\ contexts st2 = contexts st.
Proof.
  unfold dmaBufferCreateSegment.
  destruct (if is_attached (dmaBufLocalMaps st id) then unmap_attached cfg else None);
    [discriminate|].
  set (st1 := if is_attached (dmaBufLocalMaps st id) then _ else st).
  assert (Hst1 : segments st1 = segments st /\
                 active_segment_list st1 = active_segment_list st /\
                 inactive_segment_list st1 = inactive_segment_list st /\
                 mem st1 = mem st /\ contexts st1 = contexts st).
  { subst st1. destruct (is_attached (dmaBufLocalMaps st id)); simpl; auto. }
  destruct (negb (shm_open_ok (cfg_os cfg))); [intros [= <- <-]; exact Hst1|].
  destruct (negb (ftruncate_ok (cfg_os cfg))); [intros [= <- <-]; exact Hst1|].
  destruct (negb (mmap_ok (cfg_os cfg))); [intros [= <- <-]; exact Hst1|].
  destruct (cfg_gpuserv_cuda_context cfg && negb (cuMemHostRegister_ok (cfg_os cfg))).
  - destruct (negb (munmap_ok (cfg_os cfg))); [discriminate|].
    destruct (negb (mmap_none_ok (cfg_os cfg))); [discriminate|].
    intros [= <- <-]; exact Hst1.
  - destruct (seed_chunks _ _ _ _ _ _). discriminate.
Qed.

(** [track_chunk] returns, unless the fill runs over. *)
Lemma track_chunk_cases st ctx csz chunk :
  (exists st', track_chunk st ctx csz chunk = OK (DMABUF_CHUNK_DATA chunk) st') \/
  track_chunk st ctx csz chunk = CRASH.
Proof. unfold track_chunk. destruct (overruns _ _); eauto. Qed.

Lemma track_chunk_OK st ctx csz chunk :
  overruns (DMABUF_CHUNK_DATA chunk) (required (chunks (mem st) chunk)) = false ->
  exists st', track_chunk st ctx csz chunk = OK (DMABUF_CHUNK_DATA chunk) st'.
Proof. intros H. unfold track_chunk. rewrite H. eauto. Qed.

(** No error exit of [dmaBufferAllocInternal] changes either list. *)
Lemma alloc_error_keeps_lists cfg st ctx req msg st' :
  dmaBufferAllocInternal cfg st ctx req = ERROR msg st' ->
  inactive_segment_list st' = inactive_segment_list st /\
  active_segment_list st' = active_segment_list st.
Proof.
  unfold dmaBufferAllocInternal.
  destruct (_ >? _); [intros [= <- <-]; auto|].
  destruct (scan_active_segments st (active_segment_list st)
              (get_next_log2 (chunk_size_of req)) req) as [[chunk st1]|] eqn:Hscan.
  - rewrite (alloc_retry_scan_some _ _ _ _ _ _ _ _ _ _ Hscan).
    destruct (track_chunk_cases st1 ctx (chunk_size_of req) chunk) as [[x ->]| ->];
    discriminate.
  - rewrite alloc_retry_scan_none by assumption.
    destruct (inactive_segment_list st) as [|id rest] eqn:Hin.
    + intros [= <- <-]. auto.
    + destruct (dmaBufferCreateSegment cfg (set_inactive st rest) id)
        as [u st2|m2 st2|m2|] eqn:Hc; try discriminate.
      * cbv zeta. destruct (dmaBufferAllocChunk _ _ _ _) as [[[ch sg] mm]|];
          [|discriminate].
        destruct (track_chunk_cases
                    (set_segment
                       (set_mem (set_active st2
                          (dlist_push_head (active_segment_list st2) id)) mm) id sg)
                    ctx (chunk_size_of req) ch) as [[x ->]| ->];
        discriminate.
      * intros [= <- <-].
        apply dmaBufferCreateSegment_error in Hc as (_ & Hact & Hina & _).
        simpl in *. unfold dlist_push_head. rewrite Hina, Hact. auto.
Qed.

(** C7: when [dmaBufferCreateSegment] raises an error on the segment
    popped from the inactive list, [dmaBufferAllocInternal] raises the
    same error with the segment back at the head of the inactive list:
    both lists are what they were before the call.  More generally no
    error exit of [dmaBufferAllocInternal] changes either list. *)
Theorem create_failure_restores_lists cfg st ctx req id rest msg st2 :
  pow2 (mclass_of req) <= cfg_dma_segment_size cfg ->
  scan_active_segments st (active_segment_list st) (mclass_of req) req = None ->
  inactive_segment_list st = id :: rest ->
  dmaBufferCreateSegment cfg (set_inactive st rest) id = ERROR msg st2 ->
  (exists st',
     dmaBufferAllocInternal cfg st ctx req = ERROR msg st' /\
     In id (inactive_segment_list st') /\
     inactive_segment_list st' = inactive_segment_list st /\
     active_segment_list st' = active_segment_list st /\
     segments st' = segments st /\ mem st' = mem st) /\
  (forall msg' st'',
     dmaBufferAllocInternal cfg st ctx req = ERROR msg' st'' ->
     inactive_segment_list st'' = inactive_segment_list st /\
     active_segment_list st'' = active_segment_list st).
Proof.
  intros Hsz Hscan Hin Hcreate.
  assert (Halloc : dmaBufferAllocInternal cfg st ctx req =
                   ERROR msg (set_inactive st2
                                (dlist_push_head (inactive_segment_list st2) id))).
  { unfold dmaBufferAllocInternal. fold (mclass_of req).
    rewrite size_test_fits by assumption.
    rewrite alloc_retry_scan_none by assumption.
    rewrite Hin, Hcreate. reflexivity. }
  apply dmaBufferCreateSegment_error in Hcreate
    as (Hseg & Hact & Hina & Hmem & Hctx).
  simpl in Hina, Hact.
  assert (Hlists :
    inactive_segment_list
      (set_inactive st2 (dlist_push_head (inactive_segment_list st2) id))
    = inactive_segment_list st).
  { simpl. unfold dlist_push_head. rewrite Hina, Hin. reflexivity. }
  split.
  - eexists. split; [exact Halloc|]. rewrite Hlists.
    repeat split; simpl; try assumption.
    rewrite Hin. now left.
  - intros msg' st'' H. now apply alloc_error_keeps_lists in H.
Qed.

Definition os_all_ok : os_calls := mkOs true true true true true true true true.
Definition os_no_shm_open : os_calls :=
  mkOs false true true true true true true true.

(** Configurations used for the examples: 256 MB segments (the smallest
    the GUC allows) and 16 GB segments (the largest), 32 segments of which
    2 are persistent, the range reserved at 2^40. *)
Definition cfg_256MB (os : os_calls) : config :=
  mkConfig (2 ^ 28) 32 2 (2 ^ 40) false os.
Definition cfg_16GB (os : os_calls) : config :=
  mkConfig (2 ^ 34) 32 2 (2 ^ 40) false os.

Definition startup (cfg : config) : state :=
  pgstrom_startup_dma_buffer cfg (fun _ => empty_context).

Lemma create_failure_restores_lists_witness :
  exists st',
    dmaBufferAllocInternal (cfg_256MB os_no_shm_open)
      (startup (cfg_256MB os_no_shm_open)) 0 100
    = ERROR "failed on shm_open('%s'): %m" st' /\
    inactive_segment_list st'
    = inactive_segment_list (startup (cfg_256MB os_no_shm_open)).
Proof.
  destruct (create_failure_restores_lists (cfg_256MB os_no_shm_open)
              (startup (cfg_256MB os_no_shm_open)) 0 100 0
              (map Z.of_nat (seq 1 31)) "failed on shm_open('%s'): %m"
              (set_inactive (startup (cfg_256MB os_no_shm_open))
                            (map Z.of_nat (seq 1 31))))
    as [(st' & H1 & _ & H2 & _) _].
  - vm_compute. discriminate.
  - reflexivity.
  - reflexivity.
  - reflexivity.
  - exists st'. split; assumption.
Defined.

(** ** Exhaustion, and the first chunk of a new segment *)

(** With a request that passes the size test, "Out of DMA buffer segment"
    is raised exactly when the scan of the active list finds nothing and
    the inactive list is empty. *)
Lemma out_of_segment_iff cfg st ctx req :
  pow2 (mclass_of req) <= cfg_dma_segment_size cfg ->
  (exists st', dmaBufferAllocInternal cfg st ctx req
               = ERROR "Out of DMA buffer segment" st') <->
  (scan_active_segments st (active_segment_list st) (mclass_of req) req = None /\
   inactive_segment_list st = []).
Proof.
  intros Hsz. unfold dmaBufferAllocInternal. fold (mclass_of req).
  rewrite size_test_fits by assumption.
  destruct (scan_active_segments st (active_segment_list st) (mclass_of req) req)
    as [[chunk st1]|] eqn:Hscan.
  - rewrite (alloc_retry_scan_some _ _ _ _ _ _ _ _ _ _ Hscan).
    destruct (track_chunk_cases st1 ctx (chunk_size_of req) chunk) as [[x ->]| ->];
    (split; [intros [st' Hx]; discriminate|intros [Hx _]; discriminate]).
  - rewrite alloc_retry_scan_none by assumption.
    destruct (inactive_segment_list st) as [|id rest].
    + split; [auto|]. intros _. eauto.
    + split; [|intros [_ Hx]; discriminate].
      intros [st' Hx]. exfalso. revert Hx.
      unfold dmaBufferCreateSegment.
      destruct (if is_attached _ then _ else _); [discriminate|].
      repeat match goal with
             | |- context [if ?b then _ else _] => destruct b; try discriminate
             end.
      all: destruct (seed_chunks _ _ _ _ _ _); cbv zeta.
      all: destruct (dmaBufferAllocChunk _ _ _ _) as [[[ch sg] mm]|];
        [|discriminate].
      all: match goal with
           | |- track_chunk ?s ?c ?z ?k = _ -> _ =>
             destruct (track_chunk_cases s c z k) as [[x ->]| ->]
           end; discriminate.
Qed.

(** C6, at the failing input: with 16 GB segments (the largest value the
    GUC accepts) the first one-byte request pops segment 0 from the
    inactive list, creates it, and gets no chunk from it, because
    [dmaBufferSplitChunk] refuses to split the single chunk of class 34
    the segment was seeded with: the call ends in the branch the source
    asserts unreachable. *)
Theorem new_16GB_segment_yields_no_chunk :
  let cfg := cfg_16GB os_all_ok in
  let st := startup cfg in
  pow2 (mclass_of 1) <= cfg_dma_segment_size cfg /\
  inactive_segment_list st = map Z.of_nat (seq 0 32) /\
  match dmaBufferCreateSegment cfg
          (set_inactive st (tl (inactive_segment_list st))) 0 with
  | OK _ st2 =>
    free_chunks (segments st2 0) 34 = [mmap_ptr cfg 0] /\
    dmaBufferSplitChunk (segments st2 0) (mem st2) 34 = None /\
    dmaBufferAllocChunk (segments st2 0) (mem st2) (mclass_of 1) 1 = None
  | _ => False
  end /\
  dmaBufferAllocInternal cfg st 0 1 = CRASH.
Proof. vm_compute. repeat split; try reflexivity. discriminate. Qed.

(** ** Validation of released pointers *)

(** Sequencing of calls in the examples. *)
Definition and_then {A B : Type} (r : result A) (k : A -> state -> result B)
  : result B :=
  match r with
  | OK a st => k a st
  | ERROR msg st => ERROR msg st
  | FATAL msg => FATAL msg
  | CRASH => CRASH
  end.

(** Two chunks of the minimum class from a new segment, released in the
    order of their allocation; the result is the second pointer. *)
Definition two_chunks_released (cfg : config) : result Z :=
  and_then (dmaBufferAllocInternal cfg (startup cfg) 0 100) (fun p1 st1 =>
  and_then (dmaBufferAllocInternal cfg st1 0 100) (fun p2 st2 =>
  and_then (__dmaBufferFree cfg st2 p1) (fun _ st3 =>
  and_then (__dmaBufferFree cfg st3 p2) (fun _ st4 => OK p2 st4)))).

(** Three chunks of the maximum class, one per segment, the third of
    which (in segment 2, not persistent) is released. *)
Definition third_segment_released (cfg : config) : result Z :=
  let big := dmaBufferMaxAllocSize (cfg_dma_segment_size cfg) in
  and_then (dmaBufferAllocInternal cfg (startup cfg) 0 big) (fun p1 st1 =>
  and_then (dmaBufferAllocInternal cfg st1 0 big) (fun p2 st2 =>
  and_then (dmaBufferAllocInternal cfg st2 0 big) (fun p3 st3 =>
  and_then (__dmaBufferFree cfg st3 p3) (fun _ st4 => OK p3 st4)))).

(** C5, at the failing inputs.  A chunk that is the upper half of a
    merge keeps a header with cleared links and intact guards, so the
    released pointer validates; and once the release has detached the
    segment, validating the pointer touches unmapped memory and the
    process dies instead of getting [false]. *)
Theorem released_pointer_validation :
  match two_chunks_released (cfg_256MB os_all_ok) with
  | OK p2 st4 =>
    p2 = mmap_ptr (cfg_256MB os_all_ok) 0 + 256 + offsetof_data /\
    free_chunks (segments st4 0) 28 = [mmap_ptr (cfg_256MB os_all_ok) 0] /\
    num_chunks (segments st4 0) = 0 /\
    dmaBufferValidatePtr (cfg_256MB os_all_ok) st4 p2 = Some true
  | _ => False
  end /\
  match third_segment_released (cfg_256MB os_all_ok) with
  | OK p3 st4 =>
    p3 = mmap_ptr (cfg_256MB os_all_ok) 2 + offsetof_data /\
    active_segment_list st4 = [1; 0] /\
    dmaBufferValidatePtr (cfg_256MB os_all_ok) st4 p3 = None
  | _ => False
  end.
Proof. vm_compute. repeat split; reflexivity. Qed.

(** ** Runs of the interface *)

Definition set_os (cfg : config) (os : os_calls) : config :=
  mkConfig (cfg_dma_segment_size cfg) (cfg_max_dma_segment_nums cfg)
           (cfg_min_dma_segment_nums cfg) (cfg_dma_segment_vaddr_head cfg)
           (cfg_gpuserv_cuda_context cfg) os.

(** The calls a client can make; [Probe] stands for the three read-only
    entry points, which all go through [pointer_validation]. *)
Inductive api_call : Type :=
| CallAlloc (shgcon_id required : Z)
| CallFree (pointer : Z)
| CallRealloc (pointer required : Z)
| CallFreeAll (shgcon_id : Z)
| CallProbe (pointer : Z).

(** The shared state a call leaves behind, when the process survives. *)
Definition state_of {A : Type} (r : result A) : option state :=
  match r with
  | OK _ st => Some st
  | ERROR _ st => Some st
  | FATAL _ => None
  | CRASH => None
  end.

Definition run_call (cfg : config) (st : state) (c : api_call) : option state :=
  match c with
  | CallAlloc ctx req => state_of (dmaBufferAllocInternal cfg st ctx req)
  | CallFree p => state_of (__dmaBufferFree cfg st p)
  | CallRealloc p req => state_of (__dmaBufferRealloc cfg st p req)
  | CallFreeAll ctx => state_of (__dmaBufferFreeAll cfg st ctx)
  | CallProbe p => state_of (pointer_validation cfg st p)
  end.

(** States reached from start-up by any calls, whatever the system calls
    answer along the way. *)
Inductive reachable (cfg : config) : state -> Prop :=
| reach_startup (ctxs : Z -> SharedGpuContext) :
    reachable cfg (pgstrom_startup_dma_buffer cfg ctxs)
| reach_call (st st' : state) (os : os_calls) (c : api_call) :
    reachable cfg st ->
    run_call (set_os cfg os) st c = Some st' ->
    reachable cfg st'.

(** ** Revisions, lists and the count of active chunks *)

Record dir_inv (st : state) : Prop := mkDirInv {
  inv_active : forall id,
    In id (active_segment_list st) <->
    SHMSEG_EXISTS (revision (segments st id)) = true;
  inv_inactive : forall id,
    In id (inactive_segment_list st) -> ~ In id (active_segment_list st);
  inv_nodup : NoDup (inactive_segment_list st);
  inv_num_chunks : forall id,
    0 < num_chunks (segments st id) ->
    SHMSEG_EXISTS (revision (segments st id)) = true;
  inv_local : forall id,
    In id (active_segment_list st) ->
    is_attached (dmaBufLocalMaps st id) = true /\
    l_revision (dmaBufLocalMaps st id) = revision (segments st id)
}.

Lemma SHMSEG_EXISTS_odd (r : Z) : SHMSEG_EXISTS r = Z.odd r.
Proof.
  unfold SHMSEG_EXISTS.
  change 1 with (Z.ones 1). rewrite Z.land_ones by lia.
  change (2 ^ 1) with 2. rewrite Zmod_odd.
  destruct (Z.odd r); reflexivity.
Qed.

(** The 32-bit increment of a revision flips its parity. *)
Lemma SHMSEG_EXISTS_next (r : Z) :
  SHMSEG_EXISTS ((r + 1) mod 2 ^ 32) = negb (SHMSEG_EXISTS r).
Proof.
  rewrite !SHMSEG_EXISTS_odd.
  assert (H : Z.odd ((r + 1) mod 2 ^ 32) = Z.odd (r + 1)).
  { rewrite <- !Z.bit0_odd. apply Z.mod_pow2_bits_low. lia. }
  rewrite H. replace (r + 1) with (Z.succ r) by lia.
  rewrite Z.odd_succ. now rewrite Z.negb_odd.
Qed.

(** What the segment-level operations leave alone. *)
Lemma dmaBufferSplitChunk_revision seg m cls seg' m' :
  dmaBufferSplitChunk seg m cls = Some (seg', m') ->
  revision seg' = revision seg /\ num_chunks seg' = num_chunks seg /\
  data m' = data m.
Proof.
  unfold dmaBufferSplitChunk.
  generalize (Z.to_nat (DMABUF_CHUNKSZ_MAX_BIT + 1 - cls)) as fuel.
  intros fuel. revert seg m cls seg' m'.
  induction fuel as [|fuel IH]; intros seg m cls seg' m'; simpl; [discriminate|].
  destruct (cls >=? DMABUF_CHUNKSZ_MAX_BIT); [discriminate|].
  destruct (dlist_is_empty (free_chunks seg cls)).
  - destruct (dmaBufferSplitChunk_rec fuel seg m (cls + 1)) as [[s1 m1]|] eqn:E;
      [|discriminate].
    apply IH in E as (Hr & Hn & Hd).
    destruct (free_chunks s1 cls); [discriminate|].
    intros [= <- <-]. simpl. auto.
  - destruct (free_chunks seg cls); [discriminate|].
    intros [= <- <-]. simpl. auto.
Qed.

Lemma dmaBufferAllocChunk_revision seg m cls req chunk seg' m' :
  dmaBufferAllocChunk seg m cls req = Some (chunk, seg', m') ->
  revision seg' = revision seg /\ num_chunks seg' = num_chunks seg + 1.
Proof.
  unfold dmaBufferAllocChunk.
  destruct (dlist_is_empty (free_chunks seg cls)).
  - destruct (dmaBufferSplitChunk seg m (cls + 1)) as [[s1 m1]|] eqn:E;
      [|discriminate].
    apply dmaBufferSplitChunk_revision in E as (Hr & Hn & _).
    destruct (free_chunks s1 cls); [discriminate|].
    intros [= <- <- <-]. simpl. split; congruence.
  - destruct (free_chunks seg cls); [discriminate|].
    intros [= <- <- <-]. simpl. auto.
Qed.

Lemma merge_chunks_revision base size seg m chunk :
  revision (fst (fst (merge_chunks base size seg m chunk))) = revision seg /\
  num_chunks (fst (fst (merge_chunks base size seg m chunk))) = num_chunks seg.
Proof.
  unfold merge_chunks.
  generalize (Z.to_nat (DMABUF_CHUNKSZ_MAX_BIT + 1 - mclass (chunks m chunk)))
    as fuel.
  intros fuel. revert seg m chunk.
  induction fuel as [|fuel IH]; intros seg m chunk; [simpl; auto|].
  rewrite merge_chunks_rec_S. unfold merge_turn.
  repeat match goal with
         | |- context [if ?b then _ else _] => destruct b; simpl; auto
         end.
  - match goal with |- context [merge_chunks_rec fuel _ _ ?s ?mm ?c] =>
      destruct (IH s mm c) as [H1 H2] end.
    rewrite H1, H2. auto.
  - match goal with |- context [merge_chunks_rec fuel _ _ ?s ?mm ?c] =>
      destruct (IH s mm c) as [H1 H2] end.
    rewrite H1, H2. auto.
Qed.

Lemma release_chunk_revision base size seg m chunk :
  revision (fst (release_chunk base size seg m chunk)) = revision seg /\
  num_chunks (fst (release_chunk base size seg m chunk)) = num_chunks seg - 1.
Proof.
  unfold release_chunk.
  pose proof (merge_chunks_revision base size seg m chunk) as [H1 H2].
  destruct (merge_chunks base size seg m chunk) as [[s1 m1] c1].
  simpl in *. split; congruence.
Qed.

Lemma shrink_chunks_revision fuel :
  forall seg m head_ptr tail_ptr shift cls,
    revision (fst (shrink_chunks fuel seg m head_ptr tail_ptr shift cls))
    = revision seg /\
    num_chunks (fst (shrink_chunks fuel seg m head_ptr tail_ptr shift cls))
    = num_chunks seg.
Proof.
  induction fuel as [|fuel IH]; intros; simpl; [auto|].
  destruct (shift >=? cls); [|auto].
  destruct (_ >? _); [apply IH|].
  match goal with |- context [shrink_chunks fuel ?s ?mm ?h ?t ?sh ?c] =>
    destruct (IH s mm h t sh c) as [H1 H2] end.
  rewrite H1, H2. auto.
Qed.

(** A step that keeps lists and revisions, counts chunks only in existing
    segments and keeps the mapping records of the active segments in
    step, keeps the invariant. *)
Lemma dir_inv_frame st st' :
  dir_inv st ->
  active_segment_list st' = active_segment_list st ->
  inactive_segment_list st' = inactive_segment_list st ->
  (forall id, revision (segments st' id) = revision (segments st id)) ->
  (forall id, 0 < num_chunks (segments st' id) ->
              0 < num_chunks (segments st id) \/ In id (active_segment_list st)) ->
  (forall id, In id (active_segment_list st) ->
              is_attached (dmaBufLocalMaps st' id) = true /\
              l_revision (dmaBufLocalMaps st' id) = revision (segments st id)) ->
  dir_inv st'.
Proof.
  intros [Ha Hi Hd Hn Hl] Eact Eina Erev Enum Eloc.
  constructor.
  - intros id. rewrite Eact, Erev. apply Ha.
  - intros id. rewrite Eact, Eina. apply Hi.
  - now rewrite Eina.
  - intros id H. rewrite Erev. destruct (Enum id H) as [H'|H'].
    + now apply Hn.
    + now apply Ha.
  - intros id. rewrite Eact, Erev. apply Eloc.
Qed.

Lemma dir_inv_startup cfg ctxs : dir_inv (pgstrom_startup_dma_buffer cfg ctxs).
Proof.
  constructor; simpl.
  - intros id. split; [tauto|discriminate].
  - tauto.
  - apply Injective_map_NoDup; [|apply seq_NoDup].
    intros a b. apply Nat2Z.inj.
  - lia.
  - tauto.
Qed.

Lemma scan_active_segments_inv st segs cls req chunk st1 :
  dir_inv st ->
  (forall id, In id segs -> In id (active_segment_list st)) ->
  scan_active_segments st segs cls req = Some (chunk, st1) ->
  dir_inv st1.
Proof.
  intros Hinv. induction segs as [|id rest IH]; simpl; [discriminate|].
  intros Hsub.
  destruct (dmaBufferAllocChunk (segments st id) (mem st) cls req)
    as [[[ch sg] mm]|] eqn:E.
  - intros [= <- <-].
    apply dmaBufferAllocChunk_revision in E as [Hr Hn].
    apply (dir_inv_frame st); simpl; auto.
    + intros i. unfold upd. destruct (Z.eqb_spec i id); congruence.
    + intros i. unfold upd. destruct (Z.eqb_spec i id) as [->|]; auto.
    + intros i Hi. now apply (inv_local st).
  - apply IH. intros i Hi. apply Hsub. now right.
Qed.

Lemma track_chunk_inv st ctx csz chunk p st' :
  dir_inv st -> track_chunk st ctx csz chunk = OK p st' -> dir_inv st'.
Proof.
  intros Hinv. unfold track_chunk. destruct (overruns _ _); [discriminate|]. intros [= <- <-].
  apply (dir_inv_frame st); simpl; auto.
  intros i Hi. now apply (inv_local st).
Qed.

(** A created segment exists, holds no active chunk and is mapped. *)
Lemma dmaBufferCreateSegment_OK cfg st id u st2 :
  dmaBufferCreateSegment cfg st id = OK u st2 ->
  active_segment_list st2 = active_segment_list st /\
  inactive_segment_list st2 = inactive_segment_list st /\
  revision (segments st2 id) = (revision (segments st id) + 1) mod 2 ^ 32 /\
  num_chunks (segments st2 id) = 0 /\
  dmaBufLocalMaps st2 id = mkLMap (revision (segments st2 id)) true /\
  (forall i, i <> id -> segments st2 i = segments st i /\
                        dmaBufLocalMaps st2 i = dmaBufLocalMaps st i) /\
  contexts st2 = contexts st.
Proof.
  unfold dmaBufferCreateSegment.
  destruct (if is_attached (dmaBufLocalMaps st id) then unmap_attached cfg else None);
    [discriminate|].
  set (st1 := if is_attached (dmaBufLocalMaps st id) then _ else st).
  assert (Hst1 : segments st1 = segments st /\
                 active_segment_list st1 = active_segment_list st /\
                 inactive_segment_list st1 = inactive_segment_list st /\
                 contexts st1 = contexts st /\
                 forall i, i <> id -> dmaBufLocalMaps st1 i = dmaBufLocalMaps st i).
  { subst st1. destruct (is_attached (dmaBufLocalMaps st id)); simpl; auto.
    repeat split; auto. intros i Hi. now apply upd_other. }
  destruct Hst1 as (Hs & Ha & Hi & Hc & Hl).
  destruct (negb (shm_open_ok (cfg_os cfg))); [discriminate|].
  destruct (negb (ftruncate_ok (cfg_os cfg))); [discriminate|].
  destruct (negb (mmap_ok (cfg_os cfg))); [discriminate|].
  destruct (cfg_gpuserv_cuda_context cfg && negb (cuMemHostRegister_ok (cfg_os cfg))).
  { destruct (negb (munmap_ok (cfg_os cfg))); [discriminate|].
    destruct (negb (mmap_none_ok (cfg_os cfg))); discriminate. }
  assert (Hseed : forall fuel seg m h t c,
             revision (fst (seed_chunks fuel seg m h t c)) = revision seg).
  { induction fuel as [|fuel IH]; intros; simpl; [reflexivity|].
    destruct (c >=? _); [|reflexivity].
    destruct (_ >? _); rewrite IH; reflexivity. }
  match goal with |- context [seed_chunks ?f ?s ?mm ?h ?t ?c] =>
    specialize (Hseed f s mm h t c);
    destruct (seed_chunks f s mm h t c) as [seg1 m1] end.
  simpl in Hseed.
  intros [= <- <-]. simpl. rewrite !upd_same. simpl.
  rewrite Hseed.
  repeat split; auto.
  - rewrite upd_other by assumption. now rewrite Hs.
  - rewrite upd_other by assumption. now apply Hl.
Qed.

Lemma alloc_new_segment_inv cfg st id rest u st2 :
  dir_inv st ->
  inactive_segment_list st = id :: rest ->
  dmaBufferCreateSegment cfg (set_inactive st rest) id = OK u st2 ->
  dir_inv (set_active st2 (dlist_push_head (active_segment_list st2) id)).
Proof.
  intros Hinv Hin Hc.
  apply dmaBufferCreateSegment_OK in Hc as (Ha & Hi & Hr & Hn & Hl & Ho & _).
  simpl in Ha, Hi, Hr, Ho.
  assert (Hnot : ~ In id (active_segment_list st)).
  { apply (inv_inactive st Hinv). rewrite Hin. now left. }
  assert (Heven : SHMSEG_EXISTS (revision (segments st id)) = false).
  { destruct (SHMSEG_EXISTS (revision (segments st id))) eqn:E; [|reflexivity].
    apply (inv_active st Hinv) in E. contradiction. }
  pose proof (inv_nodup st Hinv) as Hnd. rewrite Hin in Hnd.
  apply NoDup_cons_iff in Hnd as [Hfresh Hnd].
  constructor; simpl; unfold dlist_push_head.
  - intros i. rewrite Ha. destruct (Z.eq_dec i id) as [->|Hne].
    + rewrite Hr, SHMSEG_EXISTS_next, Heven. simpl. split; auto.
    + destruct (Ho i Hne) as [-> _]. rewrite <- (inv_active st Hinv).
      simpl. split; [intros [?|?]; [congruence|assumption]|auto].
  - intros i. rewrite Hi, Ha. intros Hi' [<-|H']; [contradiction|].
    apply (inv_inactive st Hinv i); [rewrite Hin; now right|assumption].
  - now rewrite Hi.
  - intros i. destruct (Z.eq_dec i id) as [->|Hne].
    + rewrite Hn. lia.
    + destruct (Ho i Hne) as [-> _]. apply (inv_num_chunks st Hinv).
  - intros i. rewrite Ha. destruct (Z.eq_dec i id) as [->|Hne].
    + intros _. rewrite Hl. simpl. auto.
    + destruct (Ho i Hne) as [-> ->]. intros [?|H']; [congruence|].
      now apply (inv_local st Hinv).
Qed.

Lemma dmaBufferCreateSegment_error_local cfg st id msg st2 :
  dmaBufferCreateSegment cfg st id = ERROR msg st2 ->
  forall i, i <> id -> dmaBufLocalMaps st2 i = dmaBufLocalMaps st i.
Proof.
  unfold dmaBufferCreateSegment.
  destruct (if is_attached (dmaBufLocalMaps st id) then unmap_attached cfg else None);
    [discriminate|].
  set (st1 := if is_attached (dmaBufLocalMaps st id) then _ else st).
  assert (Hst1 : forall i, i <> id -> dmaBufLocalMaps st1 i = dmaBufLocalMaps st i).
  { subst st1. destruct (is_attached (dmaBufLocalMaps st id)); simpl; auto.
    intros i Hi. now apply upd_other. }
  destruct (negb (shm_open_ok (cfg_os cfg))); [intros [= <- <-]; exact Hst1|].
  destruct (negb (ftruncate_ok (cfg_os cfg))); [intros [= <- <-]; exact Hst1|].
  destruct (negb (mmap_ok (cfg_os cfg))); [intros [= <- <-]; exact Hst1|].
  destruct (cfg_gpuserv_cuda_context cfg && negb (cuMemHostRegister_ok (cfg_os cfg))).
  - destruct (negb (munmap_ok (cfg_os cfg))); [discriminate|].
    destruct (negb (mmap_none_ok (cfg_os cfg))); [discriminate|].
    intros [= <- <-]; exact Hst1.
  - destruct (seed_chunks _ _ _ _ _ _). discriminate.
Qed.

Lemma dmaBufferAllocInternal_inv cfg st ctx req st' :
  dir_inv st ->
  state_of (dmaBufferAllocInternal cfg st ctx req) = Some st' ->
  dir_inv st'.
Proof.
  intros Hinv. unfold dmaBufferAllocInternal.
  destruct (_ >? _); [intros [= <-]; assumption|].
  destruct (scan_active_segments st (active_segment_list st)
              (get_next_log2 (chunk_size_of req)) req) as [[chunk st1]|] eqn:Hscan.
  - rewrite (alloc_retry_scan_some _ _ _ _ _ _ _ _ _ _ Hscan).
    destruct (track_chunk_cases st1 ctx (chunk_size_of req) chunk) as [[x Hx]|Hx]; rewrite Hx; [|discriminate].
    intros [= <-].
    eapply track_chunk_inv; [|exact Hx].
    eapply scan_active_segments_inv; [exact Hinv| |exact Hscan]. auto.
  - rewrite alloc_retry_scan_none by assumption.
    destruct (inactive_segment_list st) as [|id rest] eqn:Hin;
      [intros [= <-]; assumption|].
    destruct (dmaBufferCreateSegment cfg (set_inactive st rest) id)
      as [u st2|m2 st2|m2|] eqn:Hc; try discriminate.
    + cbv zeta.
      pose proof (alloc_new_segment_inv _ _ _ _ _ _ Hinv Hin Hc) as Hinv3.
      destruct (dmaBufferAllocChunk _ _ _ _) as [[[ch sg] mm]|] eqn:E;
        [|discriminate].
      match goal with
      | |- state_of (track_chunk ?s ?c ?z ?k) = _ -> _ =>
        destruct (track_chunk_cases s c z k) as [[x Hx]|Hx]; rewrite Hx
      end; [|discriminate].
      intros [= <-]. eapply track_chunk_inv; [|exact Hx].
      apply dmaBufferAllocChunk_revision in E as [Hr Hn]. simpl in Hr, Hn.
      eapply dir_inv_frame;
        [exact Hinv3|reflexivity|reflexivity| | |]; simpl.
      * intros i. unfold upd. destruct (Z.eqb_spec i id); congruence.
      * intros i. unfold upd. destruct (Z.eqb_spec i id) as [->|]; auto.
      * intros i Hi. now apply (inv_local _ Hinv3).
    + intros [= <-].
      pose proof (dmaBufferCreateSegment_error_local _ _ _ _ _ Hc) as Hloc.
      apply dmaBufferCreateSegment_error in Hc as (Hseg & Hact & Hina & _ & _).
      simpl in *. unfold dlist_push_head.
      assert (Hnot : ~ In id (active_segment_list st)).
      { apply (inv_inactive st Hinv). rewrite Hin. now left. }
      constructor; simpl; rewrite ?Hact, ?Hina, ?Hseg.
      * apply (inv_active st Hinv).
      * intros i Hi. apply (inv_inactive st Hinv). now rewrite Hin.
      * rewrite <- Hin. apply (inv_nodup st Hinv).
      * apply (inv_num_chunks st Hinv).
      * intros i Hi. rewrite Hloc by congruence. now apply (inv_local st Hinv).
Qed.

(** The fault handler leaves the state of an invariant directory as it
    is, or the process dies. *)
Lemma dmaBufferAttachSegmentOnDemand_inv cfg st id st1 :
  dir_inv st ->
  dmaBufferAttachSegmentOnDemand cfg st id = Some st1 ->
  st1 = st /\ In id (active_segment_list st).
Proof.
  intros Hinv. unfold dmaBufferAttachSegmentOnDemand.
  destruct (SHMSEG_EXISTS (revision (segments st id))) eqn:E.
  - apply (inv_active st Hinv) in E.
    destruct (inv_local st Hinv id E) as [-> ->].
    rewrite Z.eqb_refl. simpl. intros [= <-]. auto.
  - rewrite andb_false_r. simpl. discriminate.
Qed.

Lemma pointer_validation_inv cfg st p chunk id st1 :
  dir_inv st ->
  pointer_validation cfg st p = OK (chunk, id) st1 ->
  st1 = st /\ In id (active_segment_list st).
Proof.
  intros Hinv. unfold pointer_validation.
  destruct (_ || _); [discriminate|].
  destruct (dmaBufferAttachSegmentOnDemand cfg st _) as [s|] eqn:E;
    [|discriminate].
  apply (dmaBufferAttachSegmentOnDemand_inv _ _ _ _ Hinv) in E as [-> Hact].
  destruct (_ || _); [discriminate|].
  destruct (negb _); [discriminate|].
  intros [= <- <-]. auto.
Qed.

Lemma pointer_validation_state cfg st p st1 :
  dir_inv st ->
  state_of (pointer_validation cfg st p) = Some st1 -> st1 = st.
Proof.
  intros Hinv. unfold pointer_validation.
  destruct (_ || _); [intros [= <-]; reflexivity|].
  destruct (dmaBufferAttachSegmentOnDemand cfg st _) as [s|] eqn:E;
    [|discriminate].
  apply (dmaBufferAttachSegmentOnDemand_inv _ _ _ _ Hinv) in E as [-> Hact].
  destruct (_ || _); [intros [= <-]; reflexivity|].
  destruct (negb _); intros [= <-]; reflexivity.
Qed.

(** What a successful release does to the directory.  [n] is the count
    of active chunks the segment is left with. *)
Lemma __dmaBufferFree_effect cfg st p u st' :
  dir_inv st ->
  __dmaBufferFree cfg st p = OK u st' ->
  exists chunk id,
    pointer_validation cfg st p = OK (chunk, id) st /\
    In id (active_segment_list st) /\
    let n := num_chunks (segments st id) - 1 in
    num_chunks (segments st' id) = n /\
    (forall i, i <> id ->
               segments st' i = segments st i /\
               dmaBufLocalMaps st' i = dmaBufLocalMaps st i) /\
    if (n >? 0) || persistent cfg id
    then active_segment_list st' = active_segment_list st /\
         inactive_segment_list st' = inactive_segment_list st /\
         revision (segments st' id) = revision (segments st id) /\
         dmaBufLocalMaps st' id = dmaBufLocalMaps st id
    else active_segment_list st' = dlist_delete (active_segment_list st) id /\
         inactive_segment_list st'
         = id :: dlist_delete (inactive_segment_list st) id /\
         revision (segments st' id)
         = (revision (segments st id) + 1) mod 2 ^ 32 /\
         is_attached (dmaBufLocalMaps st' id) = false.
Proof.
  intros Hinv. unfold __dmaBufferFree.
  destruct (pointer_validation cfg st p) as [[chunk id] st0|?|?|] eqn:Hpv;
    try discriminate.
  destruct (pointer_validation_inv _ _ _ _ _ _ Hinv Hpv) as [-> Hact].
  destruct (overruns _ _); [discriminate|].
  destruct (shgcon (chunks (mem st) chunk)) as [ctx|]; [|discriminate].
  pose proof (release_chunk_revision (mmap_ptr cfg id) (cfg_dma_segment_size cfg)
                (segments st id)
                (set_chunk
                   (memset (mem st) (DMABUF_CHUNK_DATA chunk) 245
                           (required (chunks (mem st) chunk))) chunk
                   (mkChunk (free_chain (chunks (mem st) chunk)) NodeNull None
                            (required (chunks (mem st) chunk))
                            (mclass (chunks (mem st) chunk))
                            (magic_head (chunks (mem st) chunk)))) chunk)
    as [Hrev Hnum].
  destruct (release_chunk _ _ _ _ _) as [seg1 m3]. simpl in Hrev, Hnum.
  intros H. exists chunk, id. split; [reflexivity|]. split; [assumption|].
  cbv zeta. rewrite <- Hnum.
  destruct ((num_chunks seg1 >? 0) || persistent cfg id).
  - injection H as H; subst st'; simpl;
      rewrite upd_same; (split; [reflexivity|]);
      (split; [intros i Hi; now rewrite upd_other by assumption|]);
      repeat split; assumption.
  - unfold dmaBufferDetachSegment in H. simpl in H.
    destruct (if is_attached (dmaBufLocalMaps st id) then unmap_attached cfg else None);
      [discriminate|].
    destruct (negb (shm_open_ok (cfg_os cfg))); [discriminate|].
    destruct (negb (shm_unlink_ok (cfg_os cfg))); [discriminate|].
    destruct (inv_local st Hinv id Hact) as [Hatt _].
    rewrite Hatt in H. simpl in H.
    injection H as H; subst st'; simpl;
      rewrite !upd_same; simpl; (split; [reflexivity|]);
      (split; [intros i Hi; now rewrite !upd_other by assumption|]);
      rewrite Hrev; repeat split; reflexivity.
Qed.

Lemma __dmaBufferFree_error cfg st p msg st' :
  dir_inv st -> __dmaBufferFree cfg st p = ERROR msg st' -> st' = st.
Proof.
  intros Hinv H. apply (pointer_validation_state cfg st p); [assumption|].
  revert H. unfold __dmaBufferFree.
  destruct (pointer_validation cfg st p) as [[chunk id] st0|?|?|] eqn:Hpv;
    try discriminate.
  - destruct (overruns _ _); [discriminate|].
    destruct (shgcon _); [|discriminate].
    destruct (release_chunk _ _ _ _ _) as [seg1 m3].
    destruct (_ || _).
    + discriminate.
    + unfold dmaBufferDetachSegment.
      destruct (if is_attached _ then _ else _); [discriminate|].
      destruct (negb (shm_open_ok _)); [discriminate|].
      destruct (negb (shm_unlink_ok _)); [discriminate|].
      discriminate.
  - intros [= <- <-]. reflexivity.
Qed.

Lemma In_dlist_delete (l : list Z) (x y : Z) :
  In x (dlist_delete l y) <-> In x l /\ x <> y.
Proof.
  unfold dlist_delete. split.
  - intros H. apply in_remove in H. exact H.
  - intros [H1 H2]. now apply in_in_remove.
Qed.

Lemma NoDup_dlist_delete (l : list Z) (y : Z) :
  NoDup l -> NoDup (dlist_delete l y).
Proof.
  unfold dlist_delete. induction 1 as [|x l Hx Hl IH]; simpl; [constructor|].
  destruct (Z.eq_dec y x); [assumption|].
  constructor; [|assumption].
  intros H. apply in_remove in H. tauto.
Qed.

Lemma __dmaBufferFree_inv cfg st p st' :
  dir_inv st ->
  state_of (__dmaBufferFree cfg st p) = Some st' ->
  dir_inv st'.
Proof.
  intros Hinv H.
  destruct (__dmaBufferFree cfg st p) as [u s|msg s|?|] eqn:E; try discriminate;
    injection H as ->.
  2: { apply __dmaBufferFree_error in E; [subst; assumption|assumption]. }
  destruct (__dmaBufferFree_effect _ _ _ _ _ Hinv E)
    as (chunk & id & Hpv & Hact & Hn & Hother & Hcase).
  cbv zeta in *.
  assert (Hex : SHMSEG_EXISTS (revision (segments st id)) = true)
    by now apply (inv_active st Hinv).
  destruct ((num_chunks (segments st id) - 1 >? 0) || persistent cfg id) eqn:Eb.
  - destruct Hcase as (Ea & Ei & Er & El).
    apply (dir_inv_frame st); auto.
    + intros i. destruct (Z.eq_dec i id) as [->|Hne]; [assumption|].
      now destruct (Hother i Hne) as [-> _].
    + intros i. destruct (Z.eq_dec i id) as [->|Hne]; [auto|].
      destruct (Hother i Hne) as [-> _]. auto.
    + intros i Hi. destruct (Z.eq_dec i id) as [->|Hne].
      * rewrite El. now apply (inv_local st Hinv).
      * destruct (Hother i Hne) as [_ ->]. now apply (inv_local st Hinv).
  - destruct Hcase as (Ea & Ei & Er & El).
    apply orb_false_elim in Eb as [Eb _]. rewrite Z.gtb_ltb in Eb.
    apply Z.ltb_ge in Eb.
    constructor.
    + intros i. rewrite Ea, In_dlist_delete.
      destruct (Z.eq_dec i id) as [->|Hne].
      * rewrite Er, SHMSEG_EXISTS_next, Hex. simpl.
        split; [tauto|discriminate].
      * destruct (Hother i Hne) as [-> _].
        rewrite (inv_active st Hinv). tauto.
    + intros i. rewrite Ea, Ei, In_dlist_delete. simpl.
      rewrite In_dlist_delete. intros [<-|[Hi Hne]]; [tauto|].
      intros [Hi' _]. now apply (inv_inactive st Hinv i).
    + rewrite Ei. constructor.
      * rewrite In_dlist_delete. tauto.
      * apply NoDup_dlist_delete, (inv_nodup st Hinv).
    + intros i. destruct (Z.eq_dec i id) as [->|Hne].
      * rewrite Hn. lia.
      * destruct (Hother i Hne) as [-> _]. apply (inv_num_chunks st Hinv).
    + intros i. rewrite Ea, In_dlist_delete. intros [Hi Hne].
      destruct (Hother i Hne) as [-> ->]. now apply (inv_local st Hinv).
Qed.

Lemma dir_inv_set_mem st m : dir_inv st -> dir_inv (set_mem st m).
Proof.
  intros H. apply (dir_inv_frame st); simpl; auto.
  intros i Hi. now apply (inv_local st H).
Qed.

Lemma dir_inv_set_context st id c : dir_inv st -> dir_inv (set_context st id c).
Proof.
  intros H. apply (dir_inv_frame st); simpl; auto.
  intros i Hi. now apply (inv_local st H).
Qed.

Lemma __dmaBufferRealloc_inv cfg st p req st' :
  dir_inv st ->
  state_of (__dmaBufferRealloc cfg st p req) = Some st' ->
  dir_inv st'.
Proof.
  intros Hinv. unfold __dmaBufferRealloc.
  destruct (pointer_validation cfg st p) as [[chunk id] st0|msg st0|?|] eqn:Hpv;
    try discriminate.
  2: { intros [= <-].
       assert (st0 = st) as ->; [|assumption].
       apply (pointer_validation_state cfg st p); [assumption|].
       now rewrite Hpv. }
  destruct (pointer_validation_inv _ _ _ _ _ _ Hinv Hpv) as [-> Hact].
  destruct (_ =? _).
  { intros [= <-]. now apply dir_inv_set_mem. }
  destruct (_ <? _).
  { match goal with |- context [shrink_chunks ?f ?s ?mm ?h ?t ?sh ?c] =>
      pose proof (shrink_chunks_revision f s mm h t sh c) as [Hr Hn];
      destruct (shrink_chunks f s mm h t sh c) as [seg1 m3] end.
    simpl in Hr, Hn. intros [= <-].
    apply (dir_inv_frame st); [assumption|reflexivity|reflexivity| | |]; simpl.
    - intros i. unfold upd. destruct (Z.eqb_spec i id); congruence.
    - intros i. unfold upd. destruct (Z.eqb_spec i id) as [->|]; auto.
    - intros i Hi. now apply (inv_local st Hinv). }
  destruct (shgcon (chunks (mem st) chunk)) as [ctx|]; [|discriminate].
  destruct (dmaBufferAllocInternal cfg st ctx req) as [res st1|msg st1|?|] eqn:Ea;
    try discriminate.
  - assert (Hinv1 : dir_inv st1).
    { apply (dmaBufferAllocInternal_inv cfg st ctx req); [assumption|].
      now rewrite Ea. }
    destruct (_ || _); [discriminate|].
    match goal with |- context [__dmaBufferFree cfg ?s p] =>
      pose proof (__dmaBufferFree_inv cfg s p) as Hf;
      destruct (__dmaBufferFree cfg s p) as [u st2|msg st2|?|]
    end; try discriminate; intros [= <-]; apply Hf;
      try reflexivity; now apply dir_inv_set_mem.
  - intros [= <-]. apply (dmaBufferAllocInternal_inv cfg st ctx req);
      [assumption|]. now rewrite Ea.
Qed.

Lemma free_all_rec_inv cfg fuel :
  forall st ctx st',
    dir_inv st ->
    state_of (free_all_rec cfg fuel st ctx) = Some st' ->
    dir_inv st'.
Proof.
  induction fuel as [|fuel IH]; intros st ctx st' Hinv; simpl.
  - intros [= <-]. assumption.
  - destruct (dma_buffer_list (contexts st ctx)) as [|chunk rest];
      [intros [= <-]; assumption|].
    match goal with |- context [__dmaBufferFree cfg ?s ?q] =>
      pose proof (__dmaBufferFree_inv cfg s q) as Hf;
      destruct (__dmaBufferFree cfg s q) as [u st2|msg st2|?|]
    end; try discriminate.
    + apply IH. apply Hf; [now apply dir_inv_set_context|reflexivity].
    + intros [= <-]. apply Hf; [now apply dir_inv_set_context|reflexivity].
Qed.

Lemma set_os_size cfg os :
  cfg_dma_segment_size (set_os cfg os) = cfg_dma_segment_size cfg.
Proof. reflexivity. Qed.

(** Every reachable state satisfies the invariant. *)
Lemma reachable_dir_inv cfg st : reachable cfg st -> dir_inv st.
Proof.
  induction 1 as [ctxs|st st' os c Hreach IH Hrun].
  - apply dir_inv_startup.
  - destruct c; simpl in Hrun.
    + eapply dmaBufferAllocInternal_inv; eassumption.
    + eapply __dmaBufferFree_inv; eassumption.
    + eapply __dmaBufferRealloc_inv; eassumption.
    + eapply free_all_rec_inv; eassumption.
    + apply pointer_validation_state in Hrun; [subst; assumption|assumption].
Qed.

(** ** Release of the last chunk of a segment *)


(** A sequence of calls from a state; [None] when the process dies. *)
Fixpoint run_calls (cfg : config) (st : state) (calls : list api_call)
  : option state :=
  match calls with
  | [] => Some st
  | c :: rest =>
    match run_call cfg st c with
    | Some st1 => run_calls cfg st1 rest
    | None => None
    end
  end.

Lemma run_calls_reachable cfg os calls :
  forall st st',
    reachable cfg st ->
    run_calls (set_os cfg os) st calls = Some st' ->
    reachable cfg st'.
Proof.
  induction calls as [|c rest IH]; intros st st' Hreach; simpl.
  - intros [= <-]. assumption.
  - destruct (run_call (set_os cfg os) st c) as [st1|] eqn:E; [|discriminate].
    apply IH. eapply reach_call; eassumption.
Qed.

(** The state after the calls, from start-up (the start-up state itself
    if the process died on the way). *)
Definition state_after (cfg : config) (calls : list api_call) : state :=
  match run_calls cfg (startup cfg) calls with
  | Some st => st
  | None => startup cfg
  end.

Lemma state_after_reachable cfg os calls :
  run_calls (set_os cfg os) (startup cfg) calls <> None ->
  reachable cfg (state_after (set_os cfg os) calls).
Proof.
  unfold state_after. change (startup (set_os cfg os)) with (startup cfg).
  destruct (run_calls (set_os cfg os) (startup cfg) calls) as [st|] eqn:E;
    [intros _|congruence].
  eapply run_calls_reachable; [apply reach_startup|exact E].
Qed.


(** Observations used to evaluate the examples. *)
Definition is_OK {A : Type} (r : result A) : bool :=
  match r with OK _ _ => true | _ => false end.

Definition is_Some {A : Type} (o : option A) : bool :=
  match o with Some _ => true | None => false end.

Lemma is_Some_not_None {A : Type} (o : option A) : is_Some o = true -> o <> None.
Proof. destruct o; [discriminate|discriminate]. Qed.



(** ** Arithmetic of aligned power-of-two blocks *)

Lemma pow2_split (c d : Z) : 0 <= c <= d -> pow2 d = pow2 c * pow2 (d - c).
Proof.
  intros. rewrite !pow2_spec by lia. rewrite <- Z.pow_add_r by lia.
  f_equal. lia.
Qed.

Lemma mod_pow2_multiple (o c : Z) :
  0 <= c -> o mod pow2 c = 0 -> exists a, o = pow2 c * a.
Proof.
  intros Hc H. exists (o / pow2 c).
  pose proof (pow2_pos c Hc).
  pose proof (Z.div_mod o (pow2 c) ltac:(lia)). lia.
Qed.

Lemma multiple_mod_pow2 (a c : Z) : 0 <= c -> (pow2 c * a) mod pow2 c = 0.
Proof.
  intros Hc. pose proof (pow2_pos c Hc).
  rewrite Z.mul_comm. apply Z.mod_mul. lia.
Qed.

(** Two aligned blocks that overlap are nested. *)
Lemma blocks_nested (ox oy c d : Z) :
  0 <= c <= d ->
  ox mod pow2 c = 0 -> oy mod pow2 d = 0 ->
  ox < oy + pow2 d -> oy < ox + pow2 c ->
  oy <= ox /\ ox + pow2 c <= oy + pow2 d.
Proof.
  intros Hcd Hx Hy H1 H2.
  apply mod_pow2_multiple in Hx as [a ->]; [|lia].
  apply mod_pow2_multiple in Hy as [b ->]; [|lia].
  rewrite (pow2_split c d) in * by lia.
  pose proof (pow2_pos c ltac:(lia)) as Pc.
  pose proof (pow2_pos (d - c) ltac:(lia)) as Pt.
  set (p := pow2 c) in *. set (t := pow2 (d - c)) in *.
  assert (Ha : a < t * (b + 1)) by nia.
  assert (Hb : t * b < a + 1) by nia.
  split; nia.
Qed.

(** The bit of the class in an aligned offset, as the merge loop tests
    it. *)
Lemma land_pow2 (o c : Z) :
  0 <= c ->
  Z.land o (pow2 c) = if Z.testbit o c then pow2 c else 0.
Proof.
  intros Hc. rewrite pow2_spec by assumption.
  apply Z.bits_inj'. intros n Hn.
  rewrite Z.land_spec, Z.pow2_bits_eqb by assumption.
  destruct (Z.eqb_spec c n) as [->|Hne].
  - rewrite andb_true_r. destruct (Z.testbit o n) eqn:E.
    + rewrite Z.pow2_bits_eqb by assumption. now rewrite Z.eqb_refl.
    + now rewrite Z.bits_0.
  - rewrite andb_false_r. destruct (Z.testbit o c).
    + rewrite Z.pow2_bits_eqb by assumption.
      destruct (Z.eqb_spec c n); congruence.
    + now rewrite Z.bits_0.
Qed.

Lemma bit_of_aligned (o c : Z) :
  0 <= c -> o mod pow2 c = 0 ->
  (Z.testbit o c = false /\ o mod pow2 (c + 1) = 0) \/
  (Z.testbit o c = true /\ o mod pow2 (c + 1) = pow2 c).
Proof.
  intros Hc Hm.
  apply mod_pow2_multiple in Hm as [a ->]; [|assumption].
  pose proof (pow2_pos c Hc) as Pc.
  rewrite pow2_succ by assumption.
  assert (Hbit : Z.testbit (pow2 c * a) c = Z.odd a).
  { rewrite pow2_spec by assumption. rewrite Z.mul_comm.
    rewrite Z.mul_pow2_bits by assumption.
    rewrite Z.sub_diag. apply Z.bit0_odd. }
  rewrite Hbit.
  pose proof (Zmod_odd a) as Ho.
  pose proof (Z.div_mod a 2 ltac:(lia)) as Hd.
  destruct (Z.odd a).
  - right. split; [reflexivity|].
    replace (pow2 c * a) with (pow2 c + (a / 2) * (2 * pow2 c)) by lia.
    rewrite Z.mod_add by lia. apply Z.mod_small. lia.
  - left. split; [reflexivity|].
    replace (pow2 c * a) with ((a / 2) * (2 * pow2 c)) by lia.
    apply Z.mod_mul. lia.
Qed.

Lemma mod_pow2_weaken (o c d : Z) :
  0 <= c <= d -> o mod pow2 d = 0 -> o mod pow2 c = 0.
Proof.
  intros Hcd H.
  apply mod_pow2_multiple in H as [a ->]; [|lia].
  rewrite (pow2_split c d) by lia.
  rewrite <- Z.mul_assoc. apply multiple_mod_pow2. lia.
Qed.

(** ** Tilings of a segment by chunks *)

Section Tiling.

Variables base size : Z.

(** A chunk of class [c] at [x] lies in the segment, aligned to its own
    size from the base of the segment. *)
Definition placed (x c : Z) : Prop :=
  DMABUF_CHUNKSZ_MIN_BIT <= c <= DMABUF_CHUNKSZ_MAX_BIT /\
  base <= x /\ x + pow2 c <= base + size /\ (x - base) mod pow2 c = 0.

(** The chunks of a segment, free or not: pairwise disjoint, and
    covering the segment. *)
Record tiling (ch : Z -> Z -> Prop) : Prop := mkTiling {
  til_placed : forall x c, ch x c -> placed x c;
  til_class : forall x c c', ch x c -> ch x c' -> c = c';
  til_disjoint : forall x c y d,
    ch x c -> ch y d -> x <= y < x + pow2 c -> y = x;
  til_cover : forall a,
    base <= a < base + size -> exists x c, ch x c /\ x <= a < x + pow2 c
}.

Lemma tiling_ext (ch ch' : Z -> Z -> Prop) :
  (forall x c, ch x c <-> ch' x c) -> tiling ch -> tiling ch'.
Proof.
  intros E [P C D V]. constructor.
  - intros x c H. apply P. now apply E.
  - intros x c c' H H'. apply (C x); now apply E.
  - intros x c y d H H'. apply (D x c y d); now apply E.
  - intros a Ha. destruct (V a Ha) as (x & c & H & Hr).
    exists x, c. split; [now apply E|assumption].
Qed.

Lemma placed_pos x c : placed x c -> 0 < pow2 c.
Proof. intros (Hc & _). apply pow2_pos. unfold DMABUF_CHUNKSZ_MIN_BIT in *. lia. Qed.

Lemma placed_lower x c :
  placed x c -> DMABUF_CHUNKSZ_MIN_BIT < c -> placed x (c - 1).
Proof.
  unfold placed, DMABUF_CHUNKSZ_MIN_BIT, DMABUF_CHUNKSZ_MAX_BIT.
  intros (Hc & Hb & He & Hm) Hlt.
  pose proof (pow2_succ (c - 1) ltac:(lia)) as Hs.
  replace (c - 1 + 1) with c in Hs by lia.
  pose proof (pow2_pos (c - 1) ltac:(lia)).
  split; [lia|]. split; [lia|]. split; [lia|].
  apply (mod_pow2_weaken _ (c - 1) c); [lia|assumption].
Qed.

Lemma placed_upper x c :
  placed x c -> DMABUF_CHUNKSZ_MIN_BIT < c -> placed (x + pow2 (c - 1)) (c - 1).
Proof.
  unfold placed, DMABUF_CHUNKSZ_MIN_BIT, DMABUF_CHUNKSZ_MAX_BIT.
  intros (Hc & Hb & He & Hm) Hlt.
  pose proof (pow2_succ (c - 1) ltac:(lia)) as Hs.
  replace (c - 1 + 1) with c in Hs by lia.
  pose proof (pow2_pos (c - 1) ltac:(lia)).
  split; [lia|]. split; [lia|]. split; [lia|].
  apply mod_pow2_multiple in Hm as [a Ha]; [|lia].
  replace (x + pow2 (c - 1) - base) with (pow2 (c - 1) * (2 * a + 1)) by lia.
  apply multiple_mod_pow2. lia.
Qed.

(** Two placed chunks that share a byte are nested. *)
Lemma placed_nested x c y d :
  placed x c -> placed y d -> c <= d ->
  x < y + pow2 d -> y < x + pow2 c ->
  y <= x /\ x + pow2 c <= y + pow2 d.
Proof.
  intros (Hc & Hb & He & Hm) (Hc' & Hb' & He' & Hm') Hcd H1 H2.
  unfold DMABUF_CHUNKSZ_MIN_BIT in *.
  destruct (blocks_nested (x - base) (y - base) c d); try assumption; lia.
Qed.

Section Operations.

Variable ch : Z -> Z -> Prop.
Hypothesis Htil : tiling ch.

(** A chunk split into its two halves. *)
Definition split_set (x c : Z) : Z -> Z -> Prop :=
  fun y d => (ch y d /\ y <> x) \/ (y = x /\ d = c - 1)
             \/ (y = x + pow2 (c - 1) /\ d = c - 1).

Lemma inside_chunk_not_chunk x c y d :
  ch x c -> ch y d -> x < y < x + pow2 c -> False.
Proof.
  intros Hx Hy Hr.
  assert (y = x) by (apply (til_disjoint ch Htil x c y d); auto; lia). lia.
Qed.

Lemma tiling_split x c :
  ch x c -> DMABUF_CHUNKSZ_MIN_BIT < c -> tiling (split_set x c).
Proof.
  intros Hx Hlt.
  pose proof (til_placed ch Htil x c Hx) as Px.
  pose proof (placed_lower x c Px Hlt) as Pl.
  pose proof (placed_upper x c Px Hlt) as Pu.
  assert (Hc0 : 0 <= c - 1) by (unfold DMABUF_CHUNKSZ_MIN_BIT in *; lia).
  pose proof (pow2_succ (c - 1) Hc0) as Hs.
  replace (c - 1 + 1) with c in Hs by lia.
  pose proof (pow2_pos (c - 1) Hc0) as Hp.
  assert (Hmid : forall d, ch (x + pow2 (c - 1)) d -> False).
  { intros d Hd. apply (inside_chunk_not_chunk x c _ d Hx Hd). lia. }
  constructor.
  - intros y d [[H _]|[[-> ->]|[-> ->]]]; auto. now apply (til_placed ch Htil).
  - intros y d d' [[H Hn]|[[-> ->]|[-> ->]]] [[H' Hn']|[[E ->]|[E ->]]];
      try reflexivity; try lia; try congruence.
    + eapply (til_class ch Htil); eassumption.
    + subst y. exfalso. eauto.
    + exfalso. eauto.
  - intros y d y' d' H H' Hr.
    destruct H as [[H Hn]|[[-> ->]|[-> ->]]];
      destruct H' as [[H' Hn']|[[-> ->]|[-> ->]]]; try lia.
    + apply (til_disjoint ch Htil y d y' d'); assumption.
    + exfalso. apply Hn. symmetry.
      apply (til_disjoint ch Htil y d x c); assumption.
    + (* an old chunk holding the start of the upper half holds the parent *)
      exfalso.
      pose proof (til_placed ch Htil y d H) as Py.
      destruct (Z.le_gt_cases c d) as [Hcd|Hcd].
      * destruct (placed_nested x c y d Px Py Hcd) as [Hyx _]; try lia.
        apply Hn. symmetry.
        apply (til_disjoint ch Htil y d x c); try assumption. lia.
      * destruct (placed_nested y d x c Py Px) as [Hxy _]; try lia.
        apply Hn. apply (til_disjoint ch Htil x c y d); try assumption.
        pose proof (placed_pos y d Py). lia.
    + exfalso. apply Hn'.
      apply (til_disjoint ch Htil x c y' d'); try assumption. lia.
    + exfalso. apply Hn'.
      apply (til_disjoint ch Htil x c y' d'); try assumption. lia.
  - intros a Ha. destruct (til_cover ch Htil a Ha) as (y & d & Hy & Hr).
    destruct (Z.eq_dec y x) as [->|Hne].
    + assert (d = c) as -> by (eapply (til_class ch Htil); eassumption).
      destruct (Z.lt_ge_cases a (x + pow2 (c - 1))).
      * exists x, (c - 1). split; [right; left; auto|lia].
      * exists (x + pow2 (c - 1)), (c - 1). split; [right; right; auto|lia].
    + exists y, d. split; [left; auto|assumption].
Qed.

(** Two buddies merged into their parent. *)
Definition merge_set (z c : Z) : Z -> Z -> Prop :=
  fun y d => (ch y d /\ y <> z /\ y <> z + pow2 c) \/ (y = z /\ d = c + 1).

Lemma tiling_merge z c :
  ch z c -> ch (z + pow2 c) c ->
  (z - base) mod pow2 (c + 1) = 0 -> c < DMABUF_CHUNKSZ_MAX_BIT ->
  tiling (merge_set z c).
Proof.
  intros Hz Hu Hal Hlt.
  pose proof (til_placed ch Htil z c Hz) as (Hc & Hb & He & Hm).
  pose proof (til_placed ch Htil _ c Hu) as (_ & Hb' & He' & Hm').
  assert (Hc0 : 0 <= c) by (unfold DMABUF_CHUNKSZ_MIN_BIT in *; lia).
  pose proof (pow2_succ c Hc0) as Hs.
  pose proof (pow2_pos c Hc0) as Hp.
  constructor.
  - intros y d [[H _]|[-> ->]]; [now apply (til_placed ch Htil)|].
    unfold placed, DMABUF_CHUNKSZ_MIN_BIT, DMABUF_CHUNKSZ_MAX_BIT in *.
    split; [lia|]. split; [lia|]. split; [lia|assumption].
  - intros y d d' [[H Hn]|[-> ->]] [[H' Hn']|[E ->]]; try reflexivity; try lia.
    eapply (til_class ch Htil); eassumption.
  - intros y d y' d' [[H Hn]|[-> ->]] [[H' Hn']|[-> ->]] Hr; try lia.
    + apply (til_disjoint ch Htil y d y' d'); assumption.
    + exfalso. destruct Hn as [Hn _]. apply Hn. symmetry.
      apply (til_disjoint ch Htil y d z c); assumption.
    + exfalso. destruct Hn' as [Hn1 Hn2].
      destruct (Z.lt_ge_cases y' (z + pow2 c)).
      * apply Hn1. apply (til_disjoint ch Htil z c y' d'); try assumption. lia.
      * apply Hn2.
        apply (til_disjoint ch Htil (z + pow2 c) c y' d'); try assumption. lia.
  - intros a Ha. destruct (til_cover ch Htil a Ha) as (y & d & Hy & Hr).
    destruct (Z.eq_dec y z) as [->|Hne].
    + assert (d = c) as -> by (eapply (til_class ch Htil); eassumption).
      exists z, (c + 1). split; [right; auto|lia].
    + destruct (Z.eq_dec y (z + pow2 c)) as [->|Hne'].
      * assert (d = c) as -> by (eapply (til_class ch Htil); eassumption).
        exists z, (c + 1). split; [right; auto|lia].
      * exists y, d. split; [left; auto|assumption].
Qed.

(** The buddy of a chunk, when it lies in the segment, is the start of a
    chunk of the same class or of a smaller one. *)
Lemma upper_buddy_is_chunk x c :
  ch x c -> (x - base) mod pow2 (c + 1) = 0 -> x + pow2 c < base + size ->
  exists d, ch (x + pow2 c) d /\ d <= c.
Proof.
  intros Hx Hal Hin.
  pose proof (til_placed ch Htil x c Hx) as Px.
  destruct Px as (Hc & Hb & He & Hm).
  assert (Hc0 : 0 <= c) by (unfold DMABUF_CHUNKSZ_MIN_BIT in *; lia).
  pose proof (pow2_pos c Hc0) as Hp.
  destruct (til_cover ch Htil (x + pow2 c) ltac:(lia)) as (w & d & Hw & Hr).
  pose proof (til_placed ch Htil w d Hw) as Pw.
  destruct Pw as (Hd & Hbw & Hew & Hmw).
  assert (Hd0 : 0 <= d) by (unfold DMABUF_CHUNKSZ_MIN_BIT in *; lia).
  assert (Hbm : (x + pow2 c - base) mod pow2 c = 0).
  { apply mod_pow2_multiple in Hm as [a Ha]; [|assumption].
    replace (x + pow2 c - base) with (pow2 c * (a + 1)) by lia.
    now apply multiple_mod_pow2. }
  destruct (Z.le_gt_cases d c) as [Hdc|Hdc].
  - (* the covering chunk is not larger: it starts at the buddy *)
    destruct (blocks_nested (w - base) (x + pow2 c - base) d c) as [Hle _];
      try assumption; try lia.
    assert (w = x + pow2 c) by lia. subst w. eauto.
  - (* a larger chunk over the buddy would hold the chunk itself *)
    exfalso.
    pose proof (pow2_succ c Hc0) as Hs.
    destruct (Z.eq_dec w (x + pow2 c)) as [Heq|Hnb].
    { assert (Hz : (w - base) mod pow2 (c + 1) = 0)
        by (apply (mod_pow2_weaken _ (c + 1) d); [lia|assumption]).
      apply mod_pow2_multiple in Hal as [a Ha]; [|lia].
      replace (w - base) with (pow2 c + a * pow2 (c + 1)) in Hz by lia.
      rewrite Z.mod_add in Hz by lia.
      rewrite Z.mod_small in Hz by lia. lia. }
    destruct (blocks_nested (x - base) (w - base) c d) as [Hle Hge];
      try assumption; try lia.
    destruct (Z.eq_dec w x) as [->|Hne].
    + assert (d = c) by (eapply (til_class ch Htil); eassumption). lia.
    + apply Hne. symmetry.
      apply (til_disjoint ch Htil w d x c); try assumption. lia.
Qed.

Lemma lower_buddy_is_chunk x c :
  ch x c -> (x - base) mod pow2 (c + 1) = pow2 c ->
  base <= x - pow2 c /\ exists d, ch (x - pow2 c) d /\ d <= c.
Proof.
  intros Hx Hal.
  pose proof (til_placed ch Htil x c Hx) as Px.
  destruct Px as (Hc & Hb & He & Hm).
  assert (Hc0 : 0 <= c) by (unfold DMABUF_CHUNKSZ_MIN_BIT in *; lia).
  pose proof (pow2_pos c Hc0) as Hp.
  pose proof (pow2_succ c Hc0) as Hs.
  assert (Hlow : pow2 c <= x - base).
  { pose proof (Z.mod_le (x - base) (pow2 (c + 1)) ltac:(lia) ltac:(lia)). lia. }
  split; [lia|].
  destruct (til_cover ch Htil (x - pow2 c) ltac:(lia)) as (w & d & Hw & Hr).
  pose proof (til_placed ch Htil w d Hw) as Pw.
  destruct Pw as (Hd & Hbw & Hew & Hmw).
  assert (Hd0 : 0 <= d) by (unfold DMABUF_CHUNKSZ_MIN_BIT in *; lia).
  assert (Hbm : (x - pow2 c - base) mod pow2 c = 0).
  { apply mod_pow2_multiple in Hm as [a Ha]; [|assumption].
    replace (x - pow2 c - base) with (pow2 c * (a - 1)) by lia.
    now apply multiple_mod_pow2. }
  destruct (Z.le_gt_cases d c) as [Hdc|Hdc].
  - destruct (blocks_nested (w - base) (x - pow2 c - base) d c) as [Hle _];
      try assumption; try lia.
    assert (w = x - pow2 c) by lia. subst w. eauto.
  - exfalso.
    destruct (blocks_nested (x - pow2 c - base) (w - base) c d) as [Hle Hge];
      try assumption; try lia.
    assert (Hend : x <= w + pow2 d) by lia.
    destruct (Z.eq_dec x (w + pow2 d)) as [Heq|Hne].
    + (* the chunk would start on a boundary of the larger class *)
      assert (Hz : (x - base) mod pow2 (c + 1) = 0).
      { apply (mod_pow2_weaken _ (c + 1) d); [lia|].
        apply mod_pow2_multiple in Hmw as [a Ha]; [|assumption].
        replace (x - base) with (pow2 d * (a + 1)) by lia.
        now apply multiple_mod_pow2. }
      lia.
    + assert (x = w).
      { apply (til_disjoint ch Htil w d x c); try assumption. lia. }
      lia.
Qed.

End Operations.

End Tiling.

(** Tactics for the proofs below. *)
Ltac inj_pair H :=
  match type of H with
  | Some ?t = Some (?a, ?b) =>
    let Ht := fresh in let Ha := fresh in let Hb := fresh in
    assert (Ht : t = (a, b))
      by (exact (f_equal (fun o => match o with Some p => p | None => t end) H));
    assert (Ha : a = fst t) by (now rewrite Ht);
    assert (Hb : b = snd t) by (now rewrite Ht);
    clear H Ht; subst a b
  end.

Ltac zlia := unfold DMABUF_CHUNKSZ_MIN_BIT, DMABUF_CHUNKSZ_MAX_BIT in *; lia.

(** ** The invariant of a segment *)

Section SegmentInvariant.

Variables base size : Z.
Hypothesis size_max : size <= pow2 DMABUF_CHUNKSZ_MAX_BIT.

(** The chunks of a segment: those on its free lists and the others
    [oth] (in use, or in the hands of an operation). *)
Definition chunk_of (seg : dmaBufferSegment) (oth : Z -> Z -> Prop)
  : Z -> Z -> Prop :=
  fun x c => In x (free_chunks seg c) \/ oth x c.

(** The free lists and the headers agree with a tiling of the segment:
    a chunk on the list of a class has that class in its header and is
    linked; a chunk is on a list at most once; the others carry their
    class and are on no list. *)
Record seg_tiled (seg : dmaBufferSegment) (m : memory)
  (oth : Z -> Z -> Prop) : Prop := mkSegTiled {
  sti_tiling : tiling base size (chunk_of seg oth);
  sti_free : forall c x,
    In x (free_chunks seg c) ->
    mclass (chunks m x) = c /\ free_chain (chunks m x) = NodeLinked;
  sti_nodup : forall c, NoDup (free_chunks seg c);
  sti_other : forall x c,
    oth x c ->
    mclass (chunks m x) = c /\ forall c', ~ In x (free_chunks seg c')
}.

(** The chunks that are not free have cleared links. *)
Definition others_unlinked (m : memory) (oth : Z -> Z -> Prop) : Prop :=
  forall x c, oth x c -> free_chain (chunks m x) = NodeNull.

(** No two buddies are free at once. *)
Definition no_free_buddies (seg : dmaBufferSegment) : Prop :=
  forall c x,
    In x (free_chunks seg c) -> In (x + pow2 c) (free_chunks seg c) ->
    (x - base) mod pow2 (c + 1) = 0 -> False.

Lemma seg_tiled_ext seg m oth oth' :
  (forall x c, oth x c <-> oth' x c) ->
  seg_tiled seg m oth -> seg_tiled seg m oth'.
Proof.
  intros E [T F N O]. constructor; auto.
  - eapply tiling_ext; [|exact T]. intros x c. unfold chunk_of.
    rewrite E. tauto.
  - intros x c H. apply O. now apply E.
Qed.

Lemma free_chunk_class seg m oth c c' x :
  seg_tiled seg m oth ->
  In x (free_chunks seg c) -> In x (free_chunks seg c') -> c = c'.
Proof.
  intros H H1 H2.
  destruct (sti_free _ _ _ H c x H1) as [E1 _].
  destruct (sti_free _ _ _ H c' x H2) as [E2 _]. congruence.
Qed.

Lemma set_free_chunks_same seg c l :
  free_chunks (set_free_chunks seg c l) c = l.
Proof. simpl. apply upd_same. Qed.

Lemma set_free_chunks_other seg c l c' :
  c' <> c -> free_chunks (set_free_chunks seg c l) c' = free_chunks seg c'.
Proof. intros. simpl. now apply upd_other. Qed.

(** The free lists after [split_halves]. *)
Lemma split_halves_lists seg m k x rest c :
  free_chunks (fst (split_halves seg m k x rest)) c =
  if c =? k - 1 then free_chunks seg (k - 1) ++ [x; x + pow2 (k - 1)]
  else if c =? k then rest
  else free_chunks seg c.
Proof.
  unfold split_halves, dlist_push_tail. cbn [fst].
  destruct (Z.eqb_spec c (k - 1)) as [->|H1].
  - rewrite set_free_chunks_same. rewrite set_free_chunks_same.
    rewrite set_free_chunks_other by lia.
    rewrite <- app_assoc. reflexivity.
  - rewrite !set_free_chunks_other by assumption.
    destruct (Z.eqb_spec c k) as [->|H2].
    + apply set_free_chunks_same.
    + now apply set_free_chunks_other.
Qed.

Lemma split_halves_chunks seg m k x rest a :
  chunks (snd (split_halves seg m k x rest)) a =
  if (a =? x) || (a =? x + pow2 (k - 1)) then
    (if a =? x + pow2 (k - 1) then fresh_free_chunk (k - 1)
     else fresh_free_chunk (k - 1))
  else chunks m a.
Proof.
  unfold split_halves, set_chunk. cbn [snd chunks]. unfold upd.
  destruct (a =? x + pow2 (k - 1)); [now rewrite orb_true_r|].
  rewrite orb_false_r. destruct (a =? x); reflexivity.
Qed.

(** Splitting the head of a free list keeps the tiling. *)
Lemma split_halves_tiled seg m oth k x rest :
  seg_tiled seg m oth ->
  DMABUF_CHUNKSZ_MIN_BIT < k ->
  free_chunks seg k = x :: rest ->
  seg_tiled (fst (split_halves seg m k x rest))
            (snd (split_halves seg m k x rest)) oth.
Proof.
  intros H Hk Hfree.
  pose proof (sti_tiling _ _ _ H) as T.
  assert (Hx : chunk_of seg oth x k) by (left; rewrite Hfree; now left).
  pose proof (til_placed _ _ _ T x k Hx) as Px.
  assert (Hk0 : 0 <= k - 1) by (unfold DMABUF_CHUNKSZ_MIN_BIT in *; lia).
  pose proof (pow2_pos (k - 1) Hk0) as Hp.
  pose proof (pow2_succ (k - 1) Hk0) as Hs.
  replace (k - 1 + 1) with k in Hs by lia.
  pose proof (sti_nodup _ _ _ H k) as Nk. rewrite Hfree in Nk.
  apply NoDup_cons_iff in Nk as [Nx Nrest].
  assert (Hmid : forall d, chunk_of seg oth (x + pow2 (k - 1)) d -> False).
  { intros d Hd.
    apply (inside_chunk_not_chunk base size _ T x k _ d Hx Hd). lia. }
  assert (Hxfree : forall c, In x (free_chunks seg c) -> c = k).
  { intros c Hc. eapply free_chunk_class; [exact H|exact Hc|].
    rewrite Hfree. now left. }
  constructor.
  - (* the tiling *)
    assert (Hxoth : forall c, oth x c -> False).
    { intros c Ho. destruct (sti_other _ _ _ H x c Ho) as [_ Hn].
      apply (Hn k). rewrite Hfree. now left. }
    apply (tiling_ext base size (split_set (chunk_of seg oth) x k));
      [|apply tiling_split; assumption].
    intros y d. apply iff_sym. unfold split_set, chunk_of.
    rewrite split_halves_lists.
    destruct (Z.eqb_spec d (k - 1)) as [->|Hd1];
      [|destruct (Z.eqb_spec d k) as [->|Hd2]].
    + rewrite in_app_iff. simpl. split.
      * intros [[Hy|[<-|[<-|[]]]]|Ho].
        -- left. split; [auto|]. intros ->. apply Hxfree in Hy. lia.
        -- right. left. auto.
        -- right. right. auto.
        -- left. split; [auto|]. intros ->. eauto.
      * intros [[[Hy|Ho] Hne]|[[-> _]|[-> _]]]; auto 6.
    + rewrite Hfree. simpl. split.
      * intros [Hy|Ho].
        -- left. split; [auto|]. intros ->. contradiction.
        -- left. split; [auto|]. intros ->. eauto.
      * intros [[[[E|Hy]|Ho] Hne]|[[_ E]|[_ E]]]; auto; lia.
    + split.
      * intros [Hy|Ho].
        -- left. split; [auto|]. intros ->. apply Hxfree in Hy. lia.
        -- left. split; [auto|]. intros ->. eauto.
      * intros [[Hy Hne]|[[_ E]|[_ E]]]; auto; lia.
  - (* the headers of the free chunks *)
    intros c y. rewrite split_halves_lists, split_halves_chunks.
    destruct (Z.eqb_spec y (x + pow2 (k - 1))) as [Ey2|Hy2].
    { rewrite orb_true_r. subst y.
      destruct (Z.eqb_spec c (k - 1)) as [Ec1|Hc1]; [intros _; subst c; auto|].
      intros Hin. exfalso. destruct (Z.eqb_spec c k) as [Ec2|Hc2].
      - apply (Hmid k). left. rewrite Hfree. now right.
      - apply (Hmid c). now left. }
    rewrite orb_false_r.
    destruct (Z.eqb_spec y x) as [Ey1|Hy1].
    { subst y.
      destruct (Z.eqb_spec c (k - 1)) as [Ec1|Hc1]; [intros _; subst c; auto|].
      intros Hin. exfalso.
      destruct (Z.eqb_spec c k) as [Ec2|Hc2]; [contradiction|].
      apply Hxfree in Hin. lia. }
    destruct (Z.eqb_spec c (k - 1)) as [Ec1|Hc1].
    + subst c. rewrite in_app_iff. simpl.
      intros [Hin|[E|[E|[]]]]; try congruence.
      now apply (sti_free _ _ _ H).
    + destruct (Z.eqb_spec c k) as [Ec2|Hc2].
      * subst c. intros Hin. apply (sti_free _ _ _ H). rewrite Hfree. now right.
      * apply (sti_free _ _ _ H).
  - (* no chunk twice on a list *)
    intros c. rewrite split_halves_lists.
    destruct (Z.eqb_spec c (k - 1)) as [->|Hc1].
    + apply NoDup_app; [apply (sti_nodup _ _ _ H)| |].
      * constructor; [simpl; lia|]. constructor; [tauto|constructor].
      * intros y Hy [<-|[<-|[]]].
        -- apply Hxfree in Hy. lia.
        -- apply (Hmid (k - 1)). now left.
    + destruct (Z.eqb_spec c k); [assumption|apply (sti_nodup _ _ _ H)].
  - (* the other chunks *)
    intros y c Ho.
    destruct (sti_other _ _ _ H y c Ho) as [Hcl Hn].
    assert (Hy1 : y <> x).
    { intros ->. apply (Hn k). rewrite Hfree. now left. }
    assert (Hy2 : y <> x + pow2 (k - 1)).
    { intros ->. apply (Hmid c). now right. }
    split.
    + rewrite split_halves_chunks.
      destruct (Z.eqb_spec y x); [contradiction|].
      destruct (Z.eqb_spec y (x + pow2 (k - 1))); [contradiction|].
      exact Hcl.
    + intros c'. rewrite split_halves_lists.
      destruct (Z.eqb_spec c' (k - 1)) as [->|Hc1].
      * rewrite in_app_iff. simpl. intros [Hin|[E|[E|[]]]]; try congruence.
        now apply (Hn (k - 1)).
      * destruct (Z.eqb_spec c' k) as [->|Hc2].
        -- intros Hin. apply (Hn k). rewrite Hfree. now right.
        -- apply Hn.
Qed.

(** The free lists after [dmaBufferSplitChunk] at class [k] has split the
    head [x] of the list of class [j], the first that is not empty. *)
Definition split_lists (f : Z -> list Z) (x k j : Z) : Z -> list Z :=
  fun c =>
    if c =? k - 1 then f (k - 1) ++ [x; x + pow2 (k - 1)]
    else if (k <=? c) && (c <? j) then [x + pow2 c]
    else if c =? j then tl (f j)
    else f c.

Lemma dmaBufferSplitChunk_rec_spec oth (fuel : nat) :
  forall seg m k seg' m',
    seg_tiled seg m oth ->
    DMABUF_CHUNKSZ_MIN_BIT < k ->
    dmaBufferSplitChunk_rec fuel seg m k = Some (seg', m') ->
    exists x j,
      k <= j < DMABUF_CHUNKSZ_MAX_BIT /\
      (forall i, k <= i < j -> free_chunks seg i = []) /\
      hd_error (free_chunks seg j) = Some x /\
      (forall c, free_chunks seg' c = split_lists (free_chunks seg) x k j c) /\
      seg_tiled seg' m' oth /\
      (forall a, (forall c, ~ In a (free_chunks seg' c)) ->
                 chunks m' a = chunks m a) /\
      data m' = data m.
Proof.
  induction fuel as [|fuel IH]; intros seg m k seg' m' Htil Hk;
    cbn [dmaBufferSplitChunk_rec]; [discriminate|].
  destruct (Z.geb_spec k DMABUF_CHUNKSZ_MAX_BIT) as [|Hmax]; [discriminate|].
  destruct (free_chunks seg k) as [|x rest] eqn:Hfree; cbn [dlist_is_empty].
  - (* nothing to split at this class: split the class above first *)
    destruct (dmaBufferSplitChunk_rec fuel seg m (k + 1)) as [[seg1 m1]|] eqn:E;
      [|discriminate].
    destruct (IH seg m (k + 1) seg1 m1 Htil ltac:(zlia) E)
      as (x & j & Hj & Hempty & Hhd & Hlists & Htil1 & Hframe & Hdata).
    assert (Hfree1 : free_chunks seg1 k = [x; x + pow2 k]).
    { rewrite Hlists. unfold split_lists.
      replace (k + 1 - 1) with k by lia. rewrite Z.eqb_refl.
      now rewrite Hfree. }
    rewrite Hfree1. intros Heq. inj_pair Heq.
    exists x, j. split; [zlia|]. split.
    { intros i Hi. destruct (Z.eq_dec i k) as [->|]; [assumption|].
      apply Hempty. zlia. }
    split; [assumption|]. split.
    { intros c. rewrite split_halves_lists, !Hlists. unfold split_lists.
      replace (k + 1 - 1) with k by lia.
      destruct (Z.eqb_spec c (k - 1)) as [->|Hc1].
      - destruct (Z.eqb_spec (k - 1) k); [zlia|].
        destruct (Z.leb_spec (k + 1) (k - 1)); [zlia|]. simpl.
        destruct (Z.eqb_spec (k - 1) j); [lia|reflexivity].
      - destruct (Z.eqb_spec c k) as [->|Hc2].
        + destruct (Z.leb_spec k k); [|lia].
          destruct (Z.ltb_spec k j); [reflexivity|lia].
        + destruct (Z.leb_spec (k + 1) c), (Z.leb_spec k c); try lia;
            reflexivity. }
    split; [now apply split_halves_tiled|]. split.
    { intros a Ha. rewrite split_halves_chunks.
      destruct (Z.eqb_spec a x) as [->|Hax].
      { exfalso. apply (Ha (k - 1)). rewrite split_halves_lists, Z.eqb_refl.
        rewrite in_app_iff. right. now left. }
      destruct (Z.eqb_spec a (x + pow2 (k - 1))) as [->|Hax2].
      { exfalso. apply (Ha (k - 1)). rewrite split_halves_lists, Z.eqb_refl.
        rewrite in_app_iff. right. right. now left. }
      simpl. apply Hframe. intros c Hin.
      destruct (Z.eq_dec c k) as [->|Hck].
      - rewrite Hfree1 in Hin. destruct Hin as [<-|[<-|[]]]; [congruence|].
        apply (Ha k). rewrite split_halves_lists.
        destruct (Z.eqb_spec k (k - 1)); [zlia|]. rewrite Z.eqb_refl. now left.
      - apply (Ha c). rewrite split_halves_lists.
        destruct (Z.eqb_spec c (k - 1)) as [->|]; [|].
        + rewrite in_app_iff. now left.
        + destruct (Z.eqb_spec c k); [lia|assumption]. }
    simpl. assumption.
  - (* the head of this class is split *)
    rewrite Hfree. intros Heq. inj_pair Heq. exists x, k. split; [zlia|]. split; [intros; zlia|].
    split; [now rewrite Hfree|]. split.
    { intros c. rewrite split_halves_lists. unfold split_lists.
      destruct (Z.eqb_spec c (k - 1)); [reflexivity|].
      destruct (Z.leb_spec k c), (Z.ltb_spec c k); try lia; simpl;
        destruct (Z.eqb_spec c k) as [->|]; try reflexivity;
        now rewrite Hfree. }
    split; [now apply split_halves_tiled|]. split; [|reflexivity].
    intros a Ha. rewrite split_halves_chunks.
    destruct (Z.eqb_spec a x) as [->|Hax].
    { exfalso. apply (Ha (k - 1)). rewrite split_halves_lists, Z.eqb_refl.
      rewrite in_app_iff. right. now left. }
    destruct (Z.eqb_spec a (x + pow2 (k - 1))) as [->|Hax2].
    { exfalso. apply (Ha (k - 1)). rewrite split_halves_lists, Z.eqb_refl.
      rewrite in_app_iff. right. right. now left. }
    reflexivity.
Qed.

(** The set of the other chunks with one more chunk. *)
Definition with_chunk (oth : Z -> Z -> Prop) (z k : Z) : Z -> Z -> Prop :=
  fun y d => oth y d \/ (y = z /\ d = k).

Lemma init_chunk_lists seg m c req x rest c' :
  free_chunks (snd (fst (init_chunk seg m c req x rest))) c' =
  if c' =? c then rest else free_chunks seg c'.
Proof.
  unfold init_chunk. cbn [fst snd set_num_chunks free_chunks set_free_chunks].
  unfold upd. reflexivity.
Qed.

Lemma init_chunk_chunks seg m c req x rest a :
  chunks (snd (init_chunk seg m c req x rest)) a =
  if a =? x
  then mkChunk NodeNull (gcxt_chain (chunks m x)) None req c
               DMABUF_CHUNK_MAGIC_CODE
  else chunks m a.
Proof. unfold init_chunk, set_MAGIC_TAIL, store32, set_chunk, upd. reflexivity. Qed.

(** Taking the head of a free list keeps the tiling, with the chunk now
    among the others. *)
Lemma init_chunk_tiled seg m oth c req x rest :
  seg_tiled seg m oth ->
  free_chunks seg c = x :: rest ->
  seg_tiled (snd (fst (init_chunk seg m c req x rest)))
            (snd (init_chunk seg m c req x rest)) (with_chunk oth x c).
Proof.
  intros H Hfree.
  pose proof (sti_nodup _ _ _ H c) as Nc. rewrite Hfree in Nc.
  apply NoDup_cons_iff in Nc as [Nx Nrest].
  assert (Hxfree : forall d, In x (free_chunks seg d) -> d = c).
  { intros d Hd. eapply free_chunk_class; [exact H|exact Hd|].
    rewrite Hfree. now left. }
  assert (Hxoth : forall d, oth x d -> False).
  { intros d Ho. destruct (sti_other _ _ _ H x d Ho) as [_ Hn].
    apply (Hn c). rewrite Hfree. now left. }
  assert (Hin : forall y d,
             In y (free_chunks (snd (fst (init_chunk seg m c req x rest))) d)
             <-> In y (free_chunks seg d) /\ y <> x).
  { intros y d. rewrite init_chunk_lists.
    destruct (Z.eqb_spec d c) as [->|Hd].
    - rewrite Hfree. simpl. split.
      + intros Hy. split; [auto|]. intros ->. contradiction.
      + intros [[E|Hy] Hne]; [congruence|assumption].
    - split; [|tauto]. intros Hy. split; [assumption|].
      intros ->. apply Hxfree in Hy. contradiction. }
  constructor.
  - apply (tiling_ext base size (chunk_of seg oth)); [|apply (sti_tiling _ _ _ H)].
    intros y d. unfold chunk_of, with_chunk. rewrite Hin. split.
    + intros [Hy|Ho]; [|auto].
      destruct (Z.eq_dec y x) as [->|Hne]; [|auto].
      right. right. split; [reflexivity|]. now apply Hxfree.
    + intros [[Hy _]|[Ho|[-> ->]]]; auto.
      left. rewrite Hfree. now left.
  - intros d y Hy. apply Hin in Hy as [Hy Hne].
    rewrite init_chunk_chunks.
    destruct (Z.eqb_spec y x); [contradiction|].
    now apply (sti_free _ _ _ H).
  - intros d. rewrite init_chunk_lists.
    destruct (Z.eqb_spec d c); [assumption|apply (sti_nodup _ _ _ H)].
  - intros y d [Ho|[-> ->]].
    + destruct (sti_other _ _ _ H y d Ho) as [Hcl Hn].
      rewrite init_chunk_chunks.
      destruct (Z.eqb_spec y x) as [->|Hne]; [exfalso; eauto|].
      split; [assumption|]. intros c' Hy. apply Hin in Hy as [Hy _].
      now apply (Hn c').
    + rewrite init_chunk_chunks, Z.eqb_refl. split; [reflexivity|].
      intros c' Hy. apply Hin in Hy as [_ Hne]. congruence.
Qed.

(** The free lists after [dmaBufferAllocChunk] has taken [x], split off
    the head of the list of class [j]. *)
Definition alloc_lists (f : Z -> list Z) (x cls j : Z) : Z -> list Z :=
  fun c =>
    if (cls <=? c) && (c <? j) then [x + pow2 c]
    else if c =? j then tl (f j)
    else f c.

Lemma dmaBufferAllocChunk_spec oth seg m cls req x seg' m' :
  seg_tiled seg m oth ->
  DMABUF_CHUNKSZ_MIN_BIT <= cls ->
  dmaBufferAllocChunk seg m cls req = Some (x, seg', m') ->
  exists j,
    cls <= j /\ (cls < j -> j < DMABUF_CHUNKSZ_MAX_BIT) /\
    (forall i, cls <= i < j -> free_chunks seg i = []) /\
    hd_error (free_chunks seg j) = Some x /\
    (forall c, free_chunks seg' c = alloc_lists (free_chunks seg) x cls j c) /\
    seg_tiled seg' m' (with_chunk oth x cls) /\
    chunks m' x = mkChunk NodeNull (gcxt_chain (chunks m' x)) None req cls
                          DMABUF_CHUNK_MAGIC_CODE /\
    (forall a, a <> x -> (forall c, ~ In a (free_chunks seg' c)) ->
               chunks m' a = chunks m a) /\
    data m' = data (store32 m (magic_tail_addr x req) DMABUF_CHUNK_MAGIC_CODE).
Proof.
  intros Htil Hcls. unfold dmaBufferAllocChunk.
  destruct (free_chunks seg cls) as [|y rest] eqn:Hfree; cbn [dlist_is_empty].
  - destruct (dmaBufferSplitChunk seg m (cls + 1)) as [[seg1 m1]|] eqn:E;
      [|discriminate].
    unfold dmaBufferSplitChunk in E.
    destruct (dmaBufferSplitChunk_rec_spec oth _ seg m (cls + 1) seg1 m1 Htil
                ltac:(zlia) E)
      as (x0 & j & Hj & Hempty & Hhd & Hlists & Htil1 & Hframe & Hdata).
    assert (Hfree1 : free_chunks seg1 cls = [x0; x0 + pow2 cls]).
    { rewrite Hlists. unfold split_lists.
      replace (cls + 1 - 1) with cls by lia. rewrite Z.eqb_refl.
      now rewrite Hfree. }
    rewrite Hfree1. intros Heq.
    assert (Hres : init_chunk seg1 m1 cls req x0 [x0 + pow2 cls] = (x, seg', m'))
      by congruence.
    assert (x = x0) by (now apply (f_equal (fun r => fst (fst r))) in Hres).
    subst x0.
    assert (Hseg : seg' = snd (fst (init_chunk seg1 m1 cls req x [x + pow2 cls])))
      by (now rewrite Hres).
    assert (Hmem : m' = snd (init_chunk seg1 m1 cls req x [x + pow2 cls]))
      by (now rewrite Hres).
    clear Heq Hres. subst seg' m'.
    exists j. split; [lia|]. split; [intros; lia|]. split.
    { intros i Hi. destruct (Z.eq_dec i cls) as [->|]; [assumption|].
      apply Hempty. lia. }
    split; [assumption|]. split.
    { intros c. rewrite init_chunk_lists, Hlists. unfold split_lists, alloc_lists.
      replace (cls + 1 - 1) with cls by lia.
      destruct (Z.eqb_spec c cls) as [->|Hc].
      - destruct (Z.leb_spec cls cls); [|lia].
        destruct (Z.ltb_spec cls j); [reflexivity|lia].
      - destruct (Z.leb_spec (cls + 1) c), (Z.leb_spec cls c); try lia;
          reflexivity. }
    split; [now apply init_chunk_tiled|]. split.
    { rewrite init_chunk_chunks, Z.eqb_refl. reflexivity. }
    split.
    { intros a Ha Hn. rewrite init_chunk_chunks.
      destruct (Z.eqb_spec a x); [contradiction|].
      apply Hframe. intros c Hin.
      destruct (Z.eq_dec c cls) as [->|Hc].
      - rewrite Hfree1 in Hin. destruct Hin as [<-|[<-|[]]]; [congruence|].
        apply (Hn cls). rewrite init_chunk_lists, Z.eqb_refl. now left.
      - apply (Hn c). rewrite init_chunk_lists.
        destruct (Z.eqb_spec c cls); [contradiction|assumption]. }
    unfold init_chunk, set_MAGIC_TAIL, store32, set_chunk. cbn [snd data chunks].
    rewrite upd_same. cbn [required]. now rewrite Hdata.
  - intros Heq. rewrite Hfree in Heq.
    assert (Hres : init_chunk seg m cls req y rest = (x, seg', m'))
      by congruence.
    assert (x = y) by (now apply (f_equal (fun r => fst (fst r))) in Hres).
    subst y.
    assert (Hseg : seg' = snd (fst (init_chunk seg m cls req x rest)))
      by (now rewrite Hres).
    assert (Hmem : m' = snd (init_chunk seg m cls req x rest))
      by (now rewrite Hres).
    clear Heq Hres. subst seg' m'.
    exists cls. split; [lia|]. split; [intros; lia|]. split; [intros; lia|].
    split; [now rewrite Hfree|]. split.
    { intros c. rewrite init_chunk_lists. unfold alloc_lists.
      destruct (Z.leb_spec cls c), (Z.ltb_spec c cls); try lia; simpl;
        destruct (Z.eqb_spec c cls) as [->|]; try reflexivity;
        now rewrite Hfree. }
    split; [now apply init_chunk_tiled|]. split.
    { rewrite init_chunk_chunks, Z.eqb_refl. reflexivity. }
    split.
    { intros a Ha Hn. rewrite init_chunk_chunks.
      destruct (Z.eqb_spec a x); [contradiction|reflexivity]. }
    unfold init_chunk, set_MAGIC_TAIL, store32, set_chunk. cbn [snd data chunks].
    rewrite upd_same. reflexivity.
Qed.

(** *** The merge loop *)

Lemma pow2_lt_inv (a b : Z) : 0 <= a -> 0 <= b -> pow2 a <= pow2 b -> a <= b.
Proof.
  intros Ha Hb H. rewrite !pow2_spec in H by assumption.
  apply (Z.pow_le_mono_r_iff 2); lia.
Qed.

(** The test of line 947 on a placed chunk. *)
Lemma offset_bit z k :
  placed base size z k ->
  ((Z.land (Size_wrap (z - base)) (pow2 k) =? 0) = true /\
   (z - base) mod pow2 (k + 1) = 0) \/
  ((Z.land (Size_wrap (z - base)) (pow2 k) =? 0) = false /\
   (z - base) mod pow2 (k + 1) = pow2 k).
Proof.
  intros (Hk & Hb & He & Hm).
  assert (Hk0 : 0 <= k) by zlia.
  pose proof (pow2_pos k Hk0) as Hp.
  assert (Hbig : pow2 DMABUF_CHUNKSZ_MAX_BIT < 2 ^ 64) by (vm_compute; reflexivity).
  rewrite Size_wrap_small by lia.
  rewrite land_pow2 by assumption.
  destruct (bit_of_aligned (z - base) k Hk0 Hm) as [[-> H]|[-> H]].
  - left. split; [reflexivity|assumption].
  - right. split; [|assumption]. apply Z.eqb_neq. lia.
Qed.

(** A placed chunk with a buddy above it in the segment is not of the
    largest class. *)
Lemma placed_below_max z k :
  placed base size z k -> placed base size (z + pow2 k) k ->
  k < DMABUF_CHUNKSZ_MAX_BIT.
Proof.
  intros (Hk & Hb & He & Hm) (_ & Hb' & He' & _).
  assert (Hk0 : 0 <= k) by zlia.
  pose proof (pow2_succ k Hk0) as Hs.
  assert (Hle : pow2 (k + 1) <= pow2 DMABUF_CHUNKSZ_MAX_BIT) by lia.
  assert (k + 1 <= DMABUF_CHUNKSZ_MAX_BIT)
    by (apply pow2_lt_inv; [zlia|zlia|exact Hle]).
  lia.
Qed.

Lemma delete_free_chain_lists seg b c :
  free_chunks (delete_free_chain seg b) c = dlist_delete (free_chunks seg c) b.
Proof. reflexivity. Qed.

(** The chunk carried by the loop; [A] are the other chunks that are
    not free, none of which is the carried one. *)
Definition carried (A : Z -> Z -> Prop) (seg : dmaBufferSegment) (m : memory)
  (z : Z) : Prop :=
  seg_tiled seg m (with_chunk A z (mclass (chunks m z))) /\
  (forall d, ~ A z d) /\ others_unlinked m A.

Definition raise_class (m : memory) (z : Z) : memory :=
  set_chunk m z
    (mkChunk (free_chain (chunks m z)) (gcxt_chain (chunks m z))
             (shgcon (chunks m z)) (required (chunks m z))
             (mclass (chunks m z) + 1) (magic_head (chunks m z))).

(** Merging the carried chunk [z] with its free buddy [b]; [lo] is the
    lower of the two, which is carried on. *)
Lemma merge_tiled A seg m z b lo :
  carried A seg m z ->
  In b (free_chunks seg (mclass (chunks m z))) ->
  (lo = z /\ b = z + pow2 (mclass (chunks m z)) \/
   lo = b /\ z = b + pow2 (mclass (chunks m z))) ->
  (lo - base) mod pow2 (mclass (chunks m z) + 1) = 0 ->
  carried A (delete_free_chain seg b) (raise_class m lo) lo.
Proof.
  intros (Htil & Hz & Hun) Hb Hlo Hal.
  remember (mclass (chunks m z)) as k eqn:Ek.
  pose proof (sti_tiling _ _ _ Htil) as T.
  assert (Cz : chunk_of seg (with_chunk A z k) z k) by (right; right; auto).
  assert (Cb : chunk_of seg (with_chunk A z k) b k) by (left; assumption).
  destruct (sti_free _ _ _ Htil k b Hb) as [Hbk Hbl].
  destruct (sti_other _ _ _ Htil z k ltac:(right; auto)) as [_ Hzfree].
  assert (Hbz : b <> z) by (intros ->; now apply (Hzfree k)).
  assert (HbA : forall d, ~ A b d).
  { intros d Ho. destruct (sti_other _ _ _ Htil b d ltac:(left; exact Ho))
      as [_ Hn]. now apply (Hn k). }
  assert (Hbfree : forall d, In b (free_chunks seg d) -> d = k).
  { intros d Hd. eapply free_chunk_class; eassumption. }
  assert (Hlok : mclass (chunks m lo) = k).
  { destruct Hlo as [[-> _]|[-> _]]; [congruence|assumption]. }
  assert (HloA : forall d, ~ A lo d).
  { destruct Hlo as [[-> _]|[-> _]]; assumption. }
  assert (Hlonew : mclass (chunks (raise_class m lo) lo) = k + 1).
  { unfold raise_class, set_chunk. cbn [chunks]. rewrite upd_same.
    cbn [mclass]. lia. }
  assert (Hframe : forall a, a <> lo ->
             chunks (raise_class m lo) a = chunks m a).
  { intros a Ha. unfold raise_class, set_chunk. cbn [chunks].
    now apply upd_other. }
  assert (Hlofree : forall d, ~ In lo (dlist_delete (free_chunks seg d) b)).
  { intros d Hin. apply In_dlist_delete in Hin as [Hin Hne].
    destruct Hlo as [[-> _]|[-> _]]; [now apply (Hzfree d)|congruence]. }
  split; [|split].
  - rewrite Hlonew. constructor.
    + (* the tiling *)
      assert (Tm : tiling base size (merge_set (chunk_of seg (with_chunk A z k)) lo k)).
      { destruct Hlo as [[-> ->]|[-> ->]].
        - apply tiling_merge; try assumption.
          apply (placed_below_max z k); now apply (til_placed _ _ _ T).
        - apply tiling_merge; try assumption.
          apply (placed_below_max b k); now apply (til_placed _ _ _ T). }
      apply (tiling_ext base size _ _ (fun y d => iff_refl _)) in Tm.
      eapply tiling_ext; [|exact Tm].
      intros y d. unfold merge_set, chunk_of, with_chunk.
      rewrite delete_free_chain_lists, In_dlist_delete.
      assert (Hpair : forall q, (q <> lo /\ q <> lo + pow2 k) <-> (q <> z /\ q <> b)).
      { intros q. destruct Hlo as [[-> ->]|[-> ->]]; tauto. }
      rewrite Hpair. split.
      * intros [[[Hy|[Ho|[-> ->]]] [Hn1 Hn2]]|[-> ->]]; auto; tauto.
      * intros [[Hy Hne]|[Ho|[-> ->]]].
        -- left. split; [auto|]. split; [|assumption].
           intros ->. now apply (Hzfree d).
        -- left. split; [auto|]. split; intros ->; [now apply (Hz d)|].
           now apply (HbA d).
        -- right. auto.
    + intros d y Hy. rewrite delete_free_chain_lists in Hy.
      pose proof Hy as Hy'. apply In_dlist_delete in Hy' as [Hin Hne].
      rewrite Hframe; [now apply (sti_free _ _ _ Htil)|].
      intros ->. now apply (Hlofree d).
    + intros d. rewrite delete_free_chain_lists.
      apply NoDup_dlist_delete, (sti_nodup _ _ _ Htil).
    + intros y d [Ho|[-> ->]].
      * destruct (sti_other _ _ _ Htil y d ltac:(left; exact Ho)) as [Hcl Hn].
        rewrite Hframe by (intros ->; now apply (HloA d)).
        split; [assumption|]. intros c' Hin.
        rewrite delete_free_chain_lists in Hin.
        apply In_dlist_delete in Hin as [Hin _]. now apply (Hn c').
      * split; [assumption|]. intros c'. rewrite delete_free_chain_lists.
        apply Hlofree.
  - assumption.
  - intros y d Ho. rewrite Hframe by (intros ->; now apply (HloA d)).
    now apply (Hun y d).
Qed.

(** The carried chunk cannot be merged: its buddy is not free in its
    class. *)
Definition unmergeable (seg : dmaBufferSegment) (z k : Z) : Prop :=
  ((z - base) mod pow2 (k + 1) = 0 -> ~ In (z + pow2 k) (free_chunks seg k)) /\
  ((z - base) mod pow2 (k + 1) = pow2 k -> ~ In (z - pow2 k) (free_chunks seg k)).

Lemma carried_placed A seg m z :
  carried A seg m z -> placed base size z (mclass (chunks m z)).
Proof.
  intros (Htil & _). apply (til_placed _ _ _ (sti_tiling _ _ _ Htil)).
  right. right. auto.
Qed.

(** One turn of the loop with the buddy above the carried chunk. *)
Lemma merge_turn_upper A seg m z :
  carried A seg m z ->
  (z - base) mod pow2 (mclass (chunks m z) + 1) = 0 ->
  (In (z + pow2 (mclass (chunks m z))) (free_chunks seg (mclass (chunks m z))) ->
   merge_chunks base size seg m z =
   merge_chunks base size
     (delete_free_chain seg (z + pow2 (mclass (chunks m z))))
     (raise_class m z) z) /\
  (~ In (z + pow2 (mclass (chunks m z))) (free_chunks seg (mclass (chunks m z))) ->
   merge_chunks base size seg m z = (seg, m, z)).
Proof.
  intros Hc Hal. pose proof (carried_placed _ _ _ _ Hc) as Pz.
  destruct Hc as (Htil & Hz & Hun).
  pose proof (sti_tiling _ _ _ Htil) as T.
  remember (mclass (chunks m z)) as k eqn:Ek.
  assert (Hk0 : 0 <= k) by (destruct Pz; zlia).
  pose proof (pow2_pos k Hk0) as Hp.
  rewrite merge_chunks_eq. unfold merge_turn. rewrite <- Ek.
  destruct (Z.leb_spec k DMABUF_CHUNKSZ_MAX_BIT); [|destruct Pz; lia].
  destruct (offset_bit z k Pz) as [[-> _]|[_ Hbad]]; [|lia].
  split.
  - intros Hb.
    pose proof (til_placed _ _ _ T _ k ltac:(left; exact Hb)) as (_ & _ & He & _).
    destruct (Z.geb_spec (z + pow2 k) (base + size)); [lia|].
    destruct (sti_free _ _ _ Htil k _ Hb) as [-> ->].
    rewrite Z.eqb_refl. cbn [negb orb node_is_null].
    unfold raise_class. rewrite <- Ek. reflexivity.
  - intros Hnb.
    destruct (Z.geb_spec (z + pow2 k) (base + size)); [reflexivity|].
    destruct (upper_buddy_is_chunk base size _ T z k) as (d & Hd & Hdk);
      [right; right; auto|assumption|lia|].
    destruct Hd as [Hd|[Hd|[Hd _]]]; [| |lia].
    + destruct (sti_free _ _ _ Htil d _ Hd) as [-> _].
      destruct (Z.eqb_spec d k) as [->|]; [contradiction|reflexivity].
    + destruct (sti_other _ _ _ Htil _ d ltac:(left; exact Hd)) as [-> _].
      rewrite (Hun _ d Hd). now rewrite orb_true_r.
Qed.

(** One turn of the loop with the buddy below the carried chunk. *)
Lemma merge_turn_lower A seg m z :
  carried A seg m z ->
  (z - base) mod pow2 (mclass (chunks m z) + 1) = pow2 (mclass (chunks m z)) ->
  (In (z - pow2 (mclass (chunks m z))) (free_chunks seg (mclass (chunks m z))) ->
   merge_chunks base size seg m z =
   merge_chunks base size
     (delete_free_chain seg (z - pow2 (mclass (chunks m z))))
     (raise_class m (z - pow2 (mclass (chunks m z))))
     (z - pow2 (mclass (chunks m z)))) /\
  (~ In (z - pow2 (mclass (chunks m z))) (free_chunks seg (mclass (chunks m z))) ->
   merge_chunks base size seg m z = (seg, m, z)).
Proof.
  intros Hc Hal. pose proof (carried_placed _ _ _ _ Hc) as Pz.
  destruct Hc as (Htil & Hz & Hun).
  pose proof (sti_tiling _ _ _ Htil) as T.
  remember (mclass (chunks m z)) as k eqn:Ek.
  assert (Hk0 : 0 <= k) by (destruct Pz; zlia).
  pose proof (pow2_pos k Hk0) as Hp.
  rewrite merge_chunks_eq. unfold merge_turn. rewrite <- Ek.
  destruct (Z.leb_spec k DMABUF_CHUNKSZ_MAX_BIT); [|destruct Pz; lia].
  destruct (offset_bit z k Pz) as [[_ Hbad]|[-> _]]; [lia|].
  destruct (lower_buddy_is_chunk base size _ T z k) as (Hlow & d & Hd & Hdk);
    [right; right; auto|assumption|].
  destruct (Z.ltb_spec (z - pow2 k) base); [lia|].
  split.
  - intros Hb.
    destruct (sti_free _ _ _ Htil k _ Hb) as [Ecl Efc].
    unfold raise_class. rewrite Ecl, Efc, Z.eqb_refl.
    cbn [negb orb node_is_null]. reflexivity.
  - intros Hnb.
    destruct Hd as [Hd|[Hd|[Hd _]]]; [| |lia].
    + destruct (sti_free _ _ _ Htil d _ Hd) as [-> _].
      destruct (Z.eqb_spec d k) as [->|]; [contradiction|reflexivity].
    + destruct (sti_other _ _ _ Htil _ d ltac:(left; exact Hd)) as [-> _].
      rewrite (Hun _ d Hd). now rewrite orb_true_r.
Qed.

(** The loop ends with the carried chunk unmergeable, the tiling kept,
    and the free lists only shortened. *)
Lemma merge_chunks_carried A (n : nat) :
  forall seg m z,
    Z.to_nat (DMABUF_CHUNKSZ_MAX_BIT + 1 - mclass (chunks m z)) = n ->
    carried A seg m z ->
    exists seg' m' z',
      merge_chunks base size seg m z = (seg', m', z') /\
      carried A seg' m' z' /\
      unmergeable seg' z' (mclass (chunks m' z')) /\
      (forall c y, In y (free_chunks seg' c) -> In y (free_chunks seg c)) /\
      data m' = data m /\
      (forall a, (exists d, A a d) \/ a < base \/ base + size <= a ->
                 chunks m' a = chunks m a).
Proof.
  induction n as [n IH] using lt_wf_ind. intros seg m z Hn Hc.
  pose proof (carried_placed _ _ _ _ Hc) as Pz.
  remember (mclass (chunks m z)) as k eqn:Ek.
  assert (Hk : DMABUF_CHUNKSZ_MIN_BIT <= k <= DMABUF_CHUNKSZ_MAX_BIT)
    by (destruct Pz; assumption).
  assert (Hstop : merge_chunks base size seg m z = (seg, m, z) ->
                  unmergeable seg z k ->
                  exists seg' m' z',
                    merge_chunks base size seg m z = (seg', m', z') /\
                    carried A seg' m' z' /\
                    unmergeable seg' z' (mclass (chunks m' z')) /\
                    (forall c y, In y (free_chunks seg' c) -> In y (free_chunks seg c)) /\
                    data m' = data m /\
                    (forall a, (exists d, A a d) \/ a < base \/ base + size <= a ->
                 chunks m' a = chunks m a)).
  { intros E U. exists seg, m, z. rewrite <- Ek.
    split; [assumption|]. split; [assumption|]. split; [assumption|].
    split; [auto|]. split; [reflexivity|auto]. }
  assert (Hgo : forall b lo,
             In b (free_chunks seg k) ->
             (lo = z /\ b = z + pow2 k \/ lo = b /\ z = b + pow2 k) ->
             (lo - base) mod pow2 (k + 1) = 0 ->
             merge_chunks base size seg m z =
             merge_chunks base size (delete_free_chain seg b) (raise_class m lo) lo ->
             exists seg' m' z',
               merge_chunks base size seg m z = (seg', m', z') /\
               carried A seg' m' z' /\
               unmergeable seg' z' (mclass (chunks m' z')) /\
               (forall c y, In y (free_chunks seg' c) -> In y (free_chunks seg c)) /\
               data m' = data m /\
               (forall a, (exists d, A a d) \/ a < base \/ base + size <= a ->
                 chunks m' a = chunks m a)).
  { intros b lo Hb Hlo Hal E.
    assert (Hc1 : carried A (delete_free_chain seg b) (raise_class m lo) lo).
    { apply (merge_tiled A seg m z b lo); rewrite <- ?Ek; assumption. }
    assert (Hlok : mclass (chunks m lo) = k).
    { destruct Hlo as [[-> _]|[-> _]]; [congruence|].
      destruct Hc as (Htil & _). now destruct (sti_free _ _ _ Htil k b Hb). }
    assert (Hnew : mclass (chunks (raise_class m lo) lo) = k + 1).
    { unfold raise_class, set_chunk. cbn [chunks]. rewrite upd_same.
      cbn [mclass]. lia. }
    assert (HloA : forall d, ~ A lo d).
    { destruct Hc1 as (_ & H & _). exact H. }
    destruct (IH (Z.to_nat (DMABUF_CHUNKSZ_MAX_BIT + 1 - (k + 1))) ltac:(zlia)
                 (delete_free_chain seg b) (raise_class m lo) lo
                 ltac:(now rewrite Hnew) Hc1)
      as (seg' & m' & z' & E' & Hc' & U' & Hsub & Hdata & Hfr).
    exists seg', m', z'. rewrite E. split; [assumption|].
    split; [assumption|]. split; [assumption|]. split.
    { intros c y Hy. apply Hsub in Hy. rewrite delete_free_chain_lists in Hy.
      now apply In_dlist_delete in Hy. }
    split; [rewrite Hdata; reflexivity|].
    intros a Ha. rewrite (Hfr a Ha).
    unfold raise_class, set_chunk. cbn [chunks]. apply upd_other.
    intros ->. destruct Ha as [[d Ha]|Ha]; [now apply (HloA d)|].
    pose proof (carried_placed _ _ _ _ Hc1) as (_ & Hlb & Hle & _).
    rewrite Hnew in Hle. pose proof (pow2_pos (k + 1) ltac:(zlia)). lia. }
  assert (Hk0 : 0 <= k) by zlia.
  pose proof (pow2_pos k Hk0) as Hp.
  destruct (offset_bit z k Pz) as [[_ Hal]|[_ Hal]].
  - destruct (merge_turn_upper A seg m z Hc) as [Hyes Hno];
      [rewrite <- Ek; assumption|]. rewrite <- Ek in Hyes, Hno.
    destruct (in_dec Z.eq_dec (z + pow2 k) (free_chunks seg k)) as [Hb|Hnb].
    + apply (Hgo (z + pow2 k) z); auto.
    + apply Hstop; [auto|]. split; [auto|]. intros Hx. lia.
  - destruct (merge_turn_lower A seg m z Hc) as [Hyes Hno];
      [rewrite <- Ek; assumption|]. rewrite <- Ek in Hyes, Hno.
    destruct (in_dec Z.eq_dec (z - pow2 k) (free_chunks seg k)) as [Hb|Hnb].
    + apply (Hgo (z - pow2 k) (z - pow2 k)); auto.
      * right. split; [reflexivity|lia].
      * pose proof (pow2_succ k Hk0) as Hs.
        pose proof (Z.div_mod (z - base) (pow2 (k + 1)) ltac:(lia)) as Hd.
        replace (z - pow2 k - base)
          with (((z - base) / pow2 (k + 1)) * pow2 (k + 1)) by lia.
        apply Z.mod_mul. lia.
    + apply Hstop; [auto|]. split; [|auto]. intros Hx. lia.
Qed.

End SegmentInvariant.

(** ** Release and allocation keep the invariant *)

Section SegmentOperations.

Variables base size : Z.
Hypothesis size_max : size <= pow2 DMABUF_CHUNKSZ_MAX_BIT.

Lemma release_chunk_eq seg m chunk :
  release_chunk base size seg m chunk =
  let r := merge_chunks base size seg m chunk in
  let seg1 := fst (fst r) in
  let m1 := snd (fst r) in
  let chunk1 := snd r in
  let c := chunks m1 chunk1 in
  (set_num_chunks
     (set_free_chunks seg1 (mclass c)
        (dlist_push_head (free_chunks seg1 (mclass c)) chunk1))
     (num_chunks seg1 - 1),
   set_chunk m1 chunk1
     (mkChunk NodeLinked (gcxt_chain c) (shgcon c) (required c) (mclass c)
              (magic_head c))).
Proof.
  unfold release_chunk.
  destruct (merge_chunks base size seg m chunk) as [[seg1 m1] chunk1].
  reflexivity.
Qed.

(** The carried chunk put at the head of the free list of its class. *)
Lemma push_free_tiled A seg m z :
  carried base size A seg m z ->
  unmergeable base seg z (mclass (chunks m z)) ->
  no_free_buddies base seg ->
  let k := mclass (chunks m z) in
  let seg' := set_free_chunks seg k (dlist_push_head (free_chunks seg k) z) in
  let m' := set_chunk m z
              (mkChunk NodeLinked (gcxt_chain (chunks m z)) (shgcon (chunks m z))
                       (required (chunks m z)) k (magic_head (chunks m z))) in
  seg_tiled base size seg' m' A /\
  others_unlinked m' A /\
  no_free_buddies base seg'.
Proof.
  intros (Htil & Hz & Hun) U B. cbv zeta.
  remember (mclass (chunks m z)) as k eqn:Ek.
  pose proof (sti_tiling _ _ _ _ _ Htil) as T.
  destruct (sti_other _ _ _ _ _ Htil z k ltac:(right; auto)) as [_ Hzfree].
  assert (Pz : placed base size z k).
  { apply (til_placed _ _ _ T). right. right. auto. }
  assert (Hk0 : 0 <= k) by (destruct Pz; zlia).
  pose proof (pow2_pos k Hk0) as Hp.
  assert (Hlists : forall c y,
             In y (free_chunks (set_free_chunks seg k
                                  (dlist_push_head (free_chunks seg k) z)) c)
             <-> In y (free_chunks seg c) \/ (y = z /\ c = k)).
  { intros c y. destruct (Z.eq_dec c k) as [->|Hc].
    - rewrite set_free_chunks_same. unfold dlist_push_head. simpl.
      split; [intros [<-|H]; auto|intros [H|[-> _]]; auto].
    - rewrite set_free_chunks_other by assumption.
      split; [auto|intros [H|[_ H]]; [assumption|contradiction]]. }
  assert (Hframe : forall a, a <> z ->
             chunks (set_chunk m z
                       (mkChunk NodeLinked (gcxt_chain (chunks m z))
                                (shgcon (chunks m z)) (required (chunks m z)) k
                                (magic_head (chunks m z)))) a = chunks m a).
  { intros a Ha. unfold set_chunk. cbn [chunks]. now apply upd_other. }
  split; [|split].
  - constructor.
    + eapply tiling_ext; [|exact T]. intros y d.
      unfold chunk_of, with_chunk. rewrite Hlists. tauto.
    + intros c y Hy. apply Hlists in Hy as [Hy|[-> ->]].
      * rewrite Hframe; [now apply (sti_free _ _ _ _ _ Htil)|].
        intros ->. now apply (Hzfree c).
      * unfold set_chunk. cbn [chunks]. rewrite upd_same. auto.
    + intros c. destruct (Z.eq_dec c k) as [->|Hc].
      * rewrite set_free_chunks_same. constructor; [apply Hzfree|].
        apply (sti_nodup _ _ _ _ _ Htil).
      * rewrite set_free_chunks_other by assumption.
        apply (sti_nodup _ _ _ _ _ Htil).
    + intros y d Ho.
      destruct (sti_other _ _ _ _ _ Htil y d ltac:(left; exact Ho)) as [Hcl Hn].
      assert (y <> z) by (intros ->; now apply (Hz d)).
      rewrite Hframe by assumption. split; [assumption|].
      intros c' Hy. apply Hlists in Hy as [Hy|[-> _]]; [now apply (Hn c')|].
      contradiction.
  - intros y d Ho. rewrite Hframe by (intros ->; now apply (Hz d)).
    now apply (Hun y d).
  - intros c x Hx Hb Hal.
    apply Hlists in Hx. apply Hlists in Hb.
    destruct Hx as [Hx|[-> ->]], Hb as [Hb|[Eb Ec]].
    + now apply (B c x).
    + subst c. destruct U as [_ U]. apply U.
      * pose proof (pow2_succ k Hk0) as Hs.
        pose proof (Z.div_mod (x - base) (pow2 (k + 1)) ltac:(lia)) as Hd.
        replace (z - base)
          with (pow2 k + ((x - base) / pow2 (k + 1)) * pow2 (k + 1)) by lia.
        rewrite Z.mod_add by lia. apply Z.mod_small. lia.
      * replace (z - pow2 k) with x by lia. assumption.
    + destruct U as [U _]. now apply U.
    + lia.
Qed.

(** The invariants read the segment through its free lists and the
    memory through the headers only. *)
Lemma seg_tiled_same seg seg' m m' oth :
  (forall c, free_chunks seg' c = free_chunks seg c) ->
  (forall a, base <= a < base + size -> chunks m' a = chunks m a) ->
  seg_tiled base size seg m oth -> seg_tiled base size seg' m' oth.
Proof.
  intros Hl Hm H.
  pose proof (sti_tiling _ _ _ _ _ H) as T.
  assert (Hin : forall x c, chunk_of seg oth x c -> base <= x < base + size).
  { intros x c Hx. pose proof (til_placed _ _ _ T x c Hx) as P.
    pose proof (placed_pos _ _ _ _ P). destruct P as (_ & ? & ? & _). lia. }
  constructor.
  - eapply tiling_ext; [|exact T]. intros x c. unfold chunk_of.
    now rewrite Hl.
  - intros c x Hx. rewrite Hl in Hx.
    rewrite Hm by (apply (Hin x c); now left).
    now apply (sti_free _ _ _ _ _ H).
  - intros c. rewrite Hl. apply (sti_nodup _ _ _ _ _ H).
  - intros x c Ho. rewrite Hm by (apply (Hin x c); now right).
    destruct (sti_other _ _ _ _ _ H x c Ho) as [Hc Hn].
    split; [assumption|]. intros c'. rewrite Hl. apply Hn.
Qed.

Lemma no_free_buddies_sub seg seg' :
  (forall c y, In y (free_chunks seg' c) -> In y (free_chunks seg c)) ->
  no_free_buddies base seg -> no_free_buddies base seg'.
Proof. intros Hs B c x Hx Hb. apply (B c x); auto. Qed.

(** [release_chunk] puts the chunk it is given back among the free
    chunks, keeps the tiling and leaves no two buddies free. *)
Lemma release_chunk_tiled A seg m z :
  carried base size A seg m z ->
  no_free_buddies base seg ->
  exists seg' m',
    release_chunk base size seg m z = (seg', m') /\
    seg_tiled base size seg' m' A /\
    others_unlinked m' A /\
    no_free_buddies base seg' /\
    data m' = data m /\
    (forall a, (exists d, A a d) \/ a < base \/ base + size <= a ->
               chunks m' a = chunks m a).
Proof.
  intros Hc B.
  destruct (merge_chunks_carried base size size_max A _ seg m z eq_refl Hc)
    as (seg1 & m1 & z1 & E & Hc1 & U & Hsub & Hdata & Hfr).
  rewrite release_chunk_eq, E. cbv zeta. cbn [fst snd].
  eexists. eexists. split; [reflexivity|].
  pose proof (no_free_buddies_sub _ _ Hsub B) as B1.
  destruct (push_free_tiled A seg1 m1 z1 Hc1 U B1) as (Ht & Hu & Hb).
  pose proof (carried_placed _ _ _ _ _ _ Hc1) as Pz.
  pose proof (placed_pos _ _ _ _ Pz) as Hp.
  destruct Hc1 as (_ & Hz1 & _).
  split; [|split; [|split; [|split]]].
  - eapply seg_tiled_same; [| |exact Ht]; reflexivity.
  - exact Hu.
  - intros c x Hx Hbx. apply (Hb c x); assumption.
  - cbn [data set_chunk]. assumption.
  - intros a Ha. unfold set_chunk. cbn [chunks].
    rewrite upd_other; [now apply Hfr|].
    intros ->. destruct Ha as [[d Ha]|Ha]; [now apply (Hz1 d)|].
    destruct Pz as (_ & ? & ? & _). lia.
Qed.

(** The fields of the headers the tiling reads. *)
Definition same_links (m m' : memory) : Prop :=
  forall a, mclass (chunks m' a) = mclass (chunks m a) /\
            free_chain (chunks m' a) = free_chain (chunks m a).

Lemma seg_tiled_links seg m m' oth :
  same_links m m' ->
  seg_tiled base size seg m oth -> seg_tiled base size seg m' oth.
Proof.
  intros L [T F N O]. constructor; auto.
  - intros c x Hx. destruct (L x) as [-> ->]. now apply F.
  - intros x c Ho. destruct (L x) as [-> _]. now apply O.
Qed.

Lemma others_unlinked_links m m' oth :
  same_links m m' -> others_unlinked m oth -> others_unlinked m' oth.
Proof. intros L U x c Ho. destruct (L x) as [_ ->]. now apply (U x c). Qed.

(** [dmaBufferAllocChunk] keeps the other invariants too. *)
Lemma dmaBufferAllocChunk_keeps oth seg m cls req x seg' m' :
  seg_tiled base size seg m oth ->
  others_unlinked m oth ->
  no_free_buddies base seg ->
  DMABUF_CHUNKSZ_MIN_BIT <= cls ->
  dmaBufferAllocChunk seg m cls req = Some (x, seg', m') ->
  others_unlinked m' (with_chunk oth x cls) /\
  no_free_buddies base seg' /\
  (forall d, ~ oth x d) /\
  placed base size x cls /\
  (forall a, a < base \/ base + size <= a \/ (exists d, oth a d) ->
             chunks m' a = chunks m a).
Proof.
  intros Htil Hun B Hcls E.
  destruct (dmaBufferAllocChunk_spec base size oth seg m cls req x seg' m'
              Htil Hcls E)
    as (j & Hj & Hjmax & Hempty & Hhd & Hlists & Htil' & Hx & Hframe & Hdata).
  pose proof (sti_tiling _ _ _ _ _ Htil') as T'.
  assert (Px : placed base size x cls).
  { apply (til_placed _ _ _ T'). right. right. auto. }
  assert (Hxoth : forall d, ~ oth x d).
  { intros d Ho. destruct (sti_other _ _ _ _ _ Htil x d Ho) as [_ Hn].
    apply (Hn j). destruct (free_chunks seg j); [discriminate|].
    injection Hhd as ->. now left. }
  assert (Hsame : forall a, a < base \/ base + size <= a \/ (exists d, oth a d) ->
                            chunks m' a = chunks m a).
  { intros a Ha. apply Hframe.
    - intros ->. destruct Ha as [Ha|[Ha|[d Ha]]]; [| |now apply (Hxoth d)];
        pose proof (placed_pos _ _ _ _ Px); destruct Px as (_ & ? & ? & _); lia.
    - intros c Hin.
      pose proof (til_placed _ _ _ T' a c ltac:(left; exact Hin)) as P.
      destruct Ha as [Ha|[Ha|[d Ha]]].
      + destruct P as (_ & ? & _). lia.
      + pose proof (placed_pos _ _ _ _ P). destruct P as (_ & ? & ? & _). lia.
      + destruct (sti_other _ _ _ _ _ Htil' a d ltac:(left; exact Ha)) as [_ Hn].
        now apply (Hn c). }
  split; [|split; [|split; [|split]]]; try assumption.
  - intros y d [Ho|[-> ->]].
    + rewrite Hsame by eauto. now apply (Hun y d).
    + rewrite Hx. reflexivity.
  - intros c y Hy Hb Hal. rewrite Hlists in Hy, Hb. unfold alloc_lists in *.
    destruct ((cls <=? c) && (c <? j)) eqn:Ec.
    + apply andb_prop in Ec as [Ec _]. apply Z.leb_le in Ec.
      pose proof (pow2_pos c ltac:(zlia)).
      destruct Hy as [<-|[]]. destruct Hb as [Hb|[]]. lia.
    + destruct (Z.eqb_spec c j) as [->|].
      * apply (B j y); [| |assumption];
          destruct (free_chunks seg j); simpl in *; auto.
      * now apply (B c y).
Qed.

(** *** Allocation followed by release *)

Lemma dlist_delete_absent (l : list Z) (b : Z) :
  ~ In b l -> dlist_delete l b = l.
Proof. intros H. unfold dlist_delete. now apply notin_remove. Qed.

Lemma dlist_delete_single (b : Z) : dlist_delete [b] b = [].
Proof. unfold dlist_delete. simpl. destruct (Z.eq_dec b b); congruence. Qed.

(** The merge loop undoes the splits of the allocation: from class [i]
    up to the class [j] of the chunk that was split, the upper buddy is
    the one chunk on the list of its class. *)
Lemma merge_undoes_split A f x j (n : nat) :
  forall i seg m,
    Z.to_nat (j - i) = n -> i <= j ->
    carried base size A seg m x ->
    mclass (chunks m x) = i ->
    (forall c, free_chunks seg c = alloc_lists f x i j c) ->
    (forall c, i <= c < j -> f c = []) ->
    (x - base) mod pow2 j = 0 ->
    ((x - base) mod pow2 (j + 1) = 0 -> ~ In (x + pow2 j) (tl (f j))) ->
    ((x - base) mod pow2 (j + 1) = pow2 j -> ~ In (x - pow2 j) (tl (f j))) ->
    exists seg' m',
      merge_chunks base size seg m x = (seg', m', x) /\
      mclass (chunks m' x) = j /\
      (forall c, free_chunks seg' c = alloc_lists f x j j c).
Proof.
  induction n as [|n IH]; intros i seg m Hn Hij Hc Hi Hlists Hempty Hal Hup Hlo.
  - (* the class of the split chunk is reached: its buddy is not free *)
    assert (Eij : i = j) by lia. rewrite Eij in *. clear Eij Hn Hij.
    pose proof (carried_placed _ _ _ _ _ _ Hc) as Pz. rewrite Hi in Pz.
    assert (Hj : free_chunks seg j = tl (f j)).
    { rewrite Hlists. unfold alloc_lists.
      destruct (Z.leb_spec j j), (Z.ltb_spec j j); try lia; simpl;
        now rewrite Z.eqb_refl. }
    exists seg, m. split; [|split; assumption].
    destruct (offset_bit base size size_max x j Pz) as [[_ Hb]|[_ Hb]].
    + destruct (merge_turn_upper base size size_max A seg m x Hc) as [_ Hno];
        rewrite Hi in *; [assumption|].
      apply Hno. rewrite Hj. now apply Hup.
    + destruct (merge_turn_lower base size size_max A seg m x Hc) as [_ Hno];
        rewrite Hi in *; [assumption|].
      apply Hno. rewrite Hj. now apply Hlo.
  - assert (Hlt : i < j) by lia.
    pose proof (carried_placed _ _ _ _ _ _ Hc) as Pz. rewrite Hi in Pz.
    assert (Hi0 : 0 <= i) by (destruct Pz; zlia).
    assert (Hal' : (x - base) mod pow2 (i + 1) = 0)
      by (apply (mod_pow2_weaken _ (i + 1) j); [lia|assumption]).
    assert (Hb : In (x + pow2 i) (free_chunks seg i)).
    { rewrite Hlists. unfold alloc_lists.
      destruct (Z.leb_spec i i), (Z.ltb_spec i j); try lia. now left. }
    destruct (merge_turn_upper base size size_max A seg m x Hc) as [Hyes _];
      rewrite Hi in *; [assumption|].
    rewrite (Hyes Hb).
    assert (Hc1 : carried base size A (delete_free_chain seg (x + pow2 i))
                          (raise_class m x) x).
    { apply (merge_tiled base size size_max A seg m x (x + pow2 i) x);
        rewrite ?Hi; auto. }
    assert (Hnew : mclass (chunks (raise_class m x) x) = i + 1).
    { unfold raise_class, set_chunk. cbn [chunks]. rewrite upd_same.
      cbn [mclass]. lia. }
    apply (IH (i + 1) _ _ ltac:(lia) ltac:(lia) Hc1 Hnew); try assumption.
    + intros c. rewrite delete_free_chain_lists.
      destruct (Z.eq_dec c i) as [->|Hci].
      * rewrite Hlists. unfold alloc_lists.
        destruct (Z.leb_spec i i), (Z.ltb_spec i j); try lia. cbn [andb].
        rewrite dlist_delete_single.
        destruct (Z.leb_spec (i + 1) i); [lia|]. cbn [andb].
        destruct (Z.eqb_spec i j); [lia|]. symmetry. apply Hempty. lia.
      * rewrite dlist_delete_absent.
        -- rewrite Hlists. unfold alloc_lists.
           destruct (Z.leb_spec i c), (Z.leb_spec (i + 1) c); try lia;
             reflexivity.
        -- intros Hin. apply Hci.
           destruct Hc as (Htil & _).
           eapply free_chunk_class; eassumption.
    + intros c Hcj. apply Hempty. lia.
Qed.

(** After an allocation and the release of the chunk it returned, the
    free lists are what they were.  [m2] is the memory at the release:
    the headers may have changed in the fields the tiling does not
    read. *)
Lemma alloc_release_lists oth seg m cls req x seg1 m1 m2 :
  seg_tiled base size seg m oth ->
  others_unlinked m oth ->
  no_free_buddies base seg ->
  DMABUF_CHUNKSZ_MIN_BIT <= cls ->
  dmaBufferAllocChunk seg m cls req = Some (x, seg1, m1) ->
  same_links m1 m2 ->
  forall c,
    free_chunks (fst (release_chunk base size seg1 m2 x)) c = free_chunks seg c.
Proof.
  intros Htil Hun B Hcls E L c.
  destruct (dmaBufferAllocChunk_spec base size oth seg m cls req x seg1 m1
              Htil Hcls E)
    as (j & Hj & Hjmax & Hempty & Hhd & Hlists & Htil1 & Hx & Hframe & Hdata).
  destruct (dmaBufferAllocChunk_keeps oth seg m cls req x seg1 m1
              Htil Hun B Hcls E) as (Hun1 & B1 & Hxoth & Px & _).
  destruct (free_chunks seg j) as [|x0 rest] eqn:Hfj; [discriminate|].
  injection Hhd as ->.
  assert (Pj : placed base size x j).
  { apply (til_placed _ _ _ (sti_tiling _ _ _ _ _ Htil)).
    left. rewrite Hfj. now left. }
  assert (Hcl2 : mclass (chunks m2 x) = cls).
  { destruct (L x) as [-> _]. rewrite Hx. reflexivity. }
  assert (Hc : carried base size oth seg1 m2 x).
  { split; [|split].
    - rewrite Hcl2. now apply (seg_tiled_links seg1 m1 m2).
    - assumption.
    - apply (others_unlinked_links m1 m2); [assumption|].
      intros y d Ho. apply (Hun1 y d). now left. }
  assert (Hj0 : 0 <= j) by (destruct Pj; zlia).
  pose proof (pow2_pos j Hj0) as Hp.
  pose proof (pow2_succ j Hj0) as Hs.
  destruct (merge_undoes_split oth (free_chunks seg) x j _ cls seg1 m2
              eq_refl Hj Hc Hcl2 Hlists Hempty)
    as (seg' & m' & Em & Hcl' & Hlists').
  { destruct Pj as (_ & _ & _ & Hm). exact Hm. }
  { rewrite Hfj. simpl. intros Hal Hin.
    apply (B j x); [rewrite Hfj; now left|rewrite Hfj; now right|assumption]. }
  { rewrite Hfj. simpl. intros Hal Hin.
    apply (B j (x - pow2 j)); [rewrite Hfj; now right| |].
    - replace (x - pow2 j + pow2 j) with x by lia. rewrite Hfj. now left.
    - pose proof (Z.div_mod (x - base) (pow2 (j + 1)) ltac:(lia)) as Hd.
      replace (x - pow2 j - base)
        with (((x - base) / pow2 (j + 1)) * pow2 (j + 1)) by lia.
      apply Z.mod_mul. lia. }
  rewrite release_chunk_eq, Em. cbv zeta. cbn [fst snd]. rewrite Hcl'.
  cbn [free_chunks set_num_chunks set_free_chunks].
  unfold dlist_push_head, upd.
  destruct (Z.eqb_spec c j) as [->|Hcj].
  - rewrite Hlists'. unfold alloc_lists.
    destruct (Z.leb_spec j j), (Z.ltb_spec j j); try lia. simpl.
    rewrite Z.eqb_refl, Hfj. reflexivity.
  - rewrite Hlists'. unfold alloc_lists.
    destruct (Z.leb_spec j c), (Z.ltb_spec c j); try lia; simpl;
      destruct (Z.eqb_spec c j); try lia; reflexivity.
Qed.

End SegmentOperations.

(** ** A new segment *)

Section Seeding.

Variable base : Z.

Definition no_chunk : Z -> Z -> Prop := fun _ _ => False.

(** One more chunk at the end of what is tiled so far. *)
Lemma tiling_extend (ch : Z -> Z -> Prop) (s c : Z) :
  0 <= s ->
  tiling base s ch ->
  DMABUF_CHUNKSZ_MIN_BIT <= c <= DMABUF_CHUNKSZ_MAX_BIT ->
  s mod pow2 c = 0 ->
  tiling base (s + pow2 c) (fun y d => ch y d \/ (y = base + s /\ d = c)).
Proof.
  intros Hs T Hc Hal.
  assert (Hc0 : 0 <= c) by zlia.
  pose proof (pow2_pos c Hc0) as Hp.
  assert (Hold : forall y d, ch y d -> y + pow2 d <= base + s /\ base <= y
                                      /\ 0 < pow2 d).
  { intros y d H. pose proof (til_placed _ _ _ T y d H) as P.
    pose proof (placed_pos _ _ _ _ P). destruct P as (_ & ? & ? & _). lia. }
  constructor.
  - intros y d [H|[-> ->]].
    + destruct (til_placed _ _ _ T y d H) as (? & ? & ? & ?).
      unfold placed. split; [assumption|]. split; [lia|]. split; [lia|assumption].
    + unfold placed. replace (base + s - base) with s by lia.
      split; [assumption|]. split; [lia|]. split; [lia|assumption].
  - intros y d d' [H|[-> ->]] [H'|[E ->]]; try reflexivity.
    + eapply (til_class _ _ _ T); eassumption.
    + apply Hold in H. lia.
    + apply Hold in H'. lia.
  - intros y d y' d' [H|[-> ->]] [H'|[-> ->]] Hr; try lia.
    + eapply (til_disjoint _ _ _ T); eassumption.
    + apply Hold in H. lia.
    + apply Hold in H'. lia.
  - intros a Ha. destruct (Z.lt_ge_cases a (base + s)).
    + destruct (til_cover _ _ _ T a ltac:(lia)) as (y & d & H' & Hr).
      exists y, d. auto.
    + exists (base + s), c. split; [right; auto|lia].
Qed.

Lemma tiling_empty : tiling base 0 no_chunk.
Proof.
  constructor; unfold no_chunk; try tauto. intros a Ha. lia.
Qed.

(** The state of the seeding loop: [s] bytes are tiled by the chunks on
    the lists, each list holds one chunk at most, the lists of the
    classes below [cls] are empty, and what is left to tile is less than
    two chunks of the class. *)
Record seeding (size : Z) (seg : dmaBufferSegment) (m : memory)
  (s cls : Z) : Prop := mkSeeding {
  sd_tiled : seg_tiled base s seg m no_chunk;
  sd_range : 0 <= s <= size;
  sd_align_min : s mod pow2 DMABUF_CHUNKSZ_MIN_BIT = 0;
  sd_align : s mod pow2 cls = 0;
  sd_left : size - s < pow2 (cls + 1);
  sd_below : forall c, c < cls -> free_chunks seg c = [];
  sd_here : pow2 cls <= size - s -> free_chunks seg cls = [];
  sd_single : forall c, (List.length (free_chunks seg c) <= 1)%nat;
  sd_first : forall c,
    DMABUF_CHUNKSZ_MIN_BIT <= c <= DMABUF_CHUNKSZ_MAX_BIT -> pow2 c <= size ->
    (cls < c /\ s = 0 -> False) /\
    (0 < s -> exists p, c <= p <= DMABUF_CHUNKSZ_MAX_BIT /\ free_chunks seg p <> [])
}.

Lemma seed_chunks_S fuel seg m head_ptr tail_ptr cls :
  seed_chunks (S fuel) seg m head_ptr tail_ptr cls =
  if cls >=? DMABUF_CHUNKSZ_MIN_BIT then
    if head_ptr + pow2 cls >? tail_ptr
    then seed_chunks fuel seg m head_ptr tail_ptr (cls - 1)
    else seed_chunks fuel
           (set_free_chunks seg cls (dlist_push_head (free_chunks seg cls) head_ptr))
           (set_chunk m head_ptr (fresh_free_chunk cls))
           (head_ptr + pow2 cls) tail_ptr cls
  else (seg, m).
Proof. reflexivity. Qed.

(** What the finished loop leaves. *)
Definition seeded (size : Z) (seg0 : dmaBufferSegment) (m0 : memory)
  (r : dmaBufferSegment * memory) : Prop :=
  seg_tiled base size (fst r) (snd r) no_chunk /\
  no_free_buddies base (fst r) /\
  revision (fst r) = revision seg0 /\
  data (snd r) = data m0 /\
  (forall a, a < base \/ base + size <= a -> chunks (snd r) a = chunks m0 a) /\
  (forall c, DMABUF_CHUNKSZ_MIN_BIT <= c <= DMABUF_CHUNKSZ_MAX_BIT ->
             pow2 c <= size ->
             exists p, c <= p <= DMABUF_CHUNKSZ_MAX_BIT /\ free_chunks (fst r) p <> []).

Lemma seeding_done size seg m s :
  size mod pow2 DMABUF_CHUNKSZ_MIN_BIT = 0 ->
  seeding size seg m s (DMABUF_CHUNKSZ_MIN_BIT - 1) ->
  s = size /\ seg_tiled base size seg m no_chunk /\ no_free_buddies base seg /\
  (forall c, DMABUF_CHUNKSZ_MIN_BIT <= c <= DMABUF_CHUNKSZ_MAX_BIT ->
             pow2 c <= size ->
             exists p, c <= p <= DMABUF_CHUNKSZ_MAX_BIT /\ free_chunks seg p <> []).
Proof.
  intros Hsz [T R A8 A L Bl Hh S F].
  replace (DMABUF_CHUNKSZ_MIN_BIT - 1 + 1) with DMABUF_CHUNKSZ_MIN_BIT in L by lia.
  assert (P8 : 0 < pow2 DMABUF_CHUNKSZ_MIN_BIT) by (apply pow2_pos; zlia).
  assert (Hs : s = size).
  { apply mod_pow2_multiple in Hsz as [a Ha]; [|zlia].
    apply mod_pow2_multiple in A8 as [b Hb]; [|zlia].
    set (p := pow2 DMABUF_CHUNKSZ_MIN_BIT) in *.
    assert (a - b < 1) by nia. assert (0 <= a - b) by nia.
    assert (a = b) by lia. subst a. lia. }
  subst s. split; [reflexivity|]. split; [assumption|]. split.
  - intros c x Hx Hb _.
    pose proof (S c) as Hlen.
    pose proof (til_placed _ _ _ (sti_tiling _ _ _ _ _ T) x c
                  ltac:(left; exact Hx)) as P.
    pose proof (placed_pos _ _ _ _ P).
    destruct (free_chunks seg c) as [|y [|y' l]]; simpl in *; lia.
  - intros c Hc Hp. destruct (F c Hc Hp) as [F0 F1].
    apply F1. destruct (Z.eq_dec size 0) as [E|]; [|lia].
    exfalso. apply F0. split; [zlia|assumption].
Qed.

Lemma seed_chunks_seeding size (fuel : nat) :
  size mod pow2 DMABUF_CHUNKSZ_MIN_BIT = 0 ->
  forall seg m s cls,
    DMABUF_CHUNKSZ_MIN_BIT - 1 <= cls <= DMABUF_CHUNKSZ_MAX_BIT ->
    seeding size seg m s cls ->
    2 * (cls - (DMABUF_CHUNKSZ_MIN_BIT - 1))
    + (if pow2 cls <=? size - s then 1 else 0) <= Z.of_nat fuel ->
    seeded size seg m (seed_chunks fuel seg m (base + s) (base + size) cls).
Proof.
  intros Hsz. induction fuel as [|fuel IH]; intros seg m s cls Hcls Hsd Hm.
  - (* no turn left: the loop is over *)
    assert (cls = DMABUF_CHUNKSZ_MIN_BIT - 1)
      by (destruct (pow2 cls <=? size - s); zlia).
    subst cls. cbn [seed_chunks].
    destruct (seeding_done size seg m s Hsz Hsd) as (_ & T & B & F).
    unfold seeded. cbn [fst snd]. auto 10.
  - rewrite seed_chunks_S.
    destruct (Z.geb_spec cls DMABUF_CHUNKSZ_MIN_BIT) as [Hge|Hlt].
    2: { assert (cls = DMABUF_CHUNKSZ_MIN_BIT - 1) by lia. subst cls.
         destruct (seeding_done size seg m s Hsz Hsd) as (_ & T & B & F).
         unfold seeded. cbn [fst snd]. auto 10. }
    assert (Hc0 : 0 <= cls) by zlia.
    pose proof (pow2_pos cls Hc0) as Hp.
    pose proof (pow2_succ cls Hc0) as Hs1.
    pose proof (pow2_succ (cls - 1) ltac:(zlia)) as Hs0.
    replace (cls - 1 + 1) with cls in Hs0 by lia.
    destruct Hsd as [T R A8 A L Bl Hh S F].
    destruct (Z.gtb_spec (base + s + pow2 cls) (base + size)) as [Hbig|Hfit].
    + (* no room for a chunk of this class *)
      apply IH; [lia| |].
      * constructor; auto.
        -- apply (mod_pow2_weaken _ (cls - 1) cls); [zlia|assumption].
        -- replace (cls - 1 + 1) with cls by lia. lia.
        -- intros c Hc. apply Bl. lia.
        -- intros _. apply Bl. lia.
        -- intros c Hc Hpc. destruct (F c Hc Hpc) as [F0 F1].
           split; [|assumption]. intros [Hlt Hz]. subst s.
           destruct (Z.eq_dec c cls) as [->|]; [lia|].
           apply F0. split; [lia|reflexivity].
      * destruct (Z.leb_spec (pow2 cls) (size - s)); [lia|].
        destruct (pow2 (cls - 1) <=? size - s); lia.
    + (* a chunk of this class at the head *)
      assert (Hempty : free_chunks seg cls = []) by (apply Hh; lia).
      replace (base + s + pow2 cls) with (base + (s + pow2 cls)) by lia.
      set (seg' := set_free_chunks seg cls
                     (dlist_push_head (free_chunks seg cls) (base + s))).
      set (m' := set_chunk m (base + s) (fresh_free_chunk cls)).
      assert (Hlists : forall c, free_chunks seg' c
                                 = if c =? cls then [base + s] else free_chunks seg c).
      { intros c. subst seg'. destruct (Z.eqb_spec c cls) as [->|Hc].
        - rewrite set_free_chunks_same, Hempty. reflexivity.
        - now apply set_free_chunks_other. }
      assert (Hold : forall y d, In y (free_chunks seg d) -> y <> base + s).
      { intros y d Hy.
        pose proof (til_placed _ _ _ (sti_tiling _ _ _ _ _ T) y d
                      ltac:(left; exact Hy)) as P.
        pose proof (placed_pos _ _ _ _ P). destruct P as (_ & ? & ? & _). lia. }
      assert (Hsd' : seeding size seg' m' (s + pow2 cls) cls).
      { constructor.
        - constructor.
          + eapply tiling_ext;
              [|apply (tiling_extend _ s cls ltac:(lia)
                         (sti_tiling _ _ _ _ _ T) ltac:(lia) A)].
            intros y d. unfold chunk_of, no_chunk. rewrite Hlists.
            destruct (Z.eqb_spec d cls) as [->|Hd].
            * rewrite Hempty. simpl.
              split; [intros [[[]|[]]|[-> _]]; auto|].
              intros [[<-|[]]|[]]. auto.
            * split; [intros [[H|[]]|[_ E]]; [auto|contradiction]|].
              intros [H|[]]. auto.
          + intros c y. rewrite Hlists. subst m'.
            unfold set_chunk. cbn [chunks].
            destruct (Z.eqb_spec c cls) as [->|Hc].
            * intros [<-|[]]. rewrite upd_same. auto.
            * intros Hy. rewrite upd_other by (eapply Hold; eassumption).
              now apply (sti_free _ _ _ _ _ T).
          + intros c. rewrite Hlists. destruct (Z.eqb_spec c cls).
            * constructor; [simpl; tauto|constructor].
            * apply (sti_nodup _ _ _ _ _ T).
          + intros y d [].
        - lia.
        - rewrite <- Zplus_mod_idemp_l, A8. rewrite Z.add_0_l.
          apply (mod_pow2_weaken _ DMABUF_CHUNKSZ_MIN_BIT cls); [zlia|].
          apply Z.mod_same. lia.
        - rewrite <- Zplus_mod_idemp_l, A. rewrite Z.add_0_l.
          apply Z.mod_same. lia.
        - lia.
        - intros c Hc. rewrite Hlists.
          destruct (Z.eqb_spec c cls); [lia|]. now apply Bl.
        - intros Hx. lia.
        - intros c. rewrite Hlists. destruct (Z.eqb_spec c cls); [simpl; lia|].
          apply S.
        - intros c Hc Hpc. split; [lia|]. intros _.
          destruct (F c Hc Hpc) as [F0 F1].
          destruct (Z.eq_dec s 0) as [->|Hs].
          + exists cls. split.
            * split; [|lia]. destruct (Z.le_gt_cases c cls); [assumption|].
              exfalso. apply F0. auto.
            * rewrite Hlists, Z.eqb_refl. discriminate.
          + destruct (F1 ltac:(lia)) as (p & Hp1 & Hp2).
            exists p. split; [assumption|]. rewrite Hlists.
            destruct (Z.eqb_spec p cls); [discriminate|assumption]. }
      pose proof (IH seg' m' (s + pow2 cls) cls Hcls Hsd') as Hres.
      destruct Hres as (Ht & Hb & Hr & Hd & Hfr & Hf).
      { destruct (Z.leb_spec (pow2 cls) (size - s)); [|lia].
        destruct (Z.leb_spec (pow2 cls) (size - (s + pow2 cls))); lia. }
      unfold seeded. split; [assumption|]. split; [assumption|].
      split; [assumption|]. split; [assumption|]. split; [|assumption].
      intros a Ha. rewrite Hfr by assumption. subst m'.
      unfold set_chunk. cbn [chunks]. apply upd_other. lia.
Qed.

(** [dmaBufferCreateSegment] seeds a segment whose size is a multiple of
    the smallest chunk and not above the largest: the lists then tile
    the whole segment, with no two buddies, and every class that fits
    the segment has a free chunk of its size or above. *)
Lemma seed_new_segment size rev num m :
  0 <= size <= pow2 DMABUF_CHUNKSZ_MAX_BIT ->
  size mod pow2 DMABUF_CHUNKSZ_MIN_BIT = 0 ->
  seeded size (mkSeg rev num (fun _ => [])) m
         (seed_chunks (seed_fuel size) (mkSeg rev num (fun _ => [])) m
                      base (base + size) DMABUF_CHUNKSZ_MAX_BIT).
Proof.
  intros Hsize Hsz.
  assert (H : seeded size (mkSeg rev num (fun _ => [])) m
                (seed_chunks (seed_fuel size) (mkSeg rev num (fun _ => [])) m
                             (base + 0) (base + size) DMABUF_CHUNKSZ_MAX_BIT));
    [|now rewrite Z.add_0_r in H].
  apply seed_chunks_seeding; [assumption|zlia| |].
  - pose proof (pow2_pos DMABUF_CHUNKSZ_MAX_BIT ltac:(zlia)) as Pmax.
    pose proof (pow2_succ DMABUF_CHUNKSZ_MAX_BIT ltac:(zlia)) as Smax.
    constructor.
    + constructor.
      * eapply tiling_ext; [|apply tiling_empty].
        intros x c. unfold chunk_of, no_chunk. simpl. tauto.
      * intros c x [].
      * intros c. constructor.
      * intros x c [].
    + lia.
    + reflexivity.
    + reflexivity.
    + lia.
    + reflexivity.
    + reflexivity.
    + intros c. simpl. lia.
    + intros c Hc Hp. split; [zlia|lia].
  - unfold seed_fuel.
    assert (0 <= size / DMABUF_CHUNKSZ_MAX) by (apply Z.div_pos; [lia|reflexivity]).
    destruct (pow2 DMABUF_CHUNKSZ_MAX_BIT <=? size - 0); zlia.
Qed.

End Seeding.

(** ** Shrinking a chunk in place *)

Section Shrinking.

Variables base size : Z.

(** The memory with the class in the header of [x] read as [s]: while
    the loop of [__dmaBufferRealloc] releases the upper part of the
    chunk, the header already carries the final class. *)
Definition set_class (m : memory) (x s : Z) : memory :=
  set_chunk m x
    (mkChunk (free_chain (chunks m x)) (gcxt_chain (chunks m x))
             (shgcon (chunks m x)) (required (chunks m x)) s
             (magic_head (chunks m x))).

Lemma shrink_chunks_S fuel seg m head_ptr tail_ptr shift cls :
  shrink_chunks (S fuel) seg m head_ptr tail_ptr shift cls =
  if shift >=? cls then
    if head_ptr + pow2 shift >? tail_ptr
    then shrink_chunks fuel seg m head_ptr tail_ptr (shift - 1) cls
    else shrink_chunks fuel
           (set_free_chunks seg shift
              (dlist_push_head (free_chunks seg shift) (tail_ptr - pow2 shift)))
           (set_chunk m (tail_ptr - pow2 shift) (fresh_free_chunk shift))
           head_ptr (tail_ptr - pow2 shift) shift cls
  else (seg, m).
Proof. reflexivity. Qed.

(** The lists while the chunk is cut down from class [k] to class [s]:
    the upper halves, one per class, at the heads of the lists. *)
Definition shrink_lists (f : Z -> list Z) (x s k : Z) : Z -> list Z :=
  fun c => if (s <=? c) && (c <? k) then (x + pow2 c) :: f c else f c.

(** The state of the loop: the chunk is down to class [s]. *)
Record shrinking (A : Z -> Z -> Prop) (f : Z -> list Z) (x k cls : Z)
  (seg : dmaBufferSegment) (m : memory) (s : Z) : Prop := mkShrinking {
  sh_tiled : seg_tiled base size seg (set_class m x s) (with_chunk A x s);
  sh_range : cls <= s <= k;
  sh_lists : forall c, free_chunks seg c = shrink_lists f x s k c;
  sh_unlinked : others_unlinked m A
}.

Lemma shrink_step A f x k cls seg m s :
  (forall d, ~ A x d) ->
  DMABUF_CHUNKSZ_MIN_BIT <= cls ->
  shrinking A f x k cls seg m s ->
  cls < s ->
  shrinking A f x k cls
    (set_free_chunks seg (s - 1)
       (dlist_push_head (free_chunks seg (s - 1)) (x + pow2 (s - 1))))
    (set_chunk m (x + pow2 (s - 1)) (fresh_free_chunk (s - 1)))
    (s - 1).
Proof.
  intros HxA Hcls [T R Ls U] Hlt.
  pose proof (sti_tiling _ _ _ _ _ T) as Til.
  assert (Cx : chunk_of seg (with_chunk A x s) x s) by (right; right; auto).
  pose proof (til_placed _ _ _ Til x s Cx) as Px.
  assert (Hs0 : 0 <= s - 1) by zlia.
  pose proof (pow2_pos (s - 1) Hs0) as Hp.
  pose proof (pow2_succ (s - 1) Hs0) as Hs1.
  replace (s - 1 + 1) with s in Hs1 by lia.
  set (u := x + pow2 (s - 1)) in *.
  assert (Hux : u <> x) by (subst u; lia).
  assert (Hmid : forall d, chunk_of seg (with_chunk A x s) u d -> False).
  { intros d Hd.
    apply (inside_chunk_not_chunk base size _ Til x s u d Cx Hd). subst u. lia. }
  destruct (sti_other _ _ _ _ _ T x s ltac:(right; auto)) as [_ Hxfree].
  assert (Hlists : forall c y,
             In y (free_chunks (set_free_chunks seg (s - 1)
                     (dlist_push_head (free_chunks seg (s - 1)) u)) c)
             <-> In y (free_chunks seg c) \/ (y = u /\ c = s - 1)).
  { intros c y. destruct (Z.eq_dec c (s - 1)) as [->|Hc].
    - rewrite set_free_chunks_same. unfold dlist_push_head. simpl.
      split; [intros [<-|H]; auto|intros [H|[-> _]]; auto].
    - rewrite set_free_chunks_other by assumption.
      split; [auto|intros [H|[_ H]]; [assumption|contradiction]]. }
  assert (Hhdr : forall a,
             chunks (set_class (set_chunk m u (fresh_free_chunk (s - 1))) x (s - 1)) a
             = if a =? x
               then mkChunk (free_chain (chunks m x)) (gcxt_chain (chunks m x))
                            (shgcon (chunks m x)) (required (chunks m x)) (s - 1)
                            (magic_head (chunks m x))
               else if a =? u then fresh_free_chunk (s - 1)
               else chunks m a).
  { intros a. unfold set_class, set_chunk. cbn [chunks]. unfold upd.
    destruct (Z.eqb_spec a x) as [->|Hax]; [|reflexivity].
    destruct (Z.eqb_spec x u); [congruence|reflexivity]. }
  assert (Hold : forall a, a <> x ->
             chunks (set_class m x s) a = chunks m a).
  { intros a Ha. unfold set_class, set_chunk. cbn [chunks]. now apply upd_other. }
  constructor.
  - constructor.
    + apply (tiling_ext base size (split_set (chunk_of seg (with_chunk A x s)) x s));
        [|apply tiling_split; [assumption..|zlia]].
      intros y d. unfold split_set, chunk_of, with_chunk. rewrite Hlists.
      fold u. split.
      * intros [[[Hy|[Ho|[-> ->]]] Hne]|[[-> ->]|[-> ->]]]; auto; try tauto.
      * intros [[Hy|[-> ->]]|[Ho|[-> ->]]]; auto.
        -- left. split; [auto|]. intros ->. now apply (Hxfree d).
        -- left. split; [auto|]. intros ->. now apply (HxA d).
    + intros c y Hy. rewrite Hhdr. apply Hlists in Hy as [Hy|[-> ->]].
      * destruct (Z.eqb_spec y x) as [->|Hyx]; [exfalso; now apply (Hxfree c)|].
        destruct (Z.eqb_spec y u) as [->|Hyu];
          [exfalso; apply (Hmid c); now left|].
        rewrite <- Hold by assumption. now apply (sti_free _ _ _ _ _ T).
      * destruct (Z.eqb_spec u x); [contradiction|].
        rewrite Z.eqb_refl. auto.
    + intros c. destruct (Z.eq_dec c (s - 1)) as [->|Hc].
      * rewrite set_free_chunks_same. constructor; [|apply (sti_nodup _ _ _ _ _ T)].
        intros Hin. apply (Hmid (s - 1)). now left.
      * rewrite set_free_chunks_other by assumption.
        apply (sti_nodup _ _ _ _ _ T).
    + intros y d [Ho|[-> ->]].
      * destruct (sti_other _ _ _ _ _ T y d ltac:(left; exact Ho)) as [Hcl Hn].
        assert (Hyx : y <> x) by (intros ->; now apply (HxA d)).
        assert (Hyu : y <> u) by (intros ->; apply (Hmid d); right; now left).
        rewrite Hhdr.
        destruct (Z.eqb_spec y x); [contradiction|].
        destruct (Z.eqb_spec y u); [contradiction|].
        rewrite <- Hold by assumption. split; [assumption|].
        intros c' Hy. apply Hlists in Hy as [Hy|[-> _]]; [now apply (Hn c')|].
        contradiction.
      * rewrite Hhdr, Z.eqb_refl. split; [reflexivity|].
        intros c' Hy. apply Hlists in Hy as [Hy|[E _]]; [now apply (Hxfree c')|].
        congruence.
  - lia.
  - intros c. unfold shrink_lists.
    destruct (Z.eq_dec c (s - 1)) as [->|Hc].
    + rewrite set_free_chunks_same, Ls. unfold shrink_lists, dlist_push_head.
      destruct (Z.leb_spec s (s - 1)); [lia|].
      destruct (Z.leb_spec (s - 1) (s - 1)); [|lia].
      destruct (Z.ltb_spec (s - 1) k); [|lia]. reflexivity.
    + rewrite set_free_chunks_other, Ls by assumption. unfold shrink_lists.
      destruct (Z.leb_spec s c), (Z.leb_spec (s - 1) c); try lia; reflexivity.
  - intros y d Ho. unfold set_chunk. cbn [chunks].
    rewrite upd_other; [now apply (U y d)|].
    intros ->. apply (Hmid d). right. now left.
Qed.


Lemma shrink_chunks_frame cls head_ptr :
  0 <= cls ->
  forall fuel seg m tail_ptr shift,
    let r := shrink_chunks fuel seg m head_ptr tail_ptr shift cls in
    revision (fst r) = revision seg /\
    num_chunks (fst r) = num_chunks seg /\
    data (snd r) = data m /\
    forall a, a < head_ptr \/ tail_ptr <= a ->
              chunks (snd r) a = chunks m a.
Proof.
  intros Hcls fuel.
  induction fuel as [|fuel IH]; intros seg m tail_ptr shift;
    [cbn; auto|].
  rewrite shrink_chunks_S.
  destruct (Z.geb_spec shift cls) as [Hge|Hlt]; [|cbn; auto].
  destruct (head_ptr + pow2 shift >? tail_ptr) eqn:Egt; [apply IH|].
  rewrite Z.gtb_ltb in Egt. apply Z.ltb_ge in Egt.
  pose proof (pow2_pos shift ltac:(lia)) as Hp.
  destruct (IH (set_free_chunks seg shift
                  (dlist_push_head (free_chunks seg shift) (tail_ptr - pow2 shift)))
               (set_chunk m (tail_ptr - pow2 shift) (fresh_free_chunk shift))
               (tail_ptr - pow2 shift) shift) as (Hr & Hn & Hd & Hc).
  cbv zeta. repeat split; [exact Hr|exact Hn|exact Hd|].
  intros a Ha. rewrite Hc by lia. unfold set_chunk. cbn [chunks].
  apply upd_other. lia.
Qed.

Lemma shrink_chunks_loop A f x k cls :
  (forall d, ~ A x d) ->
  DMABUF_CHUNKSZ_MIN_BIT <= cls ->
  forall fuel seg m s shift,
    shrinking A f x k cls seg m s ->
    shift = s \/ shift = s - 1 ->
    2 * (s - cls) + (if shift =? s then 1 else 0) <= Z.of_nat fuel ->
    let r := shrink_chunks fuel seg m (x + pow2 cls) (x + pow2 s) shift cls in
    shrinking A f x k cls (fst r) (snd r) cls.
Proof.
  intros HxA Hcls fuel.
  induction fuel as [|fuel IH]; intros seg m s shift Hs Hshift Hfuel.
  - pose proof (sh_range _ _ _ _ _ _ _ _ Hs) as R.
    destruct (Z.eqb_spec shift s); [lia|].
    assert (s = cls) by lia. subst s. exact Hs.
  - pose proof (sh_range _ _ _ _ _ _ _ _ Hs) as R.
    rewrite shrink_chunks_S.
    destruct (Z.geb_spec shift cls) as [Hge|Hlt].
    + destruct Hshift as [->| ->].
      * (* the lower half does not fit below the tail: try the next class *)
        pose proof (pow2_pos cls ltac:(zlia)) as Hp.
        destruct (x + pow2 cls + pow2 s >? x + pow2 s) eqn:Egt;
          [|rewrite Z.gtb_ltb in Egt; apply Z.ltb_ge in Egt; lia].
        apply IH; [assumption|now right|].
        rewrite Z.eqb_refl in Hfuel.
        destruct (Z.eqb_spec (s - 1) s); lia.
      * (* the upper half of the chunk becomes a free chunk *)
        pose proof (pow2_succ (s - 1) ltac:(zlia)) as Hs1.
        replace (s - 1 + 1) with s in Hs1 by lia.
        pose proof (pow2_mono cls (s - 1) ltac:(zlia)) as Hm.
        destruct (x + pow2 cls + pow2 (s - 1) >? x + pow2 s) eqn:Egt;
          [rewrite Z.gtb_ltb in Egt; apply Z.ltb_lt in Egt; lia|].
        replace (x + pow2 s - pow2 (s - 1)) with (x + pow2 (s - 1)) by lia.
        apply IH; [apply shrink_step; [assumption..|lia]|now left|].
        rewrite Z.eqb_refl.
        destruct (Z.eqb_spec (s - 1) s); lia.
    + assert (s = cls) by lia. subst s. exact Hs.
Qed.


(** Two chunks of a tiling that are not the same chunk do not overlap. *)
Lemma chunks_apart ch x c y d :
  tiling base size ch -> ch x c -> ch y d -> x <> y ->
  y + pow2 d <= x \/ x + pow2 c <= y.
Proof.
  intros T Hx Hy Hne.
  pose proof (placed_pos _ _ _ _ (til_placed _ _ _ T x c Hx)) as Hpx.
  pose proof (placed_pos _ _ _ _ (til_placed _ _ _ T y d Hy)) as Hpy.
  destruct (Z_lt_le_dec x (y + pow2 d)) as [H1|H1]; [|now left].
  destruct (Z_lt_le_dec y (x + pow2 c)) as [H2|H2]; [|now right].
  exfalso. destruct (Z_lt_le_dec x y) as [H3|H3].
  - apply (inside_chunk_not_chunk base size ch T x c y d Hx Hy). lia.
  - apply (inside_chunk_not_chunk base size ch T y d x c Hy Hx). lia.
Qed.

(** The loop of [__dmaBufferRealloc] that releases the upper part of a
    chunk cut down from class [k] to class [cls]: the memory [m1] it
    starts from has the class in the header already lowered. *)
Lemma shrink_chunks_tiled A seg m m1 x k cls :
  seg_tiled base size seg m (with_chunk A x k) ->
  others_unlinked m (with_chunk A x k) ->
  no_free_buddies base seg ->
  (forall d, ~ A x d) ->
  DMABUF_CHUNKSZ_MIN_BIT <= cls < k ->
  (forall a, a <> x -> chunks m1 a = chunks m a) ->
  mclass (chunks m1 x) = cls ->
  free_chain (chunks m1 x) = free_chain (chunks m x) ->
  let r := shrink_chunks (Z.to_nat (2 * (k - cls) + 2)) seg m1
                         (x + pow2 cls) (x + pow2 k) k cls in
  seg_tiled base size (fst r) (snd r) (with_chunk A x cls) /\
  others_unlinked (snd r) (with_chunk A x cls) /\
  no_free_buddies base (fst r) /\
  (forall c, free_chunks (fst r) c = shrink_lists (free_chunks seg) x cls k c) /\
  chunks (snd r) x = chunks m1 x /\
  (forall a d, A a d -> chunks (snd r) a = chunks m a) /\
  (forall a, a < base \/ base + size <= a -> chunks (snd r) a = chunks m1 a).
Proof.
  intros T U B HxA Hcls Hfr Hc1 Hf1 r.
  pose proof (sti_tiling _ _ _ _ _ T) as Til.
  assert (Cx : chunk_of seg (with_chunk A x k) x k) by (right; right; auto).
  pose proof (til_placed _ _ _ Til x k Cx) as Px.
  destruct (sti_other _ _ _ _ _ T x k ltac:(right; auto)) as [Hk Hxfree].
  assert (Hk0 : 0 <= cls) by zlia.
  pose proof (pow2_pos cls Hk0) as Hp.
  pose proof (pow2_mono cls k ltac:(lia)) as Hm.
  assert (L0 : same_links m (set_class m1 x k)).
  { intros a. unfold set_class, set_chunk. cbn [chunks]. unfold upd.
    destruct (Z.eqb_spec a x) as [->|Ha]; cbn [mclass free_chain].
    - rewrite Hk, Hf1. auto.
    - rewrite Hfr by assumption. auto. }
  assert (S0 : shrinking A (free_chunks seg) x k cls seg m1 k).
  { constructor.
    - now apply (seg_tiled_links base size seg m).
    - lia.
    - intros c. unfold shrink_lists.
      destruct (Z.leb_spec k c), (Z.ltb_spec c k); try lia; reflexivity.
    - intros y d Ho. rewrite Hfr by (intros ->; now apply (HxA d)).
      apply (U y d). now left. }
  pose proof (shrink_chunks_loop A (free_chunks seg) x k cls HxA
                ltac:(lia) (Z.to_nat (2 * (k - cls) + 2)) seg m1 k k S0
                ltac:(now left)) as S1.
  rewrite Z.eqb_refl in S1. specialize (S1 ltac:(lia)).
  fold r in S1.
  destruct (shrink_chunks_frame cls (x + pow2 cls) Hk0
              (Z.to_nat (2 * (k - cls) + 2)) seg m1 (x + pow2 k) k)
    as (_ & _ & _ & Hframe).
  fold r in Hframe.
  assert (Hx1 : chunks (snd r) x = chunks m1 x) by (apply Hframe; lia).
  destruct S1 as [T1 _ L1 U1].
  assert (L2 : same_links (set_class (snd r) x cls) (snd r)).
  { intros a. unfold set_class, set_chunk. cbn [chunks]. unfold upd.
    destruct (Z.eqb_spec a x) as [->|Ha]; cbn [mclass free_chain]; [|auto].
    rewrite Hx1. auto. }
  split; [now apply (seg_tiled_links base size _ _ _ _ L2)|].
  split; [|split; [|split; [exact L1|split; [exact Hx1|split]]]].
  - intros y d [Ho|[-> ->]]; [now apply (U1 y d)|].
    rewrite Hx1, Hf1. apply (U x k). now right.
  - intros c y Hy Hb Hal. rewrite L1 in Hy, Hb. unfold shrink_lists in Hy, Hb.
    destruct ((cls <=? c) && (c <? k)) eqn:Ec; [|now apply (B c y)].
    apply andb_prop in Ec as [E1 E2].
    apply Z.leb_le in E1. apply Z.ltb_lt in E2.
    pose proof (pow2_pos c ltac:(lia)) as Hpc.
    pose proof (pow2_succ c ltac:(lia)) as Hsc.
    assert (Hxal : (x - base) mod pow2 (c + 1) = 0).
    { apply (mod_pow2_weaken _ (c + 1) k); [lia|]. now destruct Px as (_ & _ & _ & ?). }
    destruct Hy as [Hy|Hy], Hb as [Hb|Hb].
    + lia.
    + subst y. replace (x + pow2 c - base) with (pow2 c + (x - base)) in Hal by lia.
      rewrite <- Z.add_mod_idemp_r, Hxal, Z.add_0_r, Z.mod_small in Hal by lia.
      lia.
    + assert (y = x) by lia. subst y. now apply (Hxfree c).
    + now apply (B c y).
  - intros a d Ho.
    assert (Hax : a <> x) by (intros ->; now apply (HxA d)).
    rewrite <- Hfr by assumption. apply Hframe.
    destruct (chunks_apart _ a d x k Til ltac:(right; left; exact Ho) Cx Hax)
      as [H|H]; [lia|].
    pose proof (placed_pos _ _ _ _ (til_placed _ _ _ Til a d
                  ltac:(right; left; exact Ho))). lia.
  - intros a Ha. apply Hframe. destruct Px as (_ & ? & ? & _). lia.
Qed.

End Shrinking.

(** ** The owners of the chunks *)

(** No operation of a segment gives a header an owner: a header keeps
    its [shgcon] or loses it.  Only [track_chunk] sets one. *)
Definition owners_kept (m m' : memory) : Prop :=
  forall a, shgcon (chunks m' a) = shgcon (chunks m a) \/
            shgcon (chunks m' a) = None.

Lemma owners_kept_refl m : owners_kept m m.
Proof. intros a. now left. Qed.

Lemma owners_kept_trans m1 m2 m3 :
  owners_kept m1 m2 -> owners_kept m2 m3 -> owners_kept m1 m3.
Proof.
  intros H1 H2 a. destruct (H2 a) as [E|E]; [|now right].
  rewrite E. apply H1.
Qed.

Lemma owners_kept_set m a c :
  shgcon c = shgcon (chunks m a) \/ shgcon c = None ->
  owners_kept m (set_chunk m a c).
Proof.
  intros H b. unfold set_chunk. cbn [chunks]. unfold upd.
  destruct (Z.eqb_spec b a) as [->|]; [assumption|now left].
Qed.

Lemma owners_kept_chunks m m' :
  chunks m' = chunks m -> owners_kept m m'.
Proof. intros E a. rewrite E. now left. Qed.

Lemma split_halves_owners seg m k x rest :
  owners_kept m (snd (split_halves seg m k x rest)).
Proof.
  unfold split_halves. cbn [snd].
  eapply owners_kept_trans; apply owners_kept_set; now right.
Qed.

Lemma dmaBufferSplitChunk_rec_owners (fuel : nat) :
  forall seg m k seg' m',
    dmaBufferSplitChunk_rec fuel seg m k = Some (seg', m') ->
    owners_kept m m'.
Proof.
  induction fuel as [|fuel IH]; intros seg m k seg' m';
    cbn [dmaBufferSplitChunk_rec]; [discriminate|].
  destruct (k >=? DMABUF_CHUNKSZ_MAX_BIT); [discriminate|].
  destruct (dlist_is_empty (free_chunks seg k)).
  - destruct (dmaBufferSplitChunk_rec fuel seg m (k + 1)) as [[seg1 m1]|] eqn:E;
      [|discriminate].
    destruct (free_chunks seg1 k) as [|x rest]; [discriminate|].
    intros H. inj_pair H.
    eapply owners_kept_trans; [exact (IH _ _ _ _ _ E)|apply split_halves_owners].
  - destruct (free_chunks seg k) as [|x rest]; [discriminate|].
    intros H. inj_pair H. apply split_halves_owners.
Qed.

Lemma init_chunk_owners seg m cls req x rest :
  owners_kept m (snd (init_chunk seg m cls req x rest)).
Proof.
  intros a. unfold init_chunk, set_MAGIC_TAIL, store32, set_chunk.
  cbn [snd chunks]. unfold upd.
  destruct (Z.eqb_spec a x); [now right|now left].
Qed.

Lemma dmaBufferAllocChunk_owners seg m cls req x seg' m' :
  dmaBufferAllocChunk seg m cls req = Some (x, seg', m') ->
  owners_kept m m'.
Proof.
  remember (x, seg') as xs. clear Heqxs.
  unfold dmaBufferAllocChunk.
  destruct (dlist_is_empty (free_chunks seg cls)).
  - destruct (dmaBufferSplitChunk seg m (cls + 1)) as [[seg1 m1]|] eqn:E;
      [|discriminate].
    destruct (free_chunks seg1 cls) as [|y rest]; [discriminate|].
    intros H. inj_pair H.
    eapply owners_kept_trans;
      [exact (dmaBufferSplitChunk_rec_owners _ _ _ _ _ _ E)|
       apply init_chunk_owners].
  - destruct (free_chunks seg cls) as [|y rest]; [discriminate|].
    intros H. inj_pair H. apply init_chunk_owners.
Qed.

Lemma merge_chunks_rec_owners base size (fuel : nat) :
  forall seg m z,
    owners_kept m (snd (fst (merge_chunks_rec fuel base size seg m z))).
Proof.
  induction fuel as [|fuel IH]; intros seg m z;
    [apply owners_kept_refl|].
  cbn [merge_chunks_rec].
  repeat match goal with
         | |- context [if ?b then _ else _] => destruct b
         end;
    try apply owners_kept_refl;
    (eapply owners_kept_trans; [|apply IH]);
    apply owners_kept_set; now left.
Qed.

Lemma release_chunk_owners base size seg m z :
  owners_kept m (snd (release_chunk base size seg m z)).
Proof.
  unfold release_chunk, merge_chunks.
  pose proof (merge_chunks_rec_owners base size
                (Z.to_nat (DMABUF_CHUNKSZ_MAX_BIT + 1 - mclass (chunks m z)))
                seg m z) as H.
  destruct (merge_chunks_rec _ base size seg m z) as [[seg1 m1] z1].
  cbn [fst snd] in *.
  eapply owners_kept_trans; [exact H|]. apply owners_kept_set. now left.
Qed.

Lemma seed_chunks_owners (fuel : nat) :
  forall seg m head_ptr tail_ptr cls,
    owners_kept m (snd (seed_chunks fuel seg m head_ptr tail_ptr cls)).
Proof.
  induction fuel as [|fuel IH]; intros seg m head_ptr tail_ptr cls;
    [apply owners_kept_refl|].
  cbn [seed_chunks].
  destruct (cls >=? DMABUF_CHUNKSZ_MIN_BIT); [|apply owners_kept_refl].
  destruct (head_ptr + pow2 cls >? tail_ptr); [apply IH|].
  eapply owners_kept_trans; [|apply IH]. apply owners_kept_set. now right.
Qed.

Lemma shrink_chunks_owners (fuel : nat) :
  forall seg m head_ptr tail_ptr shift cls,
    owners_kept m (snd (shrink_chunks fuel seg m head_ptr tail_ptr shift cls)).
Proof.
  induction fuel as [|fuel IH]; intros seg m head_ptr tail_ptr shift cls;
    [apply owners_kept_refl|].
  cbn [shrink_chunks].
  destruct (shift >=? cls); [|apply owners_kept_refl].
  destruct (head_ptr + pow2 shift >? tail_ptr); [apply IH|].
  eapply owners_kept_trans; [|apply IH]. apply owners_kept_set. now right.
Qed.

(** ** The invariant of a segment in use *)

Section SegmentInUse.

Variables base size : Z.
Hypothesis size_max : size <= pow2 DMABUF_CHUNKSZ_MAX_BIT.

(** The chunks handed out: the headers inside the segment that have an
    owner, with the class they record. *)
Definition tracked (m : memory) : Z -> Z -> Prop :=
  fun x c => base <= x < base + size /\ shgcon (chunks m x) <> None /\
             mclass (chunks m x) = c.

Record seg_ok (seg : dmaBufferSegment) (m : memory) : Prop := mkSegOk {
  sok_tiled : seg_tiled base size seg m (tracked m);
  sok_unlinked : others_unlinked m (tracked m);
  sok_buddies : no_free_buddies base seg
}.

Lemma placed_in_range x c : placed base size x c -> base <= x < base + size.
Proof.
  intros P. pose proof (placed_pos _ _ _ _ P). destruct P as (_ & ? & ? & _). lia.
Qed.

(** A free chunk has no owner. *)
Lemma free_chunk_no_owner seg m c x :
  seg_ok seg m -> In x (free_chunks seg c) -> shgcon (chunks m x) = None.
Proof.
  intros [T _ _] Hx.
  destruct (shgcon (chunks m x)) as [o|] eqn:E; [|reflexivity]. exfalso.
  pose proof (til_placed _ _ _ (sti_tiling _ _ _ _ _ T) x c
                ltac:(left; exact Hx)) as P.
  destruct (sti_other _ _ _ _ _ T x (mclass (chunks m x))) as [_ Hn].
  - split; [now apply (placed_in_range x c)|]. split; [congruence|reflexivity].
  - now apply (Hn c).
Qed.

(** The invariant reads the lists, and of the headers inside the segment
    the class, the link and whether there is an owner. *)
Lemma seg_ok_same seg seg' m m' :
  (forall c, free_chunks seg' c = free_chunks seg c) ->
  (forall a, base <= a < base + size ->
             mclass (chunks m' a) = mclass (chunks m a) /\
             free_chain (chunks m' a) = free_chain (chunks m a) /\
             (shgcon (chunks m' a) = None <-> shgcon (chunks m a) = None)) ->
  seg_ok seg m -> seg_ok seg' m'.
Proof.
  intros Hl Hm [T U B].
  assert (Htr : forall x c, tracked m x c <-> tracked m' x c).
  { intros x c. unfold tracked. split; intros (R & O & C);
      destruct (Hm x R) as (Hc & _ & Ho); (split; [exact R|split]);
      try congruence; tauto. }
  pose proof (sti_tiling _ _ _ _ _ T) as Til.
  constructor.
  - apply (seg_tiled_ext base size seg' m' (tracked m)); [exact Htr|].
    constructor.
    + eapply tiling_ext; [|exact Til]. intros x c. unfold chunk_of.
      now rewrite Hl.
    + intros c x Hx. rewrite Hl in Hx.
      pose proof (til_placed _ _ _ Til x c ltac:(left; exact Hx)) as P.
      destruct (Hm x (placed_in_range x c P)) as (-> & -> & _).
      now apply (sti_free _ _ _ _ _ T).
    + intros c. rewrite Hl. apply (sti_nodup _ _ _ _ _ T).
    + intros x c Ho.
      destruct (Hm x ltac:(destruct Ho; assumption)) as (-> & _ & _).
      destruct (sti_other _ _ _ _ _ T x c Ho) as [Hc Hn].
      split; [assumption|]. intros c'. rewrite Hl. apply Hn.
  - intros x c Ho. apply Htr in Ho.
    destruct (Hm x ltac:(destruct Ho; assumption)) as (_ & -> & _).
    now apply (U x c).
  - intros c x. rewrite !Hl. apply B.
Qed.

(** [dmaBufferAllocChunk], then the owner set by [track_chunk]. *)
Lemma alloc_seg_ok seg m cls req x seg' m' m'' ctx :
  seg_ok seg m ->
  DMABUF_CHUNKSZ_MIN_BIT <= cls ->
  dmaBufferAllocChunk seg m cls req = Some (x, seg', m') ->
  chunks m'' = upd (chunks m') x
                 (mkChunk (free_chain (chunks m' x)) NodeLinked (Some ctx)
                          (required (chunks m' x)) (mclass (chunks m' x))
                          (magic_head (chunks m' x))) ->
  seg_ok seg' m'' /\
  placed base size x cls /\
  chunks m'' x = mkChunk NodeNull NodeLinked (Some ctx) req cls
                         DMABUF_CHUNK_MAGIC_CODE /\
  shgcon (chunks m x) = None /\
  (forall a, a < base \/ base + size <= a -> chunks m'' a = chunks m a) /\
  (forall a d, tracked m a d -> chunks m'' a = chunks m a).
Proof.
  intros [T U B] Hcls E Hm''.
  destruct (dmaBufferAllocChunk_spec base size (tracked m) seg m cls req x seg' m'
              T Hcls E)
    as (j & Hj & Hjmax & Hempty & Hhd & Hlists & T' & Hx & Hframe & Hdata).
  destruct (dmaBufferAllocChunk_keeps base size (tracked m) seg m cls req x seg' m'
              T U B Hcls E) as (U' & B' & Hxoth & Px & Hfr).
  pose proof (dmaBufferAllocChunk_owners _ _ _ _ _ _ _ E) as Ho.
  pose proof (placed_in_range x cls Px) as Rx.
  assert (Hother : forall a, a <> x -> chunks m'' a = chunks m' a).
  { intros a Ha. rewrite Hm''. now apply upd_other. }
  assert (Hx'' : chunks m'' x = mkChunk NodeNull NodeLinked (Some ctx) req cls
                                        DMABUF_CHUNK_MAGIC_CODE).
  { rewrite Hm'', upd_same, Hx. reflexivity. }
  assert (Hxm : shgcon (chunks m x) = None).
  { destruct (shgcon (chunks m x)) eqn:Eo; [|reflexivity]. exfalso.
    apply (Hxoth (mclass (chunks m x))).
    split; [exact Rx|]. split; [congruence|reflexivity]. }
  assert (L : same_links m' m'').
  { intros a. destruct (Z.eq_dec a x) as [->|Ha].
    - rewrite Hx'', Hx. auto.
    - rewrite Hother by assumption. auto. }
  assert (Htr : forall y d, with_chunk (tracked m) x cls y d <-> tracked m'' y d).
  { intros y d. split.
    - intros [Hy|[-> ->]].
      + assert (y <> x) by (intros ->; now apply (Hxoth d)).
        pose proof (Hfr y ltac:(right; right; exists d; exact Hy)) as Ey.
        destruct Hy as (R & O & C).
        unfold tracked. rewrite Hother, Ey by assumption. auto.
      + unfold tracked. rewrite Hx''. cbn [shgcon mclass].
        split; [exact Rx|]. split; [discriminate|reflexivity].
    - intros (R & O & C). destruct (Z.eq_dec y x) as [->|Hy].
      + right. rewrite Hx'' in C. cbn [mclass] in C. auto.
      + left. rewrite Hother in O, C by assumption.
        destruct (Ho y) as [Eo|Eo]; [|contradiction].
        assert (Ht : tracked m y (mclass (chunks m y))).
        { split; [exact R|]. split; [congruence|reflexivity]. }
        rewrite (Hfr y) in C by (right; right; eexists; exact Ht).
        now rewrite <- C. }
  split; [|split; [exact Px|split; [exact Hx''|split; [exact Hxm|split]]]].
  - constructor.
    + apply (seg_tiled_ext base size seg' m'' _ _ Htr).
      now apply (seg_tiled_links base size seg' m' m'').
    + intros y d Hy. apply Htr in Hy.
      now apply (others_unlinked_links m' m'' _ L U' y d).
    + exact B'.
  - intros a Ha. rewrite Hother by lia. apply Hfr. tauto.
  - intros a d Ht.
    assert (a <> x) by (intros ->; now apply (Hxoth d)).
    rewrite Hother by assumption. apply Hfr. right. right. now exists d.
Qed.

(** The chunks handed out, but for [x]. *)
Definition tracked_but (m : memory) (x : Z) : Z -> Z -> Prop :=
  fun y d => tracked m y d /\ y <> x.

Lemma tracked_but_with m x :
  tracked m x (mclass (chunks m x)) ->
  forall y d, tracked m y d <->
              with_chunk (tracked_but m x) x (mclass (chunks m x)) y d.
Proof.
  intros Hx y d. unfold with_chunk, tracked_but. split.
  - intros Hy. destruct (Z.eq_dec y x) as [->|Hne]; [|now left].
    right. destruct Hy as (_ & _ & <-). auto.
  - intros [[Hy _]|[-> ->]]; assumption.
Qed.

(** The release of [__dmaBufferFree]: the owner is cleared, then the
    chunk merged and put on a free list. *)
Lemma release_seg_ok seg m m2 x :
  seg_ok seg m ->
  base <= x < base + size ->
  shgcon (chunks m x) <> None ->
  chunks m2 = upd (chunks m) x
                (mkChunk (free_chain (chunks m x)) NodeNull None
                         (required (chunks m x)) (mclass (chunks m x))
                         (magic_head (chunks m x))) ->
  let r := release_chunk base size seg m2 x in
  seg_ok (fst r) (snd r) /\
  data (snd r) = data m2 /\
  (forall a, a < base \/ base + size <= a -> chunks (snd r) a = chunks m a) /\
  (forall a d, tracked m a d -> a <> x -> chunks (snd r) a = chunks m a) /\
  (forall d, ~ tracked (snd r) x d).
Proof.
  intros [T U B] Rx Ox Hm2 r.
  assert (Hx : tracked m x (mclass (chunks m x)))
    by (split; [exact Rx|split; [exact Ox|reflexivity]]).
  assert (Hother : forall a, a <> x -> chunks m2 a = chunks m a).
  { intros a Ha. rewrite Hm2. now apply upd_other. }
  assert (Hx2 : chunks m2 x = mkChunk (free_chain (chunks m x)) NodeNull None
                         (required (chunks m x)) (mclass (chunks m x))
                         (magic_head (chunks m x))).
  { rewrite Hm2. apply upd_same. }
  assert (L : same_links m m2).
  { intros a. destruct (Z.eq_dec a x) as [->|Ha].
    - rewrite Hx2. auto.
    - rewrite Hother by assumption. auto. }
  assert (Hc : carried base size (tracked_but m x) seg m2 x).
  { split; [|split].
    - apply (seg_tiled_links base size seg m m2 _ L).
      rewrite Hx2. cbn [mclass].
      apply (seg_tiled_ext base size seg m _ _ (tracked_but_with m x Hx) T).
    - intros d [_ Hne]. now apply Hne.
    - apply (others_unlinked_links m m2 _ L).
      intros y d [Hy _]. now apply (U y d). }
  destruct (release_chunk_tiled base size size_max _ seg m2 x Hc B)
    as (seg' & m' & E & T' & U' & B' & Hdata & Hframe).
  pose proof (release_chunk_owners base size seg m2 x) as Ho.
  fold r in Ho. subst r. rewrite E in *. cbn [fst snd] in *.
  assert (Htr : forall y d, tracked_but m x y d <-> tracked m' y d).
  { intros y d. split.
    - intros [Hy Hne].
      pose proof (Hframe y ltac:(left; exists d; split; assumption)) as Ey.
      destruct Hy as (R & O & C). unfold tracked.
      rewrite Ey, Hother by assumption. auto.
    - intros (R & O & C).
      destruct (Ho y) as [Eo|Eo]; [|contradiction].
      assert (Hne : y <> x).
      { intros ->. rewrite Eo, Hx2 in O. now apply O. }
      rewrite Eo, Hother in O by assumption.
      assert (Ht : tracked_but m x y (mclass (chunks m y))).
      { split; [|exact Hne]. split; [exact R|]. split; [exact O|reflexivity]. }
      rewrite (Hframe y), Hother in C by (try assumption; left; eexists; exact Ht).
      now rewrite <- C. }
  split; [|split; [exact Hdata|split; [|split]]].
  - constructor.
    + exact (seg_tiled_ext base size seg' m' _ _ Htr T').
    + intros y d Hy. apply Htr in Hy. now apply (U' y d).
    + exact B'.
  - intros a Ha. rewrite Hframe by tauto. apply Hother. lia.
  - intros a d Ht Hne. rewrite Hframe, Hother; [reflexivity|assumption|].
    left. exists d. split; assumption.
  - intros d Hd. apply Htr in Hd as [_ Hne]. now apply Hne.
Qed.

(** The shrinking branch of [__dmaBufferRealloc]. *)
Lemma shrink_seg_ok seg m m1 x cls :
  seg_ok seg m ->
  base <= x < base + size ->
  shgcon (chunks m x) <> None ->
  DMABUF_CHUNKSZ_MIN_BIT <= cls < mclass (chunks m x) ->
  (forall a, a <> x -> chunks m1 a = chunks m a) ->
  mclass (chunks m1 x) = cls ->
  free_chain (chunks m1 x) = free_chain (chunks m x) ->
  shgcon (chunks m1 x) = shgcon (chunks m x) ->
  let k := mclass (chunks m x) in
  let r := shrink_chunks (Z.to_nat (2 * (k - cls) + 2)) seg m1
                         (x + pow2 cls) (x + pow2 k) k cls in
  seg_ok (fst r) (snd r) /\
  data (snd r) = data m1 /\
  chunks (snd r) x = chunks m1 x /\
  (forall c, free_chunks (fst r) c = shrink_lists (free_chunks seg) x cls k c) /\
  (forall a, a < base \/ base + size <= a -> chunks (snd r) a = chunks m a) /\
  (forall a d, tracked m a d -> a <> x -> chunks (snd r) a = chunks m a).
Proof.
  intros [T U B] Rx Ox Hcls Hother Hc1 Hf1 Ho1 k r.
  assert (Hx : tracked m x k)
    by (split; [exact Rx|split; [exact Ox|reflexivity]]).
  pose proof (tracked_but_with m x Hx) as Hw. fold k in Hw.
  destruct (shrink_chunks_tiled base size (tracked_but m x) seg m m1 x k cls)
    as (T' & U' & B' & Hlists & Hx' & HA & Hout); try assumption.
  - exact (seg_tiled_ext base size seg m _ _ Hw T).
  - intros y d Hy. apply Hw in Hy. now apply (U y d).
  - intros d [_ Hne]. now apply Hne.
  - fold r in T', U', B', Hlists, Hx', HA, Hout.
    pose proof (shrink_chunks_owners (Z.to_nat (2 * (k - cls) + 2)) seg m1
                  (x + pow2 cls) (x + pow2 k) k cls) as Ho.
    fold r in Ho.
    destruct (shrink_chunks_frame cls (x + pow2 cls) ltac:(zlia)
                (Z.to_nat (2 * (k - cls) + 2)) seg m1 (x + pow2 k) k)
      as (_ & _ & Hdata & _).
    fold r in Hdata.
    assert (Htr : forall y d, with_chunk (tracked_but m x) x cls y d
                              <-> tracked (snd r) y d).
    { intros y d. split.
      - intros [[Hy Hne]|[-> ->]].
        + pose proof (HA y d ltac:(split; assumption)) as Ey.
          destruct Hy as (R & O & C). unfold tracked. rewrite Ey. auto.
        + unfold tracked. rewrite Hx', Ho1, Hc1. auto.
      - intros (R & O & C). destruct (Z.eq_dec y x) as [->|Hne].
        + right. rewrite Hx', Hc1 in C. auto.
        + left. destruct (Ho y) as [Eo|Eo]; [|contradiction].
          rewrite Eo, Hother in O by assumption.
          assert (Ht : tracked_but m x y (mclass (chunks m y))).
          { split; [|exact Hne]. split; [exact R|]. split; [exact O|reflexivity]. }
          rewrite (HA y _ Ht) in C. now rewrite <- C. }
    split; [|split; [exact Hdata|split; [exact Hx'|split; [exact Hlists|split]]]].
    + constructor.
      * exact (seg_tiled_ext base size _ _ _ _ Htr T').
      * intros y d Hy. apply Htr in Hy. now apply (U' y d).
      * exact B'.
    + intros a Ha. rewrite Hout by assumption. apply Hother. lia.
    + intros a d Ht Hne. apply (HA a d). split; assumption.
Qed.

(** A segment as [dmaBufferCreateSegment] seeds it. *)
Lemma seed_seg_ok rev num m :
  0 <= size ->
  size mod pow2 DMABUF_CHUNKSZ_MIN_BIT = 0 ->
  let r := seed_chunks (seed_fuel size) (mkSeg rev num (fun _ => []))
                       (map_new_object m base size) base (base + size)
                       DMABUF_CHUNKSZ_MAX_BIT in
  seg_ok (fst r) (snd r) /\
  revision (fst r) = rev /\
  (forall a, a < base \/ base + size <= a -> chunks (snd r) a = chunks m a) /\
  (forall c, DMABUF_CHUNKSZ_MIN_BIT <= c <= DMABUF_CHUNKSZ_MAX_BIT ->
             pow2 c <= size ->
             exists p, c <= p <= DMABUF_CHUNKSZ_MAX_BIT /\ free_chunks (fst r) p <> []).
Proof.
  intros Hs Hal r.
  destruct (seed_new_segment base size rev num (map_new_object m base size)
              ltac:(lia) Hal) as (T & B & Hrev & _ & Hframe & Hfree).
  fold r in T, B, Hrev, Hframe, Hfree.
  pose proof (seed_chunks_owners (seed_fuel size) (mkSeg rev num (fun _ => []))
                (map_new_object m base size) base (base + size)
                DMABUF_CHUNKSZ_MAX_BIT) as Ho.
  fold r in Ho.
  assert (Hnone : forall y d, tracked (snd r) y d -> False).
  { intros y d (R & O & _). destruct (Ho y) as [Eo|Eo]; [|contradiction].
    rewrite Eo in O. apply O. unfold map_new_object. cbn [chunks].
    destruct (Z.leb_spec base y), (Z.ltb_spec y (base + size)); try lia.
    reflexivity. }
  split; [|split; [exact Hrev|split; [|exact Hfree]]].
  - constructor.
    + apply (seg_tiled_ext base size _ _ (no_chunk)); [|exact T].
      intros y d. split; [intros []|apply Hnone].
    + intros y d Hy. destruct (Hnone y d Hy).
    + exact B.
  - intros a Ha. rewrite Hframe by assumption. unfold map_new_object.
    cbn [chunks].
    destruct (Z.leb_spec base a), (Z.ltb_spec a (base + size)); try lia;
      reflexivity.
Qed.

End SegmentInUse.

(** ** The segments of the directory *)

Ltac st_simpl :=
  cbn [segments mem active_segment_list inactive_segment_list dmaBufLocalMaps
       contexts set_context set_mem set_segment set_local_map set_active
       set_inactive].
Tactic Notation "st_simpl" "in" hyp(H) :=
  cbn [segments mem active_segment_list inactive_segment_list dmaBufLocalMaps
       contexts set_context set_mem set_segment set_local_map set_active
       set_inactive] in H.

(** The settings [pgstrom_init_dma_buffer] accepts (lines 1297-1391):
    the segment size is given in kB, between 256MB and 16GB, and the
    reserved range lies in the address space. *)
Record cfg_ok (cfg : config) : Prop := mkCfgOk {
  cok_size : 2 ^ 28 <= cfg_dma_segment_size cfg <= 2 ^ 34;
  cok_kB : cfg_dma_segment_size cfg mod 2 ^ 10 = 0;
  cok_nums : 0 <= cfg_max_dma_segment_nums cfg;
  cok_head : 0 <= cfg_dma_segment_vaddr_head cfg;
  cok_tail : dma_segment_vaddr_tail cfg <= 2 ^ 64
}.

Record heap_inv (cfg : config) (st : state) : Prop := mkHeapInv {
  hinv_ids : forall id,
    In id (active_segment_list st) \/ In id (inactive_segment_list st) ->
    0 <= id < cfg_max_dma_segment_nums cfg;
  hinv_seg : forall id,
    In id (active_segment_list st) ->
    seg_ok (mmap_ptr cfg id) (cfg_dma_segment_size cfg)
           (segments st id) (mem st)
}.

Lemma cfg_ok_size_max cfg :
  cfg_ok cfg -> cfg_dma_segment_size cfg <= pow2 DMABUF_CHUNKSZ_MAX_BIT.
Proof. intros H. destruct (cok_size cfg H). exact H1. Qed.

Lemma cfg_ok_align cfg :
  cfg_ok cfg -> cfg_dma_segment_size cfg mod pow2 DMABUF_CHUNKSZ_MIN_BIT = 0.
Proof.
  intros H. apply (mod_pow2_weaken _ DMABUF_CHUNKSZ_MIN_BIT 10); [zlia|].
  exact (cok_kB cfg H).
Qed.

(** The address ranges of two segments do not meet. *)
Lemma segments_apart cfg id id' a :
  cfg_ok cfg -> id <> id' ->
  mmap_ptr cfg id <= a < mmap_ptr cfg id + cfg_dma_segment_size cfg ->
  a < mmap_ptr cfg id' \/ mmap_ptr cfg id' + cfg_dma_segment_size cfg <= a.
Proof.
  intros H Hne. unfold mmap_ptr. destruct (cok_size cfg H) as [Hs _].
  assert (0 < cfg_dma_segment_size cfg) by lia.
  intros Ha. destruct (Z_lt_le_dec id id'); [left|right]; nia.
Qed.

(** One segment and the headers inside its range change. *)
Lemma heap_inv_update cfg st st' id0 :
  cfg_ok cfg -> heap_inv cfg st ->
  0 <= id0 < cfg_max_dma_segment_nums cfg ->
  (forall id, In id (active_segment_list st') \/ In id (inactive_segment_list st') ->
              id = id0 \/ In id (active_segment_list st)
              \/ In id (inactive_segment_list st)) ->
  (forall id, In id (active_segment_list st') ->
              id = id0 \/ In id (active_segment_list st)) ->
  (forall id c, id <> id0 ->
                free_chunks (segments st' id) c = free_chunks (segments st id) c) ->
  (forall a, a < mmap_ptr cfg id0 \/
             mmap_ptr cfg id0 + cfg_dma_segment_size cfg <= a ->
             chunks (mem st') a = chunks (mem st) a) ->
  (In id0 (active_segment_list st') ->
   seg_ok (mmap_ptr cfg id0) (cfg_dma_segment_size cfg)
          (segments st' id0) (mem st')) ->
  heap_inv cfg st'.
Proof.
  intros Hcfg [Hids Hseg] Hid0 Hl Ha Hfree Hframe H0. constructor.
  - intros id Hid. destruct (Hl id Hid) as [->|H]; [assumption|now apply Hids].
  - intros id Hid. destruct (Z.eq_dec id id0) as [->|Hne]; [now apply H0|].
    destruct (Ha id Hid) as [->|Hact]; [contradiction|].
    apply (seg_ok_same _ _ (segments st id) _ (mem st)).
    + intros c. now apply Hfree.
    + intros a Hr.
      rewrite Hframe by (apply (segments_apart cfg id id0); assumption).
      tauto.
    + now apply Hseg.
Qed.

(** Nothing but bytes, fields the invariant does not read, and this
    process's mappings change. *)
Lemma heap_inv_same cfg st st' :
  heap_inv cfg st ->
  active_segment_list st' = active_segment_list st ->
  inactive_segment_list st' = inactive_segment_list st ->
  (forall id c, free_chunks (segments st' id) c = free_chunks (segments st id) c) ->
  (forall a, mclass (chunks (mem st') a) = mclass (chunks (mem st) a) /\
             free_chain (chunks (mem st') a) = free_chain (chunks (mem st) a) /\
             (shgcon (chunks (mem st') a) = None
              <-> shgcon (chunks (mem st) a) = None)) ->
  heap_inv cfg st'.
Proof.
  intros [Hids Hseg] Ea Ei Hfree Hm. constructor.
  - rewrite Ea, Ei. exact Hids.
  - rewrite Ea. intros id Hid.
    apply (seg_ok_same _ _ (segments st id) _ (mem st)); auto.
Qed.

Lemma heap_inv_startup cfg ctxs :
  heap_inv cfg (pgstrom_startup_dma_buffer cfg ctxs).
Proof.
  constructor; cbn [active_segment_list inactive_segment_list
                    pgstrom_startup_dma_buffer].
  - intros id [[]|Hid]. apply in_map_iff in Hid as (n & <- & Hn).
    apply in_seq in Hn. lia.
  - intros id [].
Qed.

(** The chunk [pointer_validation] returns lies in the segment it
    returns, and has passed the three tests. *)
Lemma pointer_validation_range cfg st p chunk id st1 :
  cfg_ok cfg ->
  pointer_validation cfg st p = OK (chunk, id) st1 ->
  chunk = Size_wrap (p - offsetof_data) /\
  0 <= id < cfg_max_dma_segment_nums cfg /\
  mmap_ptr cfg id <= chunk < mmap_ptr cfg id + cfg_dma_segment_size cfg /\
  dmaBufferAttachSegmentOnDemand cfg st id = Some st1 /\
  Size_wrap (offsetof_data + required (chunks (mem st1) chunk) + sizeof_cl_uint)
  <= pow2 (mclass (chunks (mem st1) chunk)) /\
  magic_head (chunks (mem st1) chunk) = DMABUF_CHUNK_MAGIC_CODE /\
  DMABUF_CHUNK_MAGIC_TAIL (mem st1) chunk = DMABUF_CHUNK_MAGIC_CODE /\
  free_chain (chunks (mem st1) chunk) = NodeNull.
Proof.
  intros Hcfg. unfold pointer_validation.
  set (x := Size_wrap (p - offsetof_data)).
  destruct (Z.ltb_spec x (cfg_dma_segment_vaddr_head cfg)) as [|Hlo];
    [discriminate|].
  destruct (Z.geb_spec x (dma_segment_vaddr_tail cfg)) as [|Hhi];
    [discriminate|].
  cbn [orb].
  pose proof (cok_tail cfg Hcfg) as Ht. pose proof (cok_head cfg Hcfg) as Hh.
  destruct (cok_size cfg Hcfg) as [Hs _].
  assert (Hpos : 0 < cfg_dma_segment_size cfg) by lia.
  rewrite (Size_wrap_small (x - cfg_dma_segment_vaddr_head cfg)) by lia.
  set (i := (x - cfg_dma_segment_vaddr_head cfg) / cfg_dma_segment_size cfg).
  destruct (dmaBufferAttachSegmentOnDemand cfg st i) as [st0|] eqn:Ea;
    [|discriminate].
  destruct (_ >? _) eqn:E1; [discriminate|].
  destruct (magic_head _ =? _) eqn:E2; [|discriminate].
  destruct (DMABUF_CHUNK_MAGIC_TAIL _ _ =? _) eqn:E3; [|discriminate].
  cbn [orb negb].
  destruct (free_chain (chunks (mem st0) x)) eqn:E4; [|discriminate].
  cbn [node_is_null negb]. intros H. injection H as <- <- <-.
  rewrite Z.gtb_ltb in E1. apply Z.ltb_ge in E1.
  apply Z.eqb_eq in E2, E3.
  pose proof (Z.div_mod (x - cfg_dma_segment_vaddr_head cfg)
                (cfg_dma_segment_size cfg) ltac:(lia)) as Hdm.
  pose proof (Z.mod_pos_bound (x - cfg_dma_segment_vaddr_head cfg)
                (cfg_dma_segment_size cfg) Hpos) as Hmb.
  fold i in Hdm.
  assert (Hi0 : 0 <= i) by (apply Z.div_pos; lia).
  assert (Hi1 : i < cfg_max_dma_segment_nums cfg).
  { apply Z.div_lt_upper_bound; [lia|]. unfold dma_segment_vaddr_tail in Hhi.
    lia. }
  unfold mmap_ptr. repeat split; try assumption; try lia.
Qed.

(** The scan stops at the first segment that yields a chunk. *)
Lemma scan_active_segments_found st segs cls req chunk st1 :
  scan_active_segments st segs cls req = Some (chunk, st1) ->
  exists id seg' m',
    In id segs /\
    dmaBufferAllocChunk (segments st id) (mem st) cls req = Some (chunk, seg', m') /\
    st1 = set_segment (set_mem st m') id seg'.
Proof.
  induction segs as [|id rest IH]; simpl; [discriminate|].
  destruct (dmaBufferAllocChunk (segments st id) (mem st) cls req)
    as [[[x seg'] m']|] eqn:E.
  - intros [= <- <-]. exists id, seg', m'. auto.
  - intros H. destruct (IH H) as (i & s & m & Hi & Ha & Hs).
    exists i, s, m. auto.
Qed.

Lemma mclass_of_min req : DMABUF_CHUNKSZ_MIN_BIT <= mclass_of req.
Proof.
  unfold mclass_of, get_next_log2, chunk_size_of.
  change DMABUF_CHUNKSZ_MIN_BIT with (Z.log2_up DMABUF_CHUNKSZ_MIN).
  apply Z.log2_up_le_mono. lia.
Qed.

(** A chunk taken from an active segment and billed to a context. *)
Lemma alloc_step_inv cfg st id cls req x seg' m' ctx csz p st' :
  cfg_ok cfg -> heap_inv cfg st ->
  In id (active_segment_list st) ->
  DMABUF_CHUNKSZ_MIN_BIT <= cls ->
  dmaBufferAllocChunk (segments st id) (mem st) cls req = Some (x, seg', m') ->
  track_chunk (set_segment (set_mem st m') id seg') ctx csz x = OK p st' ->
  heap_inv cfg st' /\
  p = DMABUF_CHUNK_DATA x /\
  placed (mmap_ptr cfg id) (cfg_dma_segment_size cfg) x cls /\
  chunks (mem st') x = mkChunk NodeNull NodeLinked (Some ctx) req cls
                               DMABUF_CHUNK_MAGIC_CODE /\
  shgcon (chunks (mem st) x) = None /\
  active_segment_list st' = active_segment_list st /\
  inactive_segment_list st' = inactive_segment_list st /\
  (forall i, i <> id -> segments st' i = segments st i) /\
  segments st' id = seg' /\
  (forall i a d, In i (active_segment_list st) ->
     tracked (mmap_ptr cfg i) (cfg_dma_segment_size cfg) (mem st) a d ->
     chunks (mem st') a = chunks (mem st) a).
Proof.
  intros Hcfg Hinv Hid Hcls E Ht.
  unfold track_chunk in Ht. destruct (overruns _ _) eqn:Hover in Ht; [discriminate|]. injection Ht as <- <-.
  cbn [mem set_context set_mem set_segment segments active_segment_list
       inactive_segment_list].
  pose proof (hinv_seg cfg st Hinv id Hid) as Hok.
  match goal with
  | |- context [memset ?mm ?a ?b ?l] =>
    destruct (alloc_seg_ok (mmap_ptr cfg id) (cfg_dma_segment_size cfg)
                (segments st id) (mem st) cls req x
                seg' m' (memset mm a b l) ctx Hok Hcls E eq_refl)
      as (Hok' & Px & Hx & Hxm & Hout & Htr)
  end.
  split; [|split; [reflexivity|split; [exact Px|split; [exact Hx|
           split; [exact Hxm|split; [reflexivity|split; [reflexivity|
           split; [|split]]]]]]]].
  - apply (heap_inv_update cfg st _ id Hcfg Hinv).
    + apply (hinv_ids cfg st Hinv). now left.
    + cbn. tauto.
    + cbn. tauto.
    + intros i c Hi. cbn. now rewrite upd_other.
    + exact Hout.
    + intros _. st_simpl. rewrite upd_same.
      exact Hok'.
  - intros i Hi. now apply upd_other.
  - apply upd_same.
  - intros i a d Hi Ha. destruct (Z.eq_dec i id) as [->|Hne].
    + now apply (Htr a d).
    + apply Hout. destruct Ha as (R & _).
      now apply (segments_apart cfg i id).
Qed.

(** A segment taken from the inactive list and created. *)
Lemma alloc_new_segment_heap cfg st id rest u st2 :
  cfg_ok cfg -> heap_inv cfg st ->
  inactive_segment_list st = id :: rest ->
  dmaBufferCreateSegment cfg (set_inactive st rest) id = OK u st2 ->
  heap_inv cfg (set_active st2 (dlist_push_head (active_segment_list st2) id)) /\
  (forall a, a < mmap_ptr cfg id \/
             mmap_ptr cfg id + cfg_dma_segment_size cfg <= a ->
             chunks (mem st2) a = chunks (mem st) a) /\
  (forall c, DMABUF_CHUNKSZ_MIN_BIT <= c <= DMABUF_CHUNKSZ_MAX_BIT ->
             pow2 c <= cfg_dma_segment_size cfg ->
             exists p, c <= p <= DMABUF_CHUNKSZ_MAX_BIT /\
                       free_chunks (segments st2 id) p <> []).
Proof.
  intros Hcfg Hinv Hin. unfold dmaBufferCreateSegment.
  destruct (if is_attached _ then _ else _); [discriminate|].
  set (st1 := if is_attached (dmaBufLocalMaps (set_inactive st rest) id)
              then _ else _).
  assert (Hst1 : segments st1 = segments st /\ mem st1 = mem st /\
                 active_segment_list st1 = active_segment_list st /\
                 inactive_segment_list st1 = rest).
  { subst st1. destruct (is_attached _); cbn; auto. }
  destruct Hst1 as (Hseg1 & Hmem1 & Hact1 & Hina1). clearbody st1.
  destruct (negb (shm_open_ok _)); [discriminate|].
  destruct (negb (ftruncate_ok _)); [discriminate|].
  destruct (negb (mmap_ok _)); [discriminate|].
  destruct (_ && _).
  { destruct (negb (munmap_ok _)); [discriminate|].
    destruct (negb (mmap_none_ok _)); discriminate. }
  destruct (cok_size cfg Hcfg) as [Hs0 Hs1].
  destruct (seed_seg_ok (mmap_ptr cfg id) (cfg_dma_segment_size cfg)
              (cfg_ok_size_max cfg Hcfg)
              (revision (segments (set_inactive st rest) id))
              (num_chunks (segments (set_inactive st rest) id))
              (mem st1) ltac:(lia) (cfg_ok_align cfg Hcfg))
    as (Hok & Hrev & Hout & Hfree).
  destruct (seed_chunks _ _ _ _ _ _) as [seg1 m1]. cbn [fst snd] in *.
  intros H. injection H as _ H. subst st2.
  split; [|split].
  - apply (heap_inv_update cfg st _ id Hcfg Hinv).
    + apply (hinv_ids cfg st Hinv). right. rewrite Hin. now left.
    + st_simpl. rewrite Hact1, Hina1, Hin. unfold dlist_push_head.
      simpl. tauto.
    + st_simpl. rewrite Hact1. unfold dlist_push_head. simpl. intuition.
    + intros i c Hi. st_simpl. rewrite upd_other, Hseg1 by assumption.
      reflexivity.
    + intros a Ha. st_simpl. rewrite Hout, Hmem1 by assumption. reflexivity.
    + intros _. st_simpl. rewrite upd_same.
      apply (seg_ok_same _ _ seg1 _ m1); [reflexivity|tauto|exact Hok].
  - intros a Ha. st_simpl. rewrite Hout, Hmem1 by assumption. reflexivity.
  - intros c Hc Hp. st_simpl. rewrite upd_same. now apply Hfree.
Qed.

(** [dmaBufferAllocInternal] keeps the invariant of the segments. *)
Lemma dmaBufferAllocInternal_heap cfg st ctx req st' :
  cfg_ok cfg -> heap_inv cfg st ->
  state_of (dmaBufferAllocInternal cfg st ctx req) = Some st' ->
  heap_inv cfg st'.
Proof.
  intros Hcfg Hinv. unfold dmaBufferAllocInternal.
  destruct (_ >? _); [intros [= <-]; assumption|].
  fold (mclass_of req).
  destruct (scan_active_segments st (active_segment_list st)
              (mclass_of req) req) as [[chunk st1]|] eqn:Hscan.
  - rewrite (alloc_retry_scan_some _ _ _ _ _ _ _ _ _ _ Hscan).
    destruct (scan_active_segments_found _ _ _ _ _ _ Hscan)
      as (id & seg' & m' & Hid & E & ->).
    destruct (track_chunk_cases (set_segment (set_mem st m') id seg') ctx
                (chunk_size_of req) chunk) as [[st1 Hp]|Hp]; rewrite Hp; [|discriminate].
    intros [= <-].
    now destruct (alloc_step_inv cfg st id (mclass_of req) req chunk seg' m'
                    ctx (chunk_size_of req) _ st1 Hcfg Hinv Hid
                    (mclass_of_min req) E Hp).
  - rewrite alloc_retry_scan_none by assumption.
    destruct (inactive_segment_list st) as [|id rest] eqn:Hin;
      [intros [= <-]; assumption|].
    destruct (dmaBufferCreateSegment cfg (set_inactive st rest) id)
      as [u st2|m2 st2|m2|] eqn:Hc; try discriminate.
    + cbv zeta.
      destruct (alloc_new_segment_heap _ _ _ _ _ _ Hcfg Hinv Hin Hc)
        as (Hinv3 & _ & _).
      destruct (dmaBufferAllocChunk _ _ _ _) as [[[ch sg] mm]|] eqn:E;
        [|discriminate].
      match goal with
      | |- state_of (track_chunk ?s ?c ?z ?k) = _ -> _ =>
        destruct (track_chunk_cases s c z k) as [[st4 Hp]|Hp]; rewrite Hp
      end; [|discriminate].
      intros [= <-].
      refine (proj1 (alloc_step_inv cfg _ id (mclass_of req) req ch sg mm
                       ctx (chunk_size_of req) _ st4 Hcfg Hinv3 _
                       (mclass_of_min req) E Hp)).
      st_simpl. now left.
    + intros [= <-].
      apply dmaBufferCreateSegment_error in Hc as (Hseg & Hact & Hina & Hmem & _).
      st_simpl in Hact. st_simpl in Hina. st_simpl in Hseg. st_simpl in Hmem.
      apply (heap_inv_same cfg st); [assumption| | | |]; st_simpl;
        unfold dlist_push_head.
      * exact Hact.
      * now rewrite Hina, Hin.
      * intros i c. now rewrite Hseg.
      * intros a. rewrite Hmem. tauto.
Qed.

(** The header [__dmaBufferFree] leaves before it merges the chunk. *)
Definition disowned (m : memory) (chunk : Z) : memory :=
  set_chunk (memset m (DMABUF_CHUNK_DATA chunk) 0xf5
                    (required (chunks m chunk))) chunk
    (mkChunk (free_chain (chunks m chunk)) NodeNull None
             (required (chunks m chunk)) (mclass (chunks m chunk))
             (magic_head (chunks m chunk))).

(** What a release does to the memory and the free lists. *)
Lemma __dmaBufferFree_released cfg st p u st' :
  dir_inv st ->
  __dmaBufferFree cfg st p = OK u st' ->
  exists chunk id ctx,
    pointer_validation cfg st p = OK (chunk, id) st /\
    shgcon (chunks (mem st) chunk) = Some ctx /\
    let r := release_chunk (mmap_ptr cfg id) (cfg_dma_segment_size cfg)
                           (segments st id) (disowned (mem st) chunk) chunk in
    mem st' = snd r /\
    free_chunks (segments st' id) = free_chunks (fst r).
Proof.
  intros Hinv. unfold __dmaBufferFree.
  destruct (pointer_validation cfg st p) as [[chunk id] st0|?|?|] eqn:Hpv;
    try discriminate.
  destruct (pointer_validation_inv _ _ _ _ _ _ Hinv Hpv) as [-> Hact].
  destruct (overruns _ _) eqn:Hover; [discriminate|].
  destruct (shgcon (chunks (mem st) chunk)) as [ctx|] eqn:Eo; [|discriminate].
  fold (disowned (mem st) chunk).
  destruct (release_chunk _ _ _ _ _) as [seg1 m3] eqn:Er.
  intros H. exists chunk, id, ctx. split; [reflexivity|]. split; [exact Eo|].
  cbv zeta. rewrite Er. cbn [fst snd].
  destruct ((num_chunks seg1 >? 0) || persistent cfg id).
  - injection H as H; subst st'; st_simpl;
      rewrite upd_same; split; reflexivity.
  - unfold dmaBufferDetachSegment in H.
    destruct (if is_attached _ then unmap_attached cfg else None);
      [discriminate|].
    destruct (negb (shm_open_ok (cfg_os cfg))); [discriminate|].
    destruct (negb (shm_unlink_ok (cfg_os cfg))); [discriminate|].
    destruct (is_attached _) in H;
      injection H as H; subst st'; st_simpl;
      rewrite !upd_same; split; reflexivity.
Qed.

(** [__dmaBufferFree] keeps the invariant of the segments. *)
Lemma __dmaBufferFree_heap cfg st p st' :
  cfg_ok cfg -> dir_inv st -> heap_inv cfg st ->
  state_of (__dmaBufferFree cfg st p) = Some st' ->
  heap_inv cfg st'.
Proof.
  intros Hcfg Hdir Hinv.
  destruct (__dmaBufferFree cfg st p) as [u st1|msg st1|?|] eqn:E;
    try discriminate; intros [= <-].
  2: { now rewrite (__dmaBufferFree_error _ _ _ _ _ Hdir E). }
  destruct (__dmaBufferFree_released _ _ _ _ _ Hdir E)
    as (chunk & id & ctx & Hpv & Ho & Hmem & Hfree).
  destruct (__dmaBufferFree_effect _ _ _ _ _ Hdir E)
    as (chunk' & id' & Hpv' & Hact & _ & Hoth & Hlists).
  rewrite Hpv in Hpv'. injection Hpv' as <- <-.
  destruct (pointer_validation_range _ _ _ _ _ _ Hcfg Hpv)
    as (_ & Hid & Rx & _).
  destruct (release_seg_ok (mmap_ptr cfg id) (cfg_dma_segment_size cfg)
              (cfg_ok_size_max cfg Hcfg) (segments st id) (mem st)
              (disowned (mem st) chunk) chunk
              (hinv_seg cfg st Hinv id Hact) Rx ltac:(congruence) eq_refl)
    as (Hok & _ & Hout & _ & _).
  apply (heap_inv_update cfg st st1 id Hcfg Hinv Hid).
  - intros i Hi.
    destruct (_ || _) in Hlists.
    + destruct Hlists as (Ea & Ei & _). rewrite Ea, Ei in Hi. tauto.
    + destruct Hlists as (Ea & Ei & _). rewrite Ea, Ei in Hi.
      destruct Hi as [Hi|[Hi|Hi]]; [apply In_dlist_delete in Hi; tauto|
                                    subst; tauto|
                                    apply In_dlist_delete in Hi; tauto].
  - intros i Hi.
    destruct (_ || _) in Hlists.
    + destruct Hlists as (Ea & _). rewrite Ea in Hi. tauto.
    + destruct Hlists as (Ea & _). rewrite Ea in Hi.
      apply In_dlist_delete in Hi. tauto.
  - intros i c Hi. now destruct (Hoth i Hi) as [-> _].
  - intros a Ha. rewrite Hmem. now apply Hout.
  - intros _.
    refine (seg_ok_same _ _ _ _ _ _ (fun c => f_equal (fun f => f c) Hfree)
              _ Hok).
    intros a _. rewrite Hmem. tauto.
Qed.

Lemma heap_inv_set_data cfg st m :
  heap_inv cfg st -> chunks m = chunks (mem st) -> heap_inv cfg (set_mem st m).
Proof.
  intros Hinv Hm. apply (heap_inv_same cfg st); try assumption; try reflexivity.
  intros a. st_simpl. rewrite Hm. tauto.
Qed.

(** [__dmaBufferRealloc] keeps the invariant of the segments, when the
    chunk it is given has an owner: a chunk that has been released may
    have been merged into a free chunk, which the shrinking branch would
    cut a piece out of. *)
Lemma __dmaBufferRealloc_heap cfg st p req st' :
  cfg_ok cfg -> dir_inv st -> heap_inv cfg st ->
  shgcon (chunks (mem st) (Size_wrap (p - offsetof_data))) <> None ->
  state_of (__dmaBufferRealloc cfg st p req) = Some st' ->
  heap_inv cfg st'.
Proof.
  intros Hcfg Hdir Hinv Hown. unfold __dmaBufferRealloc.
  destruct (pointer_validation cfg st p) as [[chunk id] st0|msg st0|?|] eqn:Hpv;
    try discriminate.
  2: { intros [= <-].
       assert (st0 = st) as ->; [|assumption].
       apply (pointer_validation_state cfg st p); [assumption|].
       now rewrite Hpv. }
  destruct (pointer_validation_inv _ _ _ _ _ _ Hdir Hpv) as [-> Hact].
  destruct (pointer_validation_range _ _ _ _ _ _ Hcfg Hpv)
    as (Hchunk & Hid & Rx & _).
  rewrite <- Hchunk in Hown.
  fold (mclass_of req).
  destruct (mclass_of req =? mclass (chunks (mem st) chunk)) eqn:Eeq.
  { intros [= <-]. apply (heap_inv_same cfg st); try assumption; try reflexivity.
    intros a. st_simpl. unfold set_MAGIC_TAIL, store32, set_chunk.
    cbn [chunks]. unfold upd. destruct (Z.eqb_spec a chunk) as [->|];
      cbn [mclass free_chain shgcon]; tauto. }
  destruct (Z.ltb_spec (mclass_of req) (mclass (chunks (mem st) chunk)))
    as [Hlt|Hge].
  { match goal with
    | |- context [shrink_chunks ?f ?s ?mm ?h ?t ?sh ?c] =>
      destruct (shrink_seg_ok (mmap_ptr cfg id) (cfg_dma_segment_size cfg)
                  (segments st id) (mem st) mm chunk (mclass_of req)
                  (hinv_seg cfg st Hinv id Hact) Rx Hown
                  (conj (mclass_of_min req) Hlt))
        as (Hok & _ & _ & _ & Hout & _);
      [| | | |destruct (shrink_chunks f s mm h t sh c) as [seg1 m3]]
    end.
    - intros a Ha. unfold set_MAGIC_TAIL, store32, set_chunk. cbn [chunks].
      now apply upd_other.
    - unfold set_MAGIC_TAIL, store32, set_chunk. cbn [chunks].
      now rewrite upd_same.
    - unfold set_MAGIC_TAIL, store32, set_chunk. cbn [chunks].
      now rewrite upd_same.
    - unfold set_MAGIC_TAIL, store32, set_chunk. cbn [chunks].
      now rewrite upd_same.
    - cbn [fst snd] in *. intros [= <-].
      apply (heap_inv_update cfg st _ id Hcfg Hinv Hid); st_simpl.
      + tauto.
      + tauto.
      + intros i c Hi. now rewrite upd_other.
      + exact Hout.
      + intros _. rewrite upd_same. exact Hok. }
  destruct (shgcon (chunks (mem st) chunk)) as [ctx|]; [|discriminate].
  destruct (dmaBufferAllocInternal cfg st ctx req) as [res st1|msg st1|?|] eqn:Ea;
    try discriminate.
  - assert (Hdir1 : dir_inv st1).
    { apply (dmaBufferAllocInternal_inv cfg st ctx req); [assumption|].
      now rewrite Ea. }
    assert (Hinv1 : heap_inv cfg st1).
    { apply (dmaBufferAllocInternal_heap cfg st ctx req); [assumption..|].
      now rewrite Ea. }
    destruct (_ || _); [discriminate|].
    match goal with |- context [__dmaBufferFree cfg ?s p] =>
      pose proof (__dmaBufferFree_heap cfg s p) as Hf;
      destruct (__dmaBufferFree cfg s p) as [u st2|msg st2|?|]
    end; try discriminate; intros [= <-]; apply Hf;
      try reflexivity; try assumption;
      try (now apply dir_inv_set_mem);
      now apply heap_inv_set_data.
  - intros [= <-]. apply (dmaBufferAllocInternal_heap cfg st ctx req);
      [assumption..|]. now rewrite Ea.
Qed.

Lemma free_all_rec_heap cfg fuel :
  cfg_ok cfg ->
  forall st ctx st',
    dir_inv st -> heap_inv cfg st ->
    state_of (free_all_rec cfg fuel st ctx) = Some st' ->
    heap_inv cfg st'.
Proof.
  intros Hcfg.
  induction fuel as [|fuel IH]; intros st ctx st' Hdir Hinv; simpl.
  - intros [= <-]. assumption.
  - destruct (dma_buffer_list (contexts st ctx)) as [|chunk rest];
      [intros [= <-]; assumption|].
    match goal with |- context [__dmaBufferFree cfg ?s ?q] =>
      pose proof (__dmaBufferFree_heap cfg s q) as Hf;
      pose proof (__dmaBufferFree_inv cfg s q) as Hd;
      destruct (__dmaBufferFree cfg s q) as [u st2|msg st2|?|]
    end; try discriminate.
    + apply IH.
      * apply Hd; [now apply dir_inv_set_context|reflexivity].
      * apply Hf; [assumption|now apply dir_inv_set_context| |reflexivity].
        apply (heap_inv_same cfg st); try assumption; try reflexivity.
        intros a. tauto.
    + intros [= <-].
      apply Hf; [assumption|now apply dir_inv_set_context| |reflexivity].
      apply (heap_inv_same cfg st); try assumption; try reflexivity.
      intros a. tauto.
Qed.

(** ** The directory in service *)

(** What the allocator asks of its callers: a length that the size
    computation of lines 623-625 does not wrap around, and for
    [__dmaBufferRealloc] a chunk that is in use. *)
Definition well_formed (st : state) (c : api_call) : Prop :=
  match c with
  | CallAlloc _ req => 0 <= req < 2 ^ 63
  | CallRealloc p req =>
    0 <= req < 2 ^ 63 /\
    shgcon (chunks (mem st) (Size_wrap (p - offsetof_data))) <> None
  | _ => True
  end.

(** The states reached from start-up by such calls, whatever the system
    calls answer along the way. *)
Inductive serving (cfg : config) : state -> Prop :=
| serving_startup (ctxs : Z -> SharedGpuContext) :
    serving cfg (pgstrom_startup_dma_buffer cfg ctxs)
| serving_call (st st' : state) (os : os_calls) (c : api_call) :
    serving cfg st ->
    well_formed st c ->
    run_call (set_os cfg os) st c = Some st' ->
    serving cfg st'.

Lemma serving_reachable cfg st : serving cfg st -> reachable cfg st.
Proof.
  induction 1 as [ctxs|st st' os c _ IH _ Hrun].
  - apply reach_startup.
  - exact (reach_call cfg st st' os c IH Hrun).
Qed.

Lemma cfg_ok_set_os cfg os : cfg_ok cfg -> cfg_ok (set_os cfg os).
Proof. intros [H1 H2 H3 H4 H5]. constructor; assumption. Qed.

Lemma heap_inv_set_os cfg os st :
  heap_inv (set_os cfg os) st <-> heap_inv cfg st.
Proof. split; intros [H1 H2]; constructor; assumption. Qed.

(** Every state in service satisfies the invariants. *)
Lemma serving_inv cfg st :
  cfg_ok cfg -> serving cfg st -> dir_inv st /\ heap_inv cfg st.
Proof.
  intros Hcfg Hs. split; [exact (reachable_dir_inv cfg st (serving_reachable cfg st Hs))|].
  induction Hs as [ctxs|st st' os c Hs IH Hwf Hrun].
  - apply heap_inv_startup.
  - pose proof (reachable_dir_inv cfg st (serving_reachable cfg st Hs)) as Hdir.
    pose proof (cfg_ok_set_os cfg os Hcfg) as Hcfg'.
    apply (heap_inv_set_os cfg os). apply (heap_inv_set_os cfg os) in IH.
    destruct c; simpl in Hrun, Hwf.
    + eapply dmaBufferAllocInternal_heap; eassumption.
    + eapply __dmaBufferFree_heap; eassumption.
    + eapply __dmaBufferRealloc_heap; try eassumption. tauto.
    + eapply free_all_rec_heap; eassumption.
    + apply pointer_validation_state in Hrun; [subst; assumption|assumption].
Qed.

(** ** Pointers and the chunks they belong to *)

Lemma segment_in_space cfg id a :
  cfg_ok cfg -> 0 <= id < cfg_max_dma_segment_nums cfg ->
  mmap_ptr cfg id <= a < mmap_ptr cfg id + cfg_dma_segment_size cfg ->
  cfg_dma_segment_vaddr_head cfg <= a < dma_segment_vaddr_tail cfg /\
  0 <= a < 2 ^ 64.
Proof.
  intros Hcfg Hid. unfold mmap_ptr.
  pose proof (cok_tail cfg Hcfg) as Ht. pose proof (cok_head cfg Hcfg) as Hh.
  destruct (cok_size cfg Hcfg) as [Hs _].
  unfold dma_segment_vaddr_tail in *. intros Ha.
  assert (0 < cfg_dma_segment_size cfg) by lia. nia.
Qed.

Lemma segment_unique cfg id id' a :
  cfg_ok cfg ->
  mmap_ptr cfg id <= a < mmap_ptr cfg id + cfg_dma_segment_size cfg ->
  mmap_ptr cfg id' <= a < mmap_ptr cfg id' + cfg_dma_segment_size cfg ->
  id = id'.
Proof.
  intros Hcfg H1 H2. destruct (Z.eq_dec id id') as [|Hne]; [assumption|].
  destruct (segments_apart cfg id id' a Hcfg Hne H1); lia.
Qed.

(** The pointer to the payload of a chunk leads back to the chunk and
    its segment. *)
Lemma pointer_validation_chunk cfg st id x chunk id' st1 :
  cfg_ok cfg -> 0 <= id < cfg_max_dma_segment_nums cfg ->
  mmap_ptr cfg id <= x < mmap_ptr cfg id + cfg_dma_segment_size cfg ->
  pointer_validation cfg st (DMABUF_CHUNK_DATA x) = OK (chunk, id') st1 ->
  chunk = x /\ id' = id.
Proof.
  intros Hcfg Hid Rx Hpv.
  destruct (pointer_validation_range _ _ _ _ _ _ Hcfg Hpv)
    as (Hchunk & _ & Rx' & _).
  destruct (segment_in_space cfg id x Hcfg Hid Rx) as [_ Hx].
  assert (chunk = x).
  { rewrite Hchunk. unfold DMABUF_CHUNK_DATA.
    replace (x + offsetof_data - offsetof_data) with x by lia.
    now apply Size_wrap_small. }
  clear Hchunk. subst chunk. split; [reflexivity|].
  exact (segment_unique cfg id' id x Hcfg Rx' Rx).
Qed.

(** The fields of the headers the merge loop reads are those
    [dmaBufferAllocChunk] left. *)
Lemma tracked_then_disowned_links m' x ctx byte len :
  same_links m'
    (disowned
       (memset
          (set_chunk m' x
             (mkChunk (free_chain (chunks m' x)) NodeLinked (Some ctx)
                      (required (chunks m' x)) (mclass (chunks m' x))
                      (magic_head (chunks m' x))))
          (DMABUF_CHUNK_DATA x) byte len) x).
Proof.
  intros a. unfold disowned, memset, set_chunk. cbn [chunks]. unfold upd.
  destruct (Z.eqb_spec a x) as [->|]; [|auto].
  rewrite Z.eqb_refl. cbn [mclass free_chain]. auto.
Qed.

(** An allocation from segment [id], then the release of the chunk. *)
Lemma alloc_step_release cfg os st id cls req x seg' m' ctx csz p st1 st2 :
  cfg_ok cfg -> dir_inv st -> heap_inv cfg st ->
  In id (active_segment_list st) ->
  DMABUF_CHUNKSZ_MIN_BIT <= cls ->
  dmaBufferAllocChunk (segments st id) (mem st) cls req = Some (x, seg', m') ->
  track_chunk (set_segment (set_mem st m') id seg') ctx csz x = OK p st1 ->
  dir_inv st1 ->
  __dmaBufferFree (set_os cfg os) st1 p = OK tt st2 ->
  forall i c, free_chunks (segments st2 i) c = free_chunks (segments st i) c.
Proof.
  intros Hcfg Hdir Hinv Hid Hcls E Ht Hdir1 Hf i c.
  destruct (alloc_step_inv cfg st id cls req x seg' m' ctx csz p st1
              Hcfg Hinv Hid Hcls E Ht)
    as (_ & -> & Px & _ & _ & _ & _ & Hoth & Hseg & _).
  pose proof (placed_in_range _ _ x cls Px) as Rx.
  pose proof (hinv_ids cfg st Hinv id ltac:(now left)) as Hidr.
  destruct (__dmaBufferFree_released _ _ _ _ _ Hdir1 Hf)
    as (chunk & id' & ctx' & Hpv & _ & Hmem & Hfree).
  destruct (__dmaBufferFree_effect _ _ _ _ _ Hdir1 Hf)
    as (chunk' & id'' & Hpv' & _ & _ & Hoth2 & _).
  rewrite Hpv in Hpv'. injection Hpv' as <- <-.
  destruct (pointer_validation_chunk (set_os cfg os) st1 id x chunk id' st1
              (cfg_ok_set_os cfg os Hcfg) Hidr Rx Hpv) as [-> ->].
  destruct (Z.eq_dec i id) as [->|Hne].
  - rewrite Hfree. change (mmap_ptr (set_os cfg os) id) with (mmap_ptr cfg id).
    change (cfg_dma_segment_size (set_os cfg os)) with (cfg_dma_segment_size cfg).
    rewrite Hseg.
    destruct (hinv_seg cfg st Hinv id Hid) as [T U B].
    apply (alloc_release_lists (mmap_ptr cfg id) (cfg_dma_segment_size cfg)
             (cfg_ok_size_max cfg Hcfg) _ (segments st id) (mem st) cls req x
             seg' m' _ T U B Hcls E).
    unfold track_chunk in Ht. destruct (overruns _ _) eqn:Hover in Ht; [discriminate|]. injection Ht as <-. st_simpl.
    apply tracked_then_disowned_links.
  - destruct (Hoth2 i Hne) as [-> _]. now rewrite Hoth.
Qed.

(** ** An allocation undone by a release *)

(** C3: in every state in service, an allocation followed at once by
    the release of the chunk it returned leaves, in every segment that
    was in use before the allocation, the free list of every class as it
    was: the same chunks in the same order.  The splits of
    [dmaBufferAllocChunk] are undone by the merges of [__dmaBufferFree]. *)
Theorem alloc_free_restores_lists cfg os os' st ctx req p st1 st2 :
  cfg_ok cfg ->
  serving cfg st ->
  dmaBufferAllocInternal (set_os cfg os) st ctx req = OK p st1 ->
  __dmaBufferFree (set_os cfg os') st1 p = OK tt st2 ->
  forall id, In id (active_segment_list st) ->
  forall c, free_chunks (segments st2 id) c = free_chunks (segments st id) c.
Proof.
  intros Hcfg Hs Ha Hf id Hid c.
  destruct (serving_inv cfg st Hcfg Hs) as [Hdir Hinv].
  assert (Hdir1 : dir_inv st1).
  { apply (dmaBufferAllocInternal_inv (set_os cfg os) st ctx req);
      [assumption|]. now rewrite Ha. }
  revert Ha. unfold dmaBufferAllocInternal.
  destruct (_ >? _); [discriminate|].
  fold (mclass_of req).
  destruct (scan_active_segments st (active_segment_list st)
              (mclass_of req) req) as [[chunk st0]|] eqn:Hscan.
  - rewrite (alloc_retry_scan_some _ _ _ _ _ _ _ _ _ _ Hscan).
    destruct (scan_active_segments_found _ _ _ _ _ _ Hscan)
      as (id0 & seg' & m' & Hid0 & E & ->).
    intros Ht.
    exact (alloc_step_release cfg os' st id0 (mclass_of req) req chunk seg' m'
             ctx (chunk_size_of req) p st1 st2 Hcfg Hdir Hinv Hid0
             (mclass_of_min req) E Ht Hdir1 Hf id c).
  - rewrite alloc_retry_scan_none by assumption.
    destruct (inactive_segment_list st) as [|id' rest] eqn:Hin; [discriminate|].
    destruct (dmaBufferCreateSegment (set_os cfg os) (set_inactive st rest) id')
      as [u st3|m3 st3|m3|] eqn:Hc; try discriminate.
    cbv zeta.
    destruct (alloc_new_segment_heap (set_os cfg os) st id' rest u st3
                (cfg_ok_set_os cfg os Hcfg)
                (proj2 (heap_inv_set_os cfg os st) Hinv) Hin Hc)
      as (Hinv3 & _ & _).
    apply (heap_inv_set_os cfg os) in Hinv3.
    pose proof (alloc_new_segment_inv _ _ _ _ _ _ Hdir Hin Hc) as Hdir3.
    destruct (dmaBufferAllocChunk _ _ _ _) as [[[ch sg] mm]|] eqn:E;
      [|discriminate].
    intros Ht.
    rewrite (alloc_step_release cfg os' _ id' (mclass_of req) req ch sg mm
               ctx (chunk_size_of req) p st1 st2 Hcfg Hdir3 Hinv3
               ltac:(st_simpl; now left) (mclass_of_min req) E Ht Hdir1 Hf id c).
    st_simpl.
    assert (Hne : id <> id').
    { intros ->. apply (inv_inactive st Hdir id'); [rewrite Hin; now left|].
      assumption. }
    apply dmaBufferCreateSegment_OK in Hc as (_ & _ & _ & _ & _ & Hoth & _).
    destruct (Hoth id Hne) as [-> _]. reflexivity.
Qed.

(** Runs used to evaluate the examples: requests from start-up, and the
    value and the state a call returns. *)
Lemma run_allocs_serving cfg os ctx reqs :
  Forall (fun req => 0 <= req < 2 ^ 63) reqs ->
  forall st st',
    serving cfg st ->
    run_calls (set_os cfg os) st (map (CallAlloc ctx) reqs) = Some st' ->
    serving cfg st'.
Proof.
  induction 1 as [|req rest Hreq _ IH]; intros st st' Hs; simpl.
  - intros [= <-]. assumption.
  - destruct (state_of (dmaBufferAllocInternal (set_os cfg os) st ctx req))
      as [st1|] eqn:E; [|discriminate].
    apply IH. exact (serving_call cfg st st1 os (CallAlloc ctx req) Hs Hreq E).
Qed.

Lemma state_after_serving cfg os ctx reqs :
  Forall (fun req => 0 <= req < 2 ^ 63) reqs ->
  run_calls (set_os cfg os) (startup cfg) (map (CallAlloc ctx) reqs) <> None ->
  serving cfg (state_after (set_os cfg os) (map (CallAlloc ctx) reqs)).
Proof.
  intros Hreqs. unfold state_after.
  change (startup (set_os cfg os)) with (startup cfg).
  destruct (run_calls (set_os cfg os) (startup cfg) (map (CallAlloc ctx) reqs))
    as [st|] eqn:E; [intros _|congruence].
  eapply run_allocs_serving; [exact Hreqs|apply serving_startup|exact E].
Qed.

Definition result_value {A : Type} (d : A) (r : result A) : A :=
  match r with OK a _ => a | _ => d end.

Definition result_state {A : Type} (d : state) (r : result A) : state :=
  match r with OK _ s => s | ERROR _ s => s | _ => d end.

Lemma is_OK_result {A : Type} (d : A) (s : state) (r : result A) :
  is_OK r = true -> r = OK (result_value d r) (result_state s r).
Proof. destruct r; try discriminate. reflexivity. Qed.

Lemma is_OK_unit (s : state) (r : result unit) :
  is_OK r = true -> r = OK tt (result_state s r).
Proof. destruct r as [[] ?|?|?|]; try discriminate. reflexivity. Qed.

Lemma cfg_256MB_ok os : cfg_ok (cfg_256MB os).
Proof.
  constructor; unfold dma_segment_vaddr_tail; cbn; try lia; reflexivity.
Qed.

Lemma alloc_free_restores_lists_witness :
  let cfg := cfg_256MB os_all_ok in
  let st := state_after cfg (map (CallAlloc 0) [100; 5000]) in
  let r1 := dmaBufferAllocInternal cfg st 0 6000 in
  let r2 := __dmaBufferFree cfg (result_state st r1) (result_value 0 r1) in
  free_chunks (segments (result_state st r2) 0) 14 = free_chunks (segments st 0) 14.
Proof.
  intros cfg st r1 r2.
  apply (alloc_free_restores_lists cfg os_all_ok os_all_ok st 0 6000
           (result_value 0 r1) (result_state st r1) (result_state st r2)).
  - apply cfg_256MB_ok.
  - apply (state_after_serving (cfg_256MB os_all_ok) os_all_ok 0 [100; 5000]).
    + repeat constructor; lia.
    + apply is_Some_not_None. vm_compute. reflexivity.
  - apply (is_OK_result 0 st r1). vm_compute. reflexivity.
  - apply (is_OK_unit st r2). vm_compute. reflexivity.
  - vm_compute. left. reflexivity.
Defined.

(** ** Buddies *)

(** The buddy the merge loop looks at (lines 945-965): above the chunk
    when the bit of its class is clear in its offset, below when set. *)
Definition buddy (base chunk cls : Z) : Z :=
  if Z.land (Size_wrap (chunk - base)) (pow2 cls) =? 0
  then chunk + pow2 cls else chunk - pow2 cls.

Lemma lxor_pow2 (o c : Z) :
  0 <= c ->
  Z.lxor o (pow2 c) = if Z.testbit o c then o - pow2 c else o + pow2 c.
Proof.
  intros Hc. rewrite pow2_spec by assumption.
  destruct (Z.testbit o c) eqn:E.
  - rewrite Z.sub_nocarry_ldiff.
    + apply Z.bits_inj'. intros n Hn.
      rewrite Z.lxor_spec, Z.ldiff_spec, Z.pow2_bits_eqb by assumption.
      destruct (Z.eqb_spec c n) as [->|];
        [rewrite E; reflexivity|].
      now rewrite xorb_false_r, andb_true_r.
    + apply Z.bits_inj'. intros n Hn.
      rewrite Z.ldiff_spec, Z.pow2_bits_eqb, Z.bits_0 by assumption.
      destruct (Z.eqb_spec c n) as [->|]; [now rewrite E|reflexivity].
  - symmetry. apply Z.add_nocarry_lxor.
    apply Z.bits_inj'. intros n Hn.
    rewrite Z.land_spec, Z.pow2_bits_eqb, Z.bits_0 by assumption.
    destruct (Z.eqb_spec c n) as [->|];
      [now rewrite E|now rewrite andb_false_r].
Qed.

Section Merging.

Variables base size : Z.
Hypothesis size_max : size <= pow2 DMABUF_CHUNKSZ_MAX_BIT.

(** The buddy is the chunk whose offset in the segment differs in the
    bit of the class. *)
Lemma buddy_lxor z k :
  placed base size z k ->
  buddy base z k = base + Z.lxor (z - base) (pow2 k).
Proof.
  intros Pz. unfold buddy.
  destruct Pz as (Hk & Hb & He & Hm).
  assert (Hk0 : 0 <= k) by zlia.
  pose proof (pow2_pos k Hk0) as Hp.
  assert (Hbig : pow2 DMABUF_CHUNKSZ_MAX_BIT < 2 ^ 64) by (vm_compute; reflexivity).
  rewrite Size_wrap_small by lia.
  rewrite land_pow2, lxor_pow2 by assumption.
  destruct (Z.testbit (z - base) k).
  - destruct (Z.eqb_spec (pow2 k) 0); lia.
  - rewrite Z.eqb_refl. lia.
Qed.

Lemma buddy_cases z k :
  placed base size z k ->
  (buddy base z k = z + pow2 k /\ (z - base) mod pow2 (k + 1) = 0) \/
  (buddy base z k = z - pow2 k /\ (z - base) mod pow2 (k + 1) = pow2 k).
Proof.
  intros Pz. unfold buddy.
  destruct (offset_bit base size size_max z k Pz) as [[-> H]|[-> H]]; auto.
Qed.

(** What the merge loop returns: the carried chunk has grown over every
    free buddy it met, downwards or upwards. *)
Lemma merge_chunks_grows A (n : nat) :
  forall seg m z,
    Z.to_nat (DMABUF_CHUNKSZ_MAX_BIT + 1 - mclass (chunks m z)) = n ->
    carried base size A seg m z ->
    let r := merge_chunks base size seg m z in
    let k := mclass (chunks m z) in
    let d := mclass (chunks (snd (fst r)) (snd r)) in
    k <= d /\ snd r <= z /\ z + pow2 k <= snd r + pow2 d /\
    (In (buddy base z k) (free_chunks seg k) ->
     k + 1 <= d /\ snd r <= buddy base z k /\
     buddy base z k + pow2 k <= snd r + pow2 d /\
     (~ In (buddy base (Z.min z (buddy base z k)) (k + 1))
           (free_chunks seg (k + 1)) ->
      d = k + 1 /\ snd r = Z.min z (buddy base z k))) /\
    (~ In (buddy base z k) (free_chunks seg k) -> r = (seg, m, z)).
Proof.
  induction n as [n IH] using lt_wf_ind. intros seg m z Hn Hc r k d.
  pose proof (carried_placed _ _ _ _ _ _ Hc) as Pz. fold k in Pz.
  assert (Hk : DMABUF_CHUNKSZ_MIN_BIT <= k <= DMABUF_CHUNKSZ_MAX_BIT)
    by (destruct Pz; assumption).
  assert (Hk0 : 0 <= k) by zlia.
  pose proof (pow2_pos k Hk0) as Hp.
  pose proof (pow2_succ k Hk0) as Hs.
  assert (Hstop : r = (seg, m, z) -> ~ In (buddy base z k) (free_chunks seg k) ->
                  k <= d /\ snd r <= z /\ z + pow2 k <= snd r + pow2 d /\
                  (In (buddy base z k) (free_chunks seg k) ->
                   k + 1 <= d /\ snd r <= buddy base z k /\
                   buddy base z k + pow2 k <= snd r + pow2 d /\
                   (~ In (buddy base (Z.min z (buddy base z k)) (k + 1))
                         (free_chunks seg (k + 1)) ->
                    d = k + 1 /\ snd r = Z.min z (buddy base z k))) /\
                  (~ In (buddy base z k) (free_chunks seg k) -> r = (seg, m, z))).
  { intros E Hnb. subst d. rewrite E. cbn [fst snd]. fold k.
    split; [lia|]. split; [lia|]. split; [lia|]. split; [tauto|auto]. }
  assert (Hgo : forall lo,
             let b := buddy base z k in
             In b (free_chunks seg k) ->
             (lo = z /\ b = z + pow2 k \/ lo = b /\ z = b + pow2 k) ->
             (lo - base) mod pow2 (k + 1) = 0 ->
             r = merge_chunks base size (delete_free_chain seg b)
                              (raise_class m lo) lo ->
             k <= d /\ snd r <= z /\ z + pow2 k <= snd r + pow2 d /\
             (In b (free_chunks seg k) ->
              k + 1 <= d /\ snd r <= b /\ b + pow2 k <= snd r + pow2 d /\
              (~ In (buddy base (Z.min z b) (k + 1)) (free_chunks seg (k + 1)) ->
               d = k + 1 /\ snd r = Z.min z b)) /\
             (~ In b (free_chunks seg k) -> r = (seg, m, z))).
  { intros lo b Hb Hlo Hal E.
    assert (Hc1 : carried base size A (delete_free_chain seg b) (raise_class m lo) lo).
    { apply (merge_tiled base size size_max A seg m z b lo); assumption. }
    assert (Hlok : mclass (chunks m lo) = k).
    { destruct Hlo as [[-> _]|[-> _]]; [reflexivity|].
      destruct Hc as (Htil & _).
      now destruct (sti_free _ _ _ _ _ Htil k b Hb). }
    assert (Hnew : mclass (chunks (raise_class m lo) lo) = k + 1).
    { unfold raise_class, set_chunk. cbn [chunks]. rewrite upd_same.
      cbn [mclass]. lia. }
    assert (Hmin : Z.min z b = lo) by lia.
    destruct (IH (Z.to_nat (DMABUF_CHUNKSZ_MAX_BIT + 1 - (k + 1))) ltac:(zlia)
                 (delete_free_chain seg b) (raise_class m lo) lo
                 ltac:(now rewrite Hnew) Hc1)
      as (H1 & H2 & H3 & _ & H5).
    rewrite Hnew in H1, H3, H5. rewrite <- E in H1, H2, H3, H5. fold d in H1, H3.
    pose proof (pow2_pos (k + 1) ltac:(lia)) as Hp1.
    split; [lia|]. split; [lia|]. split; [lia|]. split; [|tauto].
    intros _. split; [lia|]. split; [lia|]. split; [lia|].
    rewrite Hmin. intros Hnb.
    rewrite H5.
    - subst d. rewrite H5.
      + cbn [fst snd]. rewrite Hnew. auto.
      + rewrite delete_free_chain_lists. intros Hin.
        apply In_dlist_delete in Hin. tauto.
    - rewrite delete_free_chain_lists. intros Hin.
      apply In_dlist_delete in Hin. tauto. }
  destruct (buddy_cases z k Pz) as [[Eb Hal]|[Eb Hal]].
  - destruct (merge_turn_upper base size size_max A seg m z Hc Hal) as [Hyes Hno].
    fold k in Hyes, Hno. fold r in Hyes, Hno.
    destruct (in_dec Z.eq_dec (buddy base z k) (free_chunks seg k)) as [Hb|Hnb].
    + apply (Hgo z); [assumption|left; auto|assumption|].
      rewrite Eb. apply Hyes. now rewrite <- Eb.
    + apply Hstop; [|assumption]. apply Hno. now rewrite <- Eb.
  - destruct (merge_turn_lower base size size_max A seg m z Hc Hal) as [Hyes Hno].
    fold k in Hyes, Hno. fold r in Hyes, Hno.
    destruct (in_dec Z.eq_dec (buddy base z k) (free_chunks seg k)) as [Hb|Hnb].
    + apply (Hgo (buddy base z k)); [assumption|right; split; [reflexivity|lia]| |].
      * rewrite Eb.
        pose proof (Z.div_mod (z - base) (pow2 (k + 1)) ltac:(lia)) as Hd.
        replace (z - pow2 k - base)
          with (((z - base) / pow2 (k + 1)) * pow2 (k + 1)) by lia.
        apply Z.mod_mul. lia.
      * rewrite Eb. apply Hyes. now rewrite <- Eb.
    + apply Hstop; [|assumption]. apply Hno. now rewrite <- Eb.
Qed.

Lemma buddy_buddy z k :
  placed base size z k -> placed base size (buddy base z k) k ->
  buddy base (buddy base z k) k = z.
Proof.
  intros Pz Pb.
  assert (Hk0 : 0 <= k) by (destruct Pz; zlia).
  pose proof (pow2_pos k Hk0) as Hp.
  pose proof (pow2_succ k Hk0) as Hs.
  destruct (buddy_cases z k Pz) as [[Eb Hal]|[Eb Hal]];
    destruct (buddy_cases _ k Pb) as [[Eb' Hal']|[Eb' Hal']];
    rewrite Eb in *; try lia; exfalso.
  - replace (z + pow2 k - base) with (pow2 k + (z - base)) in Hal' by lia.
    rewrite <- Z.add_mod_idemp_r, Hal, Z.add_0_r, Z.mod_small in Hal' by lia.
    lia.
  - pose proof (Z.div_mod (z - base) (pow2 (k + 1)) ltac:(lia)) as Hd.
    replace (z - pow2 k - base)
      with (((z - base) / pow2 (k + 1)) * pow2 (k + 1)) in Hal' by lia.
    rewrite Z.mod_mul in Hal' by lia. lia.
Qed.

(** The chunk [__dmaBufferFree] hands to the merge loop. *)
Lemma disowned_carried seg m x :
  seg_ok base size seg m ->
  base <= x < base + size ->
  shgcon (chunks m x) <> None ->
  carried base size (tracked_but base size m x) seg (disowned m x) x /\
  mclass (chunks (disowned m x) x) = mclass (chunks m x).
Proof.
  intros [T U B] Rx Ox.
  assert (Hx : tracked base size m x (mclass (chunks m x)))
    by (split; [exact Rx|split; [exact Ox|reflexivity]]).
  assert (Hx2 : chunks (disowned m x) x
                = mkChunk (free_chain (chunks m x)) NodeNull None
                          (required (chunks m x)) (mclass (chunks m x))
                          (magic_head (chunks m x))).
  { unfold disowned, set_chunk. cbn [chunks]. apply upd_same. }
  assert (L : same_links m (disowned m x)).
  { intros a. destruct (Z.eq_dec a x) as [->|Ha].
    - rewrite Hx2. auto.
    - unfold disowned, set_chunk, memset. cbn [chunks].
      rewrite upd_other by assumption. auto. }
  split; [|now rewrite Hx2].
  split; [|split].
  - apply (seg_tiled_links base size seg m _ _ L).
    rewrite Hx2. cbn [mclass].
    apply (seg_tiled_ext base size seg m _ _ (tracked_but_with base size m x Hx) T).
  - intros d [_ Hne]. now apply Hne.
  - apply (others_unlinked_links m _ _ L).
    intros y d [Hy _]. now apply (U y d).
Qed.

(** The release of a chunk in use: where it ends up. *)
Lemma release_chunk_merged seg m x :
  seg_ok base size seg m ->
  base <= x < base + size ->
  shgcon (chunks m x) <> None ->
  let c := mclass (chunks m x) in
  let b := buddy base x c in
  let r := release_chunk base size seg (disowned m x) x in
  exists z d,
    free_chunks (fst r) d = z :: tl (free_chunks (fst r) d) /\
    mclass (chunks (snd r) z) = d /\
    c <= d /\ z <= x /\ x + pow2 c <= z + pow2 d /\
    (In b (free_chunks seg c) ->
     c + 1 <= d /\ z <= b /\ b + pow2 c <= z + pow2 d /\
     (~ In (buddy base (Z.min x b) (c + 1)) (free_chunks seg (c + 1)) ->
      d = c + 1 /\ z = Z.min x b)) /\
    (~ In b (free_chunks seg c) ->
     d = c /\ z = x /\
     forall c', free_chunks (fst r) c'
                = if c' =? c then x :: free_chunks seg c else free_chunks seg c').
Proof.
  intros Hok Rx Ox c b r.
  destruct (disowned_carried seg m x Hok Rx Ox) as [Hc Hcl].
  pose proof (merge_chunks_grows _ _ seg (disowned m x) x eq_refl Hc) as G.
  cbv zeta in G. rewrite Hcl in G. fold c b in G.
  subst r. rewrite release_chunk_eq. cbv zeta.
  destruct (merge_chunks base size seg (disowned m x) x) as [[seg1 m1] z1] eqn:E.
  cbn [fst snd] in *.
  destruct G as (G1 & G2 & G3 & G4 & G5).
  exists z1, (mclass (chunks m1 z1)).
  unfold set_chunk, dlist_push_head. cbn [free_chunks set_num_chunks
    set_free_chunks chunks]. rewrite !upd_same. cbn [mclass tl].
  split; [reflexivity|]. split; [reflexivity|].
  split; [exact G1|]. split; [exact G2|]. split; [exact G3|].
  split; [exact G4|].
  intros Hnb. specialize (G5 Hnb). injection G5 as -> -> ->.
  rewrite Hcl. fold c. split; [reflexivity|]. split; [reflexivity|].
  intros c'. unfold upd. destruct (c' =? c); reflexivity.
Qed.

End Merging.

(** ** Merging on release *)

(** C2: the release of a chunk [x] of class [c] in a segment that
    satisfies the invariant, as lines 943-990 of [__dmaBufferFree] do it
    once the owner is cleared.  The buddy the loop tests is the chunk at
    the offset of [x] with the bit of the class flipped.  The chunk ends
    up in one free chunk [z] of a class [d] at the head of the list of
    [d], and no two buddies are free afterwards (part of [seg_ok]): the
    merging has gone on as far as there were free buddies.  If the buddy
    was on the free list of class [c], the free chunk is of class [c + 1]
    at least and holds both, neither of which is on the list of [c] any
    more; it is of class [c + 1] exactly when the buddy of the merged
    chunk is not free.  If the buddy was not free, the chunk is put on
    the list of [c] as it is.  And when the buddy is in use with the same
    class, releasing it next leaves the two halves in one free chunk of
    class [c + 1] or more, starting at or below the lower half. *)
Theorem freed_buddies_merge base size seg m x :
  size <= pow2 DMABUF_CHUNKSZ_MAX_BIT ->
  seg_ok base size seg m ->
  base <= x < base + size ->
  shgcon (chunks m x) <> None ->
  let c := mclass (chunks m x) in
  let b := base + Z.lxor (x - base) (pow2 c) in
  let r := release_chunk base size seg (disowned m x) x in
  buddy base x c = b /\
  seg_ok base size (fst r) (snd r) /\
  (exists z d,
     free_chunks (fst r) d = z :: tl (free_chunks (fst r) d) /\
     mclass (chunks (snd r) z) = d /\
     c <= d /\ z <= x /\ x + pow2 c <= z + pow2 d /\
     (In b (free_chunks seg c) ->
      c + 1 <= d /\ z <= b /\ b + pow2 c <= z + pow2 d /\
      ~ In x (free_chunks (fst r) c) /\ ~ In b (free_chunks (fst r) c) /\
      (~ In (buddy base (Z.min x b) (c + 1)) (free_chunks seg (c + 1)) ->
       d = c + 1 /\ z = Z.min x b)) /\
     (~ In b (free_chunks seg c) -> d = c /\ z = x)) /\
  (base <= b < base + size ->
   shgcon (chunks m b) <> None ->
   mclass (chunks m b) = c ->
   let r' := release_chunk base size (fst r) (disowned (snd r) b) b in
   exists z d,
     free_chunks (fst r') d = z :: tl (free_chunks (fst r') d) /\
     mclass (chunks (snd r') z) = d /\
     c + 1 <= d /\ z <= Z.min x b /\
     Z.min x b + pow2 (c + 1) <= z + pow2 d /\
     (~ In (buddy base (Z.min x b) (c + 1)) (free_chunks seg (c + 1)) ->
      d = c + 1 /\ z = Z.min x b)).
Proof.
  intros size_max Hok Rx Ox c b r.
  assert (Hx : tracked base size m x c)
    by (split; [exact Rx|split; [exact Ox|reflexivity]]).
  pose proof (sti_tiling _ _ _ _ _ (sok_tiled _ _ _ _ Hok)) as Til.
  pose proof (til_placed _ _ _ Til x c ltac:(right; exact Hx)) as Px.
  assert (Hk0 : 0 <= c) by (destruct Px; zlia).
  pose proof (pow2_pos c Hk0) as Hp.
  pose proof (pow2_succ c Hk0) as Hs.
  assert (Eb : buddy base x c = b) by (apply (buddy_lxor base size size_max x c Px)).
  destruct (release_seg_ok base size size_max seg m (disowned m x) x Hok Rx Ox
              eq_refl) as (Hok' & _ & _ & Hfr & _).
  fold r in Hok', Hfr.
  pose proof (sti_tiling _ _ _ _ _ (sok_tiled _ _ _ _ Hok')) as Til'.
  destruct (release_chunk_merged base size size_max seg m x Hok Rx Ox)
    as (z & d & Hhd & Hcl & H1 & H2 & H3 & Hyes & Hno).
  fold c in Hhd, Hcl, H1, H2, H3, Hyes, Hno. fold r in Hhd, Hcl, Hyes, Hno.
  rewrite Eb in Hyes, Hno.
  assert (Hz : In z (free_chunks (fst r) d)) by (rewrite Hhd; now left).
  assert (Hin : forall y, z <= y < z + pow2 d -> c + 1 <= d ->
                          ~ In y (free_chunks (fst r) c)).
  { intros y Hy Hd Hiny.
    assert (y = z).
    { apply (til_disjoint _ _ _ Til' z d y c); [now left|now left|exact Hy]. }
    subst y.
    pose proof (til_class _ _ _ Til' z d c ltac:(now left) ltac:(now left)).
    lia. }
  split; [exact Eb|]. split; [exact Hok'|]. split.
  - exists z, d. split; [exact Hhd|]. split; [exact Hcl|].
    split; [exact H1|]. split; [exact H2|]. split; [exact H3|].
    split; [|intros Hnb; destruct (Hno Hnb) as (? & ? & _); auto].
    intros Hb. destruct (Hyes Hb) as (Y1 & Y2 & Y3 & Y4).
    split; [exact Y1|]. split; [exact Y2|]. split; [exact Y3|].
    split; [apply Hin; lia|]. split; [apply Hin; lia|exact Y4].
  - intros Rb Ob Cb r'.
    assert (Hb : tracked base size m b c)
      by (split; [exact Rb|split; [exact Ob|exact Cb]]).
    pose proof (til_placed _ _ _ Til b c ltac:(right; exact Hb)) as Pb.
    assert (Hne : b <> x).
    { rewrite <- Eb. destruct (buddy_cases base size size_max x c Px)
        as [[-> _]|[-> _]]; lia. }
    assert (Hnb : ~ In b (free_chunks seg c)).
    { destruct (sti_other _ _ _ _ _ (sok_tiled _ _ _ _ Hok) b c Hb) as [_ Hn].
      apply Hn. }
    destruct (Hno Hnb) as (-> & -> & Hlists).
    pose proof (Hfr b c Hb Hne) as Ebh.
    assert (Ob' : shgcon (chunks (snd r) b) <> None) by now rewrite Ebh.
    destruct (release_chunk_merged base size size_max (fst r) (snd r) b Hok' Rb Ob')
      as (z' & d' & Hhd' & Hcl' & K1 & K2 & K3 & Kyes & _).
    rewrite ?Ebh, ?Cb in K1, K3, Kyes. fold r' in Hhd', Hcl', Kyes.
    assert (Ebb : buddy base b c = x).
    { rewrite <- Eb. apply (buddy_buddy base size size_max x c Px).
      now rewrite Eb. }
    rewrite Ebb in Kyes.
    destruct Kyes as (Y1 & Y2 & Y3 & Y4).
    { rewrite Hlists, Z.eqb_refl. now left. }
    assert (Hd : x = b + pow2 c \/ b = x + pow2 c).
    { rewrite <- Eb. destruct (buddy_cases base size size_max x c Px)
        as [[-> _]|[-> _]]; lia. }
    exists z', d'. split; [exact Hhd'|]. split; [exact Hcl'|].
    split; [exact Y1|]. split; [lia|]. split; [lia|].
    intros Hpar. replace (Z.min x b) with (Z.min b x) in * by lia.
    apply Y4. rewrite Hlists.
    destruct (Z.eqb_spec (c + 1) c); [lia|exact Hpar].
Qed.

(** Two requests of 100 bytes take the two lowest chunks of the first
    segment, buddies of class 8; the first is released, then the other. *)
Lemma freed_buddies_merge_witness :
  let cfg := cfg_256MB os_all_ok in
  let st := state_after cfg (map (CallAlloc 0) [100; 100]) in
  let x := mmap_ptr cfg 0 in
  let r := release_chunk (mmap_ptr cfg 0) (cfg_dma_segment_size cfg)
                         (segments st 0) (disowned (mem st) x) x in
  let r' := release_chunk (mmap_ptr cfg 0) (cfg_dma_segment_size cfg)
                          (fst r) (disowned (snd r) (x + 256)) (x + 256) in
  free_chunks (fst r) 8 = x :: tl (free_chunks (fst r) 8) /\
  exists z d,
    free_chunks (fst r') d = z :: tl (free_chunks (fst r') d) /\
    9 <= d /\ z <= x /\ x + 512 <= z + pow2 d.
Proof.
  intros cfg st x r r'.
  assert (Hs : serving cfg st).
  { apply (state_after_serving (cfg_256MB os_all_ok) os_all_ok 0 [100; 100]).
    - repeat constructor; lia.
    - apply is_Some_not_None. vm_compute. reflexivity. }
  assert (Hok : seg_ok (mmap_ptr cfg 0) (cfg_dma_segment_size cfg)
                       (segments st 0) (mem st)).
  { apply (hinv_seg cfg st (proj2 (serving_inv cfg st (cfg_256MB_ok os_all_ok) Hs))).
    vm_compute. left. reflexivity. }
  assert (Ec : mclass (chunks (mem st) x) = 8) by (vm_compute; reflexivity).
  destruct (freed_buddies_merge (mmap_ptr cfg 0) (cfg_dma_segment_size cfg)
              (segments st 0) (mem st) x)
    as (_ & _ & (z & d & Hhd & _ & _ & _ & _ & _ & Hno) & Hboth).
  - apply Z.leb_le. vm_compute. reflexivity.
  - exact Hok.
  - unfold x, mmap_ptr. cbn. lia.
  - vm_compute. discriminate.
  - rewrite Ec in Hno, Hboth.
    change (mmap_ptr cfg 0 + Z.lxor (x - mmap_ptr cfg 0) (pow2 8))
      with (x + 256) in Hno, Hboth.
    fold r in Hhd, Hno, Hboth.
    split.
    + destruct Hno as [-> ->]; [|exact Hhd].
      vm_compute. intros H. exact H.
    + destruct Hboth as (z' & d' & Hhd' & _ & Hd' & Hz' & Hcov & _).
      * unfold x, mmap_ptr. cbn. lia.
      * vm_compute. discriminate.
      * vm_compute. reflexivity.
      * fold r' in Hhd'. exists z', d'.
        change (Z.min x (x + 256)) with x in Hz', Hcov.
        change (pow2 (8 + 1)) with 512 in Hcov.
        split; [exact Hhd'|]. split; [lia|]. split; [lia|lia].
Defined.

(** ** Guard words and lengths *)

Lemma store32_other (m : memory) (a v x : Z) :
  x < a \/ a + 4 <= x -> data (store32 m a v) x = data m x.
Proof.
  intros H. unfold store32. cbn [data].
  destruct (Z.leb_spec a x), (Z.ltb_spec x (a + 4)); try lia; reflexivity.
Qed.

(** A word stored is the word loaded. *)
Lemma load32_store32 (m : memory) (a v : Z) :
  0 <= v < 2 ^ 32 -> load32 (store32 m a v) a = v.
Proof.
  intros Hv. unfold load32, store32. cbn [data].
  replace ((a <=? a) && (a <? a + 4)) with true
    by (symmetry; apply andb_true_intro; split;
        [apply Z.leb_le|apply Z.ltb_lt]; lia).
  replace ((a <=? a + 1) && (a + 1 <? a + 4)) with true
    by (symmetry; apply andb_true_intro; split;
        [apply Z.leb_le|apply Z.ltb_lt]; lia).
  replace ((a <=? a + 2) && (a + 2 <? a + 4)) with true
    by (symmetry; apply andb_true_intro; split;
        [apply Z.leb_le|apply Z.ltb_lt]; lia).
  replace ((a <=? a + 3) && (a + 3 <? a + 4)) with true
    by (symmetry; apply andb_true_intro; split;
        [apply Z.leb_le|apply Z.ltb_lt]; lia).
  replace (a - a) with 0 by lia.
  replace (a + 1 - a) with 1 by lia.
  replace (a + 2 - a) with 2 by lia.
  replace (a + 3 - a) with 3 by lia.
  change 255 with (Z.ones 8).
  rewrite !Z.land_ones, !Z.shiftr_div_pow2 by lia.
  change (2 ^ (8 * 0)) with 1. change (2 ^ (8 * 1)) with 256.
  change (2 ^ (8 * 2)) with 65536. change (2 ^ (8 * 3)) with 16777216.
  change (2 ^ 8) with 256. change (2 ^ 16) with 65536.
  change (2 ^ 24) with 16777216. change (2 ^ 32) with 4294967296 in Hv.
  rewrite Z.div_1_r.
  pose proof (Z.div_mod v 256 ltac:(lia)) as H0.
  pose proof (Z.mod_pos_bound v 256 ltac:(lia)) as B0.
  pose proof (Z.div_mod (v / 256) 256 ltac:(lia)) as H1.
  pose proof (Z.mod_pos_bound (v / 256) 256 ltac:(lia)) as B1.
  pose proof (Z.div_mod (v / 65536) 256 ltac:(lia)) as H2.
  pose proof (Z.mod_pos_bound (v / 65536) 256 ltac:(lia)) as B2.
  pose proof (Z.div_mod (v / 16777216) 256 ltac:(lia)) as H3.
  pose proof (Z.mod_pos_bound (v / 16777216) 256 ltac:(lia)) as B3.
  assert (E2 : v / 65536 = v / 256 / 256)
    by (rewrite Z.div_div by lia; reflexivity).
  assert (E3 : v / 16777216 = v / 65536 / 256)
    by (rewrite Z.div_div by lia; reflexivity).
  assert (E4 : v / 16777216 / 256 = 0).
  { rewrite Z.div_div by lia. apply Z.div_small. lia. }
  lia.
Qed.

(** Without wrap-around, the size computed for a request covers the
    header, the bytes and the guard word. *)
Lemma chunk_size_of_bounds (required : Z) :
  0 <= required < 2 ^ 63 ->
  chunk_size_of required
  = Z.max (MAXALIGN (offsetof_data + required + sizeof_cl_uint)) DMABUF_CHUNKSZ_MIN /\
  offsetof_data + required + sizeof_cl_uint <= chunk_size_of required /\
  0 < chunk_size_of required <= pow2 (mclass_of required) /\
  Size_wrap (INTALIGN required) = INTALIGN required /\
  Size_wrap (offsetof_data + required + sizeof_cl_uint)
  = offsetof_data + required + sizeof_cl_uint.
Proof.
  intros Hr. unfold mclass_of, get_next_log2, chunk_size_of.
  unfold offsetof_data, sizeof_cl_uint in *.
  destruct (MAXALIGN_bounds (56 + required + 4)) as [Hm _].
  destruct (INTALIGN_bounds required) as [Hi _].
  assert (H63 : 2 ^ 63 + 2 ^ 63 = 2 ^ 64) by reflexivity.
  rewrite (Size_wrap_small (56 + required + 4)) by lia.
  rewrite (Size_wrap_small (MAXALIGN _)) by lia.
  rewrite (Size_wrap_small (INTALIGN _)) by lia.
  split; [reflexivity|]. split; [lia|]. split; [|split; reflexivity].
  set (s := Z.max _ _).
  assert (Hs : 1 < s).
  { subst s. change DMABUF_CHUNKSZ_MIN with 256. lia. }
  split; [lia|].
  rewrite pow2_spec by apply Z.log2_up_nonneg.
  destruct (Z.log2_up_spec s Hs) as [_ H]. exact H.
Qed.

Lemma pointer_validation_chunk_eq cfg st p chunk id st1 :
  pointer_validation cfg st p = OK (chunk, id) st1 ->
  chunk = Size_wrap (p - offsetof_data).
Proof.
  unfold pointer_validation.
  destruct (_ || _); [discriminate|].
  destruct (dmaBufferAttachSegmentOnDemand _ _ _); [|discriminate].
  destruct (_ || _); [discriminate|].
  destruct (negb _); [discriminate|].
  intros H. injection H as <- _ _. reflexivity.
Qed.

(** ** A new length within the class *)

(** C10: a call of [__dmaBufferRealloc] on a valid pointer with a new
    length of the class the chunk has returns the pointer it was given.
    Of the state only the memory changes: in the header of the chunk the
    recorded length, every other field (class, owner, links, head
    marker) and every other header being as before; of the bytes the four
    of the tail marker at its new place, so the payload up to the smaller
    of the two lengths is as before.  The segments (free lists, count of
    active chunks, revision), both lists of segments, the contexts and
    the mappings are unchanged. *)
Theorem realloc_same_class_frame cfg os st p new_required chunk id st0 :
  reachable cfg st ->
  offsetof_data <= p < 2 ^ 64 ->
  0 <= new_required < 2 ^ 63 ->
  pointer_validation (set_os cfg os) st p = OK (chunk, id) st0 ->
  mclass_of new_required = mclass (chunks (mem st) chunk) ->
  exists st',
    __dmaBufferRealloc (set_os cfg os) st p new_required = OK p st' /\
    segments st' = segments st /\
    active_segment_list st' = active_segment_list st /\
    inactive_segment_list st' = inactive_segment_list st /\
    contexts st' = contexts st /\
    dmaBufLocalMaps st' = dmaBufLocalMaps st /\
    (forall a, a <> chunk -> chunks (mem st') a = chunks (mem st) a) /\
    chunks (mem st') chunk
    = mkChunk (free_chain (chunks (mem st) chunk))
              (gcxt_chain (chunks (mem st) chunk))
              (shgcon (chunks (mem st) chunk)) new_required
              (mclass (chunks (mem st) chunk))
              (magic_head (chunks (mem st) chunk)) /\
    (forall a, a < magic_tail_addr chunk new_required \/
               magic_tail_addr chunk new_required + 4 <= a ->
               data (mem st') a = data (mem st) a) /\
    DMABUF_CHUNK_MAGIC_TAIL (mem st') chunk = DMABUF_CHUNK_MAGIC_CODE /\
    (forall i, 0 <= i < Z.min (required (chunks (mem st) chunk)) new_required ->
               data (mem st') (p + i) = data (mem st) (p + i)).
Proof.
  intros Hreach Hp Hreq Hpv Hcls.
  pose proof (reachable_dir_inv cfg st Hreach) as Hdir.
  destruct (pointer_validation_inv _ _ _ _ _ _ Hdir Hpv) as [-> _].
  pose proof (pointer_validation_chunk_eq _ _ _ _ _ _ Hpv) as Hchunk.
  rewrite Size_wrap_small in Hchunk by (unfold offsetof_data in *; lia).
  destruct (chunk_size_of_bounds new_required Hreq) as (_ & _ & _ & Hint & _).
  destruct (INTALIGN_bounds new_required) as [Hi _].
  unfold __dmaBufferRealloc. rewrite Hpv.
  fold (mclass_of new_required). rewrite Hcls, Z.eqb_refl.
  assert (Ep : DMABUF_CHUNK_DATA chunk = p)
    by (unfold DMABUF_CHUNK_DATA; lia).
  rewrite Ep. eexists. split; [reflexivity|].
  st_simpl. unfold set_MAGIC_TAIL.
  assert (Hh : chunks (set_chunk (mem st) chunk
                 (mkChunk (free_chain (chunks (mem st) chunk))
                    (gcxt_chain (chunks (mem st) chunk))
                    (shgcon (chunks (mem st) chunk)) new_required
                    (mclass (chunks (mem st) chunk))
                    (magic_head (chunks (mem st) chunk)))) chunk
               = mkChunk (free_chain (chunks (mem st) chunk))
                    (gcxt_chain (chunks (mem st) chunk))
                    (shgcon (chunks (mem st) chunk)) new_required
                    (mclass (chunks (mem st) chunk))
                    (magic_head (chunks (mem st) chunk))).
  { unfold set_chunk. cbn [chunks]. apply upd_same. }
  rewrite Hh. cbn [required].
  repeat (split; [reflexivity|]).
  split; [|split; [|split; [|split]]].
  - intros a Ha. unfold store32, set_chunk. cbn [chunks]. now apply upd_other.
  - unfold store32. cbn [chunks]. exact Hh.
  - intros a Ha. rewrite store32_other by assumption. reflexivity.
  - unfold DMABUF_CHUNK_MAGIC_TAIL.
    replace (chunks (store32 _ _ _) chunk) with
      (mkChunk (free_chain (chunks (mem st) chunk))
         (gcxt_chain (chunks (mem st) chunk))
         (shgcon (chunks (mem st) chunk)) new_required
         (mclass (chunks (mem st) chunk))
         (magic_head (chunks (mem st) chunk))).
    cbn [required]. apply load32_store32. vm_compute. split; [discriminate|reflexivity].
  - intros i Hi'. rewrite store32_other; [reflexivity|].
    left. unfold magic_tail_addr, DMABUF_CHUNK_DATA. rewrite Hint. lia.
Qed.

Lemma is_OK_pair {A B : Type} (d : A * B) (s : state) (r : result (A * B)) :
  is_OK r = true ->
  r = OK (fst (result_value d r), snd (result_value d r)) (result_state s r).
Proof. destruct r as [[a b] ?|?|?|]; try discriminate. reflexivity. Qed.

(** A chunk of 100 bytes, of class 8, resized to 150 bytes. *)
Lemma realloc_same_class_frame_witness :
  let cfg := cfg_256MB os_all_ok in
  let st := state_after cfg (map (CallAlloc 0) [100]) in
  let p := mmap_ptr cfg 0 + offsetof_data in
  exists st',
    __dmaBufferRealloc cfg st p 150 = OK p st' /\
    segments st' = segments st /\
    required (chunks (mem st') (mmap_ptr cfg 0)) = 150.
Proof.
  intros cfg st p.
  pose (r := pointer_validation cfg st p).
  destruct (realloc_same_class_frame cfg os_all_ok st p 150
              (fst (result_value (0, 0) r)) (snd (result_value (0, 0) r))
              (result_state st r))
    as (st' & Hre & Hseg & _ & _ & _ & _ & _ & Hh & _).
  - apply (state_after_reachable (cfg_256MB os_all_ok) os_all_ok).
    apply is_Some_not_None. vm_compute. reflexivity.
  - vm_compute. split; [discriminate|reflexivity].
  - lia.
  - apply (is_OK_pair (0, 0) st r). vm_compute. reflexivity.
  - vm_compute. reflexivity.
  - exists st'. split; [exact Hre|]. split; [exact Hseg|].
    replace (mmap_ptr cfg 0) with (fst (result_value (0, 0) r))
      by (vm_compute; reflexivity).
    rewrite Hh. reflexivity.
Defined.

(** ** What an allocation returns *)

Lemma load32_ext (m m' : memory) (a : Z) :
  (forall o, a <= o < a + 4 -> data m' o = data m o) ->
  load32 m' a = load32 m a.
Proof.
  intros H. unfold load32. rewrite !H by lia. reflexivity.
Qed.

Lemma memset_other (m : memory) (ptr byte len o : Z) :
  o < ptr \/ ptr + len <= o -> data (memset m ptr byte len) o = data m o.
Proof.
  intros H. unfold memset. cbn [data].
  destruct (Z.leb_spec ptr o), (Z.ltb_spec o (ptr + len)); try lia; reflexivity.
Qed.

Lemma MAGIC_CODE_word : 0 <= DMABUF_CHUNK_MAGIC_CODE < 2 ^ 32.
Proof. vm_compute. split; [discriminate|reflexivity]. Qed.

(** The bytes [dmaBufferAllocChunk] and [track_chunk] write lie in the
    chunk, and the tail marker is in place afterwards. *)
Lemma alloc_step_data cfg st id req x seg' m' ctx csz p st' :
  cfg_ok cfg -> heap_inv cfg st ->
  In id (active_segment_list st) ->
  0 <= req < 2 ^ 63 ->
  dmaBufferAllocChunk (segments st id) (mem st) (mclass_of req) req
  = Some (x, seg', m') ->
  track_chunk (set_segment (set_mem st m') id seg') ctx csz x = OK p st' ->
  DMABUF_CHUNK_MAGIC_TAIL (mem st') x = DMABUF_CHUNK_MAGIC_CODE /\
  (forall o, o < x \/ x + pow2 (mclass_of req) <= o ->
             data (mem st') o = data (mem st) o).
Proof.
  intros Hcfg Hinv Hid Hreq E Ht.
  destruct (alloc_step_inv cfg st id (mclass_of req) req x seg' m' ctx csz p st'
              Hcfg Hinv Hid (mclass_of_min req) E Ht)
    as (_ & _ & _ & Hx & _).
  destruct (dmaBufferAllocChunk_spec (mmap_ptr cfg id) (cfg_dma_segment_size cfg)
              _ (segments st id) (mem st) (mclass_of req) req x seg' m'
              (sok_tiled _ _ _ _ (hinv_seg cfg st Hinv id Hid))
              (mclass_of_min req) E)
    as (_ & _ & _ & _ & _ & _ & _ & Hx' & _ & Hdata).
  destruct (chunk_size_of_bounds req Hreq) as (Hcs & Hlen & [_ Hpow] & Hint & _).
  pose proof (tail_fits req) as Htail.
  destruct (INTALIGN_bounds req) as [Hi _].
  assert (Hfit : offsetof_data + INTALIGN req + sizeof_cl_uint
                 <= pow2 (mclass_of req)) by lia.
  unfold track_chunk in Ht. destruct (overruns _ _) eqn:Hover in Ht; [discriminate|]. injection Ht as _ <-. st_simpl.
  assert (Hreq' : required (chunks m' x) = req) by (rewrite Hx'; reflexivity).
  st_simpl in Hx. rewrite Hreq' in Hx |- *.
  assert (Hd : forall o,
             data (memset
                     (set_chunk m' x
                        (mkChunk (free_chain (chunks m' x)) NodeLinked (Some ctx)
                                 req (mclass (chunks m' x))
                                 (magic_head (chunks m' x))))
                     (DMABUF_CHUNK_DATA x) 174 req) o
             = if (DMABUF_CHUNK_DATA x <=? o) && (o <? DMABUF_CHUNK_DATA x + req)
               then 174
               else data (store32 (mem st) (magic_tail_addr x req)
                                  DMABUF_CHUNK_MAGIC_CODE) o).
  { intros o. unfold memset, set_chunk. cbn [data]. rewrite Hdata. reflexivity. }
  unfold offsetof_data, sizeof_cl_uint in *.
  split.
  - unfold DMABUF_CHUNK_MAGIC_TAIL. rewrite Hx. cbn [required].
    transitivity (load32 (store32 (mem st) (magic_tail_addr x req)
                                  DMABUF_CHUNK_MAGIC_CODE)
                         (magic_tail_addr x req));
      [|apply load32_store32; exact MAGIC_CODE_word].
    apply load32_ext. intros o Ho. rewrite Hd.
    unfold magic_tail_addr, DMABUF_CHUNK_DATA, offsetof_data in *.
    rewrite Hint in *.
    destruct (Z.leb_spec (x + 56) o), (Z.ltb_spec o (x + 56 + req));
      try lia; reflexivity.
  - intros o Ho. rewrite Hd.
    unfold magic_tail_addr, DMABUF_CHUNK_DATA, offsetof_data in *.
    destruct (Z.leb_spec (x + 56) o), (Z.ltb_spec o (x + 56 + req));
      cbn [andb]; try lia; apply store32_other; rewrite Hint; lia.
Qed.

(** The index of the segment an address lies in. *)
Lemma segment_index cfg id x :
  cfg_ok cfg ->
  mmap_ptr cfg id <= x < mmap_ptr cfg id + cfg_dma_segment_size cfg ->
  (x - cfg_dma_segment_vaddr_head cfg) / cfg_dma_segment_size cfg = id.
Proof.
  intros Hcfg. unfold mmap_ptr. destruct (cok_size cfg Hcfg) as [Hs _].
  intros Hx. symmetry. apply (Z.div_unique _ _ id
    (x - cfg_dma_segment_vaddr_head cfg - id * cfg_dma_segment_size cfg)); lia.
Qed.

(** The pointer to a chunk with intact guards and no link, in a segment
    on the active list, passes [pointer_validation]. *)
Lemma live_chunk_validates cfg st id x :
  cfg_ok cfg -> dir_inv st ->
  0 <= id < cfg_max_dma_segment_nums cfg ->
  In id (active_segment_list st) ->
  mmap_ptr cfg id <= x < mmap_ptr cfg id + cfg_dma_segment_size cfg ->
  Size_wrap (offsetof_data + required (chunks (mem st) x) + sizeof_cl_uint)
  <= pow2 (mclass (chunks (mem st) x)) ->
  magic_head (chunks (mem st) x) = DMABUF_CHUNK_MAGIC_CODE ->
  DMABUF_CHUNK_MAGIC_TAIL (mem st) x = DMABUF_CHUNK_MAGIC_CODE ->
  free_chain (chunks (mem st) x) = NodeNull ->
  pointer_validation cfg st (DMABUF_CHUNK_DATA x) = OK (x, id) st.
Proof.
  intros Hcfg Hdir Hid Hact Rx Hlen Hhead Htail Hlink.
  destruct (segment_in_space cfg id x Hcfg Hid Rx) as [Hsp Hx].
  unfold pointer_validation, DMABUF_CHUNK_DATA.
  replace (x + offsetof_data - offsetof_data) with x by lia.
  rewrite (Size_wrap_small x) by assumption.
  destruct (Z.ltb_spec x (cfg_dma_segment_vaddr_head cfg)); [lia|].
  destruct (Z.geb_spec x (dma_segment_vaddr_tail cfg)); [lia|].
  cbn [orb].
  pose proof (cok_tail cfg Hcfg) as Ht. pose proof (cok_head cfg Hcfg) as Hh.
  rewrite (Size_wrap_small (x - cfg_dma_segment_vaddr_head cfg)) by lia.
  rewrite (segment_index cfg id x Hcfg Rx).
  unfold dmaBufferAttachSegmentOnDemand.
  destruct (inv_local st Hdir id Hact) as [-> ->].
  rewrite Z.eqb_refl.
  rewrite (proj1 (inv_active st Hdir id) Hact). cbn [andb].
  destruct (Z.gtb_spec (Size_wrap (offsetof_data + required (chunks (mem st) x)
                                   + sizeof_cl_uint))
                       (pow2 (mclass (chunks (mem st) x)))); [lia|].
  rewrite Hhead, Htail, Z.eqb_refl, Hlink. reflexivity.
Qed.

Lemma seed_chunks_data (fuel : nat) :
  forall seg m head_ptr tail_ptr cls,
    data (snd (seed_chunks fuel seg m head_ptr tail_ptr cls)) = data m.
Proof.
  induction fuel as [|fuel IH]; intros seg m head_ptr tail_ptr cls;
    [reflexivity|].
  cbn [seed_chunks].
  destruct (cls >=? DMABUF_CHUNKSZ_MIN_BIT); [|reflexivity].
  destruct (head_ptr + pow2 cls >? tail_ptr); [apply IH|].
  rewrite IH. reflexivity.
Qed.

(** A new segment leaves the bytes of the others as they are. *)
Lemma dmaBufferCreateSegment_data cfg st id u st2 :
  dmaBufferCreateSegment cfg st id = OK u st2 ->
  forall o, o < mmap_ptr cfg id \/
            mmap_ptr cfg id + cfg_dma_segment_size cfg <= o ->
            data (mem st2) o = data (mem st) o.
Proof.
  unfold dmaBufferCreateSegment.
  destruct (if is_attached _ then _ else _); [discriminate|].
  set (st1 := if is_attached (dmaBufLocalMaps st id) then _ else _).
  assert (Hmem1 : mem st1 = mem st).
  { subst st1. destruct (is_attached _); reflexivity. }
  clearbody st1.
  destruct (negb (shm_open_ok _)); [discriminate|].
  destruct (negb (ftruncate_ok _)); [discriminate|].
  destruct (negb (mmap_ok _)); [discriminate|].
  destruct (_ && _).
  { destruct (negb (munmap_ok _)); [discriminate|].
    destruct (negb (mmap_none_ok _)); discriminate. }
  match goal with
  | |- context [seed_chunks ?f ?s ?mm ?h ?t ?c] =>
    pose proof (seed_chunks_data f s mm h t c) as Hd;
    destruct (seed_chunks f s mm h t c) as [seg1 m1]
  end.
  cbn [snd] in Hd.
  intros H. injection H as _ H. subst st2. intros o Ho. st_simpl.
  rewrite Hd, Hmem1. unfold map_new_object. cbn [data].
  destruct (Z.leb_spec (mmap_ptr cfg id) o),
           (Z.ltb_spec o (mmap_ptr cfg id + cfg_dma_segment_size cfg));
    try lia; reflexivity.
Qed.

(** The chunks in use of a state satisfying the invariant lie in their
    segments. *)
Lemma tracked_placed cfg st i a d :
  heap_inv cfg st -> In i (active_segment_list st) ->
  tracked (mmap_ptr cfg i) (cfg_dma_segment_size cfg) (mem st) a d ->
  placed (mmap_ptr cfg i) (cfg_dma_segment_size cfg) a d.
Proof.
  intros Hinv Hi Ha.
  apply (til_placed _ _ _ (sti_tiling _ _ _ _ _
           (sok_tiled _ _ _ _ (hinv_seg cfg st Hinv i Hi)))).
  right. exact Ha.
Qed.

(** What one allocation step leaves of the chunks in use. *)
Lemma alloc_step_frame cfg st id req x seg' m' ctx csz p st' :
  cfg_ok cfg -> heap_inv cfg st ->
  In id (active_segment_list st) ->
  0 <= req < 2 ^ 63 ->
  dmaBufferAllocChunk (segments st id) (mem st) (mclass_of req) req
  = Some (x, seg', m') ->
  track_chunk (set_segment (set_mem st m') id seg') ctx csz x = OK p st' ->
  forall i a d,
    In i (active_segment_list st) ->
    tracked (mmap_ptr cfg i) (cfg_dma_segment_size cfg) (mem st) a d ->
    a <> x /\ chunks (mem st') a = chunks (mem st) a /\
    (forall o, a <= o < a + pow2 d -> data (mem st') o = data (mem st) o).
Proof.
  intros Hcfg Hinv Hid Hreq E Ht i a d Hi Ha.
  destruct (alloc_step_inv cfg st id (mclass_of req) req x seg' m' ctx csz p st'
              Hcfg Hinv Hid (mclass_of_min req) E Ht)
    as (Hinv' & _ & Px & Hx & Hxm & Hact & _ & _ & _ & Hfr).
  destruct (alloc_step_data cfg st id req x seg' m' ctx csz p st'
              Hcfg Hinv Hid Hreq E Ht) as (_ & Hdata).
  assert (Hne : a <> x).
  { intros ->. destruct Ha as (_ & O & _). contradiction. }
  pose proof (Hfr i a d Hi Ha) as Hh.
  split; [exact Hne|]. split; [exact Hh|].
  intros o Ho. apply Hdata.
  pose proof (tracked_placed cfg st i a d Hinv Hi Ha) as Pa.
  destruct (Z.eq_dec i id) as [->|Hneq].
  - assert (Hid' : In id (active_segment_list st')) by now rewrite Hact.
    pose proof (sti_tiling _ _ _ _ _
                  (sok_tiled _ _ _ _ (hinv_seg cfg st' Hinv' id Hid'))) as Til.
    assert (Ca : tracked (mmap_ptr cfg id) (cfg_dma_segment_size cfg) (mem st') a d).
    { destruct Ha as (R & O & C). unfold tracked. rewrite Hh. auto. }
    assert (Cx : tracked (mmap_ptr cfg id) (cfg_dma_segment_size cfg) (mem st') x
                         (mclass_of req)).
    { unfold tracked. rewrite Hx. cbn [shgcon mclass].
      split; [exact (placed_in_range _ _ _ _ Px)|].
      split; [discriminate|reflexivity]. }
    destruct (chunks_apart _ _ _ a d x (mclass_of req) Til
                ltac:(right; exact Ca) ltac:(right; exact Cx) Hne); lia.
  - pose proof (placed_in_range _ _ _ _ Px) as Rx.
    assert (Ro : mmap_ptr cfg i <= o < mmap_ptr cfg i + cfg_dma_segment_size cfg).
    { destruct Pa as (_ & ? & ? & _). lia. }
    destruct Px as (_ & ? & ? & _).
    destruct (segments_apart cfg i id o Hcfg Hneq Ro); lia.
Qed.

(** The chunk [dmaBufferAllocInternal] returns, and what the call
    leaves of the chunks in use. *)
Lemma dmaBufferAllocInternal_OK cfg st ctx req p st' :
  cfg_ok cfg -> dir_inv st -> heap_inv cfg st ->
  0 <= req < 2 ^ 63 ->
  dmaBufferAllocInternal cfg st ctx req = OK p st' ->
  exists x id,
    p = DMABUF_CHUNK_DATA x /\
    In id (active_segment_list st') /\
    placed (mmap_ptr cfg id) (cfg_dma_segment_size cfg) x (mclass_of req) /\
    chunks (mem st') x = mkChunk NodeNull NodeLinked (Some ctx) req
                                 (mclass_of req) DMABUF_CHUNK_MAGIC_CODE /\
    DMABUF_CHUNK_MAGIC_TAIL (mem st') x = DMABUF_CHUNK_MAGIC_CODE /\
    (forall i a d,
       In i (active_segment_list st) ->
       tracked (mmap_ptr cfg i) (cfg_dma_segment_size cfg) (mem st) a d ->
       In i (active_segment_list st') /\
       a <> x /\ chunks (mem st') a = chunks (mem st) a /\
       (forall o, a <= o < a + pow2 d -> data (mem st') o = data (mem st) o)).
Proof.
  intros Hcfg Hdir Hinv Hreq. unfold dmaBufferAllocInternal.
  destruct (_ >? _); [discriminate|].
  fold (mclass_of req).
  destruct (scan_active_segments st (active_segment_list st)
              (mclass_of req) req) as [[chunk st0]|] eqn:Hscan.
  - rewrite (alloc_retry_scan_some _ _ _ _ _ _ _ _ _ _ Hscan).
    destruct (scan_active_segments_found _ _ _ _ _ _ Hscan)
      as (id & seg' & m' & Hid & E & ->).
    intros Ht.
    destruct (alloc_step_inv cfg st id (mclass_of req) req chunk seg' m' ctx _ p st'
                Hcfg Hinv Hid (mclass_of_min req) E Ht)
      as (_ & Hp & Px & Hx & _ & Hact & _).
    destruct (alloc_step_data cfg st id req chunk seg' m' ctx _ p st'
                Hcfg Hinv Hid Hreq E Ht) as (Htail & _).
    exists chunk, id. rewrite Hact.
    do 5 (split; [assumption|]).
    intros i a d Hi Ha. split; [exact Hi|].
    exact (alloc_step_frame cfg st id req chunk seg' m' ctx _ p st'
             Hcfg Hinv Hid Hreq E Ht i a d Hi Ha).
  - rewrite alloc_retry_scan_none by assumption.
    destruct (inactive_segment_list st) as [|id rest] eqn:Hin; [discriminate|].
    destruct (dmaBufferCreateSegment cfg (set_inactive st rest) id)
      as [u st2|m2 st2|m2|] eqn:Hc; try discriminate.
    cbv zeta.
    destruct (alloc_new_segment_heap _ _ _ _ _ _ Hcfg Hinv Hin Hc)
      as (Hinv3 & Hhdr & _).
    pose proof (dmaBufferCreateSegment_data _ _ _ _ _ Hc) as Hdat.
    pose proof (dmaBufferCreateSegment_OK _ _ _ _ _ Hc) as (Hact2 & _).
    st_simpl in Hact2. st_simpl in Hdat.
    destruct (dmaBufferAllocChunk _ _ _ _) as [[[ch sg] mm]|] eqn:E;
      [|discriminate].
    intros Ht.
    assert (Hid3 : In id (active_segment_list
                           (set_active st2 (dlist_push_head
                                              (active_segment_list st2) id))))
      by (st_simpl; now left).
    destruct (alloc_step_inv cfg _ id (mclass_of req) req ch sg mm ctx _ p st'
                Hcfg Hinv3 Hid3 (mclass_of_min req) E Ht)
      as (_ & Hp & Px & Hx & _ & Hact & _).
    destruct (alloc_step_data cfg _ id req ch sg mm ctx _ p st'
                Hcfg Hinv3 Hid3 Hreq E Ht) as (Htail & _).
    exists ch, id. rewrite Hact.
    split; [assumption|]. split; [exact Hid3|].
    do 3 (split; [assumption|]).
    intros i a d Hi Ha.
    assert (Hne : i <> id).
    { intros ->. apply (inv_inactive st Hdir id); [rewrite Hin; now left|].
      assumption. }
    pose proof (tracked_placed cfg st i a d Hinv Hi Ha) as Pa.
    pose proof (placed_pos _ _ _ _ Pa) as Hpd.
    assert (Hi3 : In i (active_segment_list
                          (set_active st2 (dlist_push_head
                                             (active_segment_list st2) id)))).
    { st_simpl. right. now rewrite Hact2. }
    assert (Hout : forall o, a <= o < a + pow2 d ->
                     o < mmap_ptr cfg id \/
                     mmap_ptr cfg id + cfg_dma_segment_size cfg <= o).
    { intros o Ho. apply (segments_apart cfg i id o Hcfg Hne).
      destruct Pa as (_ & ? & ? & _). lia. }
    assert (Ha3 : tracked (mmap_ptr cfg i) (cfg_dma_segment_size cfg)
                    (mem (set_active st2 (dlist_push_head
                                            (active_segment_list st2) id))) a d).
    { destruct Ha as (R & O & C). unfold tracked. st_simpl.
      rewrite (Hhdr a) by (apply Hout; lia). auto. }
    destruct (alloc_step_frame cfg _ id req ch sg mm ctx _ p st'
                Hcfg Hinv3 Hid3 Hreq E Ht i a d Hi3 Ha3)
      as (Hax & Hh & Hd).
    st_simpl in Hh. st_simpl in Hd.
    split; [exact Hi3|]. split; [exact Hax|]. split.
    + rewrite Hh. apply Hhdr. apply Hout. lia.
    + intros o Ho. rewrite (Hd o Ho). apply Hdat. now apply Hout.
Qed.

(** ** When a segment can serve a request *)

Lemma dmaBufferSplitChunk_succeeds (n : nat) :
  forall seg m k j,
    Z.to_nat (j - k) = n ->
    k <= j < DMABUF_CHUNKSZ_MAX_BIT ->
    free_chunks seg j <> [] ->
    exists seg' m',
      dmaBufferSplitChunk seg m k = Some (seg', m') /\
      free_chunks seg' (k - 1) <> [].
Proof.
  induction n as [n IH] using lt_wf_ind. intros seg m k j Hn Hk Hj.
  rewrite dmaBufferSplitChunk_eq.
  destruct (Z.geb_spec k DMABUF_CHUNKSZ_MAX_BIT); [lia|].
  assert (Hres : forall seg1 m1 x rest,
             free_chunks (fst (split_halves seg1 m1 k x rest)) (k - 1) <> []).
  { intros seg1 m1 x rest. rewrite split_halves_lists, Z.eqb_refl.
    destruct (free_chunks seg1 (k - 1)); discriminate. }
  destruct (free_chunks seg k) as [|x rest] eqn:Hfree; cbn [dlist_is_empty].
  - assert (k <> j) by (intros ->; contradiction).
    destruct (IH (Z.to_nat (j - (k + 1))) ltac:(lia) seg m (k + 1) j eq_refl
                 ltac:(lia) Hj) as (seg1 & m1 & -> & Hne).
    replace (k + 1 - 1) with k in Hne by lia.
    destruct (free_chunks seg1 k) as [|y rest']; [contradiction|].
    exists (fst (split_halves seg1 m1 k y rest')),
           (snd (split_halves seg1 m1 k y rest')).
    split; [now rewrite <- surjective_pairing|apply Hres].
  - rewrite Hfree.
    exists (fst (split_halves seg m k x rest)),
           (snd (split_halves seg m k x rest)).
    split; [now rewrite <- surjective_pairing|apply Hres].
Qed.

(** [dmaBufferAllocChunk] yields a chunk when the segment has a free
    chunk of the class, or of a class above it that
    [dmaBufferSplitChunk] accepts to split. *)
Lemma dmaBufferAllocChunk_succeeds seg m cls req j :
  cls <= j ->
  free_chunks seg j <> [] ->
  j = cls \/ j < DMABUF_CHUNKSZ_MAX_BIT ->
  dmaBufferAllocChunk seg m cls req <> None.
Proof.
  intros Hj Hfree Hmax. unfold dmaBufferAllocChunk.
  destruct (free_chunks seg cls) as [|x rest] eqn:Hcls; cbn [dlist_is_empty].
  - assert (j <> cls) by (intros ->; contradiction).
    destruct (dmaBufferSplitChunk_succeeds _ seg m (cls + 1) j eq_refl
                ltac:(lia) Hfree) as (seg1 & m1 & -> & Hne).
    replace (cls + 1 - 1) with cls in Hne by lia.
    destruct (free_chunks seg1 cls); [contradiction|discriminate].
  - rewrite Hcls. discriminate.
Qed.

Lemma scan_active_segments_succeeds st segs cls req id :
  In id segs ->
  dmaBufferAllocChunk (segments st id) (mem st) cls req <> None ->
  scan_active_segments st segs cls req <> None.
Proof.
  induction segs as [|i rest IH]; intros Hin Ha; [destruct Hin|].
  simpl. destruct (dmaBufferAllocChunk (segments st i) (mem st) cls req)
    as [[[x sg] mm]|] eqn:E; [discriminate|].
  destruct Hin as [->|Hin]; [contradiction|now apply IH].
Qed.

(** The fill of a chunk taken for a length that fits its class stays
    inside the chunk, and so below the top of the address space. *)
Lemma alloc_step_fits cfg st id cls req x seg' m' :
  cfg_ok cfg -> heap_inv cfg st ->
  In id (active_segment_list st) ->
  DMABUF_CHUNKSZ_MIN_BIT <= cls ->
  offsetof_data + req + sizeof_cl_uint <= pow2 cls ->
  dmaBufferAllocChunk (segments st id) (mem st) cls req = Some (x, seg', m') ->
  overruns (DMABUF_CHUNK_DATA x)
           (required (chunks (mem (set_segment (set_mem st m') id seg')) x))
  = false.
Proof.
  intros Hcfg Hinv Hid Hcls Hlen E.
  pose proof (hinv_seg cfg st Hinv id Hid) as Hok.
  destruct (alloc_seg_ok (mmap_ptr cfg id) (cfg_dma_segment_size cfg)
              (segments st id) (mem st) cls req x seg' m'
              (set_chunk m' x
                 (mkChunk (free_chain (chunks m' x)) NodeLinked (Some 0)
                          (required (chunks m' x)) (mclass (chunks m' x))
                          (magic_head (chunks m' x))))
              0 Hok Hcls E eq_refl) as (_ & Px & Hx & _).
  unfold set_chunk in Hx. cbn [chunks] in Hx. rewrite upd_same in Hx.
  injection Hx as _ Hreq _ _.
  cbn [mem set_segment set_mem]. rewrite Hreq.
  pose proof (hinv_ids cfg st Hinv id (or_introl Hid)) as Hrange.
  destruct Px as (_ & Hlo & Hhi & _).
  destruct (cok_size cfg Hcfg) as [Hs _].
  destruct (segment_in_space cfg id
              (mmap_ptr cfg id + cfg_dma_segment_size cfg - 1) Hcfg Hrange
              ltac:(lia)) as [_ Htop].
  unfold overruns, DMABUF_CHUNK_DATA. apply Z.ltb_ge.
  unfold offsetof_data, sizeof_cl_uint in *. lia.
Qed.


(** ** The sizes of a chunk *)



(** ** Release of a chunk in use *)

(** A release of a validated chunk that has an owner returns, unless a
    system call fails while the segment is detached. *)
Lemma __dmaBufferFree_of_valid cfg st p x id ctx :
  pointer_validation cfg st p = OK (x, id) st ->
  overruns (DMABUF_CHUNK_DATA x) (required (chunks (mem st) x)) = false ->
  shgcon (chunks (mem st) x) = Some ctx ->
  ((exists st', __dmaBufferFree cfg st p = OK tt st') \/
   (exists msg, __dmaBufferFree cfg st p = FATAL msg)) /\
  (unmap_attached cfg = None ->
   shm_open_ok (cfg_os cfg) = true ->
   shm_unlink_ok (cfg_os cfg) = true ->
   exists st', __dmaBufferFree cfg st p = OK tt st').
Proof.
  intros Hpv Hover Ho. unfold __dmaBufferFree. rewrite Hpv, Hover, Ho.
  destruct (release_chunk _ _ _ _ _) as [seg1 m3].
  destruct ((num_chunks seg1 >? 0) || persistent cfg id).
  - split; eauto.
  - unfold dmaBufferDetachSegment.
    destruct (is_attached _).
    + destruct (unmap_attached cfg) as [msg|] eqn:Eu.
      * split; [right; eauto|discriminate].
      * destruct (shm_open_ok (cfg_os cfg)); cbn [negb];
          [|split; [right; eauto|discriminate]].
        destruct (shm_unlink_ok (cfg_os cfg)); cbn [negb];
          [|split; [right; eauto|discriminate]].
        split; eauto.
    + destruct (shm_open_ok (cfg_os cfg)); cbn [negb];
        [|split; [right; eauto|discriminate]].
      destruct (shm_unlink_ok (cfg_os cfg)); cbn [negb];
        [|split; [right; eauto|discriminate]].
      split; eauto.
Qed.

(** ** The lengths recorded in the headers *)

(** Every header records a length the callers have given (or none):
    below 2^63 when the calls are well formed. *)
Definition lengths_ok (m : memory) : Prop :=
  forall a, 0 <= required (chunks m a) < 2 ^ 63.

Lemma lengths_ok_set m a c :
  lengths_ok m -> 0 <= required c < 2 ^ 63 -> lengths_ok (set_chunk m a c).
Proof.
  intros H Hc b. unfold set_chunk. cbn [chunks]. unfold upd.
  destruct (Z.eqb_spec b a); [assumption|apply H].
Qed.

Lemma lengths_ok_chunks m m' :
  chunks m' = chunks m -> lengths_ok m -> lengths_ok m'.
Proof. intros E H a. rewrite E. apply H. Qed.

Lemma fresh_free_chunk_length cls : 0 <= required (fresh_free_chunk cls) < 2 ^ 63.
Proof. cbn. lia. Qed.

Lemma split_halves_lengths seg m k x rest :
  lengths_ok m -> lengths_ok (snd (split_halves seg m k x rest)).
Proof.
  intros H. unfold split_halves. cbn [snd].
  apply lengths_ok_set; [apply lengths_ok_set; [assumption|]|];
    apply fresh_free_chunk_length.
Qed.

Lemma dmaBufferSplitChunk_rec_lengths (fuel : nat) :
  forall seg m k seg' m',
    dmaBufferSplitChunk_rec fuel seg m k = Some (seg', m') ->
    lengths_ok m -> lengths_ok m'.
Proof.
  induction fuel as [|fuel IH]; intros seg m k seg' m';
    cbn [dmaBufferSplitChunk_rec]; [discriminate|].
  destruct (k >=? DMABUF_CHUNKSZ_MAX_BIT); [discriminate|].
  destruct (dlist_is_empty (free_chunks seg k)).
  - destruct (dmaBufferSplitChunk_rec fuel seg m (k + 1)) as [[seg1 m1]|] eqn:E;
      [|discriminate].
    destruct (free_chunks seg1 k) as [|x rest]; [discriminate|].
    intros H Hm. inj_pair H.
    apply split_halves_lengths. exact (IH _ _ _ _ _ E Hm).
  - destruct (free_chunks seg k) as [|x rest]; [discriminate|].
    intros H Hm. inj_pair H. now apply split_halves_lengths.
Qed.

Lemma init_chunk_lengths seg m cls req x rest :
  0 <= req < 2 ^ 63 ->
  lengths_ok m -> lengths_ok (snd (init_chunk seg m cls req x rest)).
Proof.
  intros Hreq H a. unfold init_chunk, set_MAGIC_TAIL, store32, set_chunk.
  cbn [snd chunks]. unfold upd.
  destruct (Z.eqb_spec a x); [assumption|apply H].
Qed.

Lemma dmaBufferAllocChunk_lengths seg m cls req x seg' m' :
  0 <= req < 2 ^ 63 ->
  dmaBufferAllocChunk seg m cls req = Some (x, seg', m') ->
  lengths_ok m -> lengths_ok m'.
Proof.
  intros Hreq. remember (x, seg') as xs. clear Heqxs.
  unfold dmaBufferAllocChunk.
  destruct (dlist_is_empty (free_chunks seg cls)).
  - destruct (dmaBufferSplitChunk seg m (cls + 1)) as [[seg1 m1]|] eqn:E;
      [|discriminate].
    destruct (free_chunks seg1 cls) as [|y rest]; [discriminate|].
    intros H Hm. inj_pair H.
    apply init_chunk_lengths; [assumption|].
    exact (dmaBufferSplitChunk_rec_lengths _ _ _ _ _ _ E Hm).
  - destruct (free_chunks seg cls) as [|y rest]; [discriminate|].
    intros H Hm. inj_pair H. now apply init_chunk_lengths.
Qed.

Lemma merge_chunks_rec_lengths base size (fuel : nat) :
  forall seg m z,
    lengths_ok m ->
    lengths_ok (snd (fst (merge_chunks_rec fuel base size seg m z))).
Proof.
  induction fuel as [|fuel IH]; intros seg m z Hm; [assumption|].
  cbn [merge_chunks_rec].
  repeat match goal with
         | |- context [if ?b then _ else _] => destruct b
         end;
    try assumption; apply IH; apply lengths_ok_set; try assumption; apply Hm.
Qed.

Lemma release_chunk_lengths base size seg m z :
  lengths_ok m -> lengths_ok (snd (release_chunk base size seg m z)).
Proof.
  intros Hm. unfold release_chunk, merge_chunks.
  pose proof (merge_chunks_rec_lengths base size
                (Z.to_nat (DMABUF_CHUNKSZ_MAX_BIT + 1 - mclass (chunks m z)))
                seg m z Hm) as H.
  destruct (merge_chunks_rec _ base size seg m z) as [[seg1 m1] z1].
  cbn [fst snd] in *.
  apply lengths_ok_set; [assumption|apply H].
Qed.

Lemma seed_chunks_lengths (fuel : nat) :
  forall seg m head_ptr tail_ptr cls,
    lengths_ok m ->
    lengths_ok (snd (seed_chunks fuel seg m head_ptr tail_ptr cls)).
Proof.
  induction fuel as [|fuel IH]; intros seg m head_ptr tail_ptr cls Hm;
    [assumption|].
  cbn [seed_chunks].
  destruct (cls >=? DMABUF_CHUNKSZ_MIN_BIT); [|assumption].
  destruct (head_ptr + pow2 cls >? tail_ptr); [now apply IH|].
  apply IH. apply lengths_ok_set; [assumption|apply fresh_free_chunk_length].
Qed.

Lemma shrink_chunks_lengths (fuel : nat) :
  forall seg m head_ptr tail_ptr shift cls,
    lengths_ok m ->
    lengths_ok (snd (shrink_chunks fuel seg m head_ptr tail_ptr shift cls)).
Proof.
  induction fuel as [|fuel IH]; intros seg m head_ptr tail_ptr shift cls Hm;
    [assumption|].
  cbn [shrink_chunks].
  destruct (shift >=? cls); [|assumption].
  destruct (head_ptr + pow2 shift >? tail_ptr); [now apply IH|].
  apply IH. apply lengths_ok_set; [assumption|apply fresh_free_chunk_length].
Qed.

Lemma map_new_object_lengths m base size :
  lengths_ok m -> lengths_ok (map_new_object m base size).
Proof.
  intros Hm a. unfold map_new_object. cbn [chunks].
  destruct (_ && _); [cbn; lia|apply Hm].
Qed.

Lemma track_chunk_lengths st ctx csz chunk p st' :
  track_chunk st ctx csz chunk = OK p st' ->
  lengths_ok (mem st) -> lengths_ok (mem st').
Proof.
  unfold track_chunk. destruct (overruns _ _); [discriminate|]. intros H Hm. injection H as _ <-. st_simpl.
  intros a. unfold memset, set_chunk. cbn [chunks]. unfold upd.
  destruct (Z.eqb_spec a chunk); [cbn [required]|]; apply Hm.
Qed.

Lemma dmaBufferCreateSegment_lengths cfg st id u st2 :
  dmaBufferCreateSegment cfg st id = OK u st2 ->
  lengths_ok (mem st) -> lengths_ok (mem st2).
Proof.
  unfold dmaBufferCreateSegment.
  destruct (if is_attached _ then _ else _); [discriminate|].
  set (st1 := if is_attached (dmaBufLocalMaps st id) then _ else _).
  assert (Hmem1 : mem st1 = mem st).
  { subst st1. destruct (is_attached _); reflexivity. }
  clearbody st1.
  destruct (negb (shm_open_ok _)); [discriminate|].
  destruct (negb (ftruncate_ok _)); [discriminate|].
  destruct (negb (mmap_ok _)); [discriminate|].
  destruct (_ && _).
  { destruct (negb (munmap_ok _)); [discriminate|].
    destruct (negb (mmap_none_ok _)); discriminate. }
  intros H Hm.
  match type of H with
  | context [seed_chunks ?f ?s ?mm ?h ?t ?c] =>
    pose proof (seed_chunks_lengths f s mm h t c) as Hd;
    destruct (seed_chunks f s mm h t c) as [seg1 m1]
  end.
  cbn [snd] in Hd. injection H as _ H. subst st2. st_simpl.
  apply Hd. apply map_new_object_lengths. now rewrite Hmem1.
Qed.

Lemma dmaBufferAllocInternal_lengths cfg st ctx req st' :
  0 <= req < 2 ^ 63 ->
  state_of (dmaBufferAllocInternal cfg st ctx req) = Some st' ->
  lengths_ok (mem st) -> lengths_ok (mem st').
Proof.
  intros Hreq. unfold dmaBufferAllocInternal.
  destruct (_ >? _); [intros [= <-]; auto|].
  fold (mclass_of req).
  destruct (scan_active_segments st (active_segment_list st)
              (mclass_of req) req) as [[chunk st1]|] eqn:Hscan.
  - rewrite (alloc_retry_scan_some _ _ _ _ _ _ _ _ _ _ Hscan).
    destruct (scan_active_segments_found _ _ _ _ _ _ Hscan)
      as (id & seg' & m' & Hid & E & ->).
    destruct (track_chunk_cases (set_segment (set_mem st m') id seg') ctx
                (chunk_size_of req) chunk) as [[st1 Hp]|Hp]; rewrite Hp; [|discriminate].
    intros [= <-] Hm.
    apply (track_chunk_lengths _ _ _ _ _ _ Hp). st_simpl.
    exact (dmaBufferAllocChunk_lengths _ _ _ _ _ _ _ Hreq E Hm).
  - rewrite alloc_retry_scan_none by assumption.
    destruct (inactive_segment_list st) as [|id rest] eqn:Hin;
      [intros [= <-]; auto|].
    destruct (dmaBufferCreateSegment cfg (set_inactive st rest) id)
      as [u st2|m2 st2|m2|] eqn:Hc; try discriminate.
    + cbv zeta.
      destruct (dmaBufferAllocChunk _ _ _ _) as [[[ch sg] mm]|] eqn:E;
        [|discriminate].
      match goal with
      | |- state_of (track_chunk ?s ?c ?z ?k) = _ -> _ =>
        destruct (track_chunk_cases s c z k) as [[st4 Hp]|Hp]; rewrite Hp
      end; [|discriminate].
      intros [= <-] Hm.
      apply (track_chunk_lengths _ _ _ _ _ _ Hp). st_simpl.
      apply (dmaBufferAllocChunk_lengths _ _ _ _ _ _ _ Hreq E). st_simpl.
      exact (dmaBufferCreateSegment_lengths _ _ _ _ _ Hc Hm).
    + intros [= <-] Hm.
      apply dmaBufferCreateSegment_error in Hc as (_ & _ & _ & Hmem & _).
      st_simpl. now rewrite Hmem.
Qed.

Lemma disowned_lengths m x : lengths_ok m -> lengths_ok (disowned m x).
Proof.
  intros Hm a. unfold disowned, memset, set_chunk. cbn [chunks]. unfold upd.
  destruct (Z.eqb_spec a x); [cbn [required]|]; apply Hm.
Qed.

Lemma __dmaBufferFree_lengths cfg st p st' :
  dir_inv st ->
  state_of (__dmaBufferFree cfg st p) = Some st' ->
  lengths_ok (mem st) -> lengths_ok (mem st').
Proof.
  intros Hdir.
  destruct (__dmaBufferFree cfg st p) as [u st1|msg st1|?|] eqn:E;
    try discriminate; intros [= <-] Hm.
  - destruct (__dmaBufferFree_released _ _ _ _ _ Hdir E)
      as (chunk & id & ctx & _ & _ & Hmem & _).
    rewrite Hmem. apply release_chunk_lengths. now apply disowned_lengths.
  - now rewrite (__dmaBufferFree_error _ _ _ _ _ Hdir E).
Qed.

Lemma __dmaBufferRealloc_lengths cfg st p req st' :
  dir_inv st ->
  0 <= req < 2 ^ 63 ->
  state_of (__dmaBufferRealloc cfg st p req) = Some st' ->
  lengths_ok (mem st) -> lengths_ok (mem st').
Proof.
  intros Hdir Hreq. unfold __dmaBufferRealloc.
  destruct (pointer_validation cfg st p) as [[chunk id] st0|msg st0|?|] eqn:Hpv;
    try discriminate.
  2: { intros [= <-].
       assert (st0 = st) as ->; [|auto].
       apply (pointer_validation_state cfg st p); [assumption|].
       now rewrite Hpv. }
  destruct (pointer_validation_inv _ _ _ _ _ _ Hdir Hpv) as [-> Hact].
  destruct (_ =? _).
  { intros [= <-] Hm. st_simpl. unfold set_MAGIC_TAIL.
    intros a. unfold store32, set_chunk. cbn [chunks]. unfold upd.
    destruct (Z.eqb_spec a chunk); [assumption|apply Hm]. }
  destruct (_ <? _).
  { match goal with |- context [shrink_chunks ?f ?s ?mm ?h ?t ?sh ?c] =>
      pose proof (shrink_chunks_lengths f s mm h t sh c) as Hs;
      destruct (shrink_chunks f s mm h t sh c) as [seg1 m3] end.
    cbn [snd] in Hs. intros [= <-] Hm. st_simpl. apply Hs.
    unfold set_MAGIC_TAIL.
    intros a. unfold store32, set_chunk. cbn [chunks]. unfold upd.
    destruct (Z.eqb_spec a chunk); [assumption|apply Hm]. }
  destruct (shgcon (chunks (mem st) chunk)) as [ctx|]; [|discriminate].
  destruct (dmaBufferAllocInternal cfg st ctx req) as [res st1|msg st1|?|] eqn:Ea;
    try discriminate.
  - assert (Hdir1 : dir_inv st1).
    { apply (dmaBufferAllocInternal_inv cfg st ctx req); [assumption|].
      now rewrite Ea. }
    intros H Hm.
    assert (Hm1 : lengths_ok (mem st1)).
    { apply (dmaBufferAllocInternal_lengths cfg st ctx req); [assumption| |assumption].
      now rewrite Ea. }
    destruct (_ || _) in H; [discriminate|].
    match type of H with context [__dmaBufferFree cfg ?s p] =>
      pose proof (__dmaBufferFree_lengths cfg s p) as Hf;
      destruct (__dmaBufferFree cfg s p) as [u st2|msg st2|?|]
    end; try discriminate; injection H as <-; apply Hf;
      try reflexivity; try (now apply dir_inv_set_mem); exact Hm1.
  - intros [= <-]. apply (dmaBufferAllocInternal_lengths cfg st ctx req);
      [assumption|]. now rewrite Ea.
Qed.

Lemma free_all_rec_lengths cfg fuel :
  forall st ctx st',
    dir_inv st ->
    state_of (free_all_rec cfg fuel st ctx) = Some st' ->
    lengths_ok (mem st) -> lengths_ok (mem st').
Proof.
  induction fuel as [|fuel IH]; intros st ctx st' Hdir; simpl.
  - intros [= <-]. auto.
  - destruct (dma_buffer_list (contexts st ctx)) as [|chunk rest];
      [intros [= <-]; auto|].
    match goal with |- context [__dmaBufferFree cfg ?s ?q] =>
      pose proof (__dmaBufferFree_lengths cfg s q) as Hf;
      pose proof (__dmaBufferFree_inv cfg s q) as Hd;
      destruct (__dmaBufferFree cfg s q) as [u st2|msg st2|?|]
    end; try discriminate.
    + intros H Hm. apply (IH st2 ctx st'); [| exact H|].
      * apply Hd; [now apply dir_inv_set_context|reflexivity].
      * apply Hf; [now apply dir_inv_set_context|reflexivity|exact Hm].
    + intros [= <-] Hm.
      apply Hf; [now apply dir_inv_set_context|reflexivity|exact Hm].
Qed.

(** Every state in service records such lengths. *)
Lemma serving_lengths cfg st : serving cfg st -> lengths_ok (mem st).
Proof.
  induction 1 as [ctxs|st st' os c Hs IH Hwf Hrun].
  - intros a. cbn. lia.
  - pose proof (reachable_dir_inv cfg st (serving_reachable cfg st Hs)) as Hdir.
    destruct c; simpl in Hrun, Hwf.
    + eapply dmaBufferAllocInternal_lengths; eassumption.
    + eapply __dmaBufferFree_lengths; eassumption.
    + destruct Hwf as [Hreq _].
      eapply __dmaBufferRealloc_lengths; eassumption.
    + eapply free_all_rec_lengths; eassumption.
    + apply pointer_validation_state in Hrun; [subst; assumption|assumption].
Qed.

(** ** A new length of a larger class *)

(** Two chunks in use do not overlap. *)
Lemma tracked_apart cfg st i a d j b e :
  cfg_ok cfg -> heap_inv cfg st ->
  In i (active_segment_list st) -> In j (active_segment_list st) ->
  tracked (mmap_ptr cfg i) (cfg_dma_segment_size cfg) (mem st) a d ->
  tracked (mmap_ptr cfg j) (cfg_dma_segment_size cfg) (mem st) b e ->
  a <> b ->
  a + pow2 d <= b \/ b + pow2 e <= a.
Proof.
  intros Hcfg Hinv Hi Hj Ha Hb Hne.
  pose proof (tracked_placed cfg st i a d Hinv Hi Ha) as Pa.
  pose proof (tracked_placed cfg st j b e Hinv Hj Hb) as Pb.
  destruct (Z.eq_dec i j) as [->|Hij].
  - pose proof (sti_tiling _ _ _ _ _
                  (sok_tiled _ _ _ _ (hinv_seg cfg st Hinv j Hj))) as Til.
    destruct (chunks_apart _ _ _ a d b e Til
                ltac:(right; exact Ha) ltac:(right; exact Hb) Hne); lia.
  - destruct Pa as (_ & ? & ? & _). destruct Pb as (_ & ? & ? & _).
    destruct (cok_size cfg Hcfg) as [Hs _].
    assert (0 < cfg_dma_segment_size cfg) by lia.
    unfold mmap_ptr in *.
    destruct (Z_lt_le_dec i j); [left|right]; nia.
Qed.

Lemma memcpy_inside (m : memory) (dst src len i : Z) :
  0 <= i < len -> data (memcpy m dst src len) (dst + i) = data m (src + i).
Proof.
  intros Hi. unfold memcpy. cbn [data].
  destruct (Z.leb_spec dst (dst + i)), (Z.ltb_spec (dst + i) (dst + len));
    try lia.
  cbn [andb]. f_equal. lia.
Qed.

(** C8: in a state in service, a call of [__dmaBufferRealloc] that
    returns, with a new length of a class above that of the chunk.  The
    chunk is not grown in place: the call is an allocation of the new
    length billed to the owner of the chunk, a copy of the old length in
    bytes from the old payload to the new one, and the release of the old
    pointer.  The pointer returned is that of the new chunk, which is not
    the old one; in the final state the new chunk has the new length, the
    new class and the owner of the old chunk, its payload starts with
    the old contents, and the old chunk has no owner any more. *)
Theorem realloc_grow_moves cfg os st p new_required q st' :
  cfg_ok cfg ->
  serving cfg st ->
  offsetof_data <= p < 2 ^ 64 ->
  0 <= new_required < 2 ^ 63 ->
  let chunk := p - offsetof_data in
  mclass (chunks (mem st) chunk) < mclass_of new_required ->
  __dmaBufferRealloc (set_os cfg os) st p new_required = OK q st' ->
  exists ctx st1 x',
    shgcon (chunks (mem st) chunk) = Some ctx /\
    dmaBufferAllocInternal (set_os cfg os) st ctx new_required = OK q st1 /\
    __dmaBufferFree (set_os cfg os)
      (set_mem st1 (memcpy (mem st1) q p (required (chunks (mem st) chunk)))) p
    = OK tt st' /\
    q = DMABUF_CHUNK_DATA x' /\ x' <> chunk /\ q <> p /\
    chunks (mem st') x'
    = mkChunk NodeNull NodeLinked (Some ctx) new_required
              (mclass_of new_required) DMABUF_CHUNK_MAGIC_CODE /\
    (forall i, 0 <= i < required (chunks (mem st) chunk) ->
               data (mem st') (q + i) = data (mem st) (p + i)) /\
    shgcon (chunks (mem st') chunk) = None.
Proof.
  intros Hcfg Hs Hp Hreq chunk Hcls Hre.
  destruct (serving_inv cfg st Hcfg Hs) as [Hdir Hinv].
  pose proof (serving_lengths cfg st Hs) as Hlen.
  pose proof (cfg_ok_set_os cfg os Hcfg) as Hcfg'.
  assert (Ep : DMABUF_CHUNK_DATA chunk = p)
    by (unfold DMABUF_CHUNK_DATA, chunk; lia).
  revert Hre. unfold __dmaBufferRealloc.
  destruct (pointer_validation (set_os cfg os) st p)
    as [[chunk0 id] st0|msg st0|?|] eqn:Hpv; try discriminate.
  destruct (pointer_validation_inv _ _ _ _ _ _ Hdir Hpv) as [-> Hact].
  destruct (pointer_validation_range _ _ _ _ _ _ Hcfg' Hpv)
    as (Hchunk & Hid & Rx & _ & Hguard & _).
  rewrite Size_wrap_small in Hchunk by (unfold offsetof_data in *; lia).
  fold chunk in Hchunk. subst chunk0.
  change (mmap_ptr (set_os cfg os) id) with (mmap_ptr cfg id) in Rx.
  change (cfg_dma_segment_size (set_os cfg os))
    with (cfg_dma_segment_size cfg) in Rx.
  fold (mclass_of new_required).
  destruct (Z.eqb_spec (mclass_of new_required) (mclass (chunks (mem st) chunk)))
    as [|Hcne]; [lia|].
  destruct (Z.ltb_spec (mclass_of new_required) (mclass (chunks (mem st) chunk)))
    as [|Hcge]; [lia|].
  destruct (shgcon (chunks (mem st) chunk)) as [ctx|] eqn:Eo; [|discriminate].
  destruct (dmaBufferAllocInternal (set_os cfg os) st ctx new_required)
    as [res st1|msg st1|?|] eqn:Ea; try discriminate.
  rewrite Ep.
  assert (Hdir1 : dir_inv st1).
  { apply (dmaBufferAllocInternal_inv (set_os cfg os) st ctx new_required);
      [assumption|]. now rewrite Ea. }
  assert (Hinv1 : heap_inv cfg st1).
  { apply (heap_inv_set_os cfg os).
    apply (dmaBufferAllocInternal_heap (set_os cfg os) st ctx new_required);
      [assumption|now apply heap_inv_set_os|]. now rewrite Ea. }
  assert (Hx : tracked (mmap_ptr cfg id) (cfg_dma_segment_size cfg) (mem st)
                       chunk (mclass (chunks (mem st) chunk))).
  { split; [exact Rx|]. split; [congruence|reflexivity]. }
  destruct (dmaBufferAllocInternal_OK (set_os cfg os) st ctx new_required res st1
              Hcfg' Hdir (proj2 (heap_inv_set_os cfg os st) Hinv) Hreq Ea)
    as (x' & id' & Hres & Hid' & Px' & Hx' & _ & Hfr).
  destruct (Hfr id chunk _ Hact Hx) as (Hact1 & Hne & Hh1 & Hd1).
  rewrite Hh1.
  set (n := required (chunks (mem st) chunk)) in *.
  set (k := mclass (chunks (mem st) chunk)) in *.
  set (stm := set_mem st1 (memcpy (mem st1) res p n)).
  destruct (_ || _); [discriminate|].
  destruct (__dmaBufferFree (set_os cfg os) stm p) as [[] st2|?|?|] eqn:Ef;
    try discriminate.
  intros H. injection H as <- <-.
  assert (Hdirm : dir_inv stm) by (now apply dir_inv_set_mem).
  assert (Hinvm : heap_inv cfg stm) by (now apply heap_inv_set_data).
  destruct (__dmaBufferFree_released _ _ _ _ _ Hdirm Ef)
    as (chunk1 & id1 & ctx1 & Hpv1 & _ & Hmem & _).
  destruct (pointer_validation_chunk (set_os cfg os) stm id chunk chunk1 id1 stm
              Hcfg' Hid Rx ltac:(rewrite Ep; exact Hpv1)) as [-> ->].
  change (mmap_ptr (set_os cfg os) id) with (mmap_ptr cfg id) in Hmem.
  change (cfg_dma_segment_size (set_os cfg os))
    with (cfg_dma_segment_size cfg) in Hmem.
  destruct (release_seg_ok (mmap_ptr cfg id) (cfg_dma_segment_size cfg)
              (cfg_ok_size_max cfg Hcfg) (segments stm id) (mem stm)
              (disowned (mem stm) chunk) chunk
              (hinv_seg cfg stm Hinvm id Hact1) Rx
              ltac:(subst stm; st_simpl; cbn [memcpy chunks];
                    rewrite Hh1; congruence) eq_refl)
    as (_ & Hdata & Hout & Hkeep & Hgone).
  rewrite <- Hmem in Hdata, Hout, Hkeep, Hgone.
  (* the old length fits in the old chunk *)
  pose proof (tracked_placed cfg st id chunk k Hinv Hact Hx) as Pk.
  assert (Hk0 : 0 <= k) by (destruct Pk; zlia).
  assert (Hn : 0 <= n /\ offsetof_data + n + sizeof_cl_uint <= pow2 k).
  { pose proof (Hlen chunk) as Hl. fold n in Hl, Hguard. fold k in Hguard.
    unfold offsetof_data, sizeof_cl_uint in *.
    rewrite Size_wrap_small in Hguard
      by (change (2 ^ 64) with (2 * 2 ^ 63); lia).
    lia. }
  (* the new chunk, in the state the release starts from *)
  pose proof (placed_in_range _ _ _ _ Px') as Rx'.
  change (mmap_ptr (set_os cfg os) id') with (mmap_ptr cfg id') in Px', Rx'.
  change (cfg_dma_segment_size (set_os cfg os))
    with (cfg_dma_segment_size cfg) in Px', Rx'.
  assert (Tx' : tracked (mmap_ptr cfg id') (cfg_dma_segment_size cfg) (mem st1)
                        x' (mclass_of new_required)).
  { unfold tracked. rewrite Hx'. cbn [shgcon mclass].
    split; [exact Rx'|]. split; [discriminate|reflexivity]. }
  assert (Tc : tracked (mmap_ptr cfg id) (cfg_dma_segment_size cfg) (mem st1)
                       chunk k).
  { destruct Hx as (R & O & C). unfold tracked. rewrite Hh1. auto. }
  destruct (tracked_apart cfg st1 id' x' _ id chunk k Hcfg Hinv1 Hid' Hact1 Tx' Tc
              ltac:(congruence)) as [Hap|Hap].
  all: pose proof (pow2_mono k (mclass_of new_required) ltac:(lia)) as Hmono.
  all: exists ctx, st1, x'.
  all: split; [reflexivity|]; split; [exact Ea|]; split; [exact Ef|].
  all: split; [exact Hres|]; split; [congruence|].
  all: split; [rewrite Hres; unfold DMABUF_CHUNK_DATA, chunk in *; lia|].
  all: split; [|split].
  all: try (destruct (shgcon (chunks (mem st2) chunk)) eqn:Eg; [|reflexivity];
            exfalso; apply (Hgone (mclass (chunks (mem st2) chunk)));
            split; [exact Rx|]; split; [congruence|reflexivity]).
  all: try (intros i Hi; rewrite Hdata;
            unfold disowned, set_chunk; cbn [data];
            rewrite memset_other
              by (rewrite Ep, Hres; unfold DMABUF_CHUNK_DATA, chunk,
                    offsetof_data, sizeof_cl_uint in *;
                  subst stm; st_simpl; cbn [memcpy chunks]; rewrite Hh1;
                  fold n; lia);
            subst stm; st_simpl; rewrite memcpy_inside by assumption;
            apply Hd1; unfold chunk, offsetof_data, sizeof_cl_uint in *; lia).
  all: rewrite <- Hx'.
  all: destruct (Z.eq_dec id' id) as [->|Hneq];
    [apply (Hkeep x' (mclass_of new_required));
       [subst stm; st_simpl; cbn [memcpy chunks]; exact Tx'|congruence]
    |apply Hout; destruct (segments_apart cfg id' id x' Hcfg Hneq Rx'); lia].
Qed.

(** A chunk of 100 bytes, of class 8, resized to 1000 bytes, of class
    11. *)
Lemma realloc_grow_moves_witness :
  let cfg := cfg_256MB os_all_ok in
  let st := state_after cfg (map (CallAlloc 0) [100]) in
  let p := mmap_ptr cfg 0 + offsetof_data in
  let r := __dmaBufferRealloc cfg st p 1000 in
  is_OK r = true /\
  result_value 0 r <> p /\
  data (mem (result_state st r)) (result_value 0 r + 5) = data (mem st) (p + 5) /\
  shgcon (chunks (mem (result_state st r)) (mmap_ptr cfg 0)) = None.
Proof.
  intros cfg st p r.
  assert (Hr : is_OK r = true) by (vm_compute; reflexivity).
  split; [exact Hr|].
  destruct (realloc_grow_moves cfg os_all_ok st p 1000 (result_value 0 r)
              (result_state st r))
    as (ctx & st1 & x' & _ & _ & _ & _ & _ & Hq & _ & Hd & Hg).
  - apply cfg_256MB_ok.
  - apply (state_after_serving (cfg_256MB os_all_ok) os_all_ok 0 [100]).
    + repeat constructor; lia.
    + apply is_Some_not_None. vm_compute. reflexivity.
  - vm_compute. split; [discriminate|reflexivity].
  - lia.
  - vm_compute. reflexivity.
  - exact (is_OK_result 0 st r Hr).
  - split; [exact Hq|]. split.
    + apply Hd. vm_compute. split; [discriminate|reflexivity].
    + exact Hg.
Defined.

(** ** New segments below 16GB *)

(** With segments smaller than 16GB a new segment always yields the
    chunk it was created for: its free chunks are of classes that
    [dmaBufferSplitChunk] splits.  (At 16GB the one chunk of class 34 is
    never split.) *)
Lemma new_segment_yields_chunk cfg st id rest u st2 req :
  cfg_ok cfg -> heap_inv cfg st ->
  cfg_dma_segment_size cfg < 2 ^ 34 ->
  inactive_segment_list st = id :: rest ->
  dmaBufferCreateSegment cfg (set_inactive st rest) id = OK u st2 ->
  pow2 (mclass_of req) <= cfg_dma_segment_size cfg ->
  dmaBufferAllocChunk (segments st2 id) (mem st2) (mclass_of req) req <> None.
Proof.
  intros Hcfg Hinv Hsmall Hin Hc Hfit.
  destruct (alloc_new_segment_heap _ _ _ _ _ _ Hcfg Hinv Hin Hc)
    as (Hinv3 & _ & Hfree).
  pose proof (mclass_of_min req) as Hmin.
  assert (Hmax : mclass_of req <= DMABUF_CHUNKSZ_MAX_BIT).
  { apply pow2_lt_inv; [zlia|zlia|].
    destruct (cok_size cfg Hcfg) as [_ H34]. rewrite (pow2_spec DMABUF_CHUNKSZ_MAX_BIT) by zlia.
    change (2 ^ DMABUF_CHUNKSZ_MAX_BIT) with (2 ^ 34). lia. }
  destruct (Hfree (mclass_of req) (conj Hmin Hmax) Hfit) as (j & Hj & Hne).
  apply (dmaBufferAllocChunk_succeeds _ _ _ _ j); [lia|exact Hne|].
  right.
  destruct (free_chunks (segments st2 id) j) as [|x l] eqn:Hl; [contradiction|].
  pose proof (hinv_seg cfg _ Hinv3 id ltac:(st_simpl; now left)) as Hok.
  st_simpl in Hok.
  pose proof (til_placed _ _ _ (sti_tiling _ _ _ _ _ (sok_tiled _ _ _ _ Hok)) x j
                ltac:(left; rewrite Hl; now left)) as (_ & Hb & He & _).
  destruct (Z_lt_le_dec j DMABUF_CHUNKSZ_MAX_BIT) as [|Hge]; [assumption|].
  exfalso.
  pose proof (pow2_mono DMABUF_CHUNKSZ_MAX_BIT j ltac:(zlia)) as Hm.
  rewrite (pow2_spec DMABUF_CHUNKSZ_MAX_BIT) in Hm by zlia.
  change (2 ^ DMABUF_CHUNKSZ_MAX_BIT) with (2 ^ 34) in Hm. lia.
Qed.

(** The chunk found for a request is filled without a fault. *)
Lemma track_chunk_fits cfg st id req x seg' m' ctx :
  cfg_ok cfg -> heap_inv cfg st ->
  In id (active_segment_list st) ->
  0 <= req < 2 ^ 63 ->
  dmaBufferAllocChunk (segments st id) (mem st) (mclass_of req) req
  = Some (x, seg', m') ->
  exists st',
    track_chunk (set_segment (set_mem st m') id seg') ctx (chunk_size_of req) x
    = OK (DMABUF_CHUNK_DATA x) st'.
Proof.
  intros Hcfg Hinv Hid Hreq E.
  destruct (chunk_size_of_bounds req Hreq) as (_ & Hlen & [_ Hpow] & _).
  apply track_chunk_OK.
  apply (alloc_step_fits cfg st id (mclass_of req) req x seg' m');
    try assumption; [apply mclass_of_min|lia].
Qed.

(** The class of a length up to 2^63 - 60 is 63 at most: the shift of
    line 629 is then the power of two, and a request that passes the test
    fits the segment. *)
Lemma mclass_of_le_63 (req : Z) : 0 <= req <= 2 ^ 63 - 60 -> mclass_of req <= 63.
Proof.
  intros Hreq.
  destruct (chunk_size_of_bounds req) as (Hcs & _).
  { split; [lia|]. apply Z.le_lt_trans with (2 ^ 63 - 60); [lia|reflexivity]. }
  unfold mclass_of, get_next_log2. rewrite Hcs.
  apply Z.log2_up_le_pow2; [change DMABUF_CHUNKSZ_MIN with 256; lia|].
  apply Z.max_lub; [|vm_compute; discriminate].
  rewrite MAXALIGN_spec. unfold offsetof_data, sizeof_cl_uint.
  change (2 ^ 63) with (2 ^ 60 * 8).
  apply Z.mul_le_mono_nonneg_r; [lia|].
  apply Z.lt_succ_r. apply Z.div_lt_upper_bound; [lia|].
  change (2 ^ 63) with 9223372036854775808 in Hreq.
  change (2 ^ 60) with 1152921504606846976. lia.
Qed.

Lemma size_test_passed (size req : Z) :
  0 <= req <= 2 ^ 63 - 60 ->
  (shift_1UL (mclass_of req) >? size) = false ->
  pow2 (mclass_of req) <= size.
Proof.
  intros Hreq Htest.
  pose proof (mclass_of_min req) as Hmin.
  pose proof (mclass_of_le_63 req Hreq) as Hmax.
  rewrite shift_1UL_pow2 in Htest by zlia.
  rewrite Z.gtb_ltb in Htest. now apply Z.ltb_ge in Htest.
Qed.

(** So [dmaBufferAllocInternal] never reaches the branch after
    [Assert(chunk != NULL)] without a chunk, nor dies in the fill, in a
    state satisfying the invariant, with segments below 16GB and a length
    up to 2^63 - 60. *)
Lemma dmaBufferAllocInternal_no_crash cfg st ctx req :
  cfg_ok cfg -> heap_inv cfg st ->
  cfg_dma_segment_size cfg < 2 ^ 34 ->
  0 <= req <= 2 ^ 63 - 60 ->
  dmaBufferAllocInternal cfg st ctx req <> CRASH.
Proof.
  intros Hcfg Hinv Hsmall Hreq.
  assert (Hreq' : 0 <= req < 2 ^ 63)
    by (split; [lia|]; apply Z.le_lt_trans with (2 ^ 63 - 60); [lia|reflexivity]).
  unfold dmaBufferAllocInternal. fold (mclass_of req).
  destruct (shift_1UL (mclass_of req) >? cfg_dma_segment_size cfg) eqn:Htest;
    [discriminate|].
  pose proof (size_test_passed _ req Hreq Htest) as Hfit.
  destruct (scan_active_segments st (active_segment_list st)
              (mclass_of req) req) as [[chunk st1]|] eqn:Hscan.
  - rewrite (alloc_retry_scan_some _ _ _ _ _ _ _ _ _ _ Hscan).
    destruct (scan_active_segments_found _ _ _ _ _ _ Hscan)
      as (i & seg' & m' & Hi & E & ->).
    destruct (track_chunk_fits cfg st i req chunk seg' m' ctx Hcfg Hinv Hi Hreq' E)
      as [st' ->].
    discriminate.
  - rewrite alloc_retry_scan_none by assumption.
    destruct (inactive_segment_list st) as [|id rest] eqn:Hin; [discriminate|].
    destruct (dmaBufferCreateSegment cfg (set_inactive st rest) id)
      as [u st2|m2 st2|m2|] eqn:Hc; try discriminate.
    + cbv zeta.
      pose proof (new_segment_yields_chunk cfg st id rest u st2 req Hcfg Hinv
                    Hsmall Hin Hc Hfit) as Hsome.
      destruct (alloc_new_segment_heap _ _ _ _ _ _ Hcfg Hinv Hin Hc)
        as (Hinv3 & _).
      set (st3 := set_active st2 (dlist_push_head (active_segment_list st2) id))
        in *.
      assert (Hid3 : In id (active_segment_list st3))
        by (subst st3; st_simpl; now left).
      change (segments st2 id) with (segments st3 id) in Hsome.
      change (mem st2) with (mem st3) in Hsome.
      destruct (dmaBufferAllocChunk (segments st3 id) (mem st3) (mclass_of req) req)
        as [[[ch sg] mm]|] eqn:E; [|contradiction].
      destruct (track_chunk_fits cfg st3 id req ch sg mm ctx Hcfg Hinv3 Hid3 Hreq' E)
        as [st' ->].
      discriminate.
    + exfalso. revert Hc. unfold dmaBufferCreateSegment.
      destruct (if is_attached _ then _ else _); [discriminate|].
      repeat match goal with
             | |- context [if ?b then _ else _] => destruct b; try discriminate
             end.
      all: destruct (seed_chunks _ _ _ _ _ _); discriminate.
Qed.

(** ** What the probe accepts *)

(** [dmaBufferValidatePtr] is false outside the reserved range; inside,
    when the segment can be accessed, it is true exactly when the length
    fits the class, both markers are intact and the chunk is not linked
    into a free list.  A released chunk that sits on a free list is
    rejected; one absorbed by its lower buddy is not linked, and is
    accepted as long as its markers are intact. *)
Lemma dmaBufferValidatePtr_spec cfg st p :
  let chunk := Size_wrap (p - offsetof_data) in
  let id := Size_wrap (chunk - cfg_dma_segment_vaddr_head cfg)
            / cfg_dma_segment_size cfg in
  (chunk < cfg_dma_segment_vaddr_head cfg \/ dma_segment_vaddr_tail cfg <= chunk ->
   dmaBufferValidatePtr cfg st p = Some false) /\
  (cfg_dma_segment_vaddr_head cfg <= chunk < dma_segment_vaddr_tail cfg ->
   dmaBufferAttachSegmentOnDemand cfg st id = None ->
   dmaBufferValidatePtr cfg st p = None) /\
  (forall st1,
     cfg_dma_segment_vaddr_head cfg <= chunk < dma_segment_vaddr_tail cfg ->
     dmaBufferAttachSegmentOnDemand cfg st id = Some st1 ->
     let c := chunks (mem st1) chunk in
     dmaBufferValidatePtr cfg st p
     = Some ((Size_wrap (offsetof_data + required c + sizeof_cl_uint)
              <=? pow2 (mclass c))
             && (magic_head c =? DMABUF_CHUNK_MAGIC_CODE)
             && (DMABUF_CHUNK_MAGIC_TAIL (mem st1) chunk
                 =? DMABUF_CHUNK_MAGIC_CODE)
             && node_is_null (free_chain c))).
Proof.
  intros chunk id. unfold dmaBufferValidatePtr, pointer_validation.
  fold chunk. fold id.
  destruct (Z.ltb_spec chunk (cfg_dma_segment_vaddr_head cfg)) as [Hlo|Hlo];
    [split; [reflexivity|split; intros; lia]|].
  destruct (Z.geb_spec chunk (dma_segment_vaddr_tail cfg)) as [Hhi|Hhi];
    [split; [reflexivity|split; intros; lia]|].
  cbn [orb]. split; [intros; lia|]. split.
  - intros _ ->. reflexivity.
  - intros st1 _ ->. cbv zeta.
    rewrite Z.gtb_ltb, Z.ltb_antisym.
    destruct (_ <=? _); cbn [negb orb andb]; [|reflexivity].
    destruct (magic_head _ =? _); cbn [negb orb andb]; [|reflexivity].
    destruct (DMABUF_CHUNK_MAGIC_TAIL _ _ =? _); cbn [negb orb andb];
      [|reflexivity].
    destruct (node_is_null _); reflexivity.
Qed.

(** * Further properties of the allocator *)

(** ** The chunks of a segment in service *)

(** States used to evaluate the examples below: after two requests of
    100 bytes the first chunk is released, which leaves a free chunk
    whose buddy is in use. *)
Definition two_small_one_released (cfg : config) : state :=
  let st := state_after cfg (map (CallAlloc 0) [100; 100]) in
  result_state st (__dmaBufferFree cfg st (2 ^ 40 + 56)).

Lemma two_small_one_released_serving :
  serving (cfg_256MB os_all_ok) (two_small_one_released (cfg_256MB os_all_ok)).
Proof.
  set (cfg := cfg_256MB os_all_ok).
  set (st := state_after cfg (map (CallAlloc 0) [100; 100])).
  apply (serving_call cfg st _ os_all_ok (CallFree (2 ^ 40 + 56))).
  - apply (state_after_serving (cfg_256MB os_all_ok) os_all_ok 0 [100; 100]).
    + repeat constructor; lia.
    + apply is_Some_not_None. vm_compute. reflexivity.
  - exact I.
  - unfold two_small_one_released. fold cfg. fold st.
    change (run_call (set_os cfg os_all_ok) st (CallFree (2 ^ 40 + 56)))
      with (state_of (__dmaBufferFree cfg st (2 ^ 40 + 56))).
    assert (E : is_OK (__dmaBufferFree cfg st (2 ^ 40 + 56)) = true)
      by (vm_compute; reflexivity).
    destruct (__dmaBufferFree cfg st (2 ^ 40 + 56)); try discriminate.
    reflexivity.
Qed.

(** X1: in a state in service every byte of a segment on the active list
    lies in exactly one chunk.  The chunk is aligned to its size from
    the base of the segment, its header records its class, and it is
    either free (on the free list of its class, linked, without owner) or
    in use (with an owner, not linked, on no free list). *)
Theorem serving_segments_tiled cfg st id a :
  cfg_ok cfg -> serving cfg st ->
  In id (active_segment_list st) ->
  mmap_ptr cfg id <= a < mmap_ptr cfg id + cfg_dma_segment_size cfg ->
  exists x c,
    x <= a < x + pow2 c /\
    placed (mmap_ptr cfg id) (cfg_dma_segment_size cfg) x c /\
    mclass (chunks (mem st) x) = c /\
    ((In x (free_chunks (segments st id) c) /\
      free_chain (chunks (mem st) x) = NodeLinked /\
      shgcon (chunks (mem st) x) = None)
     \/
     (shgcon (chunks (mem st) x) <> None /\
      free_chain (chunks (mem st) x) = NodeNull /\
      forall c', ~ In x (free_chunks (segments st id) c'))) /\
    (forall y d,
       In y (free_chunks (segments st id) d) \/
       tracked (mmap_ptr cfg id) (cfg_dma_segment_size cfg) (mem st) y d ->
       y <= a < y + pow2 d -> y = x /\ d = c).
Proof.
  intros Hcfg Hs Hid Ha.
  destruct (serving_inv cfg st Hcfg Hs) as [_ Hinv].
  pose proof (hinv_seg cfg st Hinv id Hid) as Hok.
  pose proof (sok_tiled _ _ _ _ Hok) as T.
  pose proof (sti_tiling _ _ _ _ _ T) as Til.
  destruct (til_cover _ _ _ Til a Ha) as (x & c & Hx & Hr).
  exists x, c. split; [exact Hr|].
  split; [exact (til_placed _ _ _ Til x c Hx)|].
  split; [|split].
  - destruct Hx as [Hx|Hx].
    + exact (proj1 (sti_free _ _ _ _ _ T c x Hx)).
    + exact (proj1 (sti_other _ _ _ _ _ T x c Hx)).
  - destruct Hx as [Hx|Hx].
    + left. split; [exact Hx|]. split.
      * exact (proj2 (sti_free _ _ _ _ _ T c x Hx)).
      * exact (free_chunk_no_owner _ _ _ _ c x Hok Hx).
    + right. split; [exact (proj1 (proj2 Hx))|]. split.
      * exact (sok_unlinked _ _ _ _ Hok x c Hx).
      * exact (proj2 (sti_other _ _ _ _ _ T x c Hx)).
  - intros y d Hy Hry.
    assert (E : y = x).
    { destruct (Z_le_gt_dec x y).
      - apply (til_disjoint _ _ _ Til x c y d Hx Hy). lia.
      - symmetry. apply (til_disjoint _ _ _ Til y d x c Hy Hx). lia. }
    subst y. split; [reflexivity|].
    exact (til_class _ _ _ Til x d c Hy Hx).
Qed.

Lemma serving_segments_tiled_witness :
  let cfg := cfg_256MB os_all_ok in
  let st := two_small_one_released cfg in
  exists x c,
    x <= 2 ^ 40 + 300 < x + pow2 c /\
    placed (mmap_ptr cfg 0) (cfg_dma_segment_size cfg) x c /\
    mclass (chunks (mem st) x) = c /\
    ((In x (free_chunks (segments st 0) c) /\
      free_chain (chunks (mem st) x) = NodeLinked /\
      shgcon (chunks (mem st) x) = None)
     \/
     (shgcon (chunks (mem st) x) <> None /\
      free_chain (chunks (mem st) x) = NodeNull /\
      forall c', ~ In x (free_chunks (segments st 0) c'))) /\
    (forall y d,
       In y (free_chunks (segments st 0) d) \/
       tracked (mmap_ptr cfg 0) (cfg_dma_segment_size cfg) (mem st) y d ->
       y <= 2 ^ 40 + 300 < y + pow2 d -> y = x /\ d = c).
Proof.
  intros cfg st.
  apply (serving_segments_tiled cfg st 0 (2 ^ 40 + 300)).
  - apply cfg_256MB_ok.
  - apply two_small_one_released_serving.
  - vm_compute. left. reflexivity.
  - vm_compute. split; [discriminate|reflexivity].
Defined.

(** X2: in a state in service no two buddies are free at once: a free
    chunk that is the lower half of a chunk of the class above never has
    its upper half on the same free list. *)
Theorem free_buddies_never_coexist cfg st id c x :
  cfg_ok cfg -> serving cfg st ->
  In id (active_segment_list st) ->
  In x (free_chunks (segments st id) c) ->
  (x - mmap_ptr cfg id) mod pow2 (c + 1) = 0 ->
  ~ In (x + pow2 c) (free_chunks (segments st id) c).
Proof.
  intros Hcfg Hs Hid Hx Hal Hb.
  destruct (serving_inv cfg st Hcfg Hs) as [_ Hinv].
  exact (sok_buddies _ _ _ _ (hinv_seg cfg st Hinv id Hid) c x Hx Hb Hal).
Qed.

Lemma free_buddies_never_coexist_witness :
  let cfg := cfg_256MB os_all_ok in
  let st := two_small_one_released cfg in
  ~ In (2 ^ 40 + pow2 8) (free_chunks (segments st 0) 8).
Proof.
  intros cfg st.
  apply (free_buddies_never_coexist cfg st 0 8 (2 ^ 40)).
  - apply cfg_256MB_ok.
  - apply two_small_one_released_serving.
  - vm_compute. left. reflexivity.
  - vm_compute. left. reflexivity.
  - vm_compute. reflexivity.
Defined.

(** ** What an allocation leaves of the chunks in use *)

(** X3: an allocation in a state in service hands out a chunk that
    overlaps none of the chunks in use, and leaves the header and the
    bytes of every chunk in use, and its segment on the active list. *)
Theorem alloc_avoids_chunks_in_use cfg os st ctx req p st' i a d :
  cfg_ok cfg -> serving cfg st ->
  0 <= req < 2 ^ 63 ->
  dmaBufferAllocInternal (set_os cfg os) st ctx req = OK p st' ->
  In i (active_segment_list st) ->
  tracked (mmap_ptr cfg i) (cfg_dma_segment_size cfg) (mem st) a d ->
  let x := p - offsetof_data in
  (a + pow2 d <= x \/ x + pow2 (mclass_of req) <= a) /\
  chunks (mem st') a = chunks (mem st) a /\
  (forall o, a <= o < a + pow2 d -> data (mem st') o = data (mem st) o) /\
  In i (active_segment_list st').
Proof.
  intros Hcfg Hs Hreq Ha Hi Ht x.
  destruct (serving_inv cfg st Hcfg Hs) as [Hdir Hinv].
  pose proof (cfg_ok_set_os cfg os Hcfg) as Hcfg'.
  assert (Hinv' : heap_inv cfg st').
  { apply (heap_inv_set_os cfg os).
    apply (dmaBufferAllocInternal_heap (set_os cfg os) st ctx req);
      [assumption|now apply heap_inv_set_os|]. now rewrite Ha. }
  destruct (dmaBufferAllocInternal_OK (set_os cfg os) st ctx req p st' Hcfg' Hdir
              (proj2 (heap_inv_set_os cfg os st) Hinv) Hreq Ha)
    as (x' & id & Hp & Hid & Px & Hx & _ & Hkeep).
  destruct (Hkeep i a d Hi Ht) as (Hi' & Hne & Hc & Hd).
  assert (Ex : x = x') by (unfold x; rewrite Hp; unfold DMABUF_CHUNK_DATA; lia).
  rewrite Ex. split; [|auto].
  apply (tracked_apart cfg st' i a d id x' (mclass_of req) Hcfg Hinv' Hi' Hid);
    [| |exact Hne].
  - destruct Ht as (R & O & C). split; [exact R|]. rewrite Hc. auto.
  - split; [exact (placed_in_range _ _ _ _ Px)|]. rewrite Hx. cbn.
    split; [discriminate|reflexivity].
Qed.

Lemma alloc_avoids_chunks_in_use_witness :
  let cfg := cfg_256MB os_all_ok in
  let st := state_after cfg (map (CallAlloc 0) [100; 5000]) in
  let r := dmaBufferAllocInternal cfg st 0 6000 in
  let x := result_value 0 r - offsetof_data in
  (2 ^ 40 + pow2 8 <= x \/ x + pow2 (mclass_of 6000) <= 2 ^ 40) /\
  chunks (mem (result_state st r)) (2 ^ 40) = chunks (mem st) (2 ^ 40).
Proof.
  intros cfg st r x.
  destruct (alloc_avoids_chunks_in_use cfg os_all_ok st 0 6000
              (result_value 0 r) (result_state st r) 0 (2 ^ 40) 8)
    as (H1 & H2 & _).
  - apply cfg_256MB_ok.
  - apply (state_after_serving (cfg_256MB os_all_ok) os_all_ok 0 [100; 5000]).
    + repeat constructor; lia.
    + apply is_Some_not_None. vm_compute. reflexivity.
  - lia.
  - apply (is_OK_result 0 st r). vm_compute. reflexivity.
  - vm_compute. left. reflexivity.
  - split; [vm_compute; split; [discriminate|reflexivity]|].
    split; [vm_compute; discriminate|vm_compute; reflexivity].
  - split; assumption.
Defined.

(** ** The outcomes of an allocation *)

(** X4: with segments smaller than 16GB, an allocation in a state in
    service of a length up to 2^63 - 60 never ends on a fault, whatever
    the system calls answer: neither in the dereference of a missing
    chunk after [Assert(chunk != NULL)] nor in the fill of the chunk.
    (A longer length has the class 64, by which line 629 shifts.) *)
Theorem alloc_never_crashes_below_16GB cfg os st ctx req :
  cfg_ok cfg -> serving cfg st ->
  cfg_dma_segment_size cfg < 2 ^ 34 ->
  0 <= req <= 2 ^ 63 - 60 ->
  dmaBufferAllocInternal (set_os cfg os) st ctx req <> CRASH.
Proof.
  intros Hcfg Hs Hsmall Hreq.
  destruct (serving_inv cfg st Hcfg Hs) as [_ Hinv].
  apply dmaBufferAllocInternal_no_crash.
  - now apply cfg_ok_set_os.
  - now apply heap_inv_set_os.
  - exact Hsmall.
  - exact Hreq.
Qed.

Lemma alloc_never_crashes_below_16GB_witness :
  let cfg := cfg_256MB os_all_ok in
  let st := state_after cfg (map (CallAlloc 0) [100; 5000]) in
  dmaBufferAllocInternal cfg st 0 (2 ^ 28 - 64) <> CRASH.
Proof.
  intros cfg st.
  apply (alloc_never_crashes_below_16GB cfg os_all_ok st 0 (2 ^ 28 - 64)).
  - apply cfg_256MB_ok.
  - apply (state_after_serving (cfg_256MB os_all_ok) os_all_ok 0 [100; 5000]).
    + repeat constructor; lia.
    + apply is_Some_not_None. vm_compute. reflexivity.
  - vm_compute. reflexivity.
  - split; vm_compute; discriminate.
Defined.

(** A segment without a free chunk of the class or of a class above that
    [dmaBufferSplitChunk] splits yields nothing, and conversely. *)
Lemma dmaBufferSplitChunk_rec_none fuel seg m k :
  (forall j, k <= j < DMABUF_CHUNKSZ_MAX_BIT -> free_chunks seg j = []) ->
  dmaBufferSplitChunk_rec fuel seg m k = None.
Proof.
  revert k. induction fuel as [|fuel IH]; intros k Hempty; [reflexivity|].
  simpl. destruct (Z.geb_spec k DMABUF_CHUNKSZ_MAX_BIT); [reflexivity|].
  rewrite (Hempty k) by lia. cbn [dlist_is_empty].
  rewrite IH; [reflexivity|]. intros j Hj. apply Hempty. lia.
Qed.

Lemma dmaBufferAllocChunk_none seg m cls req :
  (forall j, cls <= j -> j = cls \/ j < DMABUF_CHUNKSZ_MAX_BIT ->
             free_chunks seg j = []) ->
  dmaBufferAllocChunk seg m cls req = None.
Proof.
  intros Hempty. unfold dmaBufferAllocChunk.
  rewrite (Hempty cls) by (auto; lia). cbn [dlist_is_empty].
  unfold dmaBufferSplitChunk. rewrite dmaBufferSplitChunk_rec_none; [reflexivity|].
  intros j Hj. apply Hempty; [lia|right; lia].
Qed.

Lemma dmaBufferAllocChunk_none_inv seg m cls req j :
  dmaBufferAllocChunk seg m cls req = None ->
  cls <= j -> j = cls \/ j < DMABUF_CHUNKSZ_MAX_BIT ->
  free_chunks seg j = [].
Proof.
  intros Hnone Hj Hmax.
  destruct (free_chunks seg j) as [|x l] eqn:E; [reflexivity|]. exfalso.
  apply (dmaBufferAllocChunk_succeeds seg m cls req j Hj); [|exact Hmax|exact Hnone].
  rewrite E. discriminate.
Qed.

Lemma scan_active_segments_app st l1 l2 cls req :
  (forall i, In i l1 ->
             dmaBufferAllocChunk (segments st i) (mem st) cls req = None) ->
  scan_active_segments st (l1 ++ l2) cls req = scan_active_segments st l2 cls req.
Proof.
  induction l1 as [|i l1 IH]; intros Hnone; [reflexivity|].
  simpl. rewrite (Hnone i) by now left.
  apply IH. intros i' Hi'. apply Hnone. now right.
Qed.

Lemma scan_active_segments_none st segs cls req :
  (forall i, In i segs ->
             dmaBufferAllocChunk (segments st i) (mem st) cls req = None) <->
  scan_active_segments st segs cls req = None.
Proof.
  split.
  - intros Hnone. rewrite <- (app_nil_r segs).
    now rewrite scan_active_segments_app.
  - intros Hscan i Hi.
    destruct (dmaBufferAllocChunk (segments st i) (mem st) cls req) eqn:E;
      [|reflexivity].
    exfalso. apply (scan_active_segments_succeeds st segs cls req i Hi);
      [rewrite E; discriminate|exact Hscan].
Qed.

(** The free chunks of a segment smaller than 16GB are of classes below
    the largest. *)
Lemma free_chunk_below_max cfg st id j :
  cfg_ok cfg -> heap_inv cfg st ->
  cfg_dma_segment_size cfg < 2 ^ 34 ->
  In id (active_segment_list st) ->
  free_chunks (segments st id) j <> [] ->
  j < DMABUF_CHUNKSZ_MAX_BIT.
Proof.
  intros Hcfg Hinv Hsmall Hid Hne.
  destruct (free_chunks (segments st id) j) as [|x l] eqn:E; [contradiction|].
  pose proof (hinv_seg cfg st Hinv id Hid) as Hok.
  pose proof (til_placed _ _ _ (sti_tiling _ _ _ _ _ (sok_tiled _ _ _ _ Hok)) x j
                ltac:(left; rewrite E; now left)) as (Hc & Hb & He & _).
  destruct (Z_lt_le_dec j DMABUF_CHUNKSZ_MAX_BIT) as [|Hge]; [assumption|].
  exfalso.
  pose proof (pow2_mono DMABUF_CHUNKSZ_MAX_BIT j ltac:(zlia)) as Hm.
  rewrite (pow2_spec DMABUF_CHUNKSZ_MAX_BIT) in Hm by zlia.
  change (2 ^ DMABUF_CHUNKSZ_MAX_BIT) with (2 ^ 34) in Hm. lia.
Qed.

(** X5: with segments smaller than 16GB and a request that passes the
    size test, "Out of DMA buffer segment" is raised exactly when the
    inactive list is empty and no segment on the active list has a free
    chunk of the class of the request or of a class above; the state is
    then left as it was. *)
Theorem alloc_out_of_segments_iff cfg os st ctx req :
  cfg_ok cfg -> serving cfg st ->
  cfg_dma_segment_size cfg < 2 ^ 34 ->
  pow2 (mclass_of req) <= cfg_dma_segment_size cfg ->
  ((exists st', dmaBufferAllocInternal (set_os cfg os) st ctx req
                = ERROR "Out of DMA buffer segment" st') <->
   (inactive_segment_list st = [] /\
    forall id j, In id (active_segment_list st) -> mclass_of req <= j ->
                 free_chunks (segments st id) j = [])) /\
  (forall st', dmaBufferAllocInternal (set_os cfg os) st ctx req
               = ERROR "Out of DMA buffer segment" st' -> st' = st).
Proof.
  intros Hcfg Hs Hsmall Hfit.
  destruct (serving_inv cfg st Hcfg Hs) as [_ Hinv].
  pose proof (out_of_segment_iff (set_os cfg os) st ctx req Hfit) as Hiff.
  assert (Hscan : scan_active_segments st (active_segment_list st)
                    (mclass_of req) req = None <->
                  forall id j, In id (active_segment_list st) ->
                               mclass_of req <= j ->
                               free_chunks (segments st id) j = []).
  { rewrite <- scan_active_segments_none. split.
    - intros Hnone id j Hid Hj.
      destruct (free_chunks (segments st id) j) as [|x l] eqn:E; [reflexivity|].
      rewrite <- E.
      apply (dmaBufferAllocChunk_none_inv _ (mem st) (mclass_of req) req j
               (Hnone id Hid) Hj).
      right. apply (free_chunk_below_max cfg st id j Hcfg Hinv Hsmall Hid).
      rewrite E. discriminate.
    - intros Hempty id Hid. apply dmaBufferAllocChunk_none.
      intros j Hj _. now apply Hempty. }
  split.
  - rewrite Hiff, Hscan. tauto.
  - intros st' Hout.
    destruct (proj1 Hiff (ex_intro _ st' Hout)) as [Hnone Hin].
    revert Hout. unfold dmaBufferAllocInternal. fold (mclass_of req).
    rewrite size_test_fits by exact Hfit.
    rewrite alloc_retry_scan_none by assumption.
    rewrite Hin. intros [= <-]. reflexivity.
Qed.

Lemma alloc_out_of_segments_iff_witness :
  let cfg := cfg_256MB os_all_ok in
  let st := state_after cfg (map (CallAlloc 0) [100; 5000]) in
  ~ exists st', dmaBufferAllocInternal cfg st 0 200
                = ERROR "Out of DMA buffer segment" st'.
Proof.
  intros cfg st Hout.
  destruct (alloc_out_of_segments_iff cfg os_all_ok st 0 200) as [Hiff _].
  - apply cfg_256MB_ok.
  - apply (state_after_serving (cfg_256MB os_all_ok) os_all_ok 0 [100; 5000]).
    + repeat constructor; lia.
    + apply is_Some_not_None. vm_compute. reflexivity.
  - vm_compute. reflexivity.
  - vm_compute. discriminate.
  - destruct (proj1 Hiff Hout) as [Hin _]. vm_compute in Hin. discriminate.
Defined.

(** The messages of [dmaBufferCreateSegment]. *)
Lemma dmaBufferCreateSegment_messages cfg st id msg st2 :
  dmaBufferCreateSegment cfg st id = ERROR msg st2 ->
  (msg = "failed on shm_open('%s'): %m" /\ shm_open_ok (cfg_os cfg) = false) \/
  (msg = "failed on ftruncate(2): %m" /\ ftruncate_ok (cfg_os cfg) = false) \/
  (msg = "failed on mmap: %m" /\ mmap_ok (cfg_os cfg) = false) \/
  (msg = "failed on cuMemHostRegister: %s" /\
   cuMemHostRegister_ok (cfg_os cfg) = false).
Proof.
  unfold dmaBufferCreateSegment.
  destruct (if is_attached _ then _ else _); [discriminate|].
  destruct (shm_open_ok (cfg_os cfg)); cbn [negb];
    [|intros [= <- _]; left; auto].
  destruct (ftruncate_ok (cfg_os cfg)); cbn [negb];
    [|intros [= <- _]; right; left; auto].
  destruct (mmap_ok (cfg_os cfg)); cbn [negb];
    [|intros [= <- _]; right; right; left; auto].
  destruct (cuMemHostRegister_ok (cfg_os cfg)); cbn [negb].
  - rewrite andb_false_r. destruct (seed_chunks _ _ _ _ _ _). discriminate.
  - destruct (cfg_gpuserv_cuda_context cfg); cbn [andb].
    + destruct (negb (munmap_ok (cfg_os cfg))); [discriminate|].
      destruct (negb (mmap_none_ok (cfg_os cfg))); [discriminate|].
      intros [= <- _]. right; right; right; auto.
    + destruct (seed_chunks _ _ _ _ _ _). discriminate.
Qed.

(** When every system call succeeds, a segment is created. *)
Lemma dmaBufferCreateSegment_succeeds cfg st id :
  cfg_os cfg = os_all_ok ->
  exists st2, dmaBufferCreateSegment cfg st id = OK tt st2.
Proof.
  intros Hos. unfold dmaBufferCreateSegment, unmap_attached. rewrite Hos.
  cbn [shm_open_ok ftruncate_ok mmap_ok munmap_ok mmap_none_ok shm_unlink_ok
       cuMemHostRegister_ok cuMemHostUnregister_ok os_all_ok negb].
  rewrite !andb_false_r.
  destruct (is_attached (dmaBufLocalMaps st id));
    destruct (seed_chunks _ _ _ _ _ _); eauto.
Qed.

(** The calls [dmaBufferCreateSegment] makes all succeed: those that
    create and map the object, and those that drop a mapping this process
    still holds at the address. *)
Definition create_calls_ok (cfg : config) : Prop :=
  unmap_attached cfg = None /\
  shm_open_ok (cfg_os cfg) = true /\
  ftruncate_ok (cfg_os cfg) = true /\
  mmap_ok (cfg_os cfg) = true /\
  (cfg_gpuserv_cuda_context cfg = true ->
   cuMemHostRegister_ok (cfg_os cfg) = true).

Lemma dmaBufferCreateSegment_creates cfg st id :
  create_calls_ok cfg ->
  exists st2, dmaBufferCreateSegment cfg st id = OK tt st2.
Proof.
  intros (Hu & Ho & Hf & Hm & Hr). unfold dmaBufferCreateSegment.
  rewrite Hu, Ho, Hf, Hm. cbn [negb].
  assert (Hreg : cfg_gpuserv_cuda_context cfg
                 && negb (cuMemHostRegister_ok (cfg_os cfg)) = false).
  { destruct (cfg_gpuserv_cuda_context cfg); [|reflexivity].
    rewrite Hr by reflexivity. reflexivity. }
  rewrite Hreg.
  destruct (is_attached (dmaBufLocalMaps st id));
    destruct (seed_chunks _ _ _ _ _ _); eauto.
Qed.

Lemma create_calls_all_ok cfg : cfg_os cfg = os_all_ok -> create_calls_ok cfg.
Proof.
  intros Hos. unfold create_calls_ok, unmap_attached. rewrite Hos.
  cbn [shm_open_ok ftruncate_ok mmap_ok munmap_ok mmap_none_ok
       cuMemHostRegister_ok cuMemHostUnregister_ok os_all_ok negb].
  rewrite andb_false_r. auto.
Qed.

(** A request no segment on the active list serves is served from the
    head of the inactive list, once created, with segments smaller than
    16GB. *)
Lemma dmaBufferAllocInternal_new_segment cfg st ctx req id rest st2 :
  cfg_ok cfg -> heap_inv cfg st ->
  cfg_dma_segment_size cfg < 2 ^ 34 ->
  0 <= req < 2 ^ 63 ->
  pow2 (mclass_of req) <= cfg_dma_segment_size cfg ->
  scan_active_segments st (active_segment_list st) (mclass_of req) req = None ->
  inactive_segment_list st = id :: rest ->
  dmaBufferCreateSegment cfg (set_inactive st rest) id = OK tt st2 ->
  let st3 := set_active st2 (dlist_push_head (active_segment_list st2) id) in
  exists x seg' m' st',
    dmaBufferAllocChunk (segments st3 id) (mem st3) (mclass_of req) req
    = Some (x, seg', m') /\
    track_chunk (set_segment (set_mem st3 m') id seg') ctx (chunk_size_of req) x
    = OK (DMABUF_CHUNK_DATA x) st' /\
    dmaBufferAllocInternal cfg st ctx req = OK (DMABUF_CHUNK_DATA x) st' /\
    heap_inv cfg st3 /\ In id (active_segment_list st3).
Proof.
  intros Hcfg Hinv Hsmall Hreq Hfit Hscan Hin Hc st3.
  pose proof (new_segment_yields_chunk cfg st id rest tt st2 req Hcfg Hinv
                Hsmall Hin Hc Hfit) as Hsome.
  destruct (alloc_new_segment_heap _ _ _ _ _ _ Hcfg Hinv Hin Hc) as (Hinv3 & _).
  fold st3 in Hinv3.
  assert (Hid3 : In id (active_segment_list st3))
    by (subst st3; st_simpl; now left).
  change (segments st2 id) with (segments st3 id) in Hsome.
  change (mem st2) with (mem st3) in Hsome.
  destruct (dmaBufferAllocChunk (segments st3 id) (mem st3) (mclass_of req) req)
    as [[[x seg'] m']|] eqn:E; [|contradiction].
  destruct (track_chunk_fits cfg st3 id req x seg' m' ctx Hcfg Hinv3 Hid3 Hreq E)
    as [st' Ht].
  exists x, seg', m', st'.
  split; [reflexivity|]. split; [exact Ht|]. split; [|auto].
  unfold dmaBufferAllocInternal. fold (mclass_of req).
  rewrite size_test_fits by assumption.
  rewrite alloc_retry_scan_none by assumption.
  rewrite Hin, Hc. cbv zeta. fold st3. rewrite E. exact Ht.
Qed.

(** A request that fits the segments is served whenever there is room:
    a free chunk in a segment on the active list, or a segment left on
    the inactive list that can be created. *)
Lemma dmaBufferAllocInternal_room cfg st ctx req :
  cfg_ok cfg -> heap_inv cfg st ->
  cfg_dma_segment_size cfg < 2 ^ 34 ->
  0 <= req < 2 ^ 63 ->
  pow2 (mclass_of req) <= cfg_dma_segment_size cfg ->
  inactive_segment_list st <> [] ->
  create_calls_ok cfg ->
  exists p st', dmaBufferAllocInternal cfg st ctx req = OK p st'.
Proof.
  intros Hcfg Hinv Hsmall Hreq Hfit Hin Hos.
  destruct (scan_active_segments st (active_segment_list st) (mclass_of req) req)
    as [[chunk st1]|] eqn:Hscan.
  - destruct (scan_active_segments_found _ _ _ _ _ _ Hscan)
      as (i & seg' & m' & Hi & E & ->).
    destruct (track_chunk_fits cfg st i req chunk seg' m' ctx Hcfg Hinv Hi Hreq E)
      as [st' Ht].
    exists (DMABUF_CHUNK_DATA chunk), st'.
    unfold dmaBufferAllocInternal. fold (mclass_of req).
    rewrite size_test_fits by assumption.
    now rewrite (alloc_retry_scan_some _ _ _ _ _ _ _ _ _ _ Hscan).
  - destruct (inactive_segment_list st) as [|id rest] eqn:Ei; [contradiction|].
    destruct (dmaBufferCreateSegment_creates cfg (set_inactive st rest) id Hos)
      as [st2 Hc].
    destruct (dmaBufferAllocInternal_new_segment cfg st ctx req id rest st2
                Hcfg Hinv Hsmall Hreq Hfit Hscan Ei Hc)
      as (x & seg' & m' & st' & _ & _ & Ha & _).
    eauto.
Qed.


(** X6: an allocation of a length up to 2^63 - 60 ends in one of three
    ways when every system call succeeds, with segments smaller than
    16GB: it returns a chunk, or it rejects the length as too large, or
    it finds no segment; the two errors leave the state as it was. *)
Theorem alloc_outcomes cfg st ctx req :
  cfg_ok cfg -> serving cfg st ->
  cfg_dma_segment_size cfg < 2 ^ 34 ->
  0 <= req <= 2 ^ 63 - 60 ->
  (exists p st', dmaBufferAllocInternal (set_os cfg os_all_ok) st ctx req
                 = OK p st') \/
  dmaBufferAllocInternal (set_os cfg os_all_ok) st ctx req
  = ERROR "DMA buffer request %zu MB too large" st \/
  dmaBufferAllocInternal (set_os cfg os_all_ok) st ctx req
  = ERROR "Out of DMA buffer segment" st.
Proof.
  intros Hcfg Hs Hsmall Hreq.
  assert (Hreq' : 0 <= req < 2 ^ 63)
    by (split; [lia|]; apply Z.le_lt_trans with (2 ^ 63 - 60); [lia|reflexivity]).
  destruct (serving_inv cfg st Hcfg Hs) as [_ Hinv].
  pose proof (cfg_ok_set_os cfg os_all_ok Hcfg) as Hcfg'.
  apply (heap_inv_set_os cfg os_all_ok) in Hinv.
  destruct (shift_1UL (mclass_of req)
            >? cfg_dma_segment_size (set_os cfg os_all_ok)) eqn:Htest.
  { right; left. unfold dmaBufferAllocInternal. fold (mclass_of req).
    now rewrite Htest. }
  pose proof (size_test_passed _ req Hreq Htest) as Hfit.
  destruct (inactive_segment_list st) as [|id rest] eqn:Hin.
  - destruct (scan_active_segments st (active_segment_list st)
                (mclass_of req) req) as [[chunk st1]|] eqn:Hscan.
    + left.
      destruct (scan_active_segments_found _ _ _ _ _ _ Hscan)
        as (i & seg' & m' & Hi & E & ->).
      destruct (track_chunk_fits _ st i req chunk seg' m' ctx Hcfg' Hinv Hi Hreq' E)
        as [st' Ht].
      exists (DMABUF_CHUNK_DATA chunk), st'.
      unfold dmaBufferAllocInternal. fold (mclass_of req).
      rewrite Htest.
      now rewrite (alloc_retry_scan_some _ _ _ _ _ _ _ _ _ _ Hscan).
    + right; right. unfold dmaBufferAllocInternal. fold (mclass_of req).
      rewrite Htest. rewrite alloc_retry_scan_none by assumption.
      now rewrite Hin.
  - left. apply dmaBufferAllocInternal_room; try assumption.
    + rewrite Hin. discriminate.
    + now apply create_calls_all_ok.
Qed.

Lemma alloc_outcomes_witness :
  let cfg := cfg_256MB os_all_ok in
  let st := state_after cfg (map (CallAlloc 0) [100; 5000]) in
  (exists p st', dmaBufferAllocInternal cfg st 0 (2 ^ 28) = OK p st') \/
  dmaBufferAllocInternal cfg st 0 (2 ^ 28)
  = ERROR "DMA buffer request %zu MB too large" st \/
  dmaBufferAllocInternal cfg st 0 (2 ^ 28) = ERROR "Out of DMA buffer segment" st.
Proof.
  intros cfg st.
  apply (alloc_outcomes cfg st 0 (2 ^ 28)).
  - apply cfg_256MB_ok.
  - apply (state_after_serving (cfg_256MB os_all_ok) os_all_ok 0 [100; 5000]).
    + repeat constructor; lia.
    + apply is_Some_not_None. vm_compute. reflexivity.
  - vm_compute. reflexivity.
  - split; vm_compute; discriminate.
Defined.

(** ** The size test *)

(** The size test of lines 626-631 against the largest power of two in
    the segment size. *)
Lemma size_test_iff (size req : Z) :
  2 ^ 28 <= size <= 2 ^ 34 ->
  0 <= req < 2 ^ 63 ->
  pow2 (mclass_of req) <= size <->
  req + offsetof_data + sizeof_cl_uint <= pow2 (get_prev_log2 size).
Proof.
  intros Hsize Hreq. unfold get_prev_log2.
  assert (Hpos : 0 < size) by lia.
  destruct (Z.log2_spec size Hpos) as [Hlo Hhi].
  assert (HL : 28 <= Z.log2 size).
  { change 28 with (Z.log2 (2 ^ 28)). apply Z.log2_le_mono. lia. }
  set (L := Z.log2 size) in *.
  rewrite (pow2_spec L) by lia.
  assert (H8 : 2 ^ L = 8 * 2 ^ (L - 3)).
  { replace L with (3 + (L - 3)) at 1 by lia.
    rewrite Z.pow_add_r by lia. reflexivity. }
  assert (Hbig : 2 ^ 28 <= 2 ^ L) by (apply Z.pow_le_mono_r; lia).
  destruct (chunk_size_of_bounds req Hreq) as (Hcs & Hlen & [Hcp Hpow] & _).
  unfold offsetof_data, sizeof_cl_uint in *.
  split.
  - intros Hfit.
    destruct (Z_le_gt_dec (req + 56 + 4) (2 ^ L)) as [|Hgt]; [assumption|].
    exfalso.
    assert (Hk : L < mclass_of req).
    { apply (Z.pow_lt_mono_r_iff 2); [lia|apply Z.le_trans with 8; [lia|]|].
      - apply (mclass_of_min req).
      - rewrite <- (pow2_spec (mclass_of req))
          by (pose proof (mclass_of_min req); zlia). lia. }
    assert (2 ^ (L + 1) <= pow2 (mclass_of req)).
    { rewrite pow2_spec by (pose proof (mclass_of_min req); zlia).
      apply Z.pow_le_mono_r; lia. }
    replace (Z.succ L) with (L + 1) in Hhi by lia. lia.
  - intros Hle.
    assert (Hcl : chunk_size_of req <= 2 ^ L).
    { rewrite Hcs. rewrite MAXALIGN_spec. change DMABUF_CHUNKSZ_MIN with 256.
      assert ((56 + req + 4 + 7) / 8 <= 2 ^ (L - 3)).
      { apply Z.lt_succ_r. apply Z.div_lt_upper_bound; lia. }
      change (2 ^ 28) with 268435456 in *. lia. }
    unfold mclass_of, get_next_log2.
    rewrite pow2_spec by apply Z.log2_up_nonneg.
    apply Z.le_trans with (2 ^ L); [|exact Hlo].
    apply Z.pow_le_mono_r; [lia|].
    apply Z.log2_up_le_pow2; [lia|exact Hcl].
Qed.

(** No other exit of [dmaBufferAllocInternal] uses the message of the
    size test. *)
Lemma alloc_retry_not_too_large cfg retries excl st ctx req csz cls st' :
  alloc_retry cfg retries excl st ctx req csz cls
  <> ERROR "DMA buffer request %zu MB too large" st'.
Proof.
  destruct (scan_active_segments st (active_segment_list st) cls req)
    as [[chunk st1]|] eqn:Hscan.
  - rewrite (alloc_retry_scan_some _ _ _ _ _ _ _ _ _ _ Hscan).
    destruct (track_chunk_cases st1 ctx csz chunk) as [[x ->]| ->]; discriminate.
  - rewrite alloc_retry_scan_none by assumption.
    destruct (inactive_segment_list st) as [|id rest]; [discriminate|].
    destruct (dmaBufferCreateSegment cfg (set_inactive st rest) id)
      as [[] st2|msg st2|msg|] eqn:Hc; try discriminate.
    + cbv zeta.
      destruct (dmaBufferAllocChunk _ _ cls req) as [[[x sg] mm]|];
        [|discriminate].
      match goal with |- context [track_chunk ?s ?c ?z ?k] =>
        destruct (track_chunk_cases s c z k) as [[st3 ->]| ->] end;
      discriminate.
    + intros [= -> _].
      destruct (dmaBufferCreateSegment_messages _ _ _ _ _ Hc)
        as [[? _]|[[? _]|[[? _]|[? _]]]]; discriminate.
Qed.

(** Beyond 2^63 - 60 the class is 64 as long as the sum of line 624 and
    its rounding stay below 2^64; from 2^64 - 67 on they wrap around and
    the chunk size comes out as the smallest one. *)
Lemma mclass_of_64 (req : Z) :
  2 ^ 63 - 60 < req <= 2 ^ 64 - 68 -> mclass_of req = 64.
Proof.
  intros Hreq. unfold mclass_of, get_next_log2, chunk_size_of.
  unfold offsetof_data, sizeof_cl_uint.
  change (2 ^ 63) with 9223372036854775808 in Hreq.
  change (2 ^ 64) with 18446744073709551616 in Hreq.
  destruct (MAXALIGN_bounds (56 + req + 4)) as [Hm _].
  rewrite (Size_wrap_small (56 + req + 4))
    by (change (2 ^ 64) with 18446744073709551616; lia).
  rewrite Size_wrap_small by (change (2 ^ 64) with 18446744073709551616; lia).
  change DMABUF_CHUNKSZ_MIN with 256.
  rewrite Z.max_l by lia.
  apply Z.log2_up_unique; [lia|].
  change (2 ^ Z.pred 64) with 9223372036854775808.
  change (2 ^ 64) with 18446744073709551616. lia.
Qed.

Lemma chunk_size_of_wrapped (req : Z) :
  2 ^ 64 - 68 < req < 2 ^ 64 -> chunk_size_of req = DMABUF_CHUNKSZ_MIN.
Proof.
  intros Hreq. unfold chunk_size_of, offsetof_data, sizeof_cl_uint.
  change DMABUF_CHUNKSZ_MIN with 256.
  change (2 ^ 64) with 18446744073709551616 in Hreq.
  apply Z.max_r.
  destruct (Z_lt_le_dec (56 + req + 4) (2 ^ 64)) as [Hlt|Hge];
    change (2 ^ 64) with 18446744073709551616 in *.
  - rewrite (Size_wrap_small (56 + req + 4))
      by (change (2 ^ 64) with 18446744073709551616; lia).
    destruct (MAXALIGN_bounds (56 + req + 4)) as [Hm Hmod].
    pose proof (Z.div_mod (MAXALIGN (56 + req + 4)) 8 ltac:(lia)) as Hdm.
    rewrite Hmod in Hdm.
    assert (E : MAXALIGN (56 + req + 4) = 18446744073709551616) by lia.
    rewrite E. vm_compute. discriminate.
  - unfold Size_wrap at 2.
    change (2 ^ 64) with 18446744073709551616.
    replace (56 + req + 4)
      with ((req - 18446744073709551556) + 1 * 18446744073709551616) by lia.
    rewrite Z.mod_add by lia.
    rewrite (Z.mod_small (req - 18446744073709551556)) by lia.
    destruct (MAXALIGN_bounds (req - 18446744073709551556)) as [Hm _].
    rewrite Size_wrap_small by (change (2 ^ 64) with 18446744073709551616; lia).
    lia.
Qed.

(** A length beyond 2^63 - 60 passes the test of line 629: by a class
    of 64, which the shift turns into 1, or by the smallest class. *)
Lemma size_test_long cfg req :
  cfg_ok cfg -> 2 ^ 63 - 60 < req < 2 ^ 64 ->
  (shift_1UL (mclass_of req) >? cfg_dma_segment_size cfg) = false.
Proof.
  intros Hcfg Hreq.
  destruct (cok_size cfg Hcfg) as [Hlo _].
  change (2 ^ 28) with 268435456 in Hlo.
  rewrite Z.gtb_ltb. apply Z.ltb_ge.
  destruct (Z_le_gt_dec req (2 ^ 64 - 68)) as [Hle|Hgt].
  - rewrite mclass_of_64 by lia. change (shift_1UL 64) with 1. lia.
  - unfold mclass_of. rewrite chunk_size_of_wrapped by lia.
    change (shift_1UL (get_next_log2 DMABUF_CHUNKSZ_MIN)) with 256. lia.
Qed.

(** X7: the lengths [dmaBufferAllocInternal] rejects as too large are
    those more than 4 bytes above [dmaBufferMaxAllocSize()] and up to
    2^63 - 60: the length plus the 56 bytes of the header and the 4 bytes
    of the guard word must fit the largest power of two in the segment
    size, of which [dmaBufferMaxAllocSize()] takes off 64 bytes.  The
    state is left as it was.  A longer length is not rejected: the test
    of line 629 shifts by its class, 64, or the sum of line 624 has
    wrapped around. *)
Theorem alloc_too_large_iff cfg st ctx req :
  cfg_ok cfg -> 0 <= req < 2 ^ 64 ->
  ((exists st', dmaBufferAllocInternal cfg st ctx req
                = ERROR "DMA buffer request %zu MB too large" st') <->
   dmaBufferMaxAllocSize (cfg_dma_segment_size cfg) + 4 < req <= 2 ^ 63 - 60) /\
  (dmaBufferMaxAllocSize (cfg_dma_segment_size cfg) + 4 < req <= 2 ^ 63 - 60 ->
   dmaBufferAllocInternal cfg st ctx req
   = ERROR "DMA buffer request %zu MB too large" st).
Proof.
  intros Hcfg Hreq.
  pose proof (cok_size cfg Hcfg) as Hsize.
  assert (Hmax : dmaBufferMaxAllocSize (cfg_dma_segment_size cfg)
                 = pow2 (get_prev_log2 (cfg_dma_segment_size cfg)) - 64).
  { unfold dmaBufferMaxAllocSize, get_prev_log2.
    change (MAXALIGN offsetof_data + MAXALIGN sizeof_cl_uint) with 64.
    assert (Hpos : 0 < cfg_dma_segment_size cfg) by lia.
    destruct (Z.log2_spec _ Hpos) as [Hlo _].
    assert (HL : 28 <= Z.log2 (cfg_dma_segment_size cfg)).
    { change 28 with (Z.log2 (2 ^ 28)). apply Z.log2_le_mono. lia. }
    rewrite pow2_spec by lia.
    assert (2 ^ 28 <= 2 ^ Z.log2 (cfg_dma_segment_size cfg))
      by (apply Z.pow_le_mono_r; lia).
    assert (H64 : 2 ^ 34 < 2 ^ 64) by reflexivity.
    apply Size_wrap_small. change (2 ^ 28) with 268435456 in *. lia. }
  assert (Hrej : dmaBufferMaxAllocSize (cfg_dma_segment_size cfg) + 4 < req
                 <= 2 ^ 63 - 60 ->
                 dmaBufferAllocInternal cfg st ctx req
                 = ERROR "DMA buffer request %zu MB too large" st).
  { intros Hbig.
    assert (Hreq' : 0 <= req < 2 ^ 63)
      by (split; [lia|]; apply Z.le_lt_trans with (2 ^ 63 - 60); [lia|reflexivity]).
    pose proof (size_test_iff (cfg_dma_segment_size cfg) req Hsize Hreq') as Hiff.
    unfold offsetof_data, sizeof_cl_uint in Hiff.
    unfold dmaBufferAllocInternal. fold (mclass_of req).
    destruct (shift_1UL (mclass_of req) >? cfg_dma_segment_size cfg) eqn:Htest;
      [reflexivity|].
    apply size_test_passed in Htest; [|lia].
    apply Hiff in Htest. lia. }
  split; [|exact Hrej]. split.
  - intros [st' Hout]. revert Hout.
    unfold dmaBufferAllocInternal. fold (mclass_of req).
    destruct (Z_le_gt_dec req (2 ^ 63 - 60)) as [Hle|Hgt].
    + assert (Hreq' : 0 <= req < 2 ^ 63)
        by (split; [lia|]; apply Z.le_lt_trans with (2 ^ 63 - 60);
            [lia|reflexivity]).
      pose proof (size_test_iff (cfg_dma_segment_size cfg) req Hsize Hreq')
        as Hiff.
      unfold offsetof_data, sizeof_cl_uint in Hiff.
      destruct (Z_lt_le_dec (dmaBufferMaxAllocSize (cfg_dma_segment_size cfg) + 4)
                            req) as [|Hsmall]; [intros _; lia|].
      rewrite size_test_fits by (apply Hiff; lia).
      intros Hout. exfalso.
      exact (alloc_retry_not_too_large _ _ _ _ _ _ _ _ _ Hout).
    + rewrite size_test_long by (try assumption; lia).
      intros Hout. exfalso.
      exact (alloc_retry_not_too_large _ _ _ _ _ _ _ _ _ Hout).
  - intros Hbig. exists st. now apply Hrej.
Qed.

(** With 256 MB segments: 2^28 - 59 bytes are rejected, 2^28 - 60 bytes
    are not, and neither are 2^63 - 1 bytes. *)
Lemma alloc_too_large_iff_witness :
  let cfg := cfg_256MB os_all_ok in
  dmaBufferAllocInternal cfg (startup cfg) 0 (2 ^ 28 - 59)
  = ERROR "DMA buffer request %zu MB too large" (startup cfg) /\
  (~ exists st', dmaBufferAllocInternal cfg (startup cfg) 0 (2 ^ 28 - 60)
                 = ERROR "DMA buffer request %zu MB too large" st') /\
  ~ exists st', dmaBufferAllocInternal cfg (startup cfg) 0 (2 ^ 63 - 1)
                = ERROR "DMA buffer request %zu MB too large" st'.
Proof.
  intros cfg. split; [|split].
  - apply (alloc_too_large_iff cfg (startup cfg) 0 (2 ^ 28 - 59)).
    + apply cfg_256MB_ok.
    + vm_compute. split; [discriminate|reflexivity].
    + split; vm_compute; [reflexivity|discriminate].
  - intros Hout.
    destruct (alloc_too_large_iff cfg (startup cfg) 0 (2 ^ 28 - 60)) as [Hiff _].
    + apply cfg_256MB_ok.
    + vm_compute. split; [discriminate|reflexivity].
    + apply Hiff in Hout. destruct Hout as [Hout _].
      vm_compute in Hout. discriminate.
  - intros Hout.
    destruct (alloc_too_large_iff cfg (startup cfg) 0 (2 ^ 63 - 1)) as [Hiff _].
    + apply cfg_256MB_ok.
    + vm_compute. split; [discriminate|reflexivity].
    + apply Hiff in Hout. destruct Hout as [_ Hout].
      vm_compute in Hout. apply Hout. reflexivity.
Defined.

(** X8: the sum of line 624 wraps around for a length within 60 bytes of
    2^64: the chunk size comes out as the smallest one, and the size test
    lets the request pass. *)
Theorem size_test_wraps cfg st ctx req :
  cfg_ok cfg ->
  2 ^ 64 - 60 <= req < 2 ^ 64 ->
  chunk_size_of req = DMABUF_CHUNKSZ_MIN /\
  mclass_of req = DMABUF_CHUNKSZ_MIN_BIT /\
  forall st', dmaBufferAllocInternal cfg st ctx req
              <> ERROR "DMA buffer request %zu MB too large" st'.
Proof.
  intros Hcfg Hreq.
  assert (Hcs : chunk_size_of req = DMABUF_CHUNKSZ_MIN).
  { unfold chunk_size_of, Size_wrap, offsetof_data, sizeof_cl_uint.
    replace (56 + req + 4) with ((req - (2 ^ 64 - 60)) + 1 * 2 ^ 64) by lia.
    rewrite Z.mod_add by lia.
    rewrite (Z.mod_small (req - (2 ^ 64 - 60))) by lia.
    destruct (MAXALIGN_bounds (req - (2 ^ 64 - 60))) as [Hm _].
    rewrite Z.mod_small by lia.
    change DMABUF_CHUNKSZ_MIN with 256. lia. }
  assert (Hcl : mclass_of req = DMABUF_CHUNKSZ_MIN_BIT).
  { unfold mclass_of. rewrite Hcs. reflexivity. }
  split; [exact Hcs|]. split; [exact Hcl|].
  intros st'. unfold dmaBufferAllocInternal. fold (mclass_of req).
  rewrite Hcl.
  change (shift_1UL DMABUF_CHUNKSZ_MIN_BIT) with 256.
  destruct (Z.gtb_spec 256 (cfg_dma_segment_size cfg)) as [Hgt|_].
  - exfalso. destruct (cok_size cfg Hcfg) as [Hlo _].
    change (2 ^ 28) with 268435456 in Hlo. lia.
  - apply alloc_retry_not_too_large.
Qed.

Lemma size_test_wraps_witness :
  mclass_of (2 ^ 64 - 1) = DMABUF_CHUNKSZ_MIN_BIT.
Proof.
  apply (size_test_wraps (cfg_256MB os_all_ok)
           (startup (cfg_256MB os_all_ok)) 0 (2 ^ 64 - 1)).
  - apply cfg_256MB_ok.
  - vm_compute. split; [discriminate|reflexivity].
Defined.

(** ** The sizes of the chunk returned, and when one is returned *)








(** ** A request of no bytes *)




(** ** Where an allocation takes its chunk *)

(** X9: the active list is searched in order, and a segment by
    ascending class, for a length below 2^63 that fits the segments.
    When [id] is the first segment on the active list
    with a free chunk the request can use, and [j] the lowest class at or
    above that of the request with a free chunk in it, the allocation
    returns the head [x] of that free list: the chunk is cut down by
    halves, the upper halves go on the free lists of the classes
    between, and the segment counts one active chunk more.  Neither list
    of segments nor any other segment changes. *)
Theorem alloc_first_fit cfg os st ctx req l1 id l2 j x :
  cfg_ok cfg -> serving cfg st ->
  0 <= req < 2 ^ 63 ->
  pow2 (mclass_of req) <= cfg_dma_segment_size cfg ->
  active_segment_list st = l1 ++ id :: l2 ->
  (forall i c, In i l1 -> mclass_of req <= c ->
               c = mclass_of req \/ c < DMABUF_CHUNKSZ_MAX_BIT ->
               free_chunks (segments st i) c = []) ->
  mclass_of req <= j ->
  j = mclass_of req \/ j < DMABUF_CHUNKSZ_MAX_BIT ->
  (forall c, mclass_of req <= c < j -> free_chunks (segments st id) c = []) ->
  hd_error (free_chunks (segments st id) j) = Some x ->
  exists st',
    dmaBufferAllocInternal (set_os cfg os) st ctx req
    = OK (DMABUF_CHUNK_DATA x) st' /\
    active_segment_list st' = active_segment_list st /\
    inactive_segment_list st' = inactive_segment_list st /\
    (forall i, i <> id -> segments st' i = segments st i) /\
    (forall c, free_chunks (segments st' id) c
               = alloc_lists (free_chunks (segments st id)) x (mclass_of req) j c) /\
    num_chunks (segments st' id) = num_chunks (segments st id) + 1 /\
    revision (segments st' id) = revision (segments st id).
Proof.
  intros Hcfg Hs Hreq Hfit Hact Hbefore Hj Hmax Hbelow Hhd.
  destruct (serving_inv cfg st Hcfg Hs) as [_ Hinv].
  pose proof (cfg_ok_set_os cfg os Hcfg) as Hcfg'.
  apply (heap_inv_set_os cfg os) in Hinv.
  assert (Hid : In id (active_segment_list st)).
  { rewrite Hact. apply in_or_app. right. now left. }
  assert (Hne : free_chunks (segments st id) j <> []).
  { destruct (free_chunks (segments st id) j); [discriminate|discriminate]. }
  unfold dmaBufferAllocInternal. fold (mclass_of req).
  rewrite size_test_fits by exact Hfit.
  destruct (dmaBufferAllocChunk (segments st id) (mem st) (mclass_of req) req)
    as [[[x' seg'] m']|] eqn:E;
    [|exfalso; exact (dmaBufferAllocChunk_succeeds _ _ _ _ j Hj Hne Hmax E)].
  assert (Hscan : scan_active_segments st (active_segment_list st)
                    (mclass_of req) req
                  = Some (x', set_segment (set_mem st m') id seg')).
  { rewrite Hact, scan_active_segments_app.
    - simpl. rewrite E. reflexivity.
    - intros i Hi. apply dmaBufferAllocChunk_none.
      intros c Hc Hm. now apply (Hbefore i c). }
  rewrite (alloc_retry_scan_some _ _ _ _ _ _ _ _ _ _ Hscan).
  destruct (track_chunk_fits (set_os cfg os) st id req x' seg' m' ctx
              Hcfg' Hinv Hid Hreq E) as [st' Ht].
  rewrite Ht.
  destruct (alloc_step_inv (set_os cfg os) st id (mclass_of req) req x' seg' m'
              ctx (chunk_size_of req) _ st' Hcfg' Hinv Hid (mclass_of_min req) E Ht)
    as (_ & _ & _ & _ & _ & Ha & Hi & Hoth & Hseg & _).
  destruct (dmaBufferAllocChunk_spec _ _ _ _ _ _ _ _ _ _
              (sok_tiled _ _ _ _ (hinv_seg _ st Hinv id Hid))
              (mclass_of_min req) E)
    as (j' & Hj' & _ & Hempty' & Hhd' & Hlists & _).
  assert (Ej : j' = j).
  { destruct (Z.lt_trichotomy j' j) as [Hlt|[Heq|Hgt]]; [|exact Heq|].
    - rewrite (Hbelow j') in Hhd' by lia. discriminate.
    - rewrite (Hempty' j) in Hhd by lia. discriminate. }
  subst j'. assert (Ex : x' = x) by congruence. subst x'.
  destruct (dmaBufferAllocChunk_revision _ _ _ _ _ _ _ E) as [Hrev Hnum].
  exists st'. split; [reflexivity|]. split; [exact Ha|]. split; [exact Hi|].
  split; [exact Hoth|]. rewrite Hseg. auto.
Qed.

Lemma alloc_first_fit_witness :
  let cfg := cfg_256MB os_all_ok in
  let st := two_small_one_released cfg in
  exists st',
    dmaBufferAllocInternal cfg st 0 300 = OK (2 ^ 40 + 512 + 56) st' /\
    free_chunks (segments st' 0) 9 = [].
Proof.
  intros cfg st.
  destruct (alloc_first_fit cfg os_all_ok st 0 300 [] 0 [] 9 (2 ^ 40 + 512))
    as (st' & Ha & _ & _ & _ & Hl & _).
  - apply cfg_256MB_ok.
  - apply two_small_one_released_serving.
  - lia.
  - vm_compute. discriminate.
  - vm_compute. reflexivity.
  - intros i c [].
  - vm_compute. discriminate.
  - left. vm_compute. reflexivity.
  - intros c Hc. assert (E : mclass_of 300 = 9) by (vm_compute; reflexivity).
    rewrite E in Hc. lia.
  - vm_compute. reflexivity.
  - exists st'. split; [exact Ha|]. rewrite (Hl 9). vm_compute. reflexivity.
Defined.

(** X10: a segment is created only when no segment on the active list
    can serve the request, here of a length below 2^63 that fits the
    segments.  It is then the head of the inactive list
    that is created, when the system calls succeed: it becomes the head
    of the active list with the next, odd revision, the chunk returned
    lies in it and is its one active chunk, and no other segment
    changes. *)
Theorem alloc_takes_inactive_segment cfg st ctx req id rest :
  cfg_ok cfg -> serving cfg st ->
  cfg_dma_segment_size cfg < 2 ^ 34 ->
  0 <= req < 2 ^ 63 ->
  pow2 (mclass_of req) <= cfg_dma_segment_size cfg ->
  (forall i c, In i (active_segment_list st) -> mclass_of req <= c ->
               free_chunks (segments st i) c = []) ->
  inactive_segment_list st = id :: rest ->
  exists p st',
    dmaBufferAllocInternal (set_os cfg os_all_ok) st ctx req = OK p st' /\
    active_segment_list st' = id :: active_segment_list st /\
    inactive_segment_list st' = rest /\
    mmap_ptr cfg id <= p - offsetof_data
    < mmap_ptr cfg id + cfg_dma_segment_size cfg /\
    revision (segments st' id) = (revision (segments st id) + 1) mod 2 ^ 32 /\
    SHMSEG_EXISTS (revision (segments st' id)) = true /\
    num_chunks (segments st' id) = 1 /\
    (forall i, i <> id -> segments st' i = segments st i).
Proof.
  intros Hcfg Hs Hsmall Hreq Hfit Hnone Hin.
  destruct (serving_inv cfg st Hcfg Hs) as [Hdir Hinv].
  pose proof (cfg_ok_set_os cfg os_all_ok Hcfg) as Hcfg'.
  apply (heap_inv_set_os cfg os_all_ok) in Hinv.
  unfold dmaBufferAllocInternal. fold (mclass_of req).
  rewrite size_test_fits by exact Hfit.
  assert (Hscan : scan_active_segments st (active_segment_list st)
                    (mclass_of req) req = None).
  { apply scan_active_segments_none. intros i Hi.
    apply dmaBufferAllocChunk_none. intros c Hc _. now apply Hnone. }
  rewrite alloc_retry_scan_none by assumption. rewrite Hin.
  destruct (dmaBufferCreateSegment_succeeds (set_os cfg os_all_ok)
              (set_inactive st rest) id eq_refl) as [st2 Hc].
  rewrite Hc. cbv zeta.
  pose proof (new_segment_yields_chunk (set_os cfg os_all_ok) st id rest tt st2 req
                Hcfg' Hinv Hsmall Hin Hc Hfit) as Hyield.
  destruct (alloc_new_segment_heap _ _ _ _ _ _ Hcfg' Hinv Hin Hc) as (Hinv3 & _).
  destruct (dmaBufferCreateSegment_OK _ _ _ _ _ Hc)
    as (Ha2 & Hi2 & Hrev & Hnum & _ & Hoth2 & _).
  st_simpl in Ha2. st_simpl in Hi2. st_simpl in Hrev. st_simpl in Hoth2.
  set (st3 := set_active st2 (dlist_push_head (active_segment_list st2) id))
    in *.
  assert (Hid3 : In id (active_segment_list st3)) by (subst st3; st_simpl; now left).
  change (segments st3 id) with (segments st2 id).
  change (mem st3) with (mem st2).
  destruct (dmaBufferAllocChunk (segments st2 id) (mem st2) (mclass_of req) req)
    as [[[x seg'] m']|] eqn:E; [|contradiction].
  destruct (track_chunk_fits (set_os cfg os_all_ok) st3 id req x seg' m' ctx
              Hcfg' Hinv3 Hid3 Hreq E) as [st' Ht].
  rewrite Ht.
  destruct (alloc_step_inv (set_os cfg os_all_ok) st3 id (mclass_of req) req x seg' m'
              ctx (chunk_size_of req) _ st' Hcfg' Hinv3 Hid3 (mclass_of_min req)
              E Ht)
    as (_ & _ & Px & _ & _ & Ha & Hi & Hoth & Hseg & _).
  destruct (dmaBufferAllocChunk_revision _ _ _ _ _ _ _ E) as [Hrev' Hnum'].
  assert (Heven : SHMSEG_EXISTS (revision (segments st id)) = false).
  { destruct (SHMSEG_EXISTS (revision (segments st id))) eqn:Ee; [|reflexivity].
    apply (inv_active st Hdir) in Ee.
    exfalso. apply (inv_inactive st Hdir id); [rewrite Hin; now left|exact Ee]. }
  exists (DMABUF_CHUNK_DATA x), st'. split; [reflexivity|].
  split; [rewrite Ha; subst st3; st_simpl; unfold dlist_push_head;
          now rewrite Ha2|].
  split; [rewrite Hi; subst st3; st_simpl; exact Hi2|].
  split.
  { unfold DMABUF_CHUNK_DATA. replace (x + offsetof_data - offsetof_data) with x by lia.
    exact (placed_in_range _ _ _ _ Px). }
  rewrite Hseg, Hrev', Hnum', Hrev, Hnum.
  split; [reflexivity|]. split; [now rewrite SHMSEG_EXISTS_next, Heven|].
  split; [reflexivity|].
  intros i Hne. rewrite (Hoth i Hne). subst st3. st_simpl.
  exact (proj1 (Hoth2 i Hne)).
Qed.

Lemma alloc_takes_inactive_segment_witness :
  let cfg := cfg_256MB os_all_ok in
  exists p st',
    dmaBufferAllocInternal cfg (startup cfg) 0 100 = OK p st' /\
    active_segment_list st' = [0] /\
    inactive_segment_list st' = map Z.of_nat (seq 1 31).
Proof.
  intros cfg.
  destruct (alloc_takes_inactive_segment cfg (startup cfg) 0 100 0
              (map Z.of_nat (seq 1 31)))
    as (p & st' & Ha & Hact & Hin & _).
  - apply cfg_256MB_ok.
  - apply serving_startup.
  - vm_compute. reflexivity.
  - lia.
  - vm_compute. discriminate.
  - intros i c [].
  - reflexivity.
  - exists p, st'. split; [exact Ha|]. split; assumption.
Defined.

(** ** Lengths beyond 2^63 - 60 *)






(** ** What a release leaves of the memory *)

Lemma memset_inside (m : memory) (ptr byte len o : Z) :
  ptr <= o < ptr + len -> data (memset m ptr byte len) o = byte.
Proof.
  intros H. unfold memset. cbn [data].
  destruct (Z.leb_spec ptr o), (Z.ltb_spec o (ptr + len)); try lia; reflexivity.
Qed.

(** The recorded length of a chunk that passes [pointer_validation], in
    a state where no length has wrapped around, fits the chunk. *)
Lemma valid_length_fits cfg st p chunk id st1 :
  cfg_ok cfg -> lengths_ok (mem st1) ->
  pointer_validation cfg st p = OK (chunk, id) st1 ->
  0 <= required (chunks (mem st1) chunk) /\
  offsetof_data + required (chunks (mem st1) chunk) + sizeof_cl_uint
  <= pow2 (mclass (chunks (mem st1) chunk)).
Proof.
  intros Hcfg Hlen Hpv.
  destruct (pointer_validation_range _ _ _ _ _ _ Hcfg Hpv)
    as (_ & _ & _ & _ & Hguard & _).
  pose proof (Hlen chunk) as Hl.
  unfold offsetof_data, sizeof_cl_uint in *.
  rewrite Size_wrap_small in Hguard
    by (change (2 ^ 64) with (2 * 2 ^ 63); lia).
  lia.
Qed.

(** What a release writes: the owner of the chunk, its payload, and
    nothing of the other chunks in use. *)
Lemma __dmaBufferFree_frame cfg os st p st' :
  cfg_ok cfg -> dir_inv st -> heap_inv cfg st -> lengths_ok (mem st) ->
  __dmaBufferFree (set_os cfg os) st p = OK tt st' ->
  let chunk := Size_wrap (p - offsetof_data) in
  exists id,
    pointer_validation (set_os cfg os) st p = OK (chunk, id) st /\
    In id (active_segment_list st) /\
    0 <= id < cfg_max_dma_segment_nums cfg /\
    mmap_ptr cfg id <= chunk < mmap_ptr cfg id + cfg_dma_segment_size cfg /\
    shgcon (chunks (mem st) chunk) <> None /\
    shgcon (chunks (mem st') chunk) = None /\
    owners_kept (mem st) (mem st') /\
    (forall o, DMABUF_CHUNK_DATA chunk <= o
               < DMABUF_CHUNK_DATA chunk + required (chunks (mem st) chunk) ->
               data (mem st') o = 0xf5) /\
    (forall i a d,
       In i (active_segment_list st) ->
       tracked (mmap_ptr cfg i) (cfg_dma_segment_size cfg) (mem st) a d ->
       a <> chunk ->
       chunks (mem st') a = chunks (mem st) a /\
       (forall o, a <= o < a + pow2 d -> data (mem st') o = data (mem st) o)).
Proof.
  intros Hcfg Hdir Hinv Hlen Hf chunk.
  pose proof (cfg_ok_set_os cfg os Hcfg) as Hcfg'.
  destruct (__dmaBufferFree_released _ _ _ _ _ Hdir Hf)
    as (chunk1 & id & ctx & Hpv & Hown & Hmem & _).
  destruct (pointer_validation_inv _ _ _ _ _ _ Hdir Hpv) as [_ Hact].
  destruct (pointer_validation_range _ _ _ _ _ _ Hcfg' Hpv)
    as (Hchunk & Hid & Rx & _).
  destruct (valid_length_fits _ _ _ _ _ _ Hcfg' Hlen Hpv) as [Hn0 Hfits].
  fold chunk in Hchunk. subst chunk1.
  change (mmap_ptr (set_os cfg os) id) with (mmap_ptr cfg id) in *.
  change (cfg_dma_segment_size (set_os cfg os))
    with (cfg_dma_segment_size cfg) in *.
  change (cfg_max_dma_segment_nums (set_os cfg os))
    with (cfg_max_dma_segment_nums cfg) in *.
  set (k := mclass (chunks (mem st) chunk)) in *.
  set (n := required (chunks (mem st) chunk)) in *.
  assert (Hx : tracked (mmap_ptr cfg id) (cfg_dma_segment_size cfg) (mem st)
                       chunk k).
  { split; [exact Rx|]. split; [congruence|reflexivity]. }
  destruct (release_seg_ok (mmap_ptr cfg id) (cfg_dma_segment_size cfg)
              (cfg_ok_size_max cfg Hcfg) (segments st id) (mem st)
              (disowned (mem st) chunk) chunk
              (hinv_seg cfg st Hinv id Hact) Rx ltac:(congruence) eq_refl)
    as (_ & Hdata & Hout & Hkeep & Hgone).
  pose proof (release_chunk_owners (mmap_ptr cfg id) (cfg_dma_segment_size cfg)
                (segments st id) (disowned (mem st) chunk) chunk) as Hown2.
  rewrite <- Hmem in Hdata, Hout, Hkeep, Hgone, Hown2.
  exists id. split; [exact Hpv|]. split; [exact Hact|]. split; [exact Hid|].
  split; [exact Rx|]. split; [congruence|]. split; [|split; [|split]].
  - destruct (shgcon (chunks (mem st') chunk)) eqn:Eg; [|reflexivity].
    exfalso. apply (Hgone (mclass (chunks (mem st') chunk))).
    split; [exact Rx|]. split; [congruence|reflexivity].
  - apply (owners_kept_trans _ (disowned (mem st) chunk)); [|exact Hown2].
    intros a. unfold disowned, set_chunk, memset. cbn [chunks]. unfold upd.
    destruct (Z.eqb_spec a chunk); [now right|now left].
  - intros o Ho. rewrite Hdata. unfold disowned, set_chunk. cbn [data].
    apply memset_inside. fold n. exact Ho.
  - intros i a d Hi Ha Hne.
    destruct (tracked_apart cfg st i a d id chunk k Hcfg Hinv Hi Hact Ha Hx Hne)
      as [Hap|Hap].
    all: split;
      [destruct (Z.eq_dec i id) as [->|Hneq];
         [now apply (Hkeep a d)
         |apply Hout; destruct Ha as (Ra & _);
          destruct (segments_apart cfg i id a Hcfg Hneq Ra); lia]
      |intros o Ho; rewrite Hdata; unfold disowned, set_chunk; cbn [data];
       apply memset_other; fold n;
       unfold DMABUF_CHUNK_DATA, offsetof_data, sizeof_cl_uint in *; lia].
Qed.

(** X11: a release in a state in service clears the owner of the chunk,
    fills its payload with 0xf5, and leaves the header and the bytes of
    every other chunk in use as they were. *)
Theorem free_keeps_other_chunks cfg os st p st' :
  cfg_ok cfg -> serving cfg st ->
  offsetof_data <= p < 2 ^ 64 ->
  __dmaBufferFree (set_os cfg os) st p = OK tt st' ->
  let chunk := p - offsetof_data in
  shgcon (chunks (mem st) chunk) <> None /\
  shgcon (chunks (mem st') chunk) = None /\
  (forall o, p <= o < p + required (chunks (mem st) chunk) ->
             data (mem st') o = 0xf5) /\
  (forall i a d,
     In i (active_segment_list st) ->
     tracked (mmap_ptr cfg i) (cfg_dma_segment_size cfg) (mem st) a d ->
     a <> chunk ->
     chunks (mem st') a = chunks (mem st) a /\
     (forall o, a <= o < a + pow2 d -> data (mem st') o = data (mem st) o)).
Proof.
  intros Hcfg Hs Hp Hf chunk.
  destruct (serving_inv cfg st Hcfg Hs) as [Hdir Hinv].
  destruct (__dmaBufferFree_frame cfg os st p st' Hcfg Hdir Hinv
              (serving_lengths cfg st Hs) Hf)
    as (id & _ & _ & _ & _ & H1 & H2 & _ & H3 & H4).
  rewrite Size_wrap_small in H1, H2, H3, H4 by (unfold offsetof_data in *; lia).
  fold chunk in H1, H2, H3, H4.
  replace (DMABUF_CHUNK_DATA chunk) with p in H3
    by (unfold DMABUF_CHUNK_DATA, chunk; lia).
  auto.
Qed.

Lemma free_keeps_other_chunks_witness :
  let cfg := cfg_256MB os_all_ok in
  let st := state_after cfg (map (CallAlloc 0) [100; 100]) in
  let st' := result_state st (__dmaBufferFree cfg st (2 ^ 40 + 56)) in
  shgcon (chunks (mem st') (2 ^ 40)) = None /\
  data (mem st') (2 ^ 40 + 56) = 0xf5 /\
  chunks (mem st') (2 ^ 40 + 256) = chunks (mem st) (2 ^ 40 + 256).
Proof.
  intros cfg st st'.
  destruct (free_keeps_other_chunks cfg os_all_ok st (2 ^ 40 + 56) st')
    as (_ & H1 & H2 & H3).
  - apply cfg_256MB_ok.
  - apply (state_after_serving (cfg_256MB os_all_ok) os_all_ok 0 [100; 100]).
    + repeat constructor; lia.
    + apply is_Some_not_None. vm_compute. reflexivity.
  - vm_compute. split; [discriminate|reflexivity].
  - apply (is_OK_unit st). vm_compute. reflexivity.
  - split; [exact H1|]. split.
    + apply H2. vm_compute. split; [discriminate|reflexivity].
    + apply (H3 0 (2 ^ 40 + 256) 8).
      * vm_compute. left. reflexivity.
      * split; [vm_compute; split; [discriminate|reflexivity]|].
        split; [vm_compute; discriminate|vm_compute; reflexivity].
      * vm_compute. discriminate.
Defined.

(** ** A new length of a smaller class *)

(** The shrinking branch of [__dmaBufferRealloc]. *)
Lemma __dmaBufferRealloc_shrink cfg os os' st p new_required q st' :
  cfg_ok cfg -> dir_inv st -> heap_inv cfg st ->
  0 <= new_required < 2 ^ 63 ->
  let chunk := Size_wrap (p - offsetof_data) in
  shgcon (chunks (mem st) chunk) <> None ->
  mclass_of new_required < mclass (chunks (mem st) chunk) ->
  __dmaBufferRealloc (set_os cfg os) st p new_required = OK q st' ->
  exists id,
    q = DMABUF_CHUNK_DATA chunk /\
    pointer_validation (set_os cfg os) st p = OK (chunk, id) st /\
    chunks (mem st') chunk
    = mkChunk NodeNull (gcxt_chain (chunks (mem st) chunk))
              (shgcon (chunks (mem st) chunk)) new_required
              (mclass_of new_required) DMABUF_CHUNK_MAGIC_CODE /\
    (forall i, 0 <= i < new_required ->
               data (mem st') (DMABUF_CHUNK_DATA chunk + i)
               = data (mem st) (DMABUF_CHUNK_DATA chunk + i)) /\
    (forall c, free_chunks (segments st' id) c
               = shrink_lists (free_chunks (segments st id)) chunk
                              (mclass_of new_required)
                              (mclass (chunks (mem st) chunk)) c) /\
    num_chunks (segments st' id) = num_chunks (segments st id) /\
    active_segment_list st' = active_segment_list st /\
    inactive_segment_list st' = inactive_segment_list st /\
    dmaBufferSize (set_os cfg os') st' (DMABUF_CHUNK_DATA chunk)
    = OK new_required st' /\
    dmaBufferChunkSize (set_os cfg os') st' (DMABUF_CHUNK_DATA chunk)
    = OK (pow2 (mclass_of new_required)) st' /\
    DMABUF_CHUNK_MAGIC_TAIL (mem st') chunk = DMABUF_CHUNK_MAGIC_CODE /\
    (forall i, i <> id -> segments st' i = segments st i) /\
    owners_kept (mem st) (mem st') /\
    (forall i a d,
       In i (active_segment_list st) ->
       tracked (mmap_ptr cfg i) (cfg_dma_segment_size cfg) (mem st) a d ->
       a <> chunk ->
       chunks (mem st') a = chunks (mem st) a /\
       (forall o, a <= o < a + pow2 d -> data (mem st') o = data (mem st) o)).
Proof.
  intros Hcfg Hdir Hinv Hreq chunk Hown Hcls Hre.
  pose proof (cfg_ok_set_os cfg os Hcfg) as Hcfg'.
  pose proof (cfg_ok_set_os cfg os' Hcfg) as Hcfg''.
  assert (Hdir' : dir_inv st').
  { apply (__dmaBufferRealloc_inv (set_os cfg os) st p new_required);
      [assumption|]. now rewrite Hre. }
  revert Hre. unfold __dmaBufferRealloc.
  destruct (pointer_validation (set_os cfg os) st p)
    as [[chunk0 id] st0|msg st0|?|] eqn:Hpv; try discriminate.
  destruct (pointer_validation_inv _ _ _ _ _ _ Hdir Hpv) as [-> Hact].
  destruct (pointer_validation_range _ _ _ _ _ _ Hcfg' Hpv)
    as (Hchunk & Hid & Rx & _ & _ & Hhead & _ & Hlink).
  fold chunk in Hchunk. subst chunk0.
  change (mmap_ptr (set_os cfg os) id) with (mmap_ptr cfg id) in Rx.
  change (cfg_dma_segment_size (set_os cfg os))
    with (cfg_dma_segment_size cfg) in Rx.
  fold (mclass_of new_required).
  destruct (Z.eqb_spec (mclass_of new_required) (mclass (chunks (mem st) chunk)))
    as [|_]; [lia|].
  destruct (Z.ltb_spec (mclass_of new_required) (mclass (chunks (mem st) chunk)))
    as [_|]; [|lia].
  set (k := mclass (chunks (mem st) chunk)) in *.
  set (c1 := mkChunk (free_chain (chunks (mem st) chunk))
                     (gcxt_chain (chunks (mem st) chunk))
                     (shgcon (chunks (mem st) chunk)) new_required
                     (mclass_of new_required)
                     (magic_head (chunks (mem st) chunk))).
  set (m2 := set_MAGIC_TAIL (set_chunk (mem st) chunk c1) chunk).
  assert (Hm2x : chunks m2 chunk = c1).
  { unfold m2, set_MAGIC_TAIL, store32, set_chunk. cbn [chunks]. apply upd_same. }
  assert (Hm2o : forall a, a <> chunk -> chunks m2 a = chunks (mem st) a).
  { intros a Ha. unfold m2, set_MAGIC_TAIL, store32, set_chunk. cbn [chunks].
    now apply upd_other. }
  assert (Hm2d : data m2
                 = data (store32 (mem st) (magic_tail_addr chunk new_required)
                                 DMABUF_CHUNK_MAGIC_CODE)).
  { unfold m2, set_MAGIC_TAIL.
    replace (required (chunks (set_chunk (mem st) chunk c1) chunk))
      with new_required
      by (unfold set_chunk; cbn [chunks]; now rewrite upd_same).
    reflexivity. }
  destruct (shrink_seg_ok (mmap_ptr cfg id) (cfg_dma_segment_size cfg)
              (segments st id) (mem st) m2 chunk (mclass_of new_required)
              (hinv_seg cfg st Hinv id Hact) Rx Hown
              (conj (mclass_of_min new_required) Hcls) Hm2o
              ltac:(rewrite Hm2x; reflexivity) ltac:(rewrite Hm2x; reflexivity)
              ltac:(rewrite Hm2x; reflexivity))
    as (_ & Hdata & Hx & Hlists & Hout & Hkeep).
  fold k in Hdata, Hx, Hlists, Hout, Hkeep.
  destruct (shrink_chunks_revision (Z.to_nat (2 * (k - mclass_of new_required) + 2))
              (segments st id) m2 (chunk + pow2 (mclass_of new_required))
              (chunk + pow2 k) k (mclass_of new_required)) as [_ Hnum].
  pose proof (shrink_chunks_owners (Z.to_nat (2 * (k - mclass_of new_required) + 2))
                (segments st id) m2 (chunk + pow2 (mclass_of new_required))
                (chunk + pow2 k) k (mclass_of new_required)) as Hown3.
  destruct (shrink_chunks (Z.to_nat (2 * (k - mclass_of new_required) + 2))
              (segments st id) m2 (chunk + pow2 (mclass_of new_required))
              (chunk + pow2 k) k (mclass_of new_required)) as [seg1 m3].
  cbn [fst snd] in Hdata, Hx, Hlists, Hnum, Hout, Hkeep, Hown3.
  intros H. injection H as <- <-.
  st_simpl in Hdir'. exists id. st_simpl. rewrite !upd_same.
  destruct (chunk_size_of_bounds new_required Hreq)
    as (Hceq & Hcsz & [_ Hpow] & Hint & Hw).
  destruct (INTALIGN_bounds new_required) as [Hi _].
  pose proof (tail_fits new_required) as Htf.
  destruct (MAXALIGN_bounds (offsetof_data + new_required + sizeof_cl_uint))
    as [Hma _].
  assert (Hfit : offsetof_data + INTALIGN new_required + sizeof_cl_uint
                 <= pow2 (mclass_of new_required)) by lia.
  assert (Hhdr : chunks m3 chunk
                 = mkChunk NodeNull (gcxt_chain (chunks (mem st) chunk))
                           (shgcon (chunks (mem st) chunk)) new_required
                           (mclass_of new_required) DMABUF_CHUNK_MAGIC_CODE).
  { rewrite Hx, Hm2x. unfold c1. now rewrite Hlink, Hhead. }
  assert (Htail : DMABUF_CHUNK_MAGIC_TAIL m3 chunk = DMABUF_CHUNK_MAGIC_CODE).
  { unfold DMABUF_CHUNK_MAGIC_TAIL. rewrite Hhdr. cbn [required].
    unfold load32. rewrite Hdata, Hm2d.
    fold (load32 (store32 (mem st) (magic_tail_addr chunk new_required)
                          DMABUF_CHUNK_MAGIC_CODE)
                 (magic_tail_addr chunk new_required)).
    apply load32_store32. vm_compute. split; [discriminate|reflexivity]. }
  assert (Hx0 : 0 <= chunk < 2 ^ 64).
  { unfold chunk, Size_wrap. apply Z.mod_pos_bound. reflexivity. }
  match goal with |- context [dmaBufferSize _ ?s _] => set (st' := s) in * end.
  assert (Hpv' : pointer_validation (set_os cfg os') st' (DMABUF_CHUNK_DATA chunk)
                 = OK (chunk, id) st').
  { apply (live_chunk_validates (set_os cfg os') st' id chunk Hcfg'' Hdir' Hid);
      subst st'; st_simpl; try assumption.
    - rewrite Hhdr. cbn [required mclass]. rewrite Hw. lia.
    - now rewrite Hhdr.
    - now rewrite Hhdr. }
  assert (Hk : tracked (mmap_ptr cfg id) (cfg_dma_segment_size cfg) (mem st)
                       chunk k).
  { split; [exact Rx|]. split; [exact Hown|reflexivity]. }
  assert (Hcmono : pow2 (mclass_of new_required) <= pow2 k).
  { apply pow2_mono. pose proof (mclass_of_min new_required). zlia. }
  split; [reflexivity|]. split; [reflexivity|].
  split; [exact Hhdr|]. split.
  { intros i Hi'. rewrite Hdata, Hm2d.
    rewrite store32_other; [reflexivity|].
    left. unfold magic_tail_addr. rewrite Hint. lia. }
  split; [exact Hlists|]. split; [exact Hnum|].
  split; [reflexivity|]. split; [reflexivity|].
  split; [|split; [|split; [exact Htail|split; [|split]]]].
  - unfold dmaBufferSize. rewrite Hpv'. subst st'. st_simpl. now rewrite Hhdr.
  - unfold dmaBufferChunkSize. rewrite Hpv'. subst st'. st_simpl.
    now rewrite Hhdr.
  - intros i Hi'. now apply upd_other.
  - apply (owners_kept_trans _ m2); [|exact Hown3].
    intros a. destruct (Z.eq_dec a chunk) as [->|Ha].
    + left. rewrite Hm2x. reflexivity.
    + left. now rewrite Hm2o.
  - intros i a d Hi' Ha Hne.
    destruct (tracked_apart cfg st i a d id chunk k Hcfg Hinv Hi' Hact Ha Hk Hne)
      as [Hap|Hap].
    all: split;
      [destruct (Z.eq_dec i id) as [->|Hneq];
         [now apply (Hkeep a d)
         |apply Hout; destruct Ha as (Ra & _);
          destruct (segments_apart cfg i id a Hcfg Hneq Ra); lia]
      |intros o Ho; rewrite Hdata, Hm2d; apply store32_other;
       unfold magic_tail_addr, DMABUF_CHUNK_DATA; rewrite Hint;
       unfold offsetof_data, sizeof_cl_uint in *; lia].
Qed.

(** X12: in a state in service, [__dmaBufferRealloc] with a new length
    of a class below that of the chunk cuts the chunk down in place.  The
    pointer returned is the one given; the header takes the new length
    and the new class and keeps its owner; the payload up to the new
    length is as before; the upper halves cut off, one of each class from
    the new one to the one below the old, are pushed on the free lists;
    the count of active chunks and both lists of segments are unchanged;
    and the pointer afterwards validates with the new sizes. *)
Theorem realloc_shrinks_in_place cfg os os' st p new_required q st' :
  cfg_ok cfg -> serving cfg st ->
  offsetof_data <= p < 2 ^ 64 ->
  0 <= new_required < 2 ^ 63 ->
  let chunk := p - offsetof_data in
  shgcon (chunks (mem st) chunk) <> None ->
  mclass_of new_required < mclass (chunks (mem st) chunk) ->
  __dmaBufferRealloc (set_os cfg os) st p new_required = OK q st' ->
  exists id,
    q = p /\
    pointer_validation (set_os cfg os) st p = OK (chunk, id) st /\
    chunks (mem st') chunk
    = mkChunk NodeNull (gcxt_chain (chunks (mem st) chunk))
              (shgcon (chunks (mem st) chunk)) new_required
              (mclass_of new_required) DMABUF_CHUNK_MAGIC_CODE /\
    (forall i, 0 <= i < new_required ->
               data (mem st') (p + i) = data (mem st) (p + i)) /\
    (forall c, free_chunks (segments st' id) c
               = shrink_lists (free_chunks (segments st id)) chunk
                              (mclass_of new_required)
                              (mclass (chunks (mem st) chunk)) c) /\
    num_chunks (segments st' id) = num_chunks (segments st id) /\
    active_segment_list st' = active_segment_list st /\
    inactive_segment_list st' = inactive_segment_list st /\
    dmaBufferSize (set_os cfg os') st' p = OK new_required st' /\
    dmaBufferChunkSize (set_os cfg os') st' p
    = OK (pow2 (mclass_of new_required)) st'.
Proof.
  intros Hcfg Hs Hp Hreq chunk Hown Hcls Hre.
  destruct (serving_inv cfg st Hcfg Hs) as [Hdir Hinv].
  assert (Ec : Size_wrap (p - offsetof_data) = chunk)
    by (apply Size_wrap_small; unfold offsetof_data in *; lia).
  assert (Ep : DMABUF_CHUNK_DATA chunk = p)
    by (unfold DMABUF_CHUNK_DATA, chunk; lia).
  destruct (__dmaBufferRealloc_shrink cfg os os' st p new_required q st'
              Hcfg Hdir Hinv Hreq ltac:(rewrite Ec; exact Hown)
              ltac:(rewrite Ec; exact Hcls) Hre)
    as (id & H1 & H2 & H3 & H4 & H5 & H6 & H7 & H8 & H9 & H10 & _).
  rewrite Ec in H1, H2, H3, H4, H5, H9, H10. rewrite Ep in H1, H4, H9, H10.
  exists id. auto 12.
Qed.

Lemma realloc_shrinks_in_place_witness :
  let cfg := cfg_256MB os_all_ok in
  let st := state_after cfg (map (CallAlloc 0) [1000]) in
  let r := __dmaBufferRealloc cfg st (2 ^ 40 + 56) 100 in
  result_value 0 r = 2 ^ 40 + 56 /\
  dmaBufferSize cfg (result_state st r) (2 ^ 40 + 56)
  = OK 100 (result_state st r).
Proof.
  intros cfg st r.
  destruct (realloc_shrinks_in_place cfg os_all_ok os_all_ok st (2 ^ 40 + 56) 100
              (result_value 0 r) (result_state st r))
    as (id & H1 & _ & _ & _ & _ & _ & _ & _ & H2 & _).
  - apply cfg_256MB_ok.
  - apply (state_after_serving (cfg_256MB os_all_ok) os_all_ok 0 [1000]).
    + repeat constructor; lia.
    + apply is_Some_not_None. vm_compute. reflexivity.
  - vm_compute. split; [discriminate|reflexivity].
  - lia.
  - vm_compute. discriminate.
  - vm_compute. reflexivity.
  - apply (is_OK_result 0 st r). vm_compute. reflexivity.
  - split; [exact H1|exact H2].
Defined.

(** ** The free chunks of a new segment *)

(** The segment size with the bits up to [c] cleared: where the chunk of
    class [c] is placed, the larger ones before it. *)
Definition seed_offset (size c : Z) : Z := size / pow2 (c + 1) * pow2 (c + 1).

(** One free chunk for every bit set in the segment size, from bit 8 to
    bit 34. *)
Definition seeded_lists (base size : Z) : Z -> list Z :=
  fun c =>
    if (DMABUF_CHUNKSZ_MIN_BIT <=? c) && (c <=? DMABUF_CHUNKSZ_MAX_BIT)
       && Z.testbit size c
    then [base + seed_offset size c] else [].

Lemma seed_offset_bit (size c : Z) :
  0 <= size -> 0 <= c ->
  size / pow2 c * pow2 c
  = seed_offset size c + (if Z.testbit size c then pow2 c else 0) /\
  exists r, 0 <= r < pow2 c /\ size = size / pow2 c * pow2 c + r.
Proof.
  intros Hs Hc. unfold seed_offset.
  rewrite pow2_succ by assumption.
  pose proof (pow2_pos c Hc) as Hp.
  pose proof (Z.testbit_spec' size c Hc) as Hb.
  rewrite <- (pow2_spec c) in Hb by assumption.
  rewrite (Z.mul_comm 2 (pow2 c)), <- Z.div_div by lia.
  pose proof (Z.div_mod (size / pow2 c) 2 ltac:(lia)) as Hq.
  pose proof (Z.div_mod size (pow2 c) ltac:(lia)) as Hr.
  pose proof (Z.mod_pos_bound size (pow2 c) ltac:(lia)) as Br.
  split.
  - destruct (Z.testbit size c); cbn [Z.b2z] in Hb; nia.
  - exists (size mod pow2 c). split; [exact Br|lia].
Qed.

(** The seeding loop, from a state where the classes above [cls] are
    done: either nothing of class [cls] has been placed yet, or its one
    chunk has. *)
Lemma seed_chunks_lists base size :
  0 <= size ->
  forall fuel seg m cls (placed_here : bool),
    DMABUF_CHUNKSZ_MIN_BIT - 1 <= cls <= DMABUF_CHUNKSZ_MAX_BIT ->
    2 * (cls - (DMABUF_CHUNKSZ_MIN_BIT - 1)) - (if placed_here then 1 else 0)
    <= Z.of_nat fuel ->
    (forall c, cls < c -> free_chunks seg c = seeded_lists base size c) ->
    (forall c, c < cls -> free_chunks seg c = []) ->
    (if placed_here
     then Z.testbit size cls = true /\ DMABUF_CHUNKSZ_MIN_BIT <= cls /\
          free_chunks seg cls = [base + seed_offset size cls]
     else free_chunks seg cls = []) ->
    forall c,
      free_chunks
        (fst (seed_chunks fuel seg m
                (base + (seed_offset size cls
                         + (if placed_here then pow2 cls else 0)))
                (base + size) cls)) c
      = seeded_lists base size c.
Proof.
  intros Hsize.
  assert (Hdone : forall seg (placed_here : bool),
             (forall c, DMABUF_CHUNKSZ_MIN_BIT - 1 < c ->
                        free_chunks seg c = seeded_lists base size c) ->
             (forall c, c < DMABUF_CHUNKSZ_MIN_BIT - 1 -> free_chunks seg c = []) ->
             (if placed_here
              then Z.testbit size (DMABUF_CHUNKSZ_MIN_BIT - 1) = true /\
                   DMABUF_CHUNKSZ_MIN_BIT <= DMABUF_CHUNKSZ_MIN_BIT - 1 /\
                   free_chunks seg (DMABUF_CHUNKSZ_MIN_BIT - 1)
                   = [base + seed_offset size (DMABUF_CHUNKSZ_MIN_BIT - 1)]
              else free_chunks seg (DMABUF_CHUNKSZ_MIN_BIT - 1) = []) ->
             forall c, free_chunks seg c = seeded_lists base size c).
  { intros seg ph Habove Hbelow Hhere c.
    destruct (Z_lt_le_dec (DMABUF_CHUNKSZ_MIN_BIT - 1) c) as [|Hle];
      [now apply Habove|].
    unfold seeded_lists.
    destruct (Z.leb_spec DMABUF_CHUNKSZ_MIN_BIT c); [lia|]. cbn [andb].
    destruct (Z.eq_dec c (DMABUF_CHUNKSZ_MIN_BIT - 1)) as [->|];
      [|apply Hbelow; lia].
    destruct ph; [lia|exact Hhere]. }
  induction fuel as [|fuel IH]; intros seg m cls ph Hcls Hfuel Habove Hbelow Hhere.
  - assert (cls = DMABUF_CHUNKSZ_MIN_BIT - 1) as -> by (destruct ph; lia).
    cbn [seed_chunks fst]. now apply (Hdone seg ph).
  - rewrite seed_chunks_S.
    destruct (Z.geb_spec cls DMABUF_CHUNKSZ_MIN_BIT) as [Hge|Hlt].
    2: { assert (cls = DMABUF_CHUNKSZ_MIN_BIT - 1) as -> by lia.
         cbn [fst]. now apply (Hdone seg ph). }
    assert (Hc0 : 0 <= cls) by zlia.
    pose proof (pow2_pos cls Hc0) as Hp.
    destruct (seed_offset_bit size cls Hsize Hc0) as (Hoff & r & Hr & Hsz).
    assert (Hnext : seed_offset size (cls - 1) = size / pow2 cls * pow2 cls).
    { unfold seed_offset. now replace (cls - 1 + 1) with cls by lia. }
    destruct ph.
    + (* the chunk of the class is placed: the class below is next *)
      destruct Hhere as (Hbit & _ & Hfree). rewrite Hbit in Hoff.
      destruct (Z.gtb_spec (base + (seed_offset size cls + pow2 cls) + pow2 cls)
                  (base + size)) as [_|Hle]; [|lia].
      replace (seed_offset size cls + pow2 cls)
        with (seed_offset size (cls - 1) + 0) by lia.
      apply (IH seg m (cls - 1) false); try lia.
      * intros c Hc. destruct (Z.eq_dec c cls) as [->|]; [|apply Habove; lia].
        rewrite Hfree. unfold seeded_lists.
        destruct (Z.leb_spec DMABUF_CHUNKSZ_MIN_BIT cls); [|lia].
        destruct (Z.leb_spec cls DMABUF_CHUNKSZ_MAX_BIT); [|lia].
        now rewrite Hbit.
      * intros c Hc. apply Hbelow. lia.
      * apply Hbelow. lia.
    + rewrite Z.add_0_r.
      destruct (Z.testbit size cls) eqn:Hbit.
      * (* the bit is set: the chunk is placed *)
        destruct (Z.gtb_spec (base + seed_offset size cls + pow2 cls)
                    (base + size)) as [Hgt|_]; [lia|].
        replace (base + seed_offset size cls + pow2 cls)
          with (base + (seed_offset size cls + pow2 cls)) by lia.
        apply (IH _ _ cls true); try lia.
        -- intros c Hc. rewrite set_free_chunks_other by lia. now apply Habove.
        -- intros c Hc. rewrite set_free_chunks_other by lia. now apply Hbelow.
        -- split; [exact Hbit|]. split; [assumption|].
           rewrite set_free_chunks_same, Hhere. reflexivity.
      * (* the bit is clear: the class below is next *)
        destruct (Z.gtb_spec (base + seed_offset size cls + pow2 cls)
                    (base + size)) as [_|Hle]; [|lia].
        replace (seed_offset size cls)
          with (seed_offset size (cls - 1) + 0) by lia.
        apply (IH seg m (cls - 1) false); try lia.
        -- intros c Hc. destruct (Z.eq_dec c cls) as [->|]; [|apply Habove; lia].
           rewrite Hhere. unfold seeded_lists. rewrite Hbit.
           now rewrite andb_false_r.
        -- intros c Hc. apply Hbelow. lia.
        -- apply Hbelow. lia.
Qed.

(** X13: the free lists of a segment just created hold one chunk for
    every bit set in the segment size, from bit 8 to bit 34: the chunk of
    class [c] lies at the offset made of the bits of the size above [c],
    so the chunks follow each other from the base in descending size.
    The segment has no active chunk. *)
Theorem new_segment_free_lists cfg st id u st2 :
  cfg_ok cfg ->
  dmaBufferCreateSegment cfg st id = OK u st2 ->
  (forall c, free_chunks (segments st2 id) c
             = seeded_lists (mmap_ptr cfg id) (cfg_dma_segment_size cfg) c) /\
  num_chunks (segments st2 id) = 0.
Proof.
  intros Hcfg Hc. destruct (cok_size cfg Hcfg) as [Hlo Hhi].
  split; [|exact (proj1 (proj2 (proj2 (proj2
             (dmaBufferCreateSegment_OK _ _ _ _ _ Hc)))))].
  revert Hc. unfold dmaBufferCreateSegment.
  destruct (if is_attached _ then _ else _); [discriminate|].
  destruct (negb (shm_open_ok (cfg_os cfg))); [discriminate|].
  destruct (negb (ftruncate_ok (cfg_os cfg))); [discriminate|].
  destruct (negb (mmap_ok (cfg_os cfg))); [discriminate|].
  destruct (cfg_gpuserv_cuda_context cfg && negb (cuMemHostRegister_ok (cfg_os cfg))).
  { destruct (negb (munmap_ok (cfg_os cfg))); [discriminate|].
    destruct (negb (mmap_none_ok (cfg_os cfg))); discriminate. }
  match goal with |- context [seed_chunks ?f ?s ?mm ?h ?t ?c] =>
    pose proof (seed_chunks_lists (mmap_ptr cfg id) (cfg_dma_segment_size cfg)
                  ltac:(lia) f s mm DMABUF_CHUNKSZ_MAX_BIT false) as Hl;
    destruct (seed_chunks f s mm h t c) as [seg1 m1] eqn:E
  end.
  assert (H0 : seed_offset (cfg_dma_segment_size cfg) DMABUF_CHUNKSZ_MAX_BIT = 0).
  { unfold seed_offset. rewrite Z.div_small; [reflexivity|].
    change (pow2 (DMABUF_CHUNKSZ_MAX_BIT + 1)) with (2 * 2 ^ 34). lia. }
  intros H. injection H as _ H. subst st2. intros c.
  assert (Hc : free_chunks seg1 c
               = seeded_lists (mmap_ptr cfg id) (cfg_dma_segment_size cfg) c).
  { specialize (Hl ltac:(zlia)).
    assert (Hfuel : 2 * (DMABUF_CHUNKSZ_MAX_BIT - (DMABUF_CHUNKSZ_MIN_BIT - 1)) - 0
                    <= Z.of_nat (seed_fuel (cfg_dma_segment_size cfg))).
    { unfold seed_fuel.
      assert (0 <= cfg_dma_segment_size cfg / DMABUF_CHUNKSZ_MAX)
        by (apply Z.div_pos; [lia|reflexivity]).
      zlia. }
    specialize (Hl Hfuel).
    assert (Habove : forall c : Z, DMABUF_CHUNKSZ_MAX_BIT < c ->
              free_chunks
                (mkSeg (revision (segments st id)) (num_chunks (segments st id))
                       (fun _ => [])) c
              = seeded_lists (mmap_ptr cfg id) (cfg_dma_segment_size cfg) c).
    { intros c' Hc'. cbn [free_chunks]. unfold seeded_lists.
      destruct (Z.leb_spec c' DMABUF_CHUNKSZ_MAX_BIT); [lia|].
      now rewrite andb_false_r. }
    specialize (Hl Habove ltac:(reflexivity) ltac:(reflexivity) c).
    cbv iota in Hl. rewrite H0, !Z.add_0_r, E in Hl. exact Hl. }
  st_simpl. rewrite upd_same.
  cbn [free_chunks set_revision set_num_chunks]. exact Hc.
Qed.

Lemma new_segment_free_lists_witness :
  let cfg := mkConfig (2 ^ 28 + 2 ^ 20) 32 2 (2 ^ 40) false os_all_ok in
  let st := result_state (startup cfg) (dmaBufferCreateSegment cfg (startup cfg) 0) in
  free_chunks (segments st 0) 28 = [2 ^ 40] /\
  free_chunks (segments st 0) 20 = [2 ^ 40 + 2 ^ 28] /\
  free_chunks (segments st 0) 24 = [].
Proof.
  intros cfg st.
  destruct (new_segment_free_lists cfg (startup cfg) 0 tt st) as [Hl _].
  - constructor; unfold dma_segment_vaddr_tail; cbn; try lia; reflexivity.
  - apply (is_OK_unit (startup cfg)). vm_compute. reflexivity.
  - rewrite !Hl. vm_compute. repeat split; reflexivity.
Defined.

(** ** The settings a server can start with *)

Lemma DefineCustomIntVariable_range boot lo hi conf :
  lo <= boot <= hi ->
  lo <= DefineCustomIntVariable boot lo hi conf <= hi.
Proof.
  intros Hb. unfold DefineCustomIntVariable.
  destruct conf as [v|]; [|exact Hb].
  destruct (Z.leb_spec lo v), (Z.leb_spec v hi); cbn [andb]; lia.
Qed.

(** A value without bits below bit [k] is a multiple of [2^k]. *)
Lemma land_ones_multiple (a k : Z) :
  0 <= k -> Z.land a (2 ^ k - 1) = 0 -> a mod 2 ^ k = 0.
Proof.
  intros Hk H. rewrite <- Z.land_ones by assumption.
  rewrite Z.ones_equiv. replace (Z.pred (2 ^ k)) with (2 ^ k - 1) by lia.
  exact H.
Qed.

(** X14: every setting [pgstrom_init_dma_buffer] accepts gives segments
    of 256MB to 16GB, a whole number of kB and of pages (the page size
    being a power of two), and between 32 and 32768 of them; so, with the
    range of addresses reserved at start-up lying in the address space,
    the configuration is one the properties of the allocator are proved
    for. *)
Theorem init_settings_ok pagesize k devAttrs cs cmax cmin b1 b2 s :
  0 <= k < 64 -> pagesize = 2 ^ k ->
  pgstrom_init_dma_buffer pagesize devAttrs cs cmax cmin b1 b2 = InitDone s ->
  2 ^ 28 <= dma_segment_size s <= 2 ^ 34 /\
  dma_segment_size s = 2 ^ 10 * dma_segment_size_kb s /\
  dma_segment_size s mod pagesize = 0 /\
  32 <= max_dma_segment_nums s <= 32768 /\
  (min_dma_segment_nums s
   = num_segs (reservedBufSz (totalGpuMemSz devAttrs)) (dma_segment_size s) \/
   0 <= min_dma_segment_nums s <= max_dma_segment_nums s) /\
  forall head cuda os,
    0 <= head ->
    head + max_dma_segment_nums s * dma_segment_size s <= 2 ^ 64 ->
    cfg_ok (config_of s head cuda os).
Proof.
  intros Hk Hps. unfold pgstrom_init_dma_buffer.
  set (kb := DefineCustomIntVariable (Z.shiftl 2 20) (Z.shiftl 256 10)
               (Z.shiftl 1 (DMABUF_CHUNKSZ_MAX_BIT - 10)) cs).
  assert (Hkb : 2 ^ 18 <= kb <= 2 ^ 24).
  { apply (DefineCustomIntVariable_range (Z.shiftl 2 20) (Z.shiftl 256 10)
             (Z.shiftl 1 (DMABUF_CHUNKSZ_MAX_BIT - 10)) cs).
    vm_compute. split; discriminate. }
  assert (Hsz : Size_wrap (Z.shiftl kb 10) = 2 ^ 10 * kb).
  { rewrite Z.shiftl_mul_pow2 by lia.
    rewrite Size_wrap_small; [lia|].
    change (2 ^ 18) with 262144 in Hkb. change (2 ^ 24) with 16777216 in Hkb.
    change (2 ^ 10) with 1024. change (2 ^ 64) with 18446744073709551616. lia. }
  rewrite Hsz.
  assert (Hpg : Size_wrap (pagesize - 1) = 2 ^ k - 1).
  { subst pagesize. apply Size_wrap_small.
    assert (0 < 2 ^ k) by (apply Z.pow_pos_nonneg; lia).
    assert (2 ^ k < 2 ^ 64) by (apply Z.pow_lt_mono_r; lia). lia. }
  rewrite Hpg.
  destruct (Z.eqb_spec (Z.land (2 ^ 10 * kb) (2 ^ k - 1)) 0) as [Hal|];
    [cbn [negb]|discriminate].
  set (mx := DefineCustomIntVariable 1024 32 32768 cmax).
  assert (Hmx : 32 <= mx <= 32768)
    by (apply DefineCustomIntVariable_range; lia).
  destruct b1; [cbn [negb]|discriminate].
  destruct b2; [cbn [negb]|discriminate].
  assert (Hrange : 2 ^ 28 <= 2 ^ 10 * kb <= 2 ^ 34).
  { change (2 ^ 18) with 262144 in Hkb. change (2 ^ 24) with 16777216 in Hkb.
    change (2 ^ 10) with 1024. change (2 ^ 28) with 268435456.
    change (2 ^ 34) with 17179869184. lia. }
  assert (HkB : (2 ^ 10 * kb) mod 2 ^ 10 = 0)
    by (rewrite Z.mul_comm; apply Z.mod_mul; lia).
  assert (Hpage : (2 ^ 10 * kb) mod pagesize = 0)
    by (subst pagesize; apply land_ones_multiple; [lia|exact Hal]).
  remember (2 ^ 10 * kb) as sz eqn:Hdef.
  remember (DefineCustomIntVariable
              (num_segs (reservedBufSz (totalGpuMemSz devAttrs)) sz) 0 mx cmin)
    as mn eqn:Hmn.
  intros [= <-]. cbn [dma_segment_size dma_segment_size_kb max_dma_segment_nums
                      min_dma_segment_nums].
  split; [exact Hrange|]. split; [exact Hdef|].
  split; [exact Hpage|]. split; [exact Hmx|]. split.
  - subst mn. unfold DefineCustomIntVariable.
    destruct cmin as [v|]; [|now left].
    destruct (Z.leb_spec 0 v), (Z.leb_spec v mx); cbn [andb];
      try (now left). right. lia.
  - intros head cuda os Hhead Htail. unfold config_of.
    cbn [dma_segment_size max_dma_segment_nums min_dma_segment_nums].
    constructor; unfold dma_segment_vaddr_tail;
      cbn [cfg_dma_segment_size cfg_max_dma_segment_nums
           cfg_dma_segment_vaddr_head];
      try assumption; lia.
Qed.

Lemma init_settings_ok_witness :
  cfg_ok (config_of (mkSettings (2 ^ 21) (2 ^ 31) 1024 5) (2 ^ 40) false os_all_ok).
Proof.
  apply (init_settings_ok 4096 12 [16 * 2 ^ 30] None None None true true
           (mkSettings (2 ^ 21) (2 ^ 31) 1024 5)).
  - lia.
  - reflexivity.
  - vm_compute. reflexivity.
  - lia.
  - vm_compute. discriminate.
Defined.

(** X15: the persistent share [pgstrom_init_dma_buffer] derives from the
    device memory never exceeds that memory, grows with it (the pieces
    meet at 4GB, 10GB and 16GB), and the default number of persistent
    segments made of it is at least 2. *)
Theorem reserved_buffer_size t t' size :
  0 <= t <= t' -> t' < 2 ^ 64 ->
  2 ^ 28 <= size <= 2 ^ 34 ->
  reservedBufSz t <= t /\
  reservedBufSz t <= reservedBufSz t' /\
  (t < 2 ^ 59 ->
   num_segs (reservedBufSz t) size = Z.max (reservedBufSz t / size) 2 /\
   2 <= num_segs (reservedBufSz t) size <= Z.max (t / size) 2).
Proof.
  intros Ht Ht' Hsize.
  assert (Hval : forall u, 0 <= u < 2 ^ 64 ->
            reservedBufSz u
            = if u >=? 16 * 2 ^ 30 then (u - 16 * 2 ^ 30) / 3 + 11 * 2 ^ 30
              else if u >=? 10 * 2 ^ 30 then (u - 10 * 2 ^ 30) / 2 + 8 * 2 ^ 30
              else if u >=? 4 * 2 ^ 30 then (u - 4 * 2 ^ 30) * 2 / 3 + 4 * 2 ^ 30
              else u).
  { intros u Hu. unfold reservedBufSz.
    change (2 ^ 64) with 18446744073709551616 in *.
    change (2 ^ 30) with 1073741824 in *.
    destruct (Z.geb_spec u (16 * 1073741824)).
    { rewrite (Size_wrap_small (u - _)) by (change (2 ^ 64) with 18446744073709551616; lia).
      apply Size_wrap_small. change (2 ^ 64) with 18446744073709551616.
      pose proof (Z.div_le_upper_bound (u - 16 * 1073741824) 3
                    18446744073709551616 ltac:(lia) ltac:(lia)).
      assert (0 <= (u - 16 * 1073741824) / 3) by (apply Z.div_pos; lia).
      assert ((u - 16 * 1073741824) / 3 <= 6148914691236517205).
      { apply Z.div_le_upper_bound; lia. }
      lia. }
    destruct (Z.geb_spec u (10 * 1073741824)).
    { rewrite (Size_wrap_small (u - _)) by (change (2 ^ 64) with 18446744073709551616; lia).
      apply Size_wrap_small. change (2 ^ 64) with 18446744073709551616.
      assert (0 <= (u - 10 * 1073741824) / 2) by (apply Z.div_pos; lia).
      assert ((u - 10 * 1073741824) / 2 <= 6 * 1073741824).
      { apply Z.div_le_upper_bound; lia. }
      lia. }
    destruct (Z.geb_spec u (4 * 1073741824)); [|reflexivity].
    rewrite (Size_wrap_small (u - _)) by (change (2 ^ 64) with 18446744073709551616; lia).
    rewrite (Size_wrap_small (_ * 2)) by (change (2 ^ 64) with 18446744073709551616; lia).
    apply Size_wrap_small. change (2 ^ 64) with 18446744073709551616.
    assert (0 <= (u - 4 * 1073741824) * 2 / 3) by (apply Z.div_pos; lia).
    assert ((u - 4 * 1073741824) * 2 / 3 <= 6 * 1073741824).
    { apply Z.div_le_upper_bound; lia. }
    lia. }
  assert (Hle : forall u, 0 <= u < 2 ^ 64 -> 0 <= reservedBufSz u <= u).
  { intros u Hu. rewrite (Hval u Hu).
    change (2 ^ 30) with 1073741824 in *.
    destruct (Z.geb_spec u (16 * 1073741824)).
    { pose proof (Z.div_mod (u - 16 * 1073741824) 3 ltac:(lia)).
      pose proof (Z.mod_pos_bound (u - 16 * 1073741824) 3 ltac:(lia)). lia. }
    destruct (Z.geb_spec u (10 * 1073741824)).
    { pose proof (Z.div_mod (u - 10 * 1073741824) 2 ltac:(lia)).
      pose proof (Z.mod_pos_bound (u - 10 * 1073741824) 2 ltac:(lia)). lia. }
    destruct (Z.geb_spec u (4 * 1073741824)); [|lia].
    pose proof (Z.div_mod ((u - 4 * 1073741824) * 2) 3 ltac:(lia)).
    pose proof (Z.mod_pos_bound ((u - 4 * 1073741824) * 2) 3 ltac:(lia)). lia. }
  split; [apply Hle; lia|]. split.
  - rewrite (Hval t) by lia. rewrite (Hval t') by lia.
    change (2 ^ 30) with 1073741824 in *.
    pose proof (Z.div_le_mono (t - 16 * 1073741824) (t' - 16 * 1073741824) 3
                  ltac:(lia) ltac:(lia)).
    pose proof (Z.div_le_mono (t - 10 * 1073741824) (t' - 10 * 1073741824) 2
                  ltac:(lia) ltac:(lia)).
    pose proof (Z.div_le_mono ((t - 4 * 1073741824) * 2)
                  ((t' - 4 * 1073741824) * 2) 3 ltac:(lia) ltac:(lia)).
    destruct (Z.geb_spec t (16 * 1073741824)), (Z.geb_spec t' (16 * 1073741824));
      try lia.
    { destruct (Z.geb_spec t (10 * 1073741824)).
      - assert ((t - 10 * 1073741824) / 2 <= 3 * 1073741824)
          by (apply Z.div_le_upper_bound; lia).
        assert (0 <= (t' - 16 * 1073741824) / 3) by (apply Z.div_pos; lia). lia.
      - destruct (Z.geb_spec t (4 * 1073741824)).
        + assert ((t - 4 * 1073741824) * 2 / 3 <= 4 * 1073741824)
            by (apply Z.div_le_upper_bound; lia).
          assert (0 <= (t' - 16 * 1073741824) / 3) by (apply Z.div_pos; lia). lia.
        + assert (0 <= (t' - 16 * 1073741824) / 3) by (apply Z.div_pos; lia). lia. }
    destruct (Z.geb_spec t (10 * 1073741824)), (Z.geb_spec t' (10 * 1073741824));
      try lia.
    { destruct (Z.geb_spec t (4 * 1073741824)).
      - assert ((t - 4 * 1073741824) * 2 / 3 <= 4 * 1073741824)
          by (apply Z.div_le_upper_bound; lia).
        assert (0 <= (t' - 10 * 1073741824) / 2) by (apply Z.div_pos; lia). lia.
      - assert (0 <= (t' - 10 * 1073741824) / 2) by (apply Z.div_pos; lia). lia. }
    destruct (Z.geb_spec t (4 * 1073741824)), (Z.geb_spec t' (4 * 1073741824));
      try lia.
    assert (0 <= (t' - 4 * 1073741824) * 2 / 3) by (apply Z.div_pos; lia). lia.
  - intros Hsmall. destruct (Hle t ltac:(lia)) as [Hr0 Hrt].
    assert (Hq : 0 <= reservedBufSz t / size <= t / size).
    { split; [apply Z.div_pos; lia|apply Z.div_le_mono; lia]. }
    assert (Hqmax : t / size < 2 ^ 31).
    { apply Z.div_lt_upper_bound; [lia|].
      change (2 ^ 31) with 2147483648. change (2 ^ 28) with 268435456 in Hsize.
      change (2 ^ 59) with 576460752303423488 in Hsmall. nia. }
    assert (E : num_segs (reservedBufSz t) size
                = Z.max (reservedBufSz t / size) 2).
    { unfold num_segs, int_wrap.
      change (2 ^ 31) with 2147483648 in *. change (2 ^ 32) with 4294967296.
      rewrite Z.mod_small by lia. lia. }
    rewrite E. split; [reflexivity|lia].
Qed.

Lemma reserved_buffer_size_witness :
  reservedBufSz (8 * 2 ^ 30) <= reservedBufSz (24 * 2 ^ 30) /\
  num_segs (reservedBufSz (8 * 2 ^ 30)) (2 ^ 31) = 3.
Proof.
  destruct (reserved_buffer_size (8 * 2 ^ 30) (24 * 2 ^ 30) (2 ^ 31))
    as (_ & H1 & H2).
  - lia.
  - reflexivity.
  - lia.
  - split; [exact H1|].
    destruct (H2 ltac:(reflexivity)) as [-> _]. reflexivity.
Defined.

(** ** Counting the chunks in use *)

(** The addresses of a segment a chunk can start at: every 256 bytes
    from the base. *)
Definition chunk_slots (base size : Z) : list Z :=
  map (fun k => base + DMABUF_CHUNKSZ_MIN * Z.of_nat k)
      (seq 0 (Z.to_nat (size / DMABUF_CHUNKSZ_MIN))).

Definition has_owner (m : memory) (x : Z) : bool :=
  match shgcon (chunks m x) with Some _ => true | None => false end.

(** The number of headers of a segment that have an owner. *)
Definition owned_count (m : memory) (base size : Z) : Z :=
  Z.of_nat (List.length (filter (has_owner m) (chunk_slots base size))).

Lemma has_owner_true m x : has_owner m x = true <-> shgcon (chunks m x) <> None.
Proof.
  unfold has_owner. destruct (shgcon (chunks m x)); split; congruence.
Qed.

Lemma has_owner_false m x : has_owner m x = false <-> shgcon (chunks m x) = None.
Proof.
  unfold has_owner. destruct (shgcon (chunks m x)); split; congruence.
Qed.

Lemma In_chunk_slots base size x :
  In x (chunk_slots base size) <->
  exists k, 0 <= k < size / DMABUF_CHUNKSZ_MIN /\ x = base + DMABUF_CHUNKSZ_MIN * k.
Proof.
  unfold chunk_slots. rewrite in_map_iff. split.
  - intros (n & <- & Hn). apply in_seq in Hn. exists (Z.of_nat n). split; lia.
  - intros (k & Hk & ->). exists (Z.to_nat k). split.
    + rewrite Z2Nat.id by lia. reflexivity.
    + apply in_seq. lia.
Qed.

Lemma chunk_slots_range base size x :
  In x (chunk_slots base size) -> base <= x < base + size.
Proof.
  intros H. apply In_chunk_slots in H as (k & Hk & ->).
  change DMABUF_CHUNKSZ_MIN with 256 in *.
  assert (0 < size / 256) by lia.
  assert (Hs : 0 <= size).
  { destruct (Z_lt_le_dec size 0) as [Hneg|]; [|assumption].
    assert (size / 256 < 0) by (apply Z.div_lt_upper_bound; lia). lia. }
  pose proof (Z.div_mod size 256 ltac:(lia)).
  pose proof (Z.mod_pos_bound size 256 ltac:(lia)). lia.
Qed.

Lemma chunk_slots_NoDup base size : NoDup (chunk_slots base size).
Proof.
  unfold chunk_slots. apply Injective_map_NoDup; [|apply seq_NoDup].
  intros a b H. change DMABUF_CHUNKSZ_MIN with 256 in H. lia.
Qed.

(** A chunk of the segment starts at one of these addresses. *)
Lemma placed_slot base size x c :
  placed base size x c -> In x (chunk_slots base size).
Proof.
  intros (Hc & Hb & He & Hm). apply In_chunk_slots.
  assert (Hc0 : 0 <= c) by zlia.
  pose proof (pow2_pos c Hc0) as Hp.
  assert (H256 : (x - base) mod pow2 DMABUF_CHUNKSZ_MIN_BIT = 0)
    by (apply (mod_pow2_weaken _ DMABUF_CHUNKSZ_MIN_BIT c); [zlia|assumption]).
  assert (Hle : pow2 DMABUF_CHUNKSZ_MIN_BIT <= pow2 c) by (apply pow2_mono; zlia).
  change (pow2 DMABUF_CHUNKSZ_MIN_BIT) with 256 in *.
  change DMABUF_CHUNKSZ_MIN with 256.
  exists ((x - base) / 256).
  pose proof (Z.div_mod (x - base) 256 ltac:(lia)) as Hd.
  split; [|lia]. split; [apply Z.div_pos; lia|].
  apply Z.div_lt_upper_bound; [lia|].
  pose proof (Z.div_mod size 256 ltac:(lia)).
  pose proof (Z.mod_pos_bound size 256 ltac:(lia)).
  assert (x - base + 256 <= size) by lia.
  assert ((x - base) / 256 + 1 <= size / 256).
  { replace ((x - base) / 256 + 1) with ((x - base + 1 * 256) / 256)
      by (rewrite Z.div_add by lia; reflexivity).
    apply Z.div_le_mono; lia. }
  lia.
Qed.

Lemma filter_length_ext {A : Type} (f g : A -> bool) (l : list A) :
  (forall x, In x l -> f x = g x) ->
  List.length (filter f l) = List.length (filter g l).
Proof.
  induction l as [|a l IH]; intros H; [reflexivity|].
  cbn [filter]. rewrite (H a) by now left.
  destruct (g a); cbn [List.length]; rewrite IH; auto;
    intros x Hx; apply H; now right.
Qed.

(** One more element passes the filter. *)
Lemma filter_length_gain (f g : Z -> bool) (l : list Z) (x : Z) :
  NoDup l -> In x l -> f x = false -> g x = true ->
  (forall y, In y l -> y <> x -> g y = f y) ->
  List.length (filter g l) = S (List.length (filter f l)).
Proof.
  induction l as [|a l IH]; intros Hnd Hin Hf Hg Hoth; [destruct Hin|].
  apply NoDup_cons_iff in Hnd as [Ha Hnd]. cbn [filter].
  destruct Hin as [->|Hin].
  - rewrite Hf, Hg. cbn [List.length]. f_equal.
    apply filter_length_ext. intros y Hy. apply Hoth; [now right|].
    intros ->. contradiction.
  - assert (a <> x) by (intros ->; contradiction).
    rewrite (Hoth a) by (auto; now left).
    destruct (f a); cbn [List.length]; rewrite IH; auto;
      intros y Hy; apply Hoth; now right.
Qed.

Lemma owned_count_ext m m' base size :
  (forall x, base <= x < base + size ->
             (shgcon (chunks m' x) = None <-> shgcon (chunks m x) = None)) ->
  owned_count m' base size = owned_count m base size.
Proof.
  intros H. unfold owned_count. f_equal. apply filter_length_ext.
  intros x Hx. apply chunk_slots_range in Hx. specialize (H x Hx).
  unfold has_owner.
  destruct (shgcon (chunks m' x)), (shgcon (chunks m x)); try reflexivity.
  - destruct H as [_ H]. discriminate H. reflexivity.
  - destruct H as [H _]. discriminate H. reflexivity.
Qed.

Lemma owned_count_gain m m' base size x :
  In x (chunk_slots base size) ->
  shgcon (chunks m x) = None -> shgcon (chunks m' x) <> None ->
  (forall y, base <= y < base + size -> y <> x ->
             (shgcon (chunks m' y) = None <-> shgcon (chunks m y) = None)) ->
  owned_count m' base size = owned_count m base size + 1.
Proof.
  intros Hx Hm Hm' Hoth. unfold owned_count.
  rewrite (filter_length_gain (has_owner m) (has_owner m') _ x).
  - lia.
  - apply chunk_slots_NoDup.
  - exact Hx.
  - now apply has_owner_false.
  - now apply has_owner_true.
  - intros y Hy Hne. apply chunk_slots_range in Hy. specialize (Hoth y Hy Hne).
    unfold has_owner.
    destruct (shgcon (chunks m' y)), (shgcon (chunks m y)); try reflexivity.
    + destruct Hoth as [_ H]. discriminate H. reflexivity.
    + destruct Hoth as [H _]. discriminate H. reflexivity.
Qed.

Lemma owned_count_nonneg m base size : 0 <= owned_count m base size.
Proof. unfold owned_count. lia. Qed.

Lemma owned_count_none m base size :
  (forall x, base <= x < base + size -> shgcon (chunks m x) = None) ->
  owned_count m base size = 0.
Proof.
  intros H. unfold owned_count.
  rewrite (filter_length_ext _ (fun _ => false)).
  - induction (chunk_slots base size) as [|a l IH]; [reflexivity|exact IH].
  - intros x Hx. apply has_owner_false. apply H. now apply chunk_slots_range.
Qed.

Lemma owned_count_some m base size x :
  In x (chunk_slots base size) -> shgcon (chunks m x) <> None ->
  0 < owned_count m base size.
Proof.
  intros Hx Ho. unfold owned_count.
  assert (Hin : In x (filter (has_owner m) (chunk_slots base size)))
    by (apply filter_In; split; [exact Hx|now apply has_owner_true]).
  destruct (filter (has_owner m) (chunk_slots base size)); [destruct Hin|].
  cbn [List.length]. lia.
Qed.

Lemma owned_count_zero m base size x :
  owned_count m base size = 0 -> In x (chunk_slots base size) ->
  shgcon (chunks m x) = None.
Proof.
  intros H0 Hx. destruct (shgcon (chunks m x)) eqn:E; [|reflexivity].
  pose proof (owned_count_some m base size x Hx ltac:(congruence)). lia.
Qed.

(** One element less passes the filter. *)
Lemma owned_count_loss m m' base size x :
  In x (chunk_slots base size) ->
  shgcon (chunks m x) <> None -> shgcon (chunks m' x) = None ->
  (forall y, base <= y < base + size -> y <> x ->
             (shgcon (chunks m' y) = None <-> shgcon (chunks m y) = None)) ->
  owned_count m' base size = owned_count m base size - 1.
Proof.
  intros Hx Hm Hm' Hoth.
  rewrite (owned_count_gain m' m base size x Hx Hm' Hm); [lia|].
  intros y Hy Hne. symmetry. now apply Hoth.
Qed.

(** ** The chunks in use *)

(** What [pointer_validation] tests of a header and of the word behind
    the payload. *)
Definition guarded (m : memory) (x : Z) : Prop :=
  magic_head (chunks m x) = DMABUF_CHUNK_MAGIC_CODE /\
  DMABUF_CHUNK_MAGIC_TAIL m x = DMABUF_CHUNK_MAGIC_CODE /\
  offsetof_data + required (chunks m x) + sizeof_cl_uint
  <= pow2 (mclass (chunks m x)).

(** The chunks in use and the directory: a header with an owner lies in
    a segment on the active list and passes the tests of
    [pointer_validation]; the count a segment keeps is the number of its
    headers with an owner; and a segment that is not persistent stays on
    the active list only while it has a chunk in use. *)
Record use_inv (cfg : config) (st : state) : Prop := mkUseInv {
  ui_live : forall id x,
    0 <= id < cfg_max_dma_segment_nums cfg ->
    mmap_ptr cfg id <= x < mmap_ptr cfg id + cfg_dma_segment_size cfg ->
    shgcon (chunks (mem st) x) <> None ->
    In id (active_segment_list st) /\ guarded (mem st) x;
  ui_count : forall id,
    0 <= id < cfg_max_dma_segment_nums cfg ->
    num_chunks (segments st id)
    = owned_count (mem st) (mmap_ptr cfg id) (cfg_dma_segment_size cfg);
  ui_busy : forall id,
    In id (active_segment_list st) -> persistent cfg id = false ->
    0 < num_chunks (segments st id)
}.

Lemma use_inv_set_os cfg os st : use_inv (set_os cfg os) st <-> use_inv cfg st.
Proof. split; intros [H1 H2 H3]; constructor; assumption. Qed.

Lemma use_inv_startup cfg ctxs : use_inv cfg (pgstrom_startup_dma_buffer cfg ctxs).
Proof.
  constructor; unfold pgstrom_startup_dma_buffer; st_simpl.
  - intros id x _ _ H. now destruct H.
  - intros id _. cbn [num_chunks]. symmetry. now apply owned_count_none.
  - intros id [].
Qed.

(** A chunk in use starts at a multiple of 256 bytes from the base of its
    segment, and its class is one of the allocator's. *)
Lemma in_use_slot cfg st id x :
  heap_inv cfg st -> In id (active_segment_list st) ->
  mmap_ptr cfg id <= x < mmap_ptr cfg id + cfg_dma_segment_size cfg ->
  shgcon (chunks (mem st) x) <> None ->
  placed (mmap_ptr cfg id) (cfg_dma_segment_size cfg) x (mclass (chunks (mem st) x)) /\
  In x (chunk_slots (mmap_ptr cfg id) (cfg_dma_segment_size cfg)).
Proof.
  intros Hinv Hid Rx Hx.
  assert (P : placed (mmap_ptr cfg id) (cfg_dma_segment_size cfg) x
                     (mclass (chunks (mem st) x))).
  { apply (tracked_placed cfg st id); [assumption..|].
    split; [exact Rx|]. split; [exact Hx|reflexivity]. }
  split; [exact P|]. exact (placed_slot _ _ _ _ P).
Qed.

(** The word behind the payload of a guarded chunk lies inside the chunk. *)
Lemma guarded_tail m x :
  lengths_ok m -> DMABUF_CHUNKSZ_MIN_BIT <= mclass (chunks m x) ->
  guarded m x ->
  DMABUF_CHUNK_DATA x <= magic_tail_addr x (required (chunks m x)) /\
  magic_tail_addr x (required (chunks m x)) + 4 <= x + pow2 (mclass (chunks m x)).
Proof.
  intros Hlen Hc (_ & _ & Hfit). pose proof (Hlen x) as Hr.
  unfold magic_tail_addr, DMABUF_CHUNK_DATA.
  destruct (INTALIGN_bounds (required (chunks m x))) as [[Hi1 Hi2] Hi3].
  rewrite Size_wrap_small by (change (2 ^ 64) with (2 * 2 ^ 63); lia).
  split; [lia|].
  set (k := mclass (chunks m x)) in *.
  assert (Hk0 : 0 <= k) by zlia.
  assert (H4 : pow2 k mod 4 = 0).
  { unfold pow2. rewrite Z.shiftl_1_l.
    replace k with (2 + (k - 2)) by lia.
    rewrite Z.pow_add_r by zlia. rewrite Z.mul_comm. apply Z.mod_mul. lia. }
  unfold offsetof_data, sizeof_cl_uint in *.
  pose proof (Z.div_mod (pow2 k) 4 ltac:(lia)) as D1.
  pose proof (Z.div_mod (INTALIGN (required (chunks m x))) 4 ltac:(lia)) as D2.
  rewrite H4 in D1. rewrite Hi3 in D2. lia.
Qed.

(** A chunk whose header and bytes are unchanged keeps its guards. *)
Lemma guarded_frame m m' x :
  lengths_ok m -> DMABUF_CHUNKSZ_MIN_BIT <= mclass (chunks m x) ->
  guarded m x ->
  chunks m' x = chunks m x ->
  (forall o, x <= o < x + pow2 (mclass (chunks m x)) -> data m' o = data m o) ->
  guarded m' x.
Proof.
  intros Hlen Hc G Hh Hd.
  destruct (guarded_tail m x Hlen Hc G) as [T1 T2].
  destruct G as (G1 & G2 & G3).
  unfold guarded. rewrite Hh. split; [exact G1|]. split; [|exact G3].
  rewrite <- G2. unfold DMABUF_CHUNK_MAGIC_TAIL. rewrite Hh.
  apply load32_ext. intros i Hi. apply Hd.
  unfold DMABUF_CHUNK_DATA, offsetof_data in *. lia.
Qed.

(** Nothing but this process's mappings, the lists of the contexts and
    the inactive list change. *)
Lemma use_inv_same cfg st st' :
  use_inv cfg st ->
  mem st' = mem st -> segments st' = segments st ->
  active_segment_list st' = active_segment_list st ->
  use_inv cfg st'.
Proof.
  intros [H1 H2 H3] Hm Hs Ha. constructor; rewrite ?Hm, ?Hs, ?Ha; assumption.
Qed.

(** *** Allocation *)

Lemma map_new_object_owners m base size :
  owners_kept m (map_new_object m base size).
Proof.
  intros a. unfold map_new_object. cbn [chunks].
  destruct (_ && _); [now right|now left].
Qed.

Lemma dmaBufferCreateSegment_owners cfg st id u st2 :
  dmaBufferCreateSegment cfg st id = OK u st2 ->
  owners_kept (mem st) (mem st2).
Proof.
  unfold dmaBufferCreateSegment.
  destruct (if is_attached _ then _ else _); [discriminate|].
  set (st1 := if is_attached (dmaBufLocalMaps st id) then _ else _).
  assert (Hmem1 : mem st1 = mem st).
  { subst st1. destruct (is_attached _); reflexivity. }
  clearbody st1.
  destruct (negb (shm_open_ok _)); [discriminate|].
  destruct (negb (ftruncate_ok _)); [discriminate|].
  destruct (negb (mmap_ok _)); [discriminate|].
  destruct (_ && _).
  { destruct (negb (munmap_ok _)); [discriminate|].
    destruct (negb (mmap_none_ok _)); discriminate. }
  intros H.
  match type of H with
  | context [seed_chunks ?f ?s ?mm ?h ?t ?c] =>
    pose proof (seed_chunks_owners f s mm h t c) as Hd;
    destruct (seed_chunks f s mm h t c) as [seg1 m1]
  end.
  cbn [snd] in Hd. injection H as _ H. subst st2. st_simpl.
  eapply owners_kept_trans; [|exact Hd].
  rewrite Hmem1. apply map_new_object_owners.
Qed.

(** One step of allocation: the owners, but for the chunk handed out. *)
Lemma alloc_step_owners st id cls req x seg' m' ctx csz p st' :
  dmaBufferAllocChunk (segments st id) (mem st) cls req = Some (x, seg', m') ->
  track_chunk (set_segment (set_mem st m') id seg') ctx csz x = OK p st' ->
  num_chunks (segments st' id) = num_chunks (segments st id) + 1 /\
  forall a, a <> x ->
    shgcon (chunks (mem st') a) = shgcon (chunks (mem st) a) \/
    shgcon (chunks (mem st') a) = None.
Proof.
  intros E Ht.
  pose proof (dmaBufferAllocChunk_owners _ _ _ _ _ _ _ E) as Ho.
  destruct (dmaBufferAllocChunk_revision _ _ _ _ _ _ _ E) as [_ Hn].
  unfold track_chunk in Ht. destruct (overruns _ _) eqn:Hover in Ht; [discriminate|]. injection Ht as _ <-. st_simpl.
  rewrite upd_same. split; [exact Hn|].
  intros a Ha. unfold memset, set_chunk. cbn [chunks].
  rewrite upd_other by assumption. apply Ho.
Qed.

(** What a successful allocation does to the directory. *)
Lemma dmaBufferAllocInternal_dir cfg st ctx req p st' :
  cfg_ok cfg -> dir_inv st -> heap_inv cfg st ->
  dmaBufferAllocInternal cfg st ctx req = OK p st' ->
  exists x id,
    p = DMABUF_CHUNK_DATA x /\
    0 <= id < cfg_max_dma_segment_nums cfg /\
    mmap_ptr cfg id <= x < mmap_ptr cfg id + cfg_dma_segment_size cfg /\
    In id (active_segment_list st') /\
    (forall i, In i (active_segment_list st') ->
               i = id \/ In i (active_segment_list st)) /\
    (forall i, i <> id ->
               num_chunks (segments st' i) = num_chunks (segments st i)) /\
    (num_chunks (segments st' id) = num_chunks (segments st id) + 1 \/
     ~ In id (active_segment_list st) /\ num_chunks (segments st' id) = 1) /\
    (forall a, a <> x ->
       shgcon (chunks (mem st') a) = shgcon (chunks (mem st) a) \/
       shgcon (chunks (mem st') a) = None).
Proof.
  intros Hcfg Hdir Hinv. unfold dmaBufferAllocInternal.
  destruct (_ >? _); [discriminate|].
  fold (mclass_of req).
  destruct (scan_active_segments st (active_segment_list st)
              (mclass_of req) req) as [[chunk st0]|] eqn:Hscan.
  - rewrite (alloc_retry_scan_some _ _ _ _ _ _ _ _ _ _ Hscan).
    destruct (scan_active_segments_found _ _ _ _ _ _ Hscan)
      as (id & seg' & m' & Hid & E & ->).
    intros Ht.
    destruct (alloc_step_inv cfg st id (mclass_of req) req chunk seg' m' ctx _ p st'
                Hcfg Hinv Hid (mclass_of_min req) E Ht)
      as (_ & Hp & Px & _ & _ & Hact & _ & Hseg & _).
    destruct (alloc_step_owners st id _ _ _ _ _ _ _ _ _ E Ht) as [Hn Ho].
    exists chunk, id. split; [exact Hp|].
    split; [apply (hinv_ids cfg st Hinv); now left|].
    split; [exact (placed_in_range _ _ _ _ Px)|].
    rewrite Hact. split; [exact Hid|]. split; [now right|].
    split; [intros i Hi; now rewrite Hseg|]. split; [now left|exact Ho].
  - rewrite alloc_retry_scan_none by assumption.
    destruct (inactive_segment_list st) as [|id rest] eqn:Hin; [discriminate|].
    destruct (dmaBufferCreateSegment cfg (set_inactive st rest) id)
      as [u st2|m2 st2|m2|] eqn:Hc; try discriminate.
    cbv zeta.
    destruct (alloc_new_segment_heap _ _ _ _ _ _ Hcfg Hinv Hin Hc)
      as (Hinv3 & _ & _).
    pose proof (dmaBufferCreateSegment_owners _ _ _ _ _ Hc) as Ho2.
    destruct (dmaBufferCreateSegment_OK _ _ _ _ _ Hc)
      as (Hact2 & _ & _ & Hn2 & _ & Hoth2 & _).
    st_simpl in Hact2. st_simpl in Ho2.
    destruct (dmaBufferAllocChunk _ _ _ _) as [[[ch sg] mm]|] eqn:E;
      [|discriminate].
    intros Ht.
    set (st3 := set_active st2 (dlist_push_head (active_segment_list st2) id))
      in *.
    assert (Hid3 : In id (active_segment_list st3))
      by (subst st3; st_simpl; now left).
    destruct (alloc_step_inv cfg st3 id (mclass_of req) req ch sg mm ctx _ p st'
                Hcfg Hinv3 Hid3 (mclass_of_min req) E Ht)
      as (_ & Hp & Px & _ & _ & Hact & _ & Hseg & _).
    destruct (alloc_step_owners st3 id _ _ _ _ _ _ _ _ _ E Ht) as [Hn Ho].
    assert (Hidr : 0 <= id < cfg_max_dma_segment_nums cfg).
    { apply (hinv_ids cfg st Hinv). right. rewrite Hin. now left. }
    assert (Hnot : ~ In id (active_segment_list st)).
    { apply (inv_inactive st Hdir). rewrite Hin. now left. }
    exists ch, id. split; [exact Hp|]. split; [exact Hidr|].
    split; [exact (placed_in_range _ _ _ _ Px)|].
    rewrite Hact. split; [exact Hid3|]. split.
    { subst st3. st_simpl. rewrite Hact2. intros i [<-|Hi]; [now left|now right]. }
    split.
    { intros i Hi. rewrite (Hseg i Hi). subst st3. st_simpl.
      destruct (Hoth2 i Hi) as [-> _]. reflexivity. }
    split.
    { right. split; [exact Hnot|]. rewrite Hn. subst st3. st_simpl.
      rewrite Hn2. reflexivity. }
    intros a Ha. destruct (Ho a Ha) as [H|H]; [|now right].
    rewrite H. subst st3. st_simpl. apply Ho2.
Qed.

(** An error exit of [dmaBufferAllocInternal] leaves the memory, the
    segments and the active list as they were. *)
Lemma dmaBufferAllocInternal_error cfg st ctx req msg st' :
  dmaBufferAllocInternal cfg st ctx req = ERROR msg st' ->
  mem st' = mem st /\ segments st' = segments st /\
  active_segment_list st' = active_segment_list st.
Proof.
  unfold dmaBufferAllocInternal.
  destruct (_ >? _); [intros [= <- <-]; auto|].
  destruct (scan_active_segments st (active_segment_list st)
              (get_next_log2 (chunk_size_of req)) req) as [[chunk st1]|] eqn:Hscan.
  - rewrite (alloc_retry_scan_some _ _ _ _ _ _ _ _ _ _ Hscan).
    destruct (track_chunk_cases st1 ctx (chunk_size_of req) chunk) as [[x ->]| ->];
    discriminate.
  - rewrite alloc_retry_scan_none by assumption.
    destruct (inactive_segment_list st) as [|id rest] eqn:Hin.
    + intros [= <- <-]. auto.
    + destruct (dmaBufferCreateSegment cfg (set_inactive st rest) id)
        as [u st2|m2 st2|m2|] eqn:Hc; try discriminate.
      * cbv zeta. destruct (dmaBufferAllocChunk _ _ _ _) as [[[ch sg] mm]|];
          [|discriminate].
        match goal with
        | |- track_chunk ?s ?c ?z ?k = _ -> _ =>
          destruct (track_chunk_cases s c z k) as [[x ->]| ->]
        end;
        discriminate.
      * intros [= <- <-].
        apply dmaBufferCreateSegment_error in Hc as (Hseg & Hact & _ & Hmem & _).
        st_simpl. st_simpl in Hseg. st_simpl in Hact. st_simpl in Hmem. auto.
Qed.

(** [dmaBufferAllocInternal] keeps the invariant of the chunks in use. *)
Lemma dmaBufferAllocInternal_use cfg st ctx req st' :
  cfg_ok cfg -> dir_inv st -> heap_inv cfg st -> lengths_ok (mem st) ->
  use_inv cfg st ->
  0 <= req < 2 ^ 63 ->
  state_of (dmaBufferAllocInternal cfg st ctx req) = Some st' ->
  use_inv cfg st'.
Proof.
  intros Hcfg Hdir Hinv Hlen Hu Hreq.
  destruct (dmaBufferAllocInternal cfg st ctx req) as [p st1|msg st1|?|] eqn:Ea;
    try discriminate; intros [= <-].
  2: { apply dmaBufferAllocInternal_error in Ea as (Hm & Hs & Ha).
       now apply (use_inv_same cfg st). }
  destruct (dmaBufferAllocInternal_OK cfg st ctx req p st1 Hcfg Hdir Hinv Hreq Ea)
    as (x & id0 & Hp & _ & Px & Hx & Htail & F).
  destruct (dmaBufferAllocInternal_dir cfg st ctx req p st1 Hcfg Hdir Hinv Ea)
    as (x' & id & Hp' & Hid & Rx & Hact & Hsub & Hoth & Hnum & Ho).
  assert (x' = x) as -> by (unfold DMABUF_CHUNK_DATA in *; lia).
  assert (id0 = id) as ->
    by (exact (segment_unique cfg id0 id x Hcfg (placed_in_range _ _ _ _ Px) Rx)).
  clear Hp'.
  assert (Hx0 : shgcon (chunks (mem st) x) = None).
  { destruct (shgcon (chunks (mem st) x)) eqn:E; [|reflexivity]. exfalso.
    destruct (ui_live cfg st Hu id x Hid Rx ltac:(congruence)) as [Hi _].
    destruct (F id x (mclass (chunks (mem st) x)) Hi) as (_ & Hne & _).
    - split; [exact Rx|]. split; [congruence|reflexivity].
    - now apply Hne. }
  assert (Hx1 : shgcon (chunks (mem st1) x) <> None)
    by (rewrite Hx; discriminate).
  (* the chunks in use before are in use after, with the same header *)
  assert (Hkeep : forall i a,
             0 <= i < cfg_max_dma_segment_nums cfg ->
             mmap_ptr cfg i <= a < mmap_ptr cfg i + cfg_dma_segment_size cfg ->
             shgcon (chunks (mem st) a) <> None ->
             In i (active_segment_list st1) /\ a <> x /\
             chunks (mem st1) a = chunks (mem st) a /\ guarded (mem st1) a).
  { intros i a Hi Ra Ha.
    destruct (ui_live cfg st Hu i a Hi Ra Ha) as [Hia G].
    destruct (F i a (mclass (chunks (mem st) a)) Hia) as (Hi1 & Hne & Hh & Hd).
    { split; [exact Ra|]. split; [exact Ha|reflexivity]. }
    split; [exact Hi1|]. split; [exact Hne|]. split; [exact Hh|].
    destruct (in_use_slot cfg st i a Hinv Hia Ra Ha) as [(Hc & _) _].
    apply (guarded_frame (mem st)); try assumption. zlia. }
  assert (Hnone : forall i a,
             0 <= i < cfg_max_dma_segment_nums cfg ->
             mmap_ptr cfg i <= a < mmap_ptr cfg i + cfg_dma_segment_size cfg ->
             a <> x ->
             (shgcon (chunks (mem st1) a) = None
              <-> shgcon (chunks (mem st) a) = None)).
  { intros i a Hi Ra Hne. split.
    - intros H1. destruct (shgcon (chunks (mem st) a)) eqn:E; [|reflexivity].
      destruct (Hkeep i a Hi Ra ltac:(congruence)) as (_ & _ & Hh & _).
      rewrite Hh, E in H1. discriminate.
    - intros H0. destruct (Ho a Hne) as [H|H]; congruence. }
  assert (Hcount : owned_count (mem st1) (mmap_ptr cfg id) (cfg_dma_segment_size cfg)
                   = owned_count (mem st) (mmap_ptr cfg id)
                                 (cfg_dma_segment_size cfg) + 1).
  { apply (owned_count_gain _ _ _ _ x); try assumption.
    - exact (placed_slot _ _ _ _ Px).
    - intros y Ry Hne. now apply (Hnone id). }
  assert (Hnum' : num_chunks (segments st1 id)
                  = num_chunks (segments st id) + 1).
  { destruct Hnum as [H|[Hna H]]; [exact H|].
    rewrite H, (ui_count cfg st Hu id Hid), owned_count_none; [reflexivity|].
    intros a Ra. destruct (shgcon (chunks (mem st) a)) eqn:E; [|reflexivity].
    exfalso. apply Hna.
    exact (proj1 (ui_live cfg st Hu id a Hid Ra ltac:(congruence))). }
  constructor.
  - intros i a Hi Ra Ha. destruct (Z.eq_dec a x) as [->|Hne].
    + assert (i = id) as -> by (exact (segment_unique cfg i id x Hcfg Ra Rx)).
      split; [exact Hact|]. unfold guarded. rewrite Hx. cbn [magic_head required mclass].
      split; [reflexivity|]. split; [exact Htail|].
      destruct (chunk_size_of_bounds req Hreq) as (_ & H1 & [_ H2] & _). lia.
    + assert (Ha0 : shgcon (chunks (mem st) a) <> None).
      { intros H0. apply Ha. now apply (Hnone i). }
      destruct (Hkeep i a Hi Ra Ha0) as (H1 & _ & _ & H4). auto.
  - intros i Hi. destruct (Z.eq_dec i id) as [->|Hne].
    + rewrite Hnum', Hcount, (ui_count cfg st Hu id Hid). reflexivity.
    + rewrite (Hoth i Hne), (ui_count cfg st Hu i Hi). symmetry.
      apply owned_count_ext. intros a Ra. apply (Hnone i); try assumption.
      intros ->. apply Hne. exact (segment_unique cfg i id x Hcfg Ra Rx).
  - intros i Hi Hp1. destruct (Z.eq_dec i id) as [->|Hne].
    + rewrite Hnum', (ui_count cfg st Hu id Hid).
      pose proof (owned_count_nonneg (mem st) (mmap_ptr cfg id)
                    (cfg_dma_segment_size cfg)). lia.
    + rewrite (Hoth i Hne). apply (ui_busy cfg st Hu); [|exact Hp1].
      destruct (Hsub i Hi) as [->|H]; [contradiction|exact H].
Qed.

(** *** Release *)

(** [__dmaBufferFree] keeps the invariant of the chunks in use. *)
Lemma __dmaBufferFree_use cfg os st p st' :
  cfg_ok cfg -> dir_inv st -> heap_inv cfg st -> lengths_ok (mem st) ->
  use_inv cfg st ->
  state_of (__dmaBufferFree (set_os cfg os) st p) = Some st' ->
  use_inv cfg st'.
Proof.
  intros Hcfg Hdir Hinv Hlen Hu.
  destruct (__dmaBufferFree (set_os cfg os) st p) as [[] st1|msg st1|?|] eqn:E;
    try discriminate; intros [= <-].
  2: { now rewrite (__dmaBufferFree_error _ _ _ _ _ Hdir E). }
  destruct (__dmaBufferFree_frame cfg os st p st1 Hcfg Hdir Hinv Hlen E)
    as (id & Hpv & Hact & Hid & Rx & Hown & Hgone & Hkept & _ & Hfr).
  destruct (__dmaBufferFree_effect _ _ _ _ _ Hdir E)
    as (chunk' & id' & Hpv' & _ & Hnum & Hoth & Hlists).
  rewrite Hpv in Hpv'. injection Hpv' as <- <-.
  change (persistent (set_os cfg os) id) with (persistent cfg id) in Hlists.
  set (x := Size_wrap (p - offsetof_data)) in *.
  cbv zeta in Hnum.
  destruct (in_use_slot cfg st id x Hinv Hact Rx Hown) as [_ Sx].
  assert (Hkeep : forall i a,
             0 <= i < cfg_max_dma_segment_nums cfg ->
             mmap_ptr cfg i <= a < mmap_ptr cfg i + cfg_dma_segment_size cfg ->
             a <> x -> shgcon (chunks (mem st) a) <> None ->
             In i (active_segment_list st) /\
             chunks (mem st1) a = chunks (mem st) a /\ guarded (mem st1) a).
  { intros i a Hi Ra Hne Ha.
    destruct (ui_live cfg st Hu i a Hi Ra Ha) as [Hia G].
    destruct (Hfr i a (mclass (chunks (mem st) a)) Hia) as (Hh & Hd);
      [split; [exact Ra|]; split; [exact Ha|reflexivity]|exact Hne|].
    split; [exact Hia|]. split; [exact Hh|].
    destruct (in_use_slot cfg st i a Hinv Hia Ra Ha) as [(Hc & _) _].
    apply (guarded_frame (mem st)); try assumption. zlia. }
  assert (Hnone : forall i a,
             0 <= i < cfg_max_dma_segment_nums cfg ->
             mmap_ptr cfg i <= a < mmap_ptr cfg i + cfg_dma_segment_size cfg ->
             a <> x ->
             (shgcon (chunks (mem st1) a) = None
              <-> shgcon (chunks (mem st) a) = None)).
  { intros i a Hi Ra Hne. split.
    - intros H1. destruct (shgcon (chunks (mem st) a)) eqn:Ea; [|reflexivity].
      destruct (Hkeep i a Hi Ra Hne ltac:(congruence)) as (_ & Hh & _).
      rewrite Hh, Ea in H1. discriminate.
    - intros H0. destruct (Hkept a) as [H|H]; congruence. }
  assert (Hcount : forall i,
             0 <= i < cfg_max_dma_segment_nums cfg ->
             num_chunks (segments st1 i)
             = owned_count (mem st1) (mmap_ptr cfg i) (cfg_dma_segment_size cfg)).
  { intros i Hi. destruct (Z.eq_dec i id) as [->|Hne].
    - rewrite Hnum, (ui_count cfg st Hu id Hid). symmetry.
      apply (owned_count_loss _ _ _ _ x); try assumption.
      intros y Ry Hy. now apply (Hnone id).
    - destruct (Hoth i Hne) as [-> _]. rewrite (ui_count cfg st Hu i Hi).
      symmetry. apply owned_count_ext. intros a Ra. apply (Hnone i); try assumption.
      intros ->. apply Hne. exact (segment_unique cfg i id x Hcfg Ra Rx). }
  constructor.
  - intros i a Hi Ra Ha.
    assert (Hne : a <> x) by (intros ->; contradiction).
    assert (Ha0 : shgcon (chunks (mem st) a) <> None).
    { intros H0. apply Ha. now apply (Hnone i). }
    destruct (Hkeep i a Hi Ra Hne Ha0) as (Hia & _ & G). split; [|exact G].
    destruct (Z.gtb_spec (num_chunks (segments st id) - 1) 0) as [Hpos|Hzero];
      cbn [orb] in Hlists.
    { destruct Hlists as (-> & _). exact Hia. }
    destruct (persistent cfg id).
    { destruct Hlists as (-> & _). exact Hia. }
    destruct Hlists as (-> & _). apply In_dlist_delete.
    split; [exact Hia|]. intros ->. apply Ha.
    apply (owned_count_zero _ (mmap_ptr cfg id) (cfg_dma_segment_size cfg)).
    + pose proof (Hcount id Hid) as Hc. rewrite Hnum in Hc.
      pose proof (owned_count_nonneg (mem st1) (mmap_ptr cfg id)
                    (cfg_dma_segment_size cfg)). lia.
    + exact (proj2 (in_use_slot cfg st id a Hinv Hia Ra Ha0)).
  - exact Hcount.
  - intros i Hi Hp1.
    destruct (Z.gtb_spec (num_chunks (segments st id) - 1) 0) as [Hpos|Hzero];
      cbn [orb] in Hlists.
    + destruct Hlists as (Ea & _). rewrite Ea in Hi.
      destruct (Z.eq_dec i id) as [->|Hne]; [lia|].
      destruct (Hoth i Hne) as [-> _]. now apply (ui_busy cfg st Hu).
    + destruct (persistent cfg id) eqn:Ep.
      * destruct Hlists as (Ea & _). rewrite Ea in Hi.
        destruct (Z.eq_dec i id) as [->|Hne]; [congruence|].
        destruct (Hoth i Hne) as [-> _]. now apply (ui_busy cfg st Hu).
      * destruct Hlists as (Ea & _). rewrite Ea in Hi.
        apply In_dlist_delete in Hi as [Hi Hne].
        destruct (Hoth i Hne) as [-> _]. now apply (ui_busy cfg st Hu).
Qed.

(** *** A new length *)

(** The owners stay, and the chunks in use stay guarded. *)
Lemma use_inv_keep cfg st st' :
  use_inv cfg st ->
  active_segment_list st' = active_segment_list st ->
  (forall i, num_chunks (segments st' i) = num_chunks (segments st i)) ->
  owners_kept (mem st) (mem st') ->
  (forall i a,
     0 <= i < cfg_max_dma_segment_nums cfg ->
     mmap_ptr cfg i <= a < mmap_ptr cfg i + cfg_dma_segment_size cfg ->
     shgcon (chunks (mem st) a) <> None ->
     In i (active_segment_list st) -> guarded (mem st) a ->
     shgcon (chunks (mem st') a) <> None /\ guarded (mem st') a) ->
  use_inv cfg st'.
Proof.
  intros Hu Ha Hn Ho Hk.
  assert (Hnone : forall i a,
             0 <= i < cfg_max_dma_segment_nums cfg ->
             mmap_ptr cfg i <= a < mmap_ptr cfg i + cfg_dma_segment_size cfg ->
             (shgcon (chunks (mem st') a) = None
              <-> shgcon (chunks (mem st) a) = None)).
  { intros i a Hi Ra. split.
    - intros H1. destruct (shgcon (chunks (mem st) a)) eqn:Ea; [|reflexivity].
      exfalso.
      destruct (ui_live cfg st Hu i a Hi Ra ltac:(congruence)) as [Hia G].
      now destruct (Hk i a Hi Ra ltac:(congruence) Hia G).
    - intros H0. destruct (Ho a) as [H|H]; congruence. }
  constructor.
  - intros i a Hi Ra H1.
    assert (H0 : shgcon (chunks (mem st) a) <> None).
    { intros H0. apply H1. now apply (Hnone i). }
    destruct (ui_live cfg st Hu i a Hi Ra H0) as [Hia G].
    rewrite Ha. split; [exact Hia|].
    now destruct (Hk i a Hi Ra H0 Hia G).
  - intros i Hi. rewrite Hn, (ui_count cfg st Hu i Hi). symmetry.
    apply owned_count_ext. intros a Ra. now apply (Hnone i).
  - intros i Hi Hp. rewrite Hn. rewrite Ha in Hi. now apply (ui_busy cfg st Hu).
Qed.

(** The header of a chunk rewritten with a new length, and the word
    behind the payload set. *)
Lemma set_MAGIC_TAIL_spec m x c1 :
  0 <= required c1 < 2 ^ 63 ->
  let m' := set_MAGIC_TAIL (set_chunk m x c1) x in
  chunks m' = upd (chunks m) x c1 /\
  DMABUF_CHUNK_MAGIC_TAIL m' x = DMABUF_CHUNK_MAGIC_CODE /\
  (forall o, o < DMABUF_CHUNK_DATA x \/
             DMABUF_CHUNK_DATA x + INTALIGN (required c1) + sizeof_cl_uint <= o ->
             data m' o = data m o).
Proof.
  intros Hr m'.
  destruct (chunk_size_of_bounds (required c1) Hr) as (_ & _ & _ & Hint & _).
  assert (Hd : data m'
               = data (store32 m (magic_tail_addr x (required c1))
                               DMABUF_CHUNK_MAGIC_CODE)).
  { subst m'. unfold set_MAGIC_TAIL.
    replace (required (chunks (set_chunk m x c1) x)) with (required c1)
      by (unfold set_chunk; cbn [chunks]; now rewrite upd_same).
    reflexivity. }
  split; [reflexivity|]. split.
  - unfold DMABUF_CHUNK_MAGIC_TAIL.
    replace (chunks m' x) with c1
      by (subst m'; unfold set_MAGIC_TAIL, store32, set_chunk; cbn [chunks];
          now rewrite upd_same).
    unfold load32. rewrite Hd.
    fold (load32 (store32 m (magic_tail_addr x (required c1))
                          DMABUF_CHUNK_MAGIC_CODE)
                 (magic_tail_addr x (required c1))).
    apply load32_store32. vm_compute. split; [discriminate|reflexivity].
  - intros o Ho. rewrite Hd. apply store32_other.
    unfold magic_tail_addr. rewrite Hint.
    destruct (INTALIGN_bounds (required c1)) as [Hi _].
    unfold sizeof_cl_uint in Ho. lia.
Qed.

(** A length and the two guards fit the class computed for the length. *)
Lemma length_fits (req : Z) :
  0 <= req < 2 ^ 63 ->
  offsetof_data + req + sizeof_cl_uint <= pow2 (mclass_of req) /\
  offsetof_data + INTALIGN req + sizeof_cl_uint <= pow2 (mclass_of req).
Proof.
  intros Hreq.
  destruct (chunk_size_of_bounds req Hreq) as (Hceq & Hcsz & [_ Hpow] & _).
  pose proof (tail_fits req) as Htf.
  destruct (MAXALIGN_bounds (offsetof_data + req + sizeof_cl_uint)) as [Hma _].
  lia.
Qed.

(** A length of a class above that of a chunk is longer than any length
    the chunk can hold. *)
Lemma grow_length (r req k : Z) :
  0 <= req < 2 ^ 63 -> DMABUF_CHUNKSZ_MIN_BIT <= k -> k < mclass_of req ->
  offsetof_data + r + sizeof_cl_uint <= pow2 k -> r < req.
Proof.
  intros Hreq Hk Hlt Hfit.
  destruct (chunk_size_of_bounds req Hreq) as (Hceq & _ & [Hpos _] & _).
  assert (Hk0 : 0 <= k) by zlia.
  assert (H2k : pow2 k < chunk_size_of req).
  { rewrite pow2_spec by assumption. apply Z.log2_up_lt_pow2; [lia|].
    exact Hlt. }
  assert (H256 : 256 <= pow2 k).
  { change 256 with (pow2 DMABUF_CHUNKSZ_MIN_BIT). apply pow2_mono. zlia. }
  assert (H8 : pow2 k mod 8 = 0).
  { rewrite pow2_spec by assumption.
    replace k with (3 + (k - 3)) by lia.
    rewrite Z.pow_add_r by zlia. rewrite Z.mul_comm. apply Z.mod_mul. lia. }
  change DMABUF_CHUNKSZ_MIN with 256 in Hceq.
  rewrite MAXALIGN_spec in Hceq.
  unfold offsetof_data, sizeof_cl_uint in *.
  destruct (Z_lt_le_dec r req) as [|Hge]; [assumption|exfalso].
  assert (Hle : (56 + req + 4 + 7) / 8 <= pow2 k / 8).
  { pose proof (Z.div_mod (pow2 k) 8 ltac:(lia)) as D. rewrite H8 in D.
    replace (pow2 k / 8) with ((pow2 k + 7) / 8).
    - apply Z.div_le_mono; lia.
    - rewrite D at 1. replace (8 * (pow2 k / 8) + 0 + 7)
        with (7 + (pow2 k / 8) * 8) by lia.
      rewrite Z.div_add by lia. reflexivity. }
  pose proof (Z.div_mod (pow2 k) 8 ltac:(lia)) as D. rewrite H8 in D. lia.
Qed.

(** [__dmaBufferRealloc] keeps the invariant of the chunks in use, when
    the chunk it is given has an owner. *)
Lemma __dmaBufferRealloc_use cfg os st p req st' :
  cfg_ok cfg -> dir_inv st -> heap_inv cfg st -> lengths_ok (mem st) ->
  use_inv cfg st ->
  0 <= req < 2 ^ 63 ->
  shgcon (chunks (mem st) (Size_wrap (p - offsetof_data))) <> None ->
  state_of (__dmaBufferRealloc (set_os cfg os) st p req) = Some st' ->
  use_inv cfg st'.
Proof.
  intros Hcfg Hdir Hinv Hlen Hu Hreq Hown.
  pose proof (cfg_ok_set_os cfg os Hcfg) as Hcfg'.
  destruct (pointer_validation (set_os cfg os) st p)
    as [[chunk id] st0|msg st0|?|] eqn:Hpv.
  2: { unfold __dmaBufferRealloc. rewrite Hpv. intros [= <-].
       assert (st0 = st) as ->; [|assumption].
       apply (pointer_validation_state (set_os cfg os) st p); [assumption|].
       now rewrite Hpv. }
  2, 3: unfold __dmaBufferRealloc; rewrite Hpv; discriminate.
  destruct (pointer_validation_inv _ _ _ _ _ _ Hdir Hpv) as [-> Hact].
  destruct (pointer_validation_range _ _ _ _ _ _ Hcfg' Hpv)
    as (Hchunk & Hid & Rx & _ & _ & Hhead & _).
  change (mmap_ptr (set_os cfg os) id) with (mmap_ptr cfg id) in Rx.
  change (cfg_dma_segment_size (set_os cfg os))
    with (cfg_dma_segment_size cfg) in Rx.
  change (cfg_max_dma_segment_nums (set_os cfg os))
    with (cfg_max_dma_segment_nums cfg) in Hid.
  rewrite <- Hchunk in Hown.
  destruct (ui_live cfg st Hu id chunk Hid Rx Hown) as [_ G].
  destruct (in_use_slot cfg st id chunk Hinv Hact Rx Hown) as [(Hc & _) _].
  set (k := mclass (chunks (mem st) chunk)) in *.
  assert (Hk : tracked (mmap_ptr cfg id) (cfg_dma_segment_size cfg) (mem st)
                       chunk k).
  { split; [exact Rx|]. split; [exact Hown|reflexivity]. }
  destruct (length_fits req Hreq) as [Hfit Hfit'].
  (* the other chunks in use lie outside the chunk *)
  assert (Hfar : forall i a,
             In i (active_segment_list st) ->
             mmap_ptr cfg i <= a < mmap_ptr cfg i + cfg_dma_segment_size cfg ->
             shgcon (chunks (mem st) a) <> None -> a <> chunk ->
             DMABUF_CHUNKSZ_MIN_BIT <= mclass (chunks (mem st) a) /\
             (a + pow2 (mclass (chunks (mem st) a)) <= chunk \/
              chunk + pow2 k <= a)).
  { intros i a Hi Ra Ha Hne.
    destruct (in_use_slot cfg st i a Hinv Hi Ra Ha) as [(Hca & _) _].
    split; [zlia|].
    apply (tracked_apart cfg st i a _ id chunk k Hcfg Hinv Hi Hact); try assumption.
    split; [exact Ra|]. split; [exact Ha|reflexivity]. }
  destruct (Z.lt_total (mclass_of req) k) as [Hlt|[Heq|Hgt]].
  - (* a smaller class *)
    destruct (__dmaBufferRealloc (set_os cfg os) st p req)
      as [q st1|msg st1|?|] eqn:E; try discriminate.
    2: { exfalso. revert E. unfold __dmaBufferRealloc. rewrite Hpv.
         fold (mclass_of req). fold k.
         destruct (Z.eqb_spec (mclass_of req) k); [lia|].
         destruct (Z.ltb_spec (mclass_of req) k); [|lia].
         destruct (shrink_chunks _ _ _ _ _ _ _). discriminate. }
    intros [= <-].
    destruct (__dmaBufferRealloc_shrink cfg os os st p req q st1 Hcfg Hdir Hinv
                Hreq ltac:(rewrite <- Hchunk; exact Hown)
                ltac:(rewrite <- Hchunk; exact Hlt) E)
      as (id' & _ & Hpv' & Hh & _ & _ & Hn & Ha & _ & _ & _ & Ht & Hoth & Ho & Hfr).
    rewrite Hpv in Hpv'. injection Hpv' as _ <-.
    rewrite <- Hchunk in Hh, Ht, Hfr.
    apply (use_inv_keep cfg st); try assumption.
    + intros i. destruct (Z.eq_dec i id) as [->|Hne]; [exact Hn|].
      now rewrite (Hoth i Hne).
    + intros i a Hi Ra Ha0 Hia Ga. destruct (Z.eq_dec a chunk) as [->|Hne].
      * rewrite Hh. cbn [shgcon]. split; [exact Hown|].
        unfold guarded. rewrite Hh. cbn [magic_head required mclass].
        split; [reflexivity|]. split; [exact Ht|exact Hfit].
      * destruct (Hfr i a (mclass (chunks (mem st) a)) Hia) as [Hha Hd];
          [split; [exact Ra|]; split; [exact Ha0|reflexivity]|exact Hne|].
        rewrite Hha. split; [exact Ha0|].
        destruct (Hfar i a Hia Ra Ha0 Hne) as [Hca _].
        now apply (guarded_frame (mem st)).
  - (* the same class *)
    unfold __dmaBufferRealloc. rewrite Hpv. fold (mclass_of req). fold k.
    rewrite (proj2 (Z.eqb_eq _ _) Heq). intros [= <-].
    match goal with
    | |- context [set_MAGIC_TAIL (set_chunk _ _ ?c) _] => set (c1 := c)
    end.
    destruct (set_MAGIC_TAIL_spec (mem st) chunk c1 Hreq) as (Hh & Ht & Hd).
    cbv zeta in Hh, Ht, Hd. cbn [required c1] in Hd.
    apply (use_inv_keep cfg st); try assumption; st_simpl; try reflexivity.
    + intros a. rewrite Hh. unfold upd.
      destruct (Z.eqb_spec a chunk) as [->|]; now left.
    + intros i a Hi Ra Ha0 Hia Ga. rewrite Hh. unfold upd.
      destruct (Z.eqb_spec a chunk) as [->|Hne].
      * cbn [shgcon c1]. split; [exact Hown|].
        unfold guarded. rewrite Hh, upd_same. cbn [magic_head required mclass c1].
        split; [exact Hhead|]. split; [exact Ht|]. fold k. rewrite <- Heq.
        exact Hfit.
      * split; [exact Ha0|].
        destruct (Hfar i a Hia Ra Ha0 Hne) as [Hca Hap].
        apply (guarded_frame (mem st)); try assumption.
        -- rewrite Hh. now apply upd_other.
        -- intros o Ho. apply Hd. rewrite <- Heq in Hap.
           unfold DMABUF_CHUNK_DATA.
           unfold offsetof_data, sizeof_cl_uint in *. lia.
  - (* a larger class *)
    unfold __dmaBufferRealloc. rewrite Hpv. fold (mclass_of req). fold k.
    destruct (Z.eqb_spec (mclass_of req) k); [lia|].
    destruct (Z.ltb_spec (mclass_of req) k); [lia|].
    destruct (shgcon (chunks (mem st) chunk)) as [ctx|] eqn:Ec;
      [|now destruct Hown].
    destruct (dmaBufferAllocInternal (set_os cfg os) st ctx req)
      as [res st1|msg st1|?|] eqn:Ea; try discriminate.
    2: { intros [= <-].
         apply (use_inv_set_os cfg os).
         apply (dmaBufferAllocInternal_use (set_os cfg os) st ctx req);
           try assumption.
         - now apply heap_inv_set_os.
         - now apply use_inv_set_os.
         - now rewrite Ea. }
    assert (Hdir1 : dir_inv st1).
    { apply (dmaBufferAllocInternal_inv (set_os cfg os) st ctx req);
        [assumption|]. now rewrite Ea. }
    assert (Hinv1 : heap_inv cfg st1).
    { apply (heap_inv_set_os cfg os).
      apply (dmaBufferAllocInternal_heap (set_os cfg os) st ctx req);
        [assumption|now apply heap_inv_set_os|]. now rewrite Ea. }
    assert (Hlen1 : lengths_ok (mem st1)).
    { apply (dmaBufferAllocInternal_lengths (set_os cfg os) st ctx req);
        [assumption| |assumption]. now rewrite Ea. }
    assert (Hu1 : use_inv cfg st1).
    { apply (use_inv_set_os cfg os).
      apply (dmaBufferAllocInternal_use (set_os cfg os) st ctx req);
        try assumption.
      - now apply heap_inv_set_os.
      - now apply use_inv_set_os.
      - now rewrite Ea. }
    destruct (dmaBufferAllocInternal_OK (set_os cfg os) st ctx req res st1 Hcfg'
                Hdir ltac:(now apply heap_inv_set_os) Hreq Ea)
      as (y & idy & Hres & Hidy & Py & Hy & Hty & F).
    change (mmap_ptr (set_os cfg os) idy) with (mmap_ptr cfg idy) in Py.
    change (cfg_dma_segment_size (set_os cfg os))
      with (cfg_dma_segment_size cfg) in Py.
    destruct (F id chunk k Hact Hk) as (_ & Hyne & Hhx & _).
    set (r := required (chunks (mem st1) chunk)).
    assert (Hr : 0 <= r < req).
    { split; [apply Hlen1|]. subst r. rewrite Hhx.
      destruct G as (_ & _ & G3). apply (grow_length _ req k); try assumption.
      zlia. }
    set (m1 := memcpy (mem st1) res (DMABUF_CHUNK_DATA chunk) r).
    assert (Hu2 : use_inv cfg (set_mem st1 m1)).
    { apply (use_inv_keep cfg st1); try assumption; st_simpl; try reflexivity.
      - apply owners_kept_chunks. reflexivity.
      - intros i a Hi Ra Ha0 Hia Ga. split; [exact Ha0|].
        destruct (in_use_slot cfg st1 i a Hinv1 Hia Ra Ha0) as [(Hca & _) _].
        destruct (INTALIGN_bounds req) as [[Hi1 _] _].
        unfold guarded. change (chunks m1 a) with (chunks (mem st1) a).
        destruct Ga as (G1 & G2 & G3). split; [exact G1|]. split; [|exact G3].
        rewrite <- G2. unfold DMABUF_CHUNK_MAGIC_TAIL.
        change (chunks m1 a) with (chunks (mem st1) a).
        apply load32_ext. intros o Ho. subst m1. unfold memcpy. cbn [data].
        destruct (Z.leb_spec res o), (Z.ltb_spec o (res + r)); try reflexivity.
        exfalso. cbn [andb] in *.
        destruct (Z.eq_dec a y) as [->|Hne].
        + rewrite Hy in Ho. cbn [required] in Ho.
          unfold magic_tail_addr in Ho.
          destruct (chunk_size_of_bounds req Hreq) as (_ & _ & _ & Hint & _).
          rewrite Hint in Ho. lia.
        + destruct (guarded_tail (mem st1) a Hlen1 ltac:(zlia)
                      (conj G1 (conj G2 G3))) as [T1 T2].
          assert (Ty : tracked (mmap_ptr cfg idy) (cfg_dma_segment_size cfg)
                               (mem st1) y (mclass_of req)).
          { split; [exact (placed_in_range _ _ _ _ Py)|].
            rewrite Hy. cbn [shgcon mclass]. split; [discriminate|reflexivity]. }
          destruct (tracked_apart cfg st1 i a _ idy y _ Hcfg Hinv1 Hia Hidy
                      (conj Ra (conj Ha0 eq_refl)) Ty Hne) as [Hap|Hap];
            unfold DMABUF_CHUNK_DATA, offsetof_data, sizeof_cl_uint in *; lia. }
    destruct (_ || _); [discriminate|].
    match goal with
    | |- context [__dmaBufferFree _ ?s p] =>
      pose proof (__dmaBufferFree_use cfg os s p) as Hf;
      destruct (__dmaBufferFree (set_os cfg os) s p) as [u st2|msg st2|?|]
    end; try discriminate; intros [= <-]; apply Hf;
      try reflexivity; try assumption;
      try (now apply dir_inv_set_mem);
      now apply heap_inv_set_data.
Qed.

(** *** Release of all the chunks of a context *)

Lemma free_all_rec_use cfg os fuel :
  cfg_ok cfg ->
  forall st ctx st',
    dir_inv st -> heap_inv cfg st -> lengths_ok (mem st) -> use_inv cfg st ->
    state_of (free_all_rec (set_os cfg os) fuel st ctx) = Some st' ->
    use_inv cfg st'.
Proof.
  intros Hcfg.
  pose proof (cfg_ok_set_os cfg os Hcfg) as Hcfg'.
  induction fuel as [|fuel IH]; intros st ctx st' Hdir Hinv Hlen Hu; simpl.
  - intros [= <-]. assumption.
  - destruct (dma_buffer_list (contexts st ctx)) as [|chunk rest];
      [intros [= <-]; assumption|].
    match goal with |- context [__dmaBufferFree _ ?s ?q] =>
      assert (Hdir1 : dir_inv s) by (now apply dir_inv_set_context);
      assert (Hinv1 : heap_inv cfg s)
        by (apply (heap_inv_same cfg st); try assumption; try reflexivity;
            intros a; tauto);
      assert (Hu1 : use_inv cfg s)
        by (apply (use_inv_same cfg st); try assumption; reflexivity);
      pose proof (__dmaBufferFree_use cfg os s q) as Hf;
      pose proof (__dmaBufferFree_heap (set_os cfg os) s q) as Hh;
      pose proof (__dmaBufferFree_lengths (set_os cfg os) s q) as Hl;
      pose proof (__dmaBufferFree_inv (set_os cfg os) s q) as Hd;
      destruct (__dmaBufferFree (set_os cfg os) s q) as [u st2|msg st2|?|]
    end; try discriminate.
    + apply IH.
      * now apply Hd.
      * apply (heap_inv_set_os cfg os).
        apply Hh; try assumption; [now apply heap_inv_set_os|reflexivity].
      * apply Hl; [assumption|reflexivity|exact Hlen].
      * now apply Hf.
    + intros [= <-]. now apply Hf.
Qed.

(** Every state in service satisfies the invariant of the chunks in use. *)
Lemma serving_use_inv cfg st : cfg_ok cfg -> serving cfg st -> use_inv cfg st.
Proof.
  intros Hcfg Hs.
  induction Hs as [ctxs|st st' os c Hs IH Hwf Hrun].
  - apply use_inv_startup.
  - destruct (serving_inv cfg st Hcfg Hs) as [Hdir Hinv].
    pose proof (serving_lengths cfg st Hs) as Hlen.
    pose proof (cfg_ok_set_os cfg os Hcfg) as Hcfg'.
    destruct c as [ctx req|p|p req|ctx|p]; simpl in Hrun, Hwf.
    + apply (use_inv_set_os cfg os).
      apply (dmaBufferAllocInternal_use (set_os cfg os) st ctx req);
        try assumption.
      * now apply heap_inv_set_os.
      * now apply use_inv_set_os.
    + now apply (__dmaBufferFree_use cfg os st p).
    + destruct Hwf as [Hreq Hown].
      now apply (__dmaBufferRealloc_use cfg os st p req).
    + unfold __dmaBufferFreeAll in Hrun.
      exact (free_all_rec_use cfg os _ Hcfg st ctx st' Hdir Hinv Hlen IH Hrun).
    + apply pointer_validation_state in Hrun; [subst; assumption|assumption].
Qed.

Lemma owned_count_pos m base size :
  0 < owned_count m base size ->
  exists x, base <= x < base + size /\ shgcon (chunks m x) <> None.
Proof.
  unfold owned_count. intros H.
  destruct (filter (has_owner m) (chunk_slots base size)) as [|x l] eqn:E;
    [cbn in H; lia|].
  assert (Hx : In x (filter (has_owner m) (chunk_slots base size)))
    by (rewrite E; now left).
  apply filter_In in Hx as [Hx Ho]. exists x. split.
  - now apply chunk_slots_range.
  - now apply has_owner_true.
Qed.

(** The pointer to the payload of a chunk in use passes
    [pointer_validation], whatever the system calls answer. *)
Lemma in_use_pointer_validation cfg os st id x :
  cfg_ok cfg -> dir_inv st -> heap_inv cfg st -> lengths_ok (mem st) ->
  use_inv cfg st ->
  0 <= id < cfg_max_dma_segment_nums cfg ->
  mmap_ptr cfg id <= x < mmap_ptr cfg id + cfg_dma_segment_size cfg ->
  shgcon (chunks (mem st) x) <> None ->
  pointer_validation (set_os cfg os) st (DMABUF_CHUNK_DATA x) = OK (x, id) st.
Proof.
  intros Hcfg Hdir Hinv Hlen Hu Hid Rx Hx.
  destruct (ui_live cfg st Hu id x Hid Rx Hx) as [Hact (G1 & G2 & G3)].
  apply (live_chunk_validates (set_os cfg os) st id x); try assumption.
  - now apply cfg_ok_set_os.
  - pose proof (Hlen x). unfold offsetof_data, sizeof_cl_uint in *.
    rewrite Size_wrap_small by (change (2 ^ 64) with (2 * 2 ^ 63); lia).
    exact G3.
  - apply (sok_unlinked _ _ _ _ (hinv_seg cfg st Hinv id Hact) x
             (mclass (chunks (mem st) x))).
    split; [exact Rx|]. split; [exact Hx|reflexivity].
Qed.

(** The payload of a chunk in use ends inside the chunk: a fill or a copy
    of it does not run over. *)
Lemma in_use_no_overrun cfg st id x :
  cfg_ok cfg -> heap_inv cfg st -> lengths_ok (mem st) -> use_inv cfg st ->
  0 <= id < cfg_max_dma_segment_nums cfg ->
  mmap_ptr cfg id <= x < mmap_ptr cfg id + cfg_dma_segment_size cfg ->
  shgcon (chunks (mem st) x) <> None ->
  overruns (DMABUF_CHUNK_DATA x) (required (chunks (mem st) x)) = false.
Proof.
  intros Hcfg Hinv Hlen Hu Hid Rx Hx.
  destruct (ui_live cfg st Hu id x Hid Rx Hx) as [Hact (_ & _ & G3)].
  pose proof (tracked_placed cfg st id x _ Hinv Hact
                (conj Rx (conj Hx eq_refl))) as (_ & _ & Hhi & _).
  destruct (cok_size cfg Hcfg) as [Hs _].
  destruct (segment_in_space cfg id
              (mmap_ptr cfg id + cfg_dma_segment_size cfg - 1) Hcfg Hid
              ltac:(lia)) as [_ Htop].
  pose proof (Hlen x) as Hr.
  unfold overruns, DMABUF_CHUNK_DATA. apply Z.ltb_ge.
  unfold offsetof_data, sizeof_cl_uint in *. lia.
Qed.

(** X16: in a state in service every chunk in use is valid, whatever the
    system calls answer: a header with an owner inside the range of a
    segment belongs to a segment on the active list, both markers are in
    place and the length fits the class, so the pointer to its payload
    passes [pointer_validation] without a change of state,
    [dmaBufferValidatePtr] answers true, and [dmaBufferSize] and
    [dmaBufferChunkSize] return the length and the size of the class the
    header records. *)
Theorem chunk_in_use_validates cfg os st id x :
  cfg_ok cfg -> serving cfg st ->
  0 <= id < cfg_max_dma_segment_nums cfg ->
  mmap_ptr cfg id <= x < mmap_ptr cfg id + cfg_dma_segment_size cfg ->
  shgcon (chunks (mem st) x) <> None ->
  In id (active_segment_list st) /\
  magic_head (chunks (mem st) x) = DMABUF_CHUNK_MAGIC_CODE /\
  DMABUF_CHUNK_MAGIC_TAIL (mem st) x = DMABUF_CHUNK_MAGIC_CODE /\
  offsetof_data + required (chunks (mem st) x) + sizeof_cl_uint
  <= pow2 (mclass (chunks (mem st) x)) /\
  pointer_validation (set_os cfg os) st (DMABUF_CHUNK_DATA x) = OK (x, id) st /\
  dmaBufferValidatePtr (set_os cfg os) st (DMABUF_CHUNK_DATA x) = Some true /\
  dmaBufferSize (set_os cfg os) st (DMABUF_CHUNK_DATA x)
  = OK (required (chunks (mem st) x)) st /\
  dmaBufferChunkSize (set_os cfg os) st (DMABUF_CHUNK_DATA x)
  = OK (pow2 (mclass (chunks (mem st) x))) st.
Proof.
  intros Hcfg Hs Hid Rx Hx.
  destruct (serving_inv cfg st Hcfg Hs) as [Hdir Hinv].
  pose proof (serving_lengths cfg st Hs) as Hlen.
  destruct (ui_live cfg st (serving_use_inv cfg st Hcfg Hs) id x Hid Rx Hx)
    as [Hact (G1 & G2 & G3)].
  pose proof (in_use_pointer_validation cfg os st id x Hcfg Hdir Hinv Hlen
                (serving_use_inv cfg st Hcfg Hs) Hid Rx Hx) as Hpv.
  split; [exact Hact|]. split; [exact G1|]. split; [exact G2|].
  split; [exact G3|]. split; [exact Hpv|].
  unfold dmaBufferValidatePtr, dmaBufferSize, dmaBufferChunkSize.
  rewrite Hpv. auto.
Qed.

Lemma chunk_in_use_validates_witness :
  let cfg := cfg_256MB os_all_ok in
  let st := two_small_one_released cfg in
  let x := 2 ^ 40 + 256 in
  In 0 (active_segment_list st) /\
  magic_head (chunks (mem st) x) = DMABUF_CHUNK_MAGIC_CODE /\
  DMABUF_CHUNK_MAGIC_TAIL (mem st) x = DMABUF_CHUNK_MAGIC_CODE /\
  offsetof_data + required (chunks (mem st) x) + sizeof_cl_uint
  <= pow2 (mclass (chunks (mem st) x)) /\
  pointer_validation (set_os cfg os_no_shm_open) st (DMABUF_CHUNK_DATA x)
  = OK (x, 0) st /\
  dmaBufferValidatePtr (set_os cfg os_no_shm_open) st (DMABUF_CHUNK_DATA x)
  = Some true /\
  dmaBufferSize (set_os cfg os_no_shm_open) st (DMABUF_CHUNK_DATA x)
  = OK (required (chunks (mem st) x)) st /\
  dmaBufferChunkSize (set_os cfg os_no_shm_open) st (DMABUF_CHUNK_DATA x)
  = OK (pow2 (mclass (chunks (mem st) x))) st.
Proof.
  intros cfg st x.
  apply (chunk_in_use_validates cfg os_no_shm_open st 0 x).
  - apply cfg_256MB_ok.
  - apply two_small_one_released_serving.
  - vm_compute. split; [discriminate|reflexivity].
  - vm_compute. split; [discriminate|reflexivity].
  - vm_compute. discriminate.
Defined.

(** X17: in a state in service the count [num_chunks] of a segment is
    the number of its chunks in use, the headers with an owner at the
    multiples of 256 bytes from its base; it is never negative, and it is
    zero for a segment that is not on the active list. *)
Theorem num_chunks_counts_chunks_in_use cfg st id :
  cfg_ok cfg -> serving cfg st ->
  0 <= id < cfg_max_dma_segment_nums cfg ->
  num_chunks (segments st id)
  = owned_count (mem st) (mmap_ptr cfg id) (cfg_dma_segment_size cfg) /\
  0 <= num_chunks (segments st id) /\
  (forall x, mmap_ptr cfg id <= x < mmap_ptr cfg id + cfg_dma_segment_size cfg ->
             shgcon (chunks (mem st) x) <> None ->
             In x (chunk_slots (mmap_ptr cfg id) (cfg_dma_segment_size cfg))) /\
  (~ In id (active_segment_list st) -> num_chunks (segments st id) = 0).
Proof.
  intros Hcfg Hs Hid.
  destruct (serving_inv cfg st Hcfg Hs) as [Hdir Hinv].
  pose proof (serving_use_inv cfg st Hcfg Hs) as Hu.
  pose proof (ui_count cfg st Hu id Hid) as Hc.
  split; [exact Hc|]. split; [rewrite Hc; apply owned_count_nonneg|]. split.
  - intros x Rx Hx.
    destruct (ui_live cfg st Hu id x Hid Rx Hx) as [Hact _].
    exact (proj2 (in_use_slot cfg st id x Hinv Hact Rx Hx)).
  - intros Hna. rewrite Hc. apply owned_count_none. intros x Rx.
    destruct (shgcon (chunks (mem st) x)) eqn:E; [|reflexivity].
    exfalso. apply Hna.
    exact (proj1 (ui_live cfg st Hu id x Hid Rx ltac:(congruence))).
Qed.

Lemma num_chunks_counts_chunks_in_use_witness :
  let cfg := cfg_256MB os_all_ok in
  let st := two_small_one_released cfg in
  num_chunks (segments st 0)
  = owned_count (mem st) (mmap_ptr cfg 0) (cfg_dma_segment_size cfg) /\
  0 <= num_chunks (segments st 0) /\
  (forall x, mmap_ptr cfg 0 <= x < mmap_ptr cfg 0 + cfg_dma_segment_size cfg ->
             shgcon (chunks (mem st) x) <> None ->
             In x (chunk_slots (mmap_ptr cfg 0) (cfg_dma_segment_size cfg))) /\
  (~ In 0 (active_segment_list st) -> num_chunks (segments st 0) = 0).
Proof.
  intros cfg st.
  apply (num_chunks_counts_chunks_in_use cfg st 0).
  - apply cfg_256MB_ok.
  - apply two_small_one_released_serving.
  - vm_compute. split; [discriminate|reflexivity].
Defined.

(** X18: in a state in service a segment that is not persistent is on
    the active list exactly when it has a chunk in use: it is created for
    an allocation and detached by the release of its last chunk.  A
    persistent segment with a chunk in use is on the active list too. *)
Theorem active_iff_in_use cfg st id :
  cfg_ok cfg -> serving cfg st ->
  0 <= id < cfg_max_dma_segment_nums cfg ->
  ((exists x, mmap_ptr cfg id <= x < mmap_ptr cfg id + cfg_dma_segment_size cfg /\
              shgcon (chunks (mem st) x) <> None) ->
   In id (active_segment_list st)) /\
  (persistent cfg id = false ->
   In id (active_segment_list st) ->
   0 < num_chunks (segments st id) /\
   exists x, mmap_ptr cfg id <= x < mmap_ptr cfg id + cfg_dma_segment_size cfg /\
             shgcon (chunks (mem st) x) <> None).
Proof.
  intros Hcfg Hs Hid.
  pose proof (serving_use_inv cfg st Hcfg Hs) as Hu. split.
  - intros (x & Rx & Hx). exact (proj1 (ui_live cfg st Hu id x Hid Rx Hx)).
  - intros Hp Hact. pose proof (ui_busy cfg st Hu id Hact Hp) as Hn.
    split; [exact Hn|]. apply owned_count_pos.
    now rewrite <- (ui_count cfg st Hu id Hid).
Qed.

Lemma active_iff_in_use_witness :
  let cfg := cfg_256MB os_all_ok in
  let st := two_small_one_released cfg in
  ((exists x, mmap_ptr cfg 0 <= x < mmap_ptr cfg 0 + cfg_dma_segment_size cfg /\
              shgcon (chunks (mem st) x) <> None) ->
   In 0 (active_segment_list st)) /\
  (persistent cfg 0 = false ->
   In 0 (active_segment_list st) ->
   0 < num_chunks (segments st 0) /\
   exists x, mmap_ptr cfg 0 <= x < mmap_ptr cfg 0 + cfg_dma_segment_size cfg /\
             shgcon (chunks (mem st) x) <> None).
Proof.
  intros cfg st.
  apply (active_iff_in_use cfg st 0).
  - apply cfg_256MB_ok.
  - apply two_small_one_released_serving.
  - vm_compute. split; [discriminate|reflexivity].
Defined.

(** ** The tracker lists of the contexts *)

(** The addresses inside the reserved range that belong to a segment. *)
Definition in_segments (cfg : config) (x : Z) : Prop :=
  exists id, 0 <= id < cfg_max_dma_segment_nums cfg /\
             mmap_ptr cfg id <= x < mmap_ptr cfg id + cfg_dma_segment_size cfg.

(** The list [dma_buffer_list] of every context holds, once each, the
    chunks the context owns. *)
Record track_inv (cfg : config) (st : state) : Prop := mkTrackInv {
  tk_nodup : forall c, NoDup (dma_buffer_list (contexts st c));
  tk_owned : forall c x,
    In x (dma_buffer_list (contexts st c)) ->
    in_segments cfg x /\ shgcon (chunks (mem st) x) = Some c;
  tk_listed : forall c x,
    in_segments cfg x -> shgcon (chunks (mem st) x) = Some c ->
    In x (dma_buffer_list (contexts st c))
}.

(** The states reached from a start-up with empty tracker lists, by the
    calls of [serving]. *)
Inductive tracking (cfg : config) : state -> Prop :=
| tracking_startup (ctxs : Z -> SharedGpuContext) :
    (forall c, dma_buffer_list (ctxs c) = []) ->
    tracking cfg (pgstrom_startup_dma_buffer cfg ctxs)
| tracking_call (st st' : state) (os : os_calls) (c : api_call) :
    tracking cfg st ->
    well_formed st c ->
    run_call (set_os cfg os) st c = Some st' ->
    tracking cfg st'.

Lemma tracking_serving cfg st : tracking cfg st -> serving cfg st.
Proof.
  induction 1 as [ctxs _|st st' os c _ IH Hwf Hrun].
  - apply serving_startup.
  - exact (serving_call cfg st st' os c IH Hwf Hrun).
Qed.

Lemma track_inv_set_os cfg os st :
  track_inv (set_os cfg os) st <-> track_inv cfg st.
Proof. split; intros [H1 H2 H3]; constructor; assumption. Qed.

Lemma track_inv_startup cfg ctxs :
  (forall c, dma_buffer_list (ctxs c) = []) ->
  track_inv cfg (pgstrom_startup_dma_buffer cfg ctxs).
Proof.
  intros H. constructor; unfold pgstrom_startup_dma_buffer; st_simpl.
  - intros c. rewrite H. constructor.
  - intros c x Hx. rewrite H in Hx. destruct Hx.
  - intros c x _ Hx. discriminate Hx.
Qed.

(** The owners and the lists stay. *)
Lemma track_inv_keep cfg st st' :
  track_inv cfg st ->
  (forall a, in_segments cfg a ->
             shgcon (chunks (mem st') a) = shgcon (chunks (mem st) a)) ->
  (forall c, dma_buffer_list (contexts st' c) = dma_buffer_list (contexts st c)) ->
  track_inv cfg st'.
Proof.
  intros [N O L] Ho Hl. constructor.
  - intros c. rewrite Hl. apply N.
  - intros c x Hx. rewrite Hl in Hx. destruct (O c x Hx) as [Hs Hc].
    split; [exact Hs|]. now rewrite Ho.
  - intros c x Hs Hc. rewrite Hl. apply L; [exact Hs|]. now rewrite <- Ho.
Qed.

(** A chunk without owner is given to a context and goes to the tail of
    its list. *)
Lemma track_inv_gain cfg st st' ctx x :
  track_inv cfg st ->
  in_segments cfg x ->
  shgcon (chunks (mem st) x) = None ->
  shgcon (chunks (mem st') x) = Some ctx ->
  (forall a, in_segments cfg a -> a <> x ->
             shgcon (chunks (mem st') a) = shgcon (chunks (mem st) a)) ->
  (forall c, dma_buffer_list (contexts st' c)
             = if c =? ctx then dlist_push_tail (dma_buffer_list (contexts st c)) x
               else dma_buffer_list (contexts st c)) ->
  track_inv cfg st'.
Proof.
  intros [N O L] Hx Hx0 Hx1 Ho Hl.
  assert (Hnew : forall c, ~ In x (dma_buffer_list (contexts st c))).
  { intros c Hin. destruct (O c x Hin) as [_ Hc]. congruence. }
  constructor.
  - intros c. rewrite Hl. destruct (Z.eqb_spec c ctx) as [->|]; [|apply N].
    unfold dlist_push_tail. apply NoDup_app; [apply N|repeat constructor; auto|].
    intros a Ha [<-|[]]. exact (Hnew ctx Ha).
  - intros c a Ha. rewrite Hl in Ha.
    destruct (Z.eqb_spec c ctx) as [->|Hc].
    + unfold dlist_push_tail in Ha. apply in_app_or in Ha as [Ha|[<-|[]]].
      * destruct (O ctx a Ha) as [Hs Hc]. split; [exact Hs|].
        rewrite Ho; [exact Hc|exact Hs|]. intros ->. exact (Hnew ctx Ha).
      * auto.
    + destruct (O c a Ha) as [Hs Ho']. split; [exact Hs|].
      rewrite Ho; [exact Ho'|exact Hs|]. intros ->. exact (Hnew c Ha).
  - intros c a Hs Ha. rewrite Hl. destruct (Z.eq_dec a x) as [->|Hne].
    + rewrite Hx1 in Ha. injection Ha as <-. rewrite Z.eqb_refl.
      unfold dlist_push_tail. apply in_or_app. right. now left.
    + rewrite Ho in Ha by assumption. pose proof (L c a Hs Ha) as Hin.
      destruct (c =? ctx); [|exact Hin].
      unfold dlist_push_tail. apply in_or_app. now left.
Qed.

(** A chunk loses its owner and leaves the list of that context. *)
Lemma track_inv_lose cfg st st' ctx x :
  track_inv cfg st ->
  shgcon (chunks (mem st) x) = Some ctx ->
  shgcon (chunks (mem st') x) = None ->
  (forall a, in_segments cfg a -> a <> x ->
             shgcon (chunks (mem st') a) = shgcon (chunks (mem st) a)) ->
  (forall c, dma_buffer_list (contexts st' c)
             = if c =? ctx then dlist_delete (dma_buffer_list (contexts st c)) x
               else dma_buffer_list (contexts st c)) ->
  track_inv cfg st'.
Proof.
  intros [N O L] Hx0 Hx1 Ho Hl.
  constructor.
  - intros c. rewrite Hl. destruct (c =? ctx); [|apply N].
    apply NoDup_dlist_delete. apply N.
  - intros c a Ha. rewrite Hl in Ha.
    assert (Hin : In a (dma_buffer_list (contexts st c)) /\ a <> x).
    { destruct (Z.eqb_spec c ctx) as [->|Hc].
      - now apply In_dlist_delete in Ha.
      - split; [exact Ha|]. intros ->. destruct (O c x Ha) as [_ Hc'].
        congruence. }
    destruct Hin as [Hin Hne]. destruct (O c a Hin) as [Hs Hc].
    split; [exact Hs|]. now rewrite Ho.
  - intros c a Hs Ha.
    assert (Hne : a <> x) by (intros ->; congruence).
    rewrite Ho in Ha by assumption. pose proof (L c a Hs Ha) as Hin.
    rewrite Hl. destruct (c =? ctx); [|exact Hin].
    apply In_dlist_delete. auto.
Qed.

(** *** What the calls do to the owners and to the lists *)

Lemma track_chunk_contexts st ctx csz x p st' :
  track_chunk st ctx csz x = OK p st' ->
  forall c, dma_buffer_list (contexts st' c)
            = if c =? ctx then dlist_push_tail (dma_buffer_list (contexts st c)) x
              else dma_buffer_list (contexts st c).
Proof.
  unfold track_chunk. destruct (overruns _ _); [discriminate|]. intros H c. injection H as _ <-. st_simpl. unfold upd.
  destruct (Z.eqb_spec c ctx) as [->|]; reflexivity.
Qed.

Lemma dmaBufferAllocInternal_contexts cfg st ctx req p st' :
  dmaBufferAllocInternal cfg st ctx req = OK p st' ->
  forall c, dma_buffer_list (contexts st' c)
            = if c =? ctx
              then dlist_push_tail (dma_buffer_list (contexts st c))
                                   (p - offsetof_data)
              else dma_buffer_list (contexts st c).
Proof.
  unfold dmaBufferAllocInternal.
  destruct (_ >? _); [discriminate|].
  fold (mclass_of req).
  destruct (scan_active_segments st (active_segment_list st)
              (mclass_of req) req) as [[chunk st0]|] eqn:Hscan.
  - rewrite (alloc_retry_scan_some _ _ _ _ _ _ _ _ _ _ Hscan).
    destruct (scan_active_segments_found _ _ _ _ _ _ Hscan)
      as (id & seg' & m' & Hid & E & ->).
    intros Ht c.
    rewrite (track_chunk_contexts _ _ _ _ _ _ Ht c). st_simpl.
    destruct (track_chunk_cases (set_segment (set_mem st m') id seg') ctx
                (chunk_size_of req) chunk) as [[st1 Hp]|Hp]; rewrite Hp in Ht; [|discriminate].
    injection Ht as <- _.
    replace (DMABUF_CHUNK_DATA chunk - offsetof_data) with chunk
      by (unfold DMABUF_CHUNK_DATA; lia).
    reflexivity.
  - rewrite alloc_retry_scan_none by assumption.
    destruct (inactive_segment_list st) as [|id rest] eqn:Hin; [discriminate|].
    destruct (dmaBufferCreateSegment cfg (set_inactive st rest) id)
      as [u st2|m2 st2|m2|] eqn:Hc; try discriminate.
    cbv zeta.
    destruct (dmaBufferCreateSegment_OK _ _ _ _ _ Hc) as (_ & _ & _ & _ & _ & _ & Hcx).
    st_simpl in Hcx.
    destruct (dmaBufferAllocChunk _ _ _ _) as [[[ch sg] mm]|] eqn:E;
      [|discriminate].
    intros Ht c.
    rewrite (track_chunk_contexts _ _ _ _ _ _ Ht c). st_simpl. rewrite Hcx.
    match type of Ht with
    | track_chunk ?s _ _ _ = _ =>
      destruct (track_chunk_cases s ctx (chunk_size_of req) ch) as [[st1 Hp]|Hp]; rewrite Hp in Ht
    end; [|discriminate].
    injection Ht as <- _.
    replace (DMABUF_CHUNK_DATA ch - offsetof_data) with ch
      by (unfold DMABUF_CHUNK_DATA; lia).
    reflexivity.
Qed.

Lemma dmaBufferAllocInternal_error_contexts cfg st ctx req msg st' :
  dmaBufferAllocInternal cfg st ctx req = ERROR msg st' ->
  contexts st' = contexts st.
Proof.
  unfold dmaBufferAllocInternal.
  destruct (_ >? _); [intros [= <- <-]; auto|].
  destruct (scan_active_segments st (active_segment_list st)
              (get_next_log2 (chunk_size_of req)) req) as [[chunk st1]|] eqn:Hscan.
  - rewrite (alloc_retry_scan_some _ _ _ _ _ _ _ _ _ _ Hscan).
    destruct (track_chunk_cases st1 ctx (chunk_size_of req) chunk) as [[x ->]| ->];
    discriminate.
  - rewrite alloc_retry_scan_none by assumption.
    destruct (inactive_segment_list st) as [|id rest] eqn:Hin.
    + intros [= <- <-]. auto.
    + destruct (dmaBufferCreateSegment cfg (set_inactive st rest) id)
        as [u st2|m2 st2|m2|] eqn:Hc; try discriminate.
      * cbv zeta. destruct (dmaBufferAllocChunk _ _ _ _) as [[[ch sg] mm]|];
          [|discriminate].
        match goal with
        | |- track_chunk ?s ?c ?z ?k = _ -> _ =>
          destruct (track_chunk_cases s c z k) as [[x ->]| ->]
        end;
        discriminate.
      * intros [= <- <-].
        apply dmaBufferCreateSegment_error in Hc as (_ & _ & _ & _ & Hcx).
        st_simpl. st_simpl in Hcx. exact Hcx.
Qed.

(** The chunk a successful allocation hands out had no owner; no other
    header of a segment changes its owner. *)
Lemma dmaBufferAllocInternal_owners cfg st ctx req p st' :
  cfg_ok cfg -> dir_inv st -> heap_inv cfg st -> use_inv cfg st ->
  0 <= req < 2 ^ 63 ->
  dmaBufferAllocInternal cfg st ctx req = OK p st' ->
  let x := p - offsetof_data in
  in_segments cfg x /\
  shgcon (chunks (mem st) x) = None /\
  shgcon (chunks (mem st') x) = Some ctx /\
  (forall a, in_segments cfg a -> a <> x ->
             shgcon (chunks (mem st') a) = shgcon (chunks (mem st) a)).
Proof.
  intros Hcfg Hdir Hinv Hu Hreq Ea x0.
  destruct (dmaBufferAllocInternal_OK cfg st ctx req p st' Hcfg Hdir Hinv Hreq Ea)
    as (x & id0 & Hp & _ & Px & Hx & _ & F).
  destruct (dmaBufferAllocInternal_dir cfg st ctx req p st' Hcfg Hdir Hinv Ea)
    as (x' & id & Hp' & Hid & Rx & _ & _ & _ & _ & Ho).
  assert (x' = x) as -> by (unfold DMABUF_CHUNK_DATA in *; lia).
  assert (x0 = x) as -> by (unfold x0, DMABUF_CHUNK_DATA in *; lia).
  split; [exists id; auto|].
  assert (Hx0 : shgcon (chunks (mem st) x) = None).
  { destruct (shgcon (chunks (mem st) x)) eqn:E; [|reflexivity]. exfalso.
    destruct (ui_live cfg st Hu id x Hid Rx ltac:(congruence)) as [Hi _].
    destruct (F id x (mclass (chunks (mem st) x)) Hi) as (_ & Hne & _).
    - split; [exact Rx|]. split; [congruence|reflexivity].
    - now apply Hne. }
  split; [exact Hx0|]. split; [now rewrite Hx|].
  intros a (i & Hi & Ra) Hne.
  destruct (shgcon (chunks (mem st) a)) eqn:E.
  - destruct (ui_live cfg st Hu i a Hi Ra ltac:(congruence)) as [Hia _].
    destruct (F i a (mclass (chunks (mem st) a)) Hia) as (_ & _ & Hh & _).
    + split; [exact Ra|]. split; [congruence|reflexivity].
    + now rewrite Hh.
  - destruct (Ho a Hne) as [H|H]; congruence.
Qed.

Lemma __dmaBufferFree_contexts cfg st p u st' :
  dir_inv st ->
  __dmaBufferFree cfg st p = OK u st' ->
  exists chunk id ctx,
    pointer_validation cfg st p = OK (chunk, id) st /\
    shgcon (chunks (mem st) chunk) = Some ctx /\
    forall c, dma_buffer_list (contexts st' c)
              = if c =? ctx
                then dlist_delete (dma_buffer_list (contexts st c)) chunk
                else dma_buffer_list (contexts st c).
Proof.
  intros Hinv. unfold __dmaBufferFree.
  destruct (pointer_validation cfg st p) as [[chunk id] st0|?|?|] eqn:Hpv;
    try discriminate.
  destruct (pointer_validation_inv _ _ _ _ _ _ Hinv Hpv) as [-> Hact].
  destruct (overruns _ _) eqn:Hover; [discriminate|].
  destruct (shgcon (chunks (mem st) chunk)) as [ctx|] eqn:Eo; [|discriminate].
  destruct (release_chunk _ _ _ _ _) as [seg1 m3] eqn:Er.
  intros H. exists chunk, id, ctx. split; [reflexivity|]. split; [exact Eo|].
  intros c.
  destruct ((num_chunks seg1 >? 0) || persistent cfg id).
  - injection H as H; subst st'; st_simpl;
      unfold upd; destruct (Z.eqb_spec c ctx) as [->|];
      rewrite ?Z.eqb_refl; reflexivity.
  - unfold dmaBufferDetachSegment in H.
    destruct (if is_attached _ then unmap_attached cfg else None);
      [discriminate|].
    destruct (negb (shm_open_ok (cfg_os cfg))); [discriminate|].
    destruct (negb (shm_unlink_ok (cfg_os cfg))); [discriminate|].
    destruct (is_attached _) in H;
      injection H as H; subst st'; st_simpl;
      unfold upd; destruct (Z.eqb_spec c ctx) as [->|];
      rewrite ?Z.eqb_refl; reflexivity.
Qed.

(** A successful release takes the owner of the chunk away and changes
    no other owner. *)
Lemma __dmaBufferFree_owners cfg st p u st' :
  cfg_ok cfg -> dir_inv st -> heap_inv cfg st ->
  __dmaBufferFree cfg st p = OK u st' ->
  exists x id ctx,
    pointer_validation cfg st p = OK (x, id) st /\
    in_segments cfg x /\
    shgcon (chunks (mem st) x) = Some ctx /\
    shgcon (chunks (mem st') x) = None /\
    (forall a, in_segments cfg a -> a <> x ->
               shgcon (chunks (mem st') a) = shgcon (chunks (mem st) a)) /\
    (forall c, dma_buffer_list (contexts st' c)
               = if c =? ctx
                 then dlist_delete (dma_buffer_list (contexts st c)) x
                 else dma_buffer_list (contexts st c)).
Proof.
  intros Hcfg Hdir Hinv Hf.
  destruct (__dmaBufferFree_contexts _ _ _ _ _ Hdir Hf)
    as (x & id & ctx & Hpv & Hown & Hl).
  destruct (__dmaBufferFree_released _ _ _ _ _ Hdir Hf)
    as (x' & id' & ctx' & Hpv' & _ & Hmem & _).
  rewrite Hpv in Hpv'. injection Hpv' as <- <-.
  destruct (pointer_validation_inv _ _ _ _ _ _ Hdir Hpv) as [_ Hact].
  destruct (pointer_validation_range _ _ _ _ _ _ Hcfg Hpv)
    as (_ & Hid & Rx & _).
  destruct (release_seg_ok (mmap_ptr cfg id) (cfg_dma_segment_size cfg)
              (cfg_ok_size_max cfg Hcfg) (segments st id) (mem st)
              (disowned (mem st) x) x
              (hinv_seg cfg st Hinv id Hact) Rx ltac:(congruence) eq_refl)
    as (_ & _ & Hout & Hkeep & Hgone).
  pose proof (release_chunk_owners (mmap_ptr cfg id) (cfg_dma_segment_size cfg)
                (segments st id) (disowned (mem st) x) x) as Hown2.
  rewrite <- Hmem in Hout, Hkeep, Hgone, Hown2.
  exists x, id, ctx. split; [exact Hpv|]. split; [exists id; auto|].
  split; [exact Hown|]. split; [|split; [|exact Hl]].
  - destruct (shgcon (chunks (mem st') x)) eqn:Eg; [|reflexivity].
    exfalso. apply (Hgone (mclass (chunks (mem st') x))).
    split; [exact Rx|]. split; [congruence|reflexivity].
  - intros a (i & Hi & Ra) Hne.
    destruct (Z.eq_dec i id) as [->|Hneq].
    + destruct (shgcon (chunks (mem st) a)) eqn:E.
      * rewrite (Hkeep a (mclass (chunks (mem st) a))); [exact E| |exact Hne].
        split; [exact Ra|]. split; [congruence|reflexivity].
      * destruct (Hown2 a) as [H|H]; [|exact H].
        rewrite H. unfold disowned, set_chunk, memset. cbn [chunks].
        now rewrite upd_other.
    + rewrite Hout; [reflexivity|].
      destruct (segments_apart cfg i id a Hcfg Hneq Ra); lia.
Qed.

(** *** The calls keep the lists exact *)

Lemma dmaBufferAllocInternal_track cfg st ctx req st' :
  cfg_ok cfg -> dir_inv st -> heap_inv cfg st -> use_inv cfg st ->
  track_inv cfg st ->
  0 <= req < 2 ^ 63 ->
  state_of (dmaBufferAllocInternal cfg st ctx req) = Some st' ->
  track_inv cfg st'.
Proof.
  intros Hcfg Hdir Hinv Hu Ht Hreq.
  destruct (dmaBufferAllocInternal cfg st ctx req) as [p st1|msg st1|?|] eqn:Ea;
    try discriminate; intros [= <-].
  - destruct (dmaBufferAllocInternal_owners cfg st ctx req p st1
                Hcfg Hdir Hinv Hu Hreq Ea) as (Hs & H0 & H1 & Ho).
    apply (track_inv_gain cfg st st1 ctx (p - offsetof_data)); try assumption.
    exact (dmaBufferAllocInternal_contexts cfg st ctx req p st1 Ea).
  - pose proof (dmaBufferAllocInternal_error_contexts _ _ _ _ _ _ Ea) as Hc.
    apply dmaBufferAllocInternal_error in Ea as (Hm & _).
    apply (track_inv_keep cfg st); [assumption| |].
    + intros a _. now rewrite Hm.
    + intros c. now rewrite Hc.
Qed.

Lemma __dmaBufferFree_track cfg st p st' :
  cfg_ok cfg -> dir_inv st -> heap_inv cfg st -> track_inv cfg st ->
  state_of (__dmaBufferFree cfg st p) = Some st' ->
  track_inv cfg st'.
Proof.
  intros Hcfg Hdir Hinv Ht.
  destruct (__dmaBufferFree cfg st p) as [u st1|msg st1|?|] eqn:E;
    try discriminate; intros [= <-].
  2: { now rewrite (__dmaBufferFree_error _ _ _ _ _ Hdir E). }
  destruct (__dmaBufferFree_owners cfg st p u st1 Hcfg Hdir Hinv E)
    as (x & id & ctx & _ & _ & H0 & H1 & Ho & Hl).
  exact (track_inv_lose cfg st st1 ctx x Ht H0 H1 Ho Hl).
Qed.

Lemma __dmaBufferRealloc_track cfg os st p req st' :
  cfg_ok cfg -> dir_inv st -> heap_inv cfg st -> lengths_ok (mem st) ->
  use_inv cfg st -> track_inv cfg st ->
  0 <= req < 2 ^ 63 ->
  shgcon (chunks (mem st) (Size_wrap (p - offsetof_data))) <> None ->
  state_of (__dmaBufferRealloc (set_os cfg os) st p req) = Some st' ->
  track_inv cfg st'.
Proof.
  intros Hcfg Hdir Hinv Hlen Hu Ht Hreq Hown.
  pose proof (cfg_ok_set_os cfg os Hcfg) as Hcfg'.
  destruct (pointer_validation (set_os cfg os) st p)
    as [[chunk id] st0|msg st0|?|] eqn:Hpv.
  2: { unfold __dmaBufferRealloc. rewrite Hpv. intros [= <-].
       assert (st0 = st) as ->; [|assumption].
       apply (pointer_validation_state (set_os cfg os) st p); [assumption|].
       now rewrite Hpv. }
  2, 3: unfold __dmaBufferRealloc; rewrite Hpv; discriminate.
  destruct (pointer_validation_inv _ _ _ _ _ _ Hdir Hpv) as [-> Hact].
  destruct (pointer_validation_range _ _ _ _ _ _ Hcfg' Hpv)
    as (Hchunk & Hid & Rx & _).
  rewrite <- Hchunk in Hown.
  set (k := mclass (chunks (mem st) chunk)) in *.
  destruct (Z.lt_total (mclass_of req) k) as [Hlt|[Heq|Hgt]].
  - (* a smaller class *)
    destruct (__dmaBufferRealloc (set_os cfg os) st p req)
      as [q st1|msg st1|?|] eqn:E; try discriminate.
    2: { exfalso. revert E. unfold __dmaBufferRealloc. rewrite Hpv.
         fold (mclass_of req). fold k.
         destruct (Z.eqb_spec (mclass_of req) k); [lia|].
         destruct (Z.ltb_spec (mclass_of req) k); [|lia].
         destruct (shrink_chunks _ _ _ _ _ _ _). discriminate. }
    intros [= <-].
    assert (Hcx : contexts st1 = contexts st).
    { revert E. unfold __dmaBufferRealloc. rewrite Hpv.
      fold (mclass_of req). fold k.
      destruct (Z.eqb_spec (mclass_of req) k); [lia|].
      destruct (Z.ltb_spec (mclass_of req) k); [|lia].
      destruct (shrink_chunks _ _ _ _ _ _ _). intros [= _ <-]. reflexivity. }
    destruct (__dmaBufferRealloc_shrink cfg os os st p req q st1 Hcfg Hdir Hinv
                Hreq ltac:(rewrite <- Hchunk; exact Hown)
                ltac:(rewrite <- Hchunk; exact Hlt) E)
      as (id' & _ & _ & Hh & _ & _ & _ & _ & _ & _ & _ & _ & _ & Ho & Hfr).
    rewrite <- Hchunk in Hh, Hfr.
    apply (track_inv_keep cfg st); [assumption| |intros c; now rewrite Hcx].
    intros a (i & Hi & Ra). destruct (Z.eq_dec a chunk) as [->|Hne].
    + rewrite Hh. reflexivity.
    + destruct (shgcon (chunks (mem st) a)) eqn:Ea.
      * destruct (ui_live cfg st Hu i a Hi Ra ltac:(congruence)) as [Hia _].
        destruct (Hfr i a (mclass (chunks (mem st) a)) Hia) as [Hha _];
          [split; [exact Ra|]; split; [congruence|reflexivity]|exact Hne|].
        now rewrite Hha.
      * destruct (Ho a) as [H|H]; congruence.
  - (* the same class *)
    unfold __dmaBufferRealloc. rewrite Hpv. fold (mclass_of req). fold k.
    rewrite (proj2 (Z.eqb_eq _ _) Heq). intros [= <-].
    apply (track_inv_keep cfg st); [assumption| |reflexivity].
    intros a _. st_simpl. unfold set_MAGIC_TAIL, store32, set_chunk.
    cbn [chunks]. unfold upd.
    destruct (Z.eqb_spec a chunk) as [->|]; reflexivity.
  - (* a larger class *)
    unfold __dmaBufferRealloc. rewrite Hpv. fold (mclass_of req). fold k.
    destruct (Z.eqb_spec (mclass_of req) k); [lia|].
    destruct (Z.ltb_spec (mclass_of req) k); [lia|].
    destruct (shgcon (chunks (mem st) chunk)) as [ctx|] eqn:Ec;
      [|now destruct Hown].
    pose proof (dmaBufferAllocInternal_track (set_os cfg os) st ctx req) as Hat.
    assert (Hinv' : heap_inv (set_os cfg os) st) by (now apply heap_inv_set_os).
    assert (Hu' : use_inv (set_os cfg os) st) by (now apply use_inv_set_os).
    assert (Ht' : track_inv (set_os cfg os) st) by (now apply track_inv_set_os).
    destruct (dmaBufferAllocInternal (set_os cfg os) st ctx req)
      as [res st1|msg st1|?|] eqn:Ea; try discriminate.
    2: { intros [= <-]. apply (track_inv_set_os cfg os). now apply Hat. }
    assert (Ht1 : track_inv cfg st1).
    { apply (track_inv_set_os cfg os). now apply Hat. }
    assert (Hdir1 : dir_inv st1).
    { apply (dmaBufferAllocInternal_inv (set_os cfg os) st ctx req);
        [assumption|]. now rewrite Ea. }
    assert (Hinv1 : heap_inv cfg st1).
    { apply (heap_inv_set_os cfg os).
      apply (dmaBufferAllocInternal_heap (set_os cfg os) st ctx req);
        [assumption|assumption|]. now rewrite Ea. }
    destruct (_ || _); [discriminate|].
    match goal with
    | |- context [__dmaBufferFree _ ?s p] =>
      pose proof (__dmaBufferFree_track (set_os cfg os) s p) as Hf;
      destruct (__dmaBufferFree (set_os cfg os) s p) as [u st2|msg st2|?|]
    end; try discriminate; intros [= <-];
      apply (track_inv_set_os cfg os); apply Hf;
      try reflexivity; try assumption;
      try (now apply dir_inv_set_mem);
      try (apply heap_inv_set_os; now apply heap_inv_set_data);
      apply track_inv_set_os;
      (apply (track_inv_keep cfg st1); [assumption| |reflexivity]);
      intros a _; reflexivity.
Qed.

(** *** Release of all the chunks of a context *)

(** The system calls of [dmaBufferDetachSegment] succeed. *)
Definition detach_calls_ok (cfg : config) : Prop :=
  unmap_attached cfg = None /\ shm_open_ok (cfg_os cfg) = true /\
  shm_unlink_ok (cfg_os cfg) = true.

(** The release of a chunk in use returns, or the process dies in
    [dmaBufferDetachSegment] on a failing system call. *)
Lemma __dmaBufferFree_in_use cfg os st id x :
  cfg_ok cfg -> dir_inv st -> heap_inv cfg st -> lengths_ok (mem st) ->
  use_inv cfg st ->
  0 <= id < cfg_max_dma_segment_nums cfg ->
  mmap_ptr cfg id <= x < mmap_ptr cfg id + cfg_dma_segment_size cfg ->
  shgcon (chunks (mem st) x) <> None ->
  (exists st', __dmaBufferFree (set_os cfg os) st (DMABUF_CHUNK_DATA x)
               = OK tt st') \/
  ((exists msg, __dmaBufferFree (set_os cfg os) st (DMABUF_CHUNK_DATA x)
                = FATAL msg) /\
   ~ detach_calls_ok (set_os cfg os)).
Proof.
  intros Hcfg Hdir Hinv Hlen Hu Hid Rx Hx.
  pose proof (in_use_pointer_validation cfg os st id x Hcfg Hdir Hinv Hlen Hu
                Hid Rx Hx) as Hpv.
  pose proof (in_use_no_overrun cfg st id x Hcfg Hinv Hlen Hu Hid Rx Hx) as Hover.
  destruct (shgcon (chunks (mem st) x)) as [ctx|] eqn:Ec; [|now destruct Hx].
  destruct (__dmaBufferFree_of_valid (set_os cfg os) st (DMABUF_CHUNK_DATA x)
              x id ctx Hpv Hover Ec)
    as [[[st' H]|[msg H]] Hok].
  - left. eauto.
  - right. split; [eauto|]. intros (H1 & H2 & H3).
    destruct (Hok H1 H2 H3) as [st' H']. congruence.
Qed.

Lemma free_all_rec_spec cfg os fuel :
  cfg_ok cfg ->
  forall st ctx,
    dir_inv st -> heap_inv cfg st -> lengths_ok (mem st) ->
    use_inv cfg st -> track_inv cfg st ->
    (List.length (dma_buffer_list (contexts st ctx)) < fuel)%nat ->
    (exists st',
       free_all_rec (set_os cfg os) fuel st ctx = OK tt st' /\
       track_inv cfg st' /\
       dma_buffer_list (contexts st' ctx) = [] /\
       (forall c, c <> ctx ->
                  dma_buffer_list (contexts st' c) = dma_buffer_list (contexts st c)) /\
       (forall a, in_segments cfg a ->
                  shgcon (chunks (mem st') a) = shgcon (chunks (mem st) a) \/
                  shgcon (chunks (mem st') a) = None) /\
       (forall a c, in_segments cfg a ->
                    shgcon (chunks (mem st) a) = Some c -> c <> ctx ->
                    chunks (mem st') a = chunks (mem st) a /\
                    forall o, a <= o < a + pow2 (mclass (chunks (mem st) a)) ->
                              data (mem st') o = data (mem st) o))
    \/
    ((exists msg, free_all_rec (set_os cfg os) fuel st ctx = FATAL msg) /\
     ~ detach_calls_ok (set_os cfg os)).
Proof.
  intros Hcfg.
  pose proof (cfg_ok_set_os cfg os Hcfg) as Hcfg'.
  induction fuel as [|fuel IH]; intros st ctx Hdir Hinv Hlen Hu Ht Hfuel;
    [lia|].
  cbn [free_all_rec].
  destruct (dma_buffer_list (contexts st ctx)) as [|chunk rest] eqn:El.
  { left. exists st. split; [reflexivity|]. split; [exact Ht|].
    split; [exact El|]. split; [reflexivity|]. split; [now left|].
    intros a c _ _ _. split; reflexivity. }
  set (st1 := set_context st ctx (mkCtx rest)).
  assert (Hdir1 : dir_inv st1) by (now apply dir_inv_set_context).
  assert (Hinv1 : heap_inv cfg st1)
    by (apply (heap_inv_same cfg st); try assumption; try reflexivity;
        intros a; tauto).
  assert (Hu1 : use_inv cfg st1)
    by (apply (use_inv_same cfg st); try assumption; reflexivity).
  assert (Hlen1 : lengths_ok (mem st1)) by exact Hlen.
  destruct (tk_owned cfg st Ht ctx chunk ltac:(rewrite El; now left))
    as [(id & Hid & Rx) Hc].
  pose proof (tk_nodup cfg st Ht ctx) as Hnd. rewrite El in Hnd.
  apply NoDup_cons_iff in Hnd as [Hnotin Hnd].
  destruct (__dmaBufferFree_in_use cfg os st1 id chunk Hcfg Hdir1 Hinv1 Hlen1 Hu1
              Hid Rx ltac:(change (mem st1) with (mem st); congruence))
    as [[st2 Hf]|[[msg Hf] Hbad]].
  2: { right. rewrite Hf. split; [eauto|exact Hbad]. }
  rewrite Hf.
  destruct (__dmaBufferFree_owners (set_os cfg os) st1 _ tt st2 Hcfg' Hdir1
              ltac:(now apply heap_inv_set_os) Hf)
    as (x & id' & ctx' & Hpv & _ & H0 & H1 & Ho & Hl).
  rewrite (in_use_pointer_validation cfg os st1 id chunk Hcfg Hdir1 Hinv1 Hlen1
             Hu1 Hid Rx ltac:(change (mem st1) with (mem st); congruence))
    in Hpv.
  injection Hpv as <- <-.
  change (mem st1) with (mem st) in H0, Ho.
  assert (ctx' = ctx) as -> by congruence.
  assert (Hl2 : forall c, dma_buffer_list (contexts st2 c)
                          = if c =? ctx
                            then dlist_delete (dma_buffer_list (contexts st c)) chunk
                            else dma_buffer_list (contexts st c)).
  { intros c. rewrite Hl. subst st1. st_simpl. unfold upd.
    destruct (Z.eqb_spec c ctx) as [->|]; [|reflexivity].
    cbn [dma_buffer_list]. rewrite El.
    rewrite (dlist_delete_absent rest chunk Hnotin).
    unfold dlist_delete. cbn [remove].
    destruct (Z.eq_dec chunk chunk) as [_|]; [|congruence].
    symmetry. now apply notin_remove. }
  assert (Ho2 : forall a, in_segments cfg a -> a <> chunk ->
                          shgcon (chunks (mem st2) a) = shgcon (chunks (mem st) a)).
  { intros a Ha Hne. apply Ho; assumption. }
  assert (Ht2 : track_inv cfg st2)
    by (exact (track_inv_lose cfg st st2 ctx chunk Ht H0 H1 Ho2 Hl2)).
  assert (Hdir2 : dir_inv st2).
  { apply (__dmaBufferFree_inv (set_os cfg os) st1 (DMABUF_CHUNK_DATA chunk));
      [assumption|]. now rewrite Hf. }
  assert (Hinv2 : heap_inv cfg st2).
  { apply (heap_inv_set_os cfg os).
    apply (__dmaBufferFree_heap (set_os cfg os) st1 (DMABUF_CHUNK_DATA chunk));
      try assumption; [now apply heap_inv_set_os|now rewrite Hf]. }
  assert (Hlen2 : lengths_ok (mem st2)).
  { apply (__dmaBufferFree_lengths (set_os cfg os) st1 (DMABUF_CHUNK_DATA chunk));
      [assumption|now rewrite Hf|assumption]. }
  assert (Hu2 : use_inv cfg st2).
  { apply (__dmaBufferFree_use cfg os st1 (DMABUF_CHUNK_DATA chunk));
      try assumption. now rewrite Hf. }
  assert (Hrest : dma_buffer_list (contexts st2 ctx) = rest).
  { rewrite Hl2, Z.eqb_refl, El. unfold dlist_delete. cbn [remove].
    destruct (Z.eq_dec chunk chunk) as [_|]; [|congruence].
    now apply notin_remove. }
  destruct (__dmaBufferFree_frame cfg os st1 _ st2 Hcfg Hdir1 Hinv1 Hlen1 Hf)
    as (id'' & Hpv' & _ & _ & _ & _ & _ & _ & _ & Hfr).
  rewrite (in_use_pointer_validation cfg os st1 id chunk Hcfg Hdir1 Hinv1 Hlen1
             Hu1 Hid Rx ltac:(change (mem st1) with (mem st); congruence))
    in Hpv'.
  injection Hpv' as Hch' _. rewrite <- Hch' in Hfr.
  change (mem st1) with (mem st) in Hfr.
  change (active_segment_list st1) with (active_segment_list st) in Hfr.
  destruct (IH st2 ctx Hdir2 Hinv2 Hlen2 Hu2 Ht2 ltac:(rewrite Hrest; cbn in Hfuel; lia))
    as [(st' & Hr & Ht' & Hl' & Hoth & Hkept & Hfrs)|[[msg Hr] Hbad]].
  2: { right. split; [eauto|exact Hbad]. }
  left. exists st'. split; [exact Hr|]. split; [exact Ht'|].
  split; [exact Hl'|]. split; [|split].
  - intros c Hne. rewrite (Hoth c Hne), Hl2.
    destruct (Z.eqb_spec c ctx); [contradiction|reflexivity].
  - intros a Ha. destruct (Hkept a Ha) as [H|H]; [|now right].
    rewrite H. destruct (Z.eq_dec a chunk) as [->|Hne]; [now right|].
    left. now apply Ho2.
  - intros a c (i & Hi & Ra) Hac Hne.
    assert (Hach : a <> chunk) by (intros ->; congruence).
    destruct (ui_live cfg st Hu i a Hi Ra ltac:(congruence)) as [Hia _].
    destruct (Hfr i a (mclass (chunks (mem st) a)) Hia) as [Hh Hd];
      [split; [exact Ra|]; split; [congruence|reflexivity]|exact Hach|].
    destruct (Hfrs a c ltac:(exists i; auto) ltac:(rewrite Hh; exact Hac) Hne)
      as [Hh' Hd'].
    split; [congruence|].
    intros o Ho'. rewrite Hd' by (rewrite Hh; exact Ho'). now apply Hd.
Qed.

(** Every state reached from a start-up with empty lists has exact
    lists. *)
Lemma tracking_track_inv cfg st : cfg_ok cfg -> tracking cfg st -> track_inv cfg st.
Proof.
  intros Hcfg Hs.
  induction Hs as [ctxs Hctxs|st st' os c Hs IH Hwf Hrun].
  - now apply track_inv_startup.
  - pose proof (tracking_serving cfg st Hs) as Hsv.
    destruct (serving_inv cfg st Hcfg Hsv) as [Hdir Hinv].
    pose proof (serving_lengths cfg st Hsv) as Hlen.
    pose proof (serving_use_inv cfg st Hcfg Hsv) as Hu.
    pose proof (cfg_ok_set_os cfg os Hcfg) as Hcfg'.
    destruct c as [ctx req|p|p req|ctx|p]; simpl in Hrun, Hwf.
    + apply (track_inv_set_os cfg os).
      apply (dmaBufferAllocInternal_track (set_os cfg os) st ctx req);
        try assumption.
      * now apply heap_inv_set_os.
      * now apply use_inv_set_os.
      * now apply track_inv_set_os.
    + apply (track_inv_set_os cfg os).
      apply (__dmaBufferFree_track (set_os cfg os) st p); try assumption.
      * now apply heap_inv_set_os.
      * now apply track_inv_set_os.
    + destruct Hwf as [Hreq Hown].
      now apply (__dmaBufferRealloc_track cfg os st p req).
    + unfold __dmaBufferFreeAll in Hrun.
      destruct (free_all_rec_spec cfg os
                  (S (List.length (dma_buffer_list (contexts st ctx)))) Hcfg
                  st ctx Hdir Hinv Hlen Hu IH ltac:(lia))
        as [(st2 & Hr & Ht2 & _)|[[msg Hr] _]]; rewrite Hr in Hrun.
      * injection Hrun as <-. exact Ht2.
      * discriminate.
    + apply pointer_validation_state in Hrun; [subst; assumption|assumption].
Qed.

Lemma run_allocs_tracking cfg os ctx reqs :
  Forall (fun req => 0 <= req < 2 ^ 63) reqs ->
  forall st st',
    tracking cfg st ->
    run_calls (set_os cfg os) st (map (CallAlloc ctx) reqs) = Some st' ->
    tracking cfg st'.
Proof.
  induction 1 as [|req rest Hreq _ IH]; intros st st' Hs; simpl.
  - intros [= <-]. assumption.
  - destruct (state_of (dmaBufferAllocInternal (set_os cfg os) st ctx req))
      as [st1|] eqn:E; [|discriminate].
    apply IH. exact (tracking_call cfg st st1 os (CallAlloc ctx req) Hs Hreq E).
Qed.

Lemma state_after_tracking cfg os ctx reqs :
  Forall (fun req => 0 <= req < 2 ^ 63) reqs ->
  run_calls (set_os cfg os) (startup cfg) (map (CallAlloc ctx) reqs) <> None ->
  tracking cfg (state_after (set_os cfg os) (map (CallAlloc ctx) reqs)).
Proof.
  intros Hreqs. unfold state_after.
  change (startup (set_os cfg os)) with (startup cfg).
  destruct (run_calls (set_os cfg os) (startup cfg) (map (CallAlloc ctx) reqs))
    as [st|] eqn:E; [intros _|congruence].
  eapply run_allocs_tracking; [exact Hreqs| |exact E].
  apply tracking_startup. reflexivity.
Qed.

(** X19: in a state in service any chunk in use can be released,
    whatever the system calls answer: [__dmaBufferFree] on the pointer
    to its payload raises no error and dereferences no null owner.  It
    returns, or the process dies with the FATAL error of
    [dmaBufferDetachSegment], which takes a failing system call. *)
Theorem chunk_in_use_can_be_released cfg os st id x :
  cfg_ok cfg -> serving cfg st ->
  0 <= id < cfg_max_dma_segment_nums cfg ->
  mmap_ptr cfg id <= x < mmap_ptr cfg id + cfg_dma_segment_size cfg ->
  shgcon (chunks (mem st) x) <> None ->
  (exists st', __dmaBufferFree (set_os cfg os) st (DMABUF_CHUNK_DATA x)
               = OK tt st') \/
  ((exists msg, __dmaBufferFree (set_os cfg os) st (DMABUF_CHUNK_DATA x)
                = FATAL msg) /\
   ~ detach_calls_ok (set_os cfg os)).
Proof.
  intros Hcfg Hs Hid Rx Hx.
  destruct (serving_inv cfg st Hcfg Hs) as [Hdir Hinv].
  exact (__dmaBufferFree_in_use cfg os st id x Hcfg Hdir Hinv
           (serving_lengths cfg st Hs) (serving_use_inv cfg st Hcfg Hs)
           Hid Rx Hx).
Qed.

Lemma chunk_in_use_can_be_released_witness :
  let cfg := cfg_256MB os_all_ok in
  let st := two_small_one_released cfg in
  let x := 2 ^ 40 + 256 in
  (exists st', __dmaBufferFree (set_os cfg os_no_shm_open) st (DMABUF_CHUNK_DATA x)
               = OK tt st') \/
  ((exists msg, __dmaBufferFree (set_os cfg os_no_shm_open) st (DMABUF_CHUNK_DATA x)
                = FATAL msg) /\
   ~ detach_calls_ok (set_os cfg os_no_shm_open)).
Proof.
  intros cfg st x.
  apply (chunk_in_use_can_be_released cfg os_no_shm_open st 0 x).
  - apply cfg_256MB_ok.
  - apply two_small_one_released_serving.
  - vm_compute. split; [discriminate|reflexivity].
  - vm_compute. split; [discriminate|reflexivity].
  - vm_compute. discriminate.
Defined.

(** X20: from a start-up with empty tracker lists, the list
    [dma_buffer_list] of every context holds exactly the chunks the
    context owns, each once: a chunk is on the list of [c] if and only if
    it lies in a segment and its header names [c] as its owner. *)
Theorem tracker_lists_exact cfg st c :
  cfg_ok cfg -> tracking cfg st ->
  NoDup (dma_buffer_list (contexts st c)) /\
  forall x, In x (dma_buffer_list (contexts st c)) <->
            in_segments cfg x /\ shgcon (chunks (mem st) x) = Some c.
Proof.
  intros Hcfg Hs. pose proof (tracking_track_inv cfg st Hcfg Hs) as Ht.
  split; [apply (tk_nodup cfg st Ht)|]. intros x. split.
  - apply (tk_owned cfg st Ht).
  - intros [H1 H2]. now apply (tk_listed cfg st Ht).
Qed.

Lemma tracker_lists_exact_witness :
  let cfg := cfg_256MB os_all_ok in
  let st := state_after cfg (map (CallAlloc 0) [100; 100]) in
  NoDup (dma_buffer_list (contexts st 0)) /\
  forall x, In x (dma_buffer_list (contexts st 0)) <->
            in_segments cfg x /\ shgcon (chunks (mem st) x) = Some 0.
Proof.
  intros cfg st.
  apply (tracker_lists_exact cfg st 0).
  - apply cfg_256MB_ok.
  - apply (state_after_tracking (cfg_256MB os_all_ok) os_all_ok 0 [100; 100]).
    + repeat constructor; lia.
    + apply is_Some_not_None. vm_compute. reflexivity.
Defined.

(** X21: from a start-up with empty tracker lists,
    [__dmaBufferFreeAll] releases every chunk of the context and nothing
    else.  It raises no error: it returns, or the process dies with the
    FATAL error of [dmaBufferDetachSegment] on a failing system call.
    When it returns the list of the context is empty, no chunk of any
    segment is owned by the context, the lists of the other contexts are
    what they were, and the chunks of the other contexts keep their
    header and their bytes. *)
Theorem free_all_releases_everything cfg os st ctx :
  cfg_ok cfg -> tracking cfg st ->
  (exists st',
     __dmaBufferFreeAll (set_os cfg os) st ctx = OK tt st' /\
     dma_buffer_list (contexts st' ctx) = [] /\
     (forall a, in_segments cfg a -> shgcon (chunks (mem st') a) <> Some ctx) /\
     (forall c, c <> ctx ->
                dma_buffer_list (contexts st' c) = dma_buffer_list (contexts st c)) /\
     (forall a c, in_segments cfg a ->
                  shgcon (chunks (mem st) a) = Some c -> c <> ctx ->
                  chunks (mem st') a = chunks (mem st) a /\
                  forall o, a <= o < a + pow2 (mclass (chunks (mem st) a)) ->
                            data (mem st') o = data (mem st) o))
  \/
  ((exists msg, __dmaBufferFreeAll (set_os cfg os) st ctx = FATAL msg) /\
   ~ detach_calls_ok (set_os cfg os)).
Proof.
  intros Hcfg Hs.
  pose proof (tracking_serving cfg st Hs) as Hsv.
  destruct (serving_inv cfg st Hcfg Hsv) as [Hdir Hinv].
  unfold __dmaBufferFreeAll.
  destruct (free_all_rec_spec cfg os
              (S (List.length (dma_buffer_list (contexts st ctx)))) Hcfg
              st ctx Hdir Hinv (serving_lengths cfg st Hsv)
              (serving_use_inv cfg st Hcfg Hsv)
              (tracking_track_inv cfg st Hcfg Hs) ltac:(lia))
    as [(st' & Hr & Ht' & Hl & Hoth & _ & Hfr)|Hbad];
    [left|right; exact Hbad].
  exists st'. split; [exact Hr|]. split; [exact Hl|].
  split; [|split; [exact Hoth|exact Hfr]].
  intros a Ha Hown. pose proof (tk_listed cfg st' Ht' ctx a Ha Hown) as Hin.
  rewrite Hl in Hin. destruct Hin.
Qed.

Lemma free_all_releases_everything_witness :
  let cfg := cfg_256MB os_all_ok in
  let st := state_after cfg (map (CallAlloc 0) [100; 100]) in
  (exists st',
     __dmaBufferFreeAll (set_os cfg os_all_ok) st 0 = OK tt st' /\
     dma_buffer_list (contexts st' 0) = [] /\
     (forall a, in_segments cfg a -> shgcon (chunks (mem st') a) <> Some 0) /\
     (forall c, c <> 0 ->
                dma_buffer_list (contexts st' c) = dma_buffer_list (contexts st c)) /\
     (forall a c, in_segments cfg a ->
                  shgcon (chunks (mem st) a) = Some c -> c <> 0 ->
                  chunks (mem st') a = chunks (mem st) a /\
                  forall o, a <= o < a + pow2 (mclass (chunks (mem st) a)) ->
                            data (mem st') o = data (mem st) o))
  \/
  ((exists msg, __dmaBufferFreeAll (set_os cfg os_all_ok) st 0 = FATAL msg) /\
   ~ detach_calls_ok (set_os cfg os_all_ok)).
Proof.
  intros cfg st.
  apply (free_all_releases_everything cfg os_all_ok st 0).
  - apply cfg_256MB_ok.
  - apply (state_after_tracking (cfg_256MB os_all_ok) os_all_ok 0 [100; 100]).
    + repeat constructor; lia.
    + apply is_Some_not_None. vm_compute. reflexivity.
Defined.

(** ** The report of the segments *)

(** The chunks a walk comes by. *)
Fixpoint walk_list (fuel : nat) (m : memory) (pos tail : Z) : option (list Z) :=
  match fuel with
  | O => None
  | S fuel' =>
    if pos <? tail then
      match walk_list fuel' m (pos + pow2 (mclass (chunks m pos))) tail with
      | Some l => Some (pos :: l)
      | None => None
      end
    else Some []
  end.

(** The chunks of a list that have the class [i] and null links, or set
    links. *)
Definition of_class (m : memory) (i : Z) (null : bool) (x : Z) : bool :=
  (mclass (chunks m x) =? i)
  && Bool.eqb (node_is_null (free_chain (chunks m x))) null.

Definition count_class (m : memory) (i : Z) (null : bool) (l : list Z) : Z :=
  Z.of_nat (List.length (filter (of_class m i null) l)).

Lemma count_class_cons m i null x l :
  count_class m i null (x :: l)
  = (if of_class m i null x then 1 else 0) + count_class m i null l.
Proof.
  unfold count_class. cbn [filter]. destruct (of_class m i null x);
    cbn [List.length]; lia.
Qed.

Lemma count_class_bounds m i null l :
  0 <= count_class m i null l <= Z.of_nat (List.length l).
Proof.
  unfold count_class. pose proof (filter_length_le (of_class m i null) l). lia.
Qed.

Lemma int_wrap_small (x : Z) : - 2 ^ 31 <= x < 2 ^ 31 -> int_wrap x = x.
Proof.
  intros H. unfold int_wrap. rewrite Z.mod_small by lia. lia.
Qed.

(** The counts of a walk are those of the chunks it comes by. *)
Lemma info_walk_counts m tail i (fuel : nat) :
  forall pos a f l,
    walk_list fuel m pos tail = Some l ->
    0 <= a -> 0 <= f ->
    a + Z.of_nat (List.length l) < 2 ^ 31 ->
    f + Z.of_nat (List.length l) < 2 ^ 31 ->
    info_walk fuel m pos tail i (a, f)
    = Some (a + count_class m i true l, f + count_class m i false l).
Proof.
  induction fuel as [|fuel IH]; intros pos a f l; cbn [walk_list info_walk];
    [discriminate|].
  destruct (pos <? tail).
  - destruct (walk_list fuel m _ tail) as [l'|] eqn:E; [|discriminate].
    intros [= <-] Ha Hf Hal Hfl. cbn [List.length] in Hal, Hfl.
    rewrite !count_class_cons. unfold of_class. cbn [fst snd].
    pose proof (count_class_bounds m i true l').
    pose proof (count_class_bounds m i false l').
    destruct (mclass (chunks m pos) =? i); cbn [andb].
    + destruct (node_is_null (free_chain (chunks m pos))); cbn [Bool.eqb].
      * rewrite int_wrap_small by lia.
        rewrite (IH _ (a + 1) f l' E) by lia. f_equal. f_equal; lia.
      * rewrite int_wrap_small by lia.
        rewrite (IH _ a (f + 1) l' E) by lia. f_equal. f_equal; lia.
    + rewrite (IH _ a f l' E) by lia. reflexivity.
  - intros [= <-] _ _ _ _. unfold count_class. cbn. f_equal. f_equal; lia.
Qed.

(** The sizes of the chunks of a list. *)
Definition total_size (m : memory) (l : list Z) : Z :=
  fold_right (fun x s => pow2 (mclass (chunks m x)) + s) 0 l.

Section Walk.

Variables base size : Z.
Variable seg : dmaBufferSegment.
Variable m : memory.
Variable oth : Z -> Z -> Prop.
Hypothesis Htiled : seg_tiled base size seg m oth.

Let ch := chunk_of seg oth.

Lemma chunk_class x c : ch x c -> mclass (chunks m x) = c.
Proof.
  intros [H|H].
  - exact (proj1 (sti_free _ _ _ _ _ Htiled c x H)).
  - exact (proj1 (sti_other _ _ _ _ _ Htiled x c H)).
Qed.

(** Behind a chunk comes a chunk, or the end of the segment. *)
Lemma chunk_behind x c :
  ch x c -> x + pow2 c < base + size -> exists d, ch (x + pow2 c) d.
Proof.
  intros Hx Hlt.
  pose proof (sti_tiling _ _ _ _ _ Htiled) as T.
  pose proof (til_placed _ _ _ T x c Hx) as Px.
  pose proof (placed_pos _ _ _ _ Px) as Hp.
  destruct Px as (_ & Hb & _).
  destruct (til_cover _ _ _ T (x + pow2 c) ltac:(lia)) as (y & d & Hy & Hr).
  exists d. replace (x + pow2 c) with y; [exact Hy|].
  destruct (Z.eq_dec y (x + pow2 c)) as [|Hne]; [assumption|exfalso].
  pose proof (til_placed _ _ _ T y d Hy) as Py.
  destruct (Z.eq_dec x y) as [->|Hxy].
  - pose proof (til_class _ _ _ T y c d Hx Hy). subst d. lia.
  - destruct (chunks_apart base size _ x c y d T Hx Hy Hxy); lia.
Qed.

Lemma walk_list_tiled (fuel : nat) :
  forall pos,
    pos = base + size \/ (exists c, ch pos c) ->
    (Z.to_nat ((base + size - pos) / DMABUF_CHUNKSZ_MIN) < fuel)%nat ->
    exists l,
      walk_list fuel m pos (base + size) = Some l /\
      (forall x, In x l <-> pos <= x /\ exists c, ch x c) /\
      NoDup l /\
      Z.of_nat (List.length l) <= (base + size - pos) / DMABUF_CHUNKSZ_MIN /\
      total_size m l = base + size - pos.
Proof.
  pose proof (sti_tiling _ _ _ _ _ Htiled) as T.
  change DMABUF_CHUNKSZ_MIN with 256.
  induction fuel as [|fuel IH]; intros pos Hpos Hfuel; [lia|].
  cbn [walk_list].
  destruct Hpos as [->|[c Hc]].
  - rewrite Z.ltb_irrefl. exists []. split; [reflexivity|]. split.
    + intros x. split; [intros []|]. intros [Hx [d Hd]].
      pose proof (til_placed _ _ _ T x d Hd) as Px.
      pose proof (placed_pos _ _ _ _ Px). destruct Px as (_ & _ & He & _). lia.
    + split; [constructor|]. split; [|cbn; lia].
      cbn [List.length]. replace (base + size - (base + size)) with 0 by lia.
      cbn. lia.
  - pose proof (til_placed _ _ _ T pos c Hc) as Pc.
    pose proof (placed_pos _ _ _ _ Pc) as Hp.
    destruct Pc as (Hcr & Hb & He & _).
    assert (H256 : 256 <= pow2 c).
    { change 256 with (pow2 DMABUF_CHUNKSZ_MIN_BIT). apply pow2_mono. zlia. }
    destruct (Z.ltb_spec pos (base + size)) as [_|]; [|lia].
    rewrite (chunk_class pos c Hc).
    assert (Hdiv : (base + size - (pos + pow2 c)) / 256 + 1
                   <= (base + size - pos) / 256).
    { replace ((base + size - (pos + pow2 c)) / 256 + 1)
        with ((base + size - (pos + pow2 c) + 1 * 256) / 256)
        by (rewrite Z.div_add by lia; reflexivity).
      apply Z.div_le_mono; lia. }
    assert (Hnn : 0 <= (base + size - (pos + pow2 c)) / 256)
      by (apply Z.div_pos; lia).
    destruct (IH (pos + pow2 c)) as (l & Hl & Hin & Hnd & Hlen & Htot).
    { destruct (Z.eq_dec (pos + pow2 c) (base + size)) as [|Hne];
        [now left|right].
      apply (chunk_behind pos c Hc). lia. }
    { lia. }
    rewrite Hl. exists (pos :: l). split; [reflexivity|]. split; [|split; [|split]].
    + intros x. split.
      * intros [<-|Hx]; [split; [lia|eauto]|].
        apply Hin in Hx as [Hx Hd]. split; [lia|exact Hd].
      * intros [Hx [d Hd]]. destruct (Z.eq_dec pos x) as [->|Hne]; [now left|].
        right. apply Hin. split; [|eauto].
        destruct (chunks_apart base size _ pos c x d T Hc Hd Hne); [|lia].
        pose proof (placed_pos _ _ _ _ (til_placed _ _ _ T x d Hd)). lia.
    + constructor; [|exact Hnd]. intros Hx. apply Hin in Hx as [Hx _]. lia.
    + cbn [List.length]. lia.
    + cbn [total_size fold_right]. fold (total_size m l).
      rewrite (chunk_class pos c Hc). lia.
Qed.

End Walk.

(** The classes [i], [i + 1], ... of [n] turns of the loop over the
    classes. *)
Fixpoint class_seq (i : Z) (n : nat) : list Z :=
  match n with
  | O => []
  | S n' => i :: class_seq (i + 1) n'
  end.

Lemma In_class_seq (n : nat) :
  forall i j, In j (class_seq i n) <-> i <= j < i + Z.of_nat n.
Proof.
  induction n as [|n IH]; intros i j; cbn [class_seq In].
  - split; [intros []|lia].
  - rewrite IH. lia.
Qed.

Definition Zsum (f : Z -> Z) (l : list Z) : Z :=
  fold_right (fun i s => f i + s) 0 l.

Lemma Zsum_ext f g l :
  (forall i, In i l -> f i = g i) -> Zsum f l = Zsum g l.
Proof.
  induction l as [|a l IH]; intros H; [reflexivity|].
  cbn [Zsum fold_right]. fold (Zsum f l). fold (Zsum g l).
  rewrite (H a) by now left. rewrite IH; [reflexivity|].
  intros i Hi. apply H. now right.
Qed.

Lemma Zsum_add f g l : Zsum (fun i => f i + g i) l = Zsum f l + Zsum g l.
Proof.
  induction l as [|a l IH]; [reflexivity|].
  cbn [Zsum fold_right]. fold (Zsum f l). fold (Zsum g l).
  fold (Zsum (fun i => f i + g i) l). lia.
Qed.

Lemma Zsum_zero l : Zsum (fun _ => 0) l = 0.
Proof. induction l as [|a l IH]; [reflexivity|]. cbn [Zsum fold_right]. exact IH. Qed.

(** One class of the list takes the whole sum. *)
Lemma Zsum_single (v : Z -> Z) (c : Z) (n : nat) :
  forall i,
    Zsum (fun j => if c =? j then v j else 0) (class_seq i n)
    = if (i <=? c) && (c <? i + Z.of_nat n) then v c else 0.
Proof.
  induction n as [|n IH]; intros i; cbn [class_seq Zsum fold_right].
  - destruct (Z.leb_spec i c); cbn [andb]; [|reflexivity].
    destruct (Z.ltb_spec c (i + Z.of_nat 0)); [lia|reflexivity].
  - fold (Zsum (fun j => if c =? j then v j else 0) (class_seq (i + 1) n)).
    rewrite IH.
    destruct (Z.eqb_spec c i) as [->|Hne].
    + destruct (Z.leb_spec (i + 1) i); [lia|]. cbn [andb].
      destruct (Z.leb_spec i i); [|lia].
      destruct (Z.ltb_spec i (i + Z.of_nat (S n))); [|lia]. cbn [andb]. lia.
    + destruct (Z.leb_spec (i + 1) c), (Z.leb_spec i c); try lia; cbn [andb];
        [|reflexivity].
      destruct (Z.ltb_spec c (i + 1 + Z.of_nat n)),
               (Z.ltb_spec c (i + Z.of_nat (S n))); try lia; reflexivity.
Qed.

(** The elements of a list counted class by class, with a weight for
    each class. *)
Lemma Zsum_classes (w cls : Z -> Z) (Q : Z -> bool) (i : Z) (n : nat)
  (l : list Z) :
  (forall x, In x l -> Q x = true -> i <= cls x < i + Z.of_nat n) ->
  Zsum (fun j => w j * Z.of_nat (List.length
                                   (filter (fun x => Q x && (cls x =? j)) l)))
       (class_seq i n)
  = fold_right (fun x s => (if Q x then w (cls x) else 0) + s) 0 l.
Proof.
  induction l as [|x l IH]; intros H.
  - cbn [filter List.length fold_right].
    rewrite (Zsum_ext _ (fun _ => 0)) by (intros; lia). apply Zsum_zero.
  - cbn [fold_right]. rewrite <- IH by (intros y Hy; apply H; now right).
    rewrite <- (Zsum_ext
                  (fun j => (if cls x =? j then (if Q x then w j else 0) else 0)
                            + w j * Z.of_nat (List.length
                                 (filter (fun y => Q y && (cls y =? j)) l)))).
    + rewrite Zsum_add. f_equal. rewrite Zsum_single.
      destruct (Q x) eqn:Eq.
      * specialize (H x ltac:(now left) Eq).
        destruct (Z.leb_spec i (cls x)), (Z.ltb_spec (cls x) (i + Z.of_nat n));
          try lia; reflexivity.
      * destruct (_ && _); reflexivity.
    + intros j _. cbn [filter].
      destruct (Q x); cbn [andb]; [|destruct (cls x =? j); lia].
      destruct (cls x =? j); cbn [List.length]; lia.
Qed.

Lemma NoDup_same_length (l1 l2 : list Z) :
  NoDup l1 -> NoDup l2 -> (forall x, In x l1 <-> In x l2) ->
  List.length l1 = List.length l2.
Proof.
  intros N1 N2 H. apply Nat.le_antisymm.
  - apply NoDup_incl_length; [exact N1|]. intros x Hx. now apply H.
  - apply NoDup_incl_length; [exact N2|]. intros x Hx. now apply H.
Qed.

(** The chunks in use of a segment that have the class [i]. *)
Definition in_use_of_class (m : memory) (base size i : Z) : Z :=
  Z.of_nat (List.length
              (filter (fun x => has_owner m x && (mclass (chunks m x) =? i))
                      (chunk_slots base size))).

(** Among the chunks of a segment, those with set links are the free
    chunks and those with null links the chunks in use. *)
Lemma walk_counts base size seg m l :
  seg_ok base size seg m ->
  (forall x, In x l <->
             base <= x /\ exists c, chunk_of seg (tracked base size m) x c) ->
  NoDup l ->
  forall i,
    count_class m i false l = Z.of_nat (List.length (free_chunks seg i)) /\
    count_class m i true l = in_use_of_class m base size i.
Proof.
  intros [T U B] Hin Hnd i.
  pose proof (sti_tiling _ _ _ _ _ T) as Til.
  unfold count_class, in_use_of_class. split; f_equal.
  - apply NoDup_same_length; [now apply NoDup_filter|apply (sti_nodup _ _ _ _ _ T)|].
    intros x. rewrite filter_In. unfold of_class. split.
    + intros [Hx Hc]. apply andb_prop in Hc as [Hc Hn].
      apply Z.eqb_eq in Hc. apply Hin in Hx as [_ [c [Hf|Ho]]].
      * destruct (sti_free _ _ _ _ _ T c x Hf) as [Hcl _]. congruence.
      * rewrite (U x c Ho) in Hn. discriminate.
    + intros Hf. destruct (sti_free _ _ _ _ _ T i x Hf) as [Hcl Hlk].
      split.
      * apply Hin. split; [|exists i; now left].
        pose proof (til_placed _ _ _ Til x i ltac:(now left)) as (_ & Hb & _).
        exact Hb.
      * rewrite Hcl, Hlk, Z.eqb_refl. reflexivity.
  - apply NoDup_same_length;
      [now apply NoDup_filter|apply NoDup_filter, chunk_slots_NoDup|].
    intros x. rewrite !filter_In. unfold of_class. split.
    + intros [Hx Hc]. apply andb_prop in Hc as [Hc Hn].
      apply Hin in Hx as [_ [c [Hf|Ho]]].
      * destruct (sti_free _ _ _ _ _ T c x Hf) as [_ Hlk].
        rewrite Hlk in Hn. discriminate.
      * split.
        -- apply (placed_slot _ _ _ c).
           apply (til_placed _ _ _ Til). now right.
        -- rewrite Hc, andb_true_r. apply has_owner_true.
           exact (proj1 (proj2 Ho)).
    + intros [Hx Hc]. apply andb_prop in Hc as [Ho Hc].
      apply has_owner_true in Ho. apply Z.eqb_eq in Hc.
      assert (Ht : tracked base size m x i).
      { split; [now apply chunk_slots_range|]. split; assumption. }
      split.
      * apply Hin. split; [|exists i; now right].
        now apply chunk_slots_range in Hx.
      * rewrite Hc, Z.eqb_refl, (U x i Ht). reflexivity.
Qed.

Lemma count_class_split m i l :
  count_class m i true l + count_class m i false l
  = Z.of_nat (List.length (filter (fun x => true && (mclass (chunks m x) =? i)) l)).
Proof.
  set (g := fun x => true && (mclass (chunks m x) =? i)).
  assert (Hg : forall x, g x = (mclass (chunks m x) =? i)) by reflexivity.
  induction l as [|x l IH]; [reflexivity|].
  rewrite !count_class_cons. cbn [filter]. rewrite Hg. unfold of_class.
  destruct (mclass (chunks m x) =? i); cbn [andb List.length];
    [destruct (node_is_null _); cbn [Bool.eqb]|]; lia.
Qed.

Lemma filter_length_sum (f : Z -> bool) (l : list Z) :
  fold_right (fun x s => (if f x then 1 else 0) + s) 0 l
  = Z.of_nat (List.length (filter f l)).
Proof.
  induction l as [|x l IH]; [reflexivity|].
  cbn [fold_right filter]. rewrite IH.
  destruct (f x); cbn [List.length]; lia.
Qed.

(** The row of the report for the segment [id] and the class [i]: the
    chunks in use and the free chunks of the class. *)
Definition info_row (cfg : config) (st : state) (id i : Z) : dma_seg_info :=
  mkInfo (int_wrap id) (int_wrap (revision (segments st id))) i
         (in_use_of_class (mem st) (mmap_ptr cfg id) (cfg_dma_segment_size cfg) i)
         (Z.of_nat (List.length (free_chunks (segments st id) i))).

Definition sum_rows (f : dma_seg_info -> Z) (rows : list dma_seg_info) : Z :=
  fold_right (fun r s => f r + s) 0 rows.

Lemma sum_rows_map f (row : Z -> dma_seg_info) l :
  sum_rows f (map row l) = Zsum (fun i => f (row i)) l.
Proof.
  induction l as [|a l IH]; [reflexivity|].
  cbn [map sum_rows fold_right Zsum]. fold (sum_rows f (map row l)).
  fold (Zsum (fun i => f (row i)) l). now rewrite IH.
Qed.

(** The walk over a segment on the active list comes by all its chunks
    and ends at its tail. *)
Lemma segment_walk cfg st id :
  cfg_ok cfg -> heap_inv cfg st -> In id (active_segment_list st) ->
  let base := mmap_ptr cfg id in
  let size := cfg_dma_segment_size cfg in
  exists l,
    walk_list (info_fuel size) (mem st) base (base + size) = Some l /\
    (forall x, In x l <->
               base <= x /\
               exists c, chunk_of (segments st id) (tracked base size (mem st)) x c) /\
    NoDup l /\
    Z.of_nat (List.length l) <= size / DMABUF_CHUNKSZ_MIN /\
    total_size (mem st) l = size.
Proof.
  intros Hcfg Hinv Hact base size.
  pose proof (sok_tiled _ _ _ _ (hinv_seg cfg st Hinv id Hact)) as T.
  pose proof (sti_tiling _ _ _ _ _ T) as Til.
  destruct (cok_size cfg Hcfg) as [Hs1 Hs2]. fold size in Hs1, Hs2.
  destruct (walk_list_tiled base size (segments st id) (mem st)
              (tracked base size (mem st)) T (info_fuel size) base)
    as (l & Hl & Hin & Hnd & Hlen & Htot).
  - right. destruct (til_cover _ _ _ Til base ltac:(lia)) as (x & c & Hx & Hr).
    exists c. assert (E : x = base).
    { pose proof (til_placed _ _ _ Til x c Hx) as (_ & Hb & _).
      fold base in Hb. lia. }
    rewrite E in Hx. exact Hx.
  - unfold info_fuel. replace (base + size - base) with size by lia. lia.
  - exists l. replace (base + size - base) with size in Hlen, Htot by lia. auto.
Qed.

Lemma info_of_class_spec cfg st id i :
  cfg_ok cfg -> heap_inv cfg st -> In id (active_segment_list st) ->
  info_of_class cfg st id i = Some (info_row cfg st id i).
Proof.
  intros Hcfg Hinv Hact.
  destruct (segment_walk cfg st id Hcfg Hinv Hact)
    as (l & Hl & Hin & Hnd & Hlen & _).
  destruct (cok_size cfg Hcfg) as [_ Hs2].
  assert (Hb : cfg_dma_segment_size cfg / DMABUF_CHUNKSZ_MIN <= 2 ^ 26).
  { change DMABUF_CHUNKSZ_MIN with 256. apply Z.div_le_upper_bound; lia. }
  unfold info_of_class.
  rewrite (info_walk_counts _ _ i _ _ 0 0 l Hl) by lia.
  destruct (walk_counts _ _ _ _ l (hinv_seg cfg st Hinv id Hact) Hin Hnd i)
    as [Hf Ha].
  cbn [fst snd]. rewrite Hf, Ha. reflexivity.
Qed.

Lemma info_classes_spec cfg st id (n : nat) :
  cfg_ok cfg -> heap_inv cfg st -> In id (active_segment_list st) ->
  forall i, info_classes cfg st id i n
            = Some (map (info_row cfg st id) (class_seq i n)).
Proof.
  intros Hcfg Hinv Hact.
  induction n as [|n IH]; intros i; cbn [info_classes class_seq map];
    [reflexivity|].
  rewrite (info_of_class_spec cfg st id i Hcfg Hinv Hact), IH. reflexivity.
Qed.

(** A segment on the active list is mapped by this process: a first
    access to it does not fault. *)
Lemma dmaBufferAttachSegmentOnDemand_active cfg st id :
  dir_inv st -> In id (active_segment_list st) ->
  dmaBufferAttachSegmentOnDemand cfg st id = Some st.
Proof.
  intros Hdir Hact. unfold dmaBufferAttachSegmentOnDemand.
  destruct (inv_local st Hdir id Hact) as [-> ->].
  rewrite (proj1 (inv_active st Hdir id) Hact), Z.eqb_refl. reflexivity.
Qed.

Lemma info_segments_spec cfg st segs :
  cfg_ok cfg -> dir_inv st -> heap_inv cfg st ->
  (forall id, In id segs -> In id (active_segment_list st)) ->
  info_segments cfg st segs
  = Some (OK (flat_map (fun id => map (info_row cfg st id)
                                     (class_seq DMABUF_CHUNKSZ_MIN_BIT 27))
                       segs) st).
Proof.
  intros Hcfg Hdir Hinv.
  induction segs as [|id rest IH]; intros Hsub; cbn [info_segments flat_map];
    [reflexivity|].
  rewrite (dmaBufferAttachSegmentOnDemand_active cfg st id Hdir)
    by (apply Hsub; now left).
  rewrite (info_classes_spec cfg st id _ Hcfg Hinv) by (apply Hsub; now left).
  rewrite IH by (intros i Hi; apply Hsub; now right).
  reflexivity.
Qed.

(** The rows of a segment add up: the chunks in use to the headers with
    an owner, and the sizes of all the chunks to the size of the
    segment. *)
Lemma info_row_totals cfg st id :
  cfg_ok cfg -> heap_inv cfg st -> In id (active_segment_list st) ->
  Zsum (fun i => n_actives (info_row cfg st id i))
       (class_seq DMABUF_CHUNKSZ_MIN_BIT 27)
  = owned_count (mem st) (mmap_ptr cfg id) (cfg_dma_segment_size cfg) /\
  Zsum (fun i => (n_actives (info_row cfg st id i)
                  + n_frees (info_row cfg st id i)) * pow2 i)
       (class_seq DMABUF_CHUNKSZ_MIN_BIT 27)
  = cfg_dma_segment_size cfg.
Proof.
  intros Hcfg Hinv Hact.
  pose proof (hinv_seg cfg st Hinv id Hact) as Hok.
  pose proof (sti_tiling _ _ _ _ _ (sok_tiled _ _ _ _ Hok)) as Til.
  split.
  - cbn [n_actives info_row]. unfold in_use_of_class, owned_count.
    rewrite <- filter_length_sum.
    rewrite <- (Zsum_classes (fun _ => 1) (fun x => mclass (chunks (mem st) x))
                  (has_owner (mem st)) DMABUF_CHUNKSZ_MIN_BIT 27).
    + apply Zsum_ext. intros i _. rewrite Z.mul_1_l. reflexivity.
    + intros x Hx Ho. apply has_owner_true in Ho.
      apply chunk_slots_range in Hx.
      destruct (tracked_placed cfg st id x _ Hinv Hact
                  (conj Hx (conj Ho eq_refl))) as (Hc & _). zlia.
  - destruct (segment_walk cfg st id Hcfg Hinv Hact)
      as (l & _ & Hin & Hnd & _ & Htot).
    rewrite (Zsum_ext _ (fun j => pow2 j * Z.of_nat (List.length
               (filter (fun x => true && (mclass (chunks (mem st) x) =? j)) l)))).
    + rewrite (Zsum_classes pow2 (fun x => mclass (chunks (mem st) x))
                 (fun _ => true) DMABUF_CHUNKSZ_MIN_BIT 27 l); [exact Htot|].
      intros x Hx _. apply Hin in Hx as [_ [c Hc]].
      pose proof (til_placed _ _ _ Til x c Hc) as (Hcr & _).
      rewrite (chunk_class _ _ _ _ _ (sok_tiled _ _ _ _ Hok) x c Hc).
      zlia.
    + intros i _. cbn [n_actives n_frees info_row].
      destruct (walk_counts _ _ _ _ l Hok Hin Hnd i) as [Hf Ha].
      rewrite <- Hf, <- Ha, count_class_split. lia.
Qed.

(** X22: in a state in service [pgstrom_dma_buffer_info] builds its
    list of rows without a fault and without an endless walk, whatever
    the system calls answer, and leaves the state as it is.  The rows
    are, for each segment of the active list in the order of the list
    and for each class from 8 to 34 in ascending order, the number of
    chunks in use of that class and the length of the free list of that
    class; every walk comes by the chunks of the segment one after the
    other and ends at the tail of the segment. *)
Theorem info_report cfg os st :
  cfg_ok cfg -> serving cfg st ->
  pgstrom_dma_buffer_info (set_os cfg os) st
  = Some (OK (flat_map (fun id => map (info_row cfg st id)
                                     (class_seq DMABUF_CHUNKSZ_MIN_BIT 27))
                       (active_segment_list st)) st) /\
  forall id, In id (active_segment_list st) ->
    exists l,
      walk_list (info_fuel (cfg_dma_segment_size cfg)) (mem st) (mmap_ptr cfg id)
                (mmap_ptr cfg id + cfg_dma_segment_size cfg) = Some l /\
      total_size (mem st) l = cfg_dma_segment_size cfg /\
      forall i a f,
        0 <= a -> 0 <= f ->
        a + Z.of_nat (List.length l) < 2 ^ 31 ->
        f + Z.of_nat (List.length l) < 2 ^ 31 ->
        info_walk (info_fuel (cfg_dma_segment_size cfg)) (mem st)
                  (mmap_ptr cfg id)
                  (mmap_ptr cfg id + cfg_dma_segment_size cfg) i (a, f)
        = Some (a + n_actives (info_row cfg st id i),
                f + n_frees (info_row cfg st id i)).
Proof.
  intros Hcfg Hs.
  destruct (serving_inv cfg st Hcfg Hs) as [Hdir Hinv]. split.
  - unfold pgstrom_dma_buffer_info.
    rewrite (info_segments_spec (set_os cfg os) st (active_segment_list st)
               (cfg_ok_set_os cfg os Hcfg) Hdir
               ltac:(now apply heap_inv_set_os) ltac:(auto)).
    reflexivity.
  - intros id Hact.
    destruct (segment_walk cfg st id Hcfg Hinv Hact)
      as (l & Hl & Hin & Hnd & _ & Htot).
    exists l. split; [exact Hl|]. split; [exact Htot|].
    intros i a f Ha Hf Hal Hfl.
    rewrite (info_walk_counts _ _ i _ _ a f l Hl Ha Hf Hal Hfl).
    destruct (walk_counts _ _ _ _ l (hinv_seg cfg st Hinv id Hact) Hin Hnd i)
      as [Ef Ea].
    cbn [n_actives n_frees info_row]. now rewrite Ef, Ea.
Qed.

Lemma info_report_witness :
  let cfg := cfg_256MB os_all_ok in
  let st := two_small_one_released cfg in
  pgstrom_dma_buffer_info (set_os cfg os_no_shm_open) st
  = Some (OK (flat_map (fun id => map (info_row cfg st id)
                                     (class_seq DMABUF_CHUNKSZ_MIN_BIT 27))
                       (active_segment_list st)) st) /\
  forall id, In id (active_segment_list st) ->
    exists l,
      walk_list (info_fuel (cfg_dma_segment_size cfg)) (mem st) (mmap_ptr cfg id)
                (mmap_ptr cfg id + cfg_dma_segment_size cfg) = Some l /\
      total_size (mem st) l = cfg_dma_segment_size cfg /\
      forall i a f,
        0 <= a -> 0 <= f ->
        a + Z.of_nat (List.length l) < 2 ^ 31 ->
        f + Z.of_nat (List.length l) < 2 ^ 31 ->
        info_walk (info_fuel (cfg_dma_segment_size cfg)) (mem st)
                  (mmap_ptr cfg id)
                  (mmap_ptr cfg id + cfg_dma_segment_size cfg) i (a, f)
        = Some (a + n_actives (info_row cfg st id i),
                f + n_frees (info_row cfg st id i)).
Proof.
  intros cfg st.
  apply (info_report cfg os_no_shm_open st).
  - apply cfg_256MB_ok.
  - apply two_small_one_released_serving.
Defined.

(** X23: in a state in service the rows [pgstrom_dma_buffer_info]
    builds for a segment of the active list add up: the counts of chunks
    in use over the classes give [num_chunks] of the segment, and the
    chunks counted, in use or free, each with the size of its class, give
    [dma_segment_size]. *)
Theorem info_report_totals cfg os st id :
  cfg_ok cfg -> serving cfg st ->
  In id (active_segment_list st) ->
  exists rows,
    info_classes (set_os cfg os) st id DMABUF_CHUNKSZ_MIN_BIT
                 (Z.to_nat (DMABUF_CHUNKSZ_MAX_BIT - DMABUF_CHUNKSZ_MIN_BIT + 1))
    = Some rows /\
    sum_rows n_actives rows = num_chunks (segments st id) /\
    sum_rows (fun r => (n_actives r + n_frees r) * pow2 (info_mclass r)) rows
    = cfg_dma_segment_size cfg.
Proof.
  intros Hcfg Hs Hact.
  destruct (serving_inv cfg st Hcfg Hs) as [Hdir Hinv].
  exists (map (info_row cfg st id) (class_seq DMABUF_CHUNKSZ_MIN_BIT 27)).
  split.
  - exact (info_classes_spec (set_os cfg os) st id 27
             (cfg_ok_set_os cfg os Hcfg) ltac:(now apply heap_inv_set_os) Hact
             DMABUF_CHUNKSZ_MIN_BIT).
  - destruct (info_row_totals cfg st id Hcfg Hinv Hact) as [H1 H2].
    rewrite !sum_rows_map. split.
    + rewrite H1. symmetry.
      apply (ui_count cfg st (serving_use_inv cfg st Hcfg Hs)).
      apply (hinv_ids cfg st Hinv). now left.
    + exact H2.
Qed.

Lemma info_report_totals_witness :
  let cfg := cfg_256MB os_all_ok in
  let st := two_small_one_released cfg in
  exists rows,
    info_classes (set_os cfg os_all_ok) st 0 DMABUF_CHUNKSZ_MIN_BIT
                 (Z.to_nat (DMABUF_CHUNKSZ_MAX_BIT - DMABUF_CHUNKSZ_MIN_BIT + 1))
    = Some rows /\
    sum_rows n_actives rows = num_chunks (segments st 0) /\
    sum_rows (fun r => (n_actives r + n_frees r) * pow2 (info_mclass r)) rows
    = cfg_dma_segment_size cfg.
Proof.
  intros cfg st.
  apply (info_report_totals cfg os_all_ok st 0).
  - apply cfg_256MB_ok.
  - apply two_small_one_released_serving.
  - vm_compute. left. reflexivity.
Defined.

(** ** The two lists of segments *)









(** *** The calls keep every segment on one list *)










(** ** A segment with no chunk in use *)

Section Idle.

Variables base size : Z.
Variable seg : dmaBufferSegment.
Variable m : memory.
Hypothesis Hsize : 0 < size <= pow2 DMABUF_CHUNKSZ_MAX_BIT.
Hypothesis Hok : seg_ok base size seg m.
Hypothesis Hidle :
  forall x, base <= x < base + size -> shgcon (chunks m x) = None.

Let ch := chunk_of seg (tracked base size m).

(** All the chunks of the segment are free. *)
Lemma idle_chunk x c : ch x c -> In x (free_chunks seg c).
Proof.
  intros [H|(Rx & Ho & _)]; [exact H|]. now rewrite (Hidle x Rx) in Ho.
Qed.

Lemma free_is_chunk x c : In x (free_chunks seg c) -> ch x c.
Proof. intros H. now left. Qed.

(** From a chunk on, the chunks get smaller and smaller: behind a free
    chunk of class [b] that is the lower half of a chunk of class
    [b + 1], less than [2^b] bytes are left, and every chunk there is
    the lower half of a chunk that does not fit the segment. *)
Lemma merged_from (fuel : nat) :
  forall pos b,
    (Z.to_nat ((base + size - pos) / DMABUF_CHUNKSZ_MIN) < fuel)%nat ->
    pos = base + size \/ (exists c, ch pos c) ->
    (pos = base /\ b = DMABUF_CHUNKSZ_MAX_BIT + 1) \/
    (exists prev, In prev (free_chunks seg b) /\ pos = prev + pow2 b /\
                  (prev - base) mod pow2 (b + 1) = 0) ->
    base + size - pos < pow2 b /\
    forall x c, In x (free_chunks seg c) -> pos <= x ->
                (x - base) mod pow2 (c + 1) = 0 /\
                pow2 c <= base + size - x < pow2 (c + 1).
Proof.
  pose proof (sok_tiled _ _ _ _ Hok) as T.
  pose proof (sti_tiling _ _ _ _ _ T) as Til.
  change DMABUF_CHUNKSZ_MIN with 256.
  induction fuel as [|fuel IH]; intros pos b Hfuel Hpos Hprev; [lia|].
  assert (Hb : DMABUF_CHUNKSZ_MIN_BIT <= b <= DMABUF_CHUNKSZ_MAX_BIT + 1).
  { destruct Hprev as [[_ ->]|(prev & Hp & _)]; [zlia|].
    pose proof (til_placed _ _ _ Til prev b (free_is_chunk _ _ Hp)) as (H & _).
    zlia. }
  assert (Hb0 : 0 <= b) by zlia.
  pose proof (pow2_pos b Hb0) as Hpb.
  destruct Hpos as [->|[c0 Hc0]].
  { split; [lia|]. intros x c Hx Hle.
    pose proof (til_placed _ _ _ Til x c (free_is_chunk _ _ Hx)) as Px.
    pose proof (placed_pos _ _ _ _ Px). destruct Px as (_ & _ & He & _). lia. }
  pose proof (til_placed _ _ _ Til pos c0 Hc0) as P0.
  pose proof (placed_pos _ _ _ _ P0) as Hp0.
  destruct P0 as (Hcr & Hb1 & He & Hm).
  assert (Hc00 : 0 <= c0) by zlia.
  pose proof (pow2_succ c0 Hc00) as Hs0.
  (* the class of the chunk is below [b], and the chunk is a lower half *)
  assert (Hlow : c0 < b /\ (pos - base) mod pow2 (c0 + 1) = 0).
  { destruct Hprev as [[-> ->]|(prev & Hp & -> & Hal)].
    - split; [zlia|]. replace (base - base) with 0 by lia. apply Z.mod_0_l.
      pose proof (pow2_pos (c0 + 1) ltac:(lia)). lia.
    - pose proof (pow2_succ b Hb0) as Hsb.
      apply mod_pow2_multiple in Hal as [q Hq]; [|lia].
      assert (Hlt : c0 < b).
      { destruct (Z_lt_le_dec c0 b) as [|Hge]; [assumption|exfalso].
        destruct (Z.eq_dec c0 b) as [->|Hne].
        - apply (sok_buddies _ _ _ _ Hok b prev Hp (idle_chunk _ _ Hc0)).
          rewrite Hq. apply multiple_mod_pow2. lia.
        - assert (Hm' : (prev + pow2 b - base) mod pow2 (b + 1) = 0)
            by (apply (mod_pow2_weaken _ (b + 1) c0); [lia|exact Hm]).
          apply mod_pow2_multiple in Hm' as [q' Hq']; [|lia].
          rewrite Hsb in Hq, Hq'.
          assert (E : pow2 b * (2 * q + 1 - 2 * q') = 0) by lia.
          apply Z.mul_eq_0 in E. lia. }
      split; [exact Hlt|].
      apply (mod_pow2_weaken _ (c0 + 1) b); [lia|].
      replace (prev + pow2 b - base) with (pow2 b * (2 * q + 1)) by lia.
      apply multiple_mod_pow2. lia. }
  destruct Hlow as [Hlt Hal].
  assert (H256 : 256 <= pow2 c0).
  { change 256 with (pow2 DMABUF_CHUNKSZ_MIN_BIT). apply pow2_mono. zlia. }
  assert (Hdiv : (base + size - (pos + pow2 c0)) / 256 + 1
                 <= (base + size - pos) / 256).
  { replace ((base + size - (pos + pow2 c0)) / 256 + 1)
      with ((base + size - (pos + pow2 c0) + 1 * 256) / 256)
      by (rewrite Z.div_add by lia; reflexivity).
    apply Z.div_le_mono; lia. }
  assert (Hnn : 0 <= (base + size - (pos + pow2 c0)) / 256)
    by (apply Z.div_pos; lia).
  destruct (IH (pos + pow2 c0) c0) as [Hrest Hall].
  { lia. }
  { destruct (Z.eq_dec (pos + pow2 c0) (base + size)) as [|Hne];
      [now left|right].
    apply (chunk_behind base size seg m _ T pos c0 Hc0). lia. }
  { right. exists pos. split; [exact (idle_chunk _ _ Hc0)|]. auto. }
  assert (Hmono : pow2 (c0 + 1) <= pow2 b) by (apply pow2_mono; lia).
  split; [lia|].
  intros x c Hx Hle. destruct (Z.eq_dec x pos) as [->|Hne].
  - pose proof (til_class _ _ _ Til pos c c0 (free_is_chunk _ _ Hx) Hc0). subst c.
    split; [exact Hal|]. lia.
  - apply Hall; [exact Hx|].
    destruct (chunks_apart base size _ pos c0 x c Til Hc0 (free_is_chunk _ _ Hx)
                ltac:(congruence)); [|lia].
    pose proof (placed_pos _ _ _ _
                  (til_placed _ _ _ Til x c (free_is_chunk _ _ Hx))). lia.
Qed.

(** Every free chunk is where the seeding of a new segment puts the
    chunk of its class. *)
Lemma idle_free_chunk x c :
  In x (free_chunks seg c) ->
  x = base + seed_offset size c /\ Z.testbit size c = true /\
  DMABUF_CHUNKSZ_MIN_BIT <= c <= DMABUF_CHUNKSZ_MAX_BIT.
Proof.
  intros Hx.
  pose proof (sok_tiled _ _ _ _ Hok) as T.
  pose proof (sti_tiling _ _ _ _ _ T) as Til.
  pose proof (til_placed _ _ _ Til x c (free_is_chunk _ _ Hx)) as (Hc & Hb & _).
  destruct (merged_from (S (Z.to_nat (size / DMABUF_CHUNKSZ_MIN))) base
              (DMABUF_CHUNKSZ_MAX_BIT + 1)) as [_ Hall].
  { replace (base + size - base) with size by lia. lia. }
  { right. destruct (til_cover _ _ _ Til base ltac:(lia)) as (y & d & Hy & Hr).
    exists d. replace base with y; [exact Hy|].
    pose proof (til_placed _ _ _ Til y d Hy) as (_ & Hyb & _). lia. }
  { left. auto. }
  destruct (Hall x c Hx Hb) as [Hal [Hlo Hhi]].
  assert (Hc0 : 0 <= c) by zlia.
  pose proof (pow2_pos (c + 1) ltac:(lia)) as Hp1.
  apply mod_pow2_multiple in Hal as [q Hq]; [|lia].
  assert (Hoff : seed_offset size c = x - base).
  { unfold seed_offset.
    rewrite <- (Z.div_unique_pos size (pow2 (c + 1)) q (base + size - x)).
    - rewrite Z.mul_comm. lia.
    - pose proof (pow2_pos c Hc0). lia.
    - lia. }
  destruct (seed_offset_bit size c ltac:(lia) Hc0) as [H1 (r & Hr & H2)].
  split; [lia|]. split; [|exact Hc].
  destruct (Z.testbit size c); [reflexivity|lia].
Qed.

(** A multiple of [2^k] that is not above [size] is not above the
    largest one. *)
Lemma multiple_below (a k : Z) :
  0 <= k -> a mod pow2 k = 0 -> a <= size -> a <= size / pow2 k * pow2 k.
Proof.
  intros Hk Ha Hle. pose proof (pow2_pos k Hk) as Hp.
  apply mod_pow2_multiple in Ha as [q ->]; [|assumption].
  assert (q <= size / pow2 k) by (apply Z.div_le_lower_bound; lia). nia.
Qed.

(** Every bit set in the size, from bit 8 to bit 34, has its free
    chunk. *)
Lemma idle_bit_chunk c :
  DMABUF_CHUNKSZ_MIN_BIT <= c <= DMABUF_CHUNKSZ_MAX_BIT ->
  Z.testbit size c = true ->
  In (base + seed_offset size c) (free_chunks seg c).
Proof.
  intros Hc Hbit.
  pose proof (sok_tiled _ _ _ _ Hok) as T.
  pose proof (sti_tiling _ _ _ _ _ T) as Til.
  assert (Hc0 : 0 <= c) by zlia.
  pose proof (pow2_pos c Hc0) as Hp.
  destruct (seed_offset_bit size c ltac:(lia) Hc0) as [H1 (r & Hr & H2)].
  rewrite Hbit in H1.
  assert (Hoff0 : 0 <= seed_offset size c).
  { unfold seed_offset. pose proof (pow2_pos (c + 1) ltac:(lia)).
    apply Z.mul_nonneg_nonneg; [apply Z.div_pos|]; lia. }
  destruct (til_cover _ _ _ Til (base + seed_offset size c) ltac:(lia))
    as (x & c' & Hx & Hr').
  apply idle_chunk in Hx.
  destruct (idle_free_chunk x c' Hx) as (-> & Hbit' & Hc').
  assert (Hc0' : 0 <= c') by zlia.
  pose proof (pow2_pos c' Hc0') as Hp'.
  destruct (seed_offset_bit size c' ltac:(lia) Hc0') as [H1' (r' & Hr2 & H2')].
  rewrite Hbit' in H1'.
  destruct (Z.lt_total c c') as [Hlt|[->|Hgt]]; [exfalso| exact Hx |exfalso].
  - (* the chunk of the larger class ends before the offset *)
    assert (seed_offset size c' + pow2 c' <= size / pow2 (c + 1) * pow2 (c + 1)).
    { apply multiple_below; [lia| |lia].
      apply (mod_pow2_weaken _ (c + 1) c'); [lia|].
      rewrite <- H1'. rewrite Z.mul_comm. apply multiple_mod_pow2. lia. }
    fold (seed_offset size c) in H. lia.
  - assert (seed_offset size c + pow2 c <= size / pow2 (c' + 1) * pow2 (c' + 1)).
    { apply multiple_below; [lia| |lia].
      apply (mod_pow2_weaken _ (c' + 1) c); [lia|].
      rewrite <- H1. rewrite Z.mul_comm. apply multiple_mod_pow2. lia. }
    fold (seed_offset size c') in H. lia.
Qed.

(** The free lists are those of a new segment. *)
Lemma idle_free_lists c : free_chunks seg c = seeded_lists base size c.
Proof.
  pose proof (sti_nodup _ _ _ _ _ (sok_tiled _ _ _ _ Hok) c) as Hnd.
  unfold seeded_lists.
  destruct ((DMABUF_CHUNKSZ_MIN_BIT <=? c) && (c <=? DMABUF_CHUNKSZ_MAX_BIT)
            && Z.testbit size c) eqn:E.
  - apply andb_prop in E as [E Hbit]. apply andb_prop in E as [E1 E2].
    pose proof (idle_bit_chunk c ltac:(lia) Hbit) as Hin.
    destruct (free_chunks seg c) as [|x [|y l]] eqn:El; [destruct Hin| |].
    + destruct Hin as [->|[]]. reflexivity.
    + exfalso.
      destruct (idle_free_chunk x c ltac:(rewrite El; now left)) as [-> _].
      destruct (idle_free_chunk y c ltac:(rewrite El; right; now left)) as [-> _].
      apply NoDup_cons_iff in Hnd as [Hn _]. apply Hn. now left.
  - destruct (free_chunks seg c) as [|x l] eqn:El; [reflexivity|exfalso].
    destruct (idle_free_chunk x c ltac:(rewrite El; now left))
      as (_ & Hbit & Hc).
    rewrite Hbit, andb_true_r in E.
    destruct (Z.leb_spec DMABUF_CHUNKSZ_MIN_BIT c),
             (Z.leb_spec c DMABUF_CHUNKSZ_MAX_BIT); try lia; discriminate.
Qed.

End Idle.

(** A state used to evaluate the example below: a request of 100 bytes
    and the release of the chunk, which leaves the persistent segment 0
    on the active list with no chunk in use. *)
Definition one_small_released (cfg : config) : state :=
  let st := state_after cfg (map (CallAlloc 0) [100]) in
  result_state st (__dmaBufferFree cfg st (2 ^ 40 + 56)).

Lemma one_small_released_serving :
  serving (cfg_256MB os_all_ok) (one_small_released (cfg_256MB os_all_ok)).
Proof.
  set (cfg := cfg_256MB os_all_ok).
  set (st := state_after cfg (map (CallAlloc 0) [100])).
  apply (serving_call cfg st _ os_all_ok (CallFree (2 ^ 40 + 56))).
  - apply (state_after_serving (cfg_256MB os_all_ok) os_all_ok 0 [100]).
    + repeat constructor; lia.
    + apply is_Some_not_None. vm_compute. reflexivity.
  - exact I.
  - unfold one_small_released. fold cfg. fold st.
    change (run_call (set_os cfg os_all_ok) st (CallFree (2 ^ 40 + 56)))
      with (state_of (__dmaBufferFree cfg st (2 ^ 40 + 56))).
    assert (E : is_OK (__dmaBufferFree cfg st (2 ^ 40 + 56)) = true)
      by (vm_compute; reflexivity).
    destruct (__dmaBufferFree cfg st (2 ^ 40 + 56)); try discriminate.
    reflexivity.
Qed.

(** X25: in a state in service a segment on the active list with no
    chunk in use is merged back completely: its free lists are those of
    a segment just created, one chunk for every bit set in the segment
    size, each at the offset made of the bits above it.  Only a
    persistent segment is found in this state. *)
Theorem idle_segment_fully_merged cfg st id :
  cfg_ok cfg -> serving cfg st ->
  In id (active_segment_list st) ->
  num_chunks (segments st id) = 0 ->
  persistent cfg id = true /\
  forall c, free_chunks (segments st id) c
            = seeded_lists (mmap_ptr cfg id) (cfg_dma_segment_size cfg) c.
Proof.
  intros Hcfg Hs Hact Hn.
  destruct (serving_inv cfg st Hcfg Hs) as [Hdir Hinv].
  pose proof (serving_use_inv cfg st Hcfg Hs) as Hu.
  pose proof (hinv_ids cfg st Hinv id ltac:(now left)) as Hid.
  split.
  - destruct (persistent cfg id) eqn:Ep; [reflexivity|].
    pose proof (ui_busy cfg st Hu id Hact Ep). lia.
  - intros c.
    apply (idle_free_lists (mmap_ptr cfg id) (cfg_dma_segment_size cfg)
             (segments st id) (mem st)).
    + destruct (cok_size cfg Hcfg) as [H1 H2].
      pose proof (cfg_ok_size_max cfg Hcfg). lia.
    + exact (hinv_seg cfg st Hinv id Hact).
    + intros x Rx. destruct (shgcon (chunks (mem st) x)) eqn:E; [|reflexivity].
      exfalso.
      assert (Hx : shgcon (chunks (mem st) x) <> None) by congruence.
      destruct (in_use_slot cfg st id x Hinv Hact Rx Hx) as [_ Sx].
      apply Hx.
      apply (owned_count_zero _ (mmap_ptr cfg id) (cfg_dma_segment_size cfg));
        [|exact Sx].
      now rewrite <- (ui_count cfg st Hu id Hid).
Qed.

Lemma idle_segment_fully_merged_witness :
  let cfg := cfg_256MB os_all_ok in
  let st := one_small_released cfg in
  persistent cfg 0 = true /\
  forall c, free_chunks (segments st 0) c
            = seeded_lists (mmap_ptr cfg 0) (cfg_dma_segment_size cfg) c.
Proof.
  intros cfg st.
  apply (idle_segment_fully_merged cfg st 0).
  - apply cfg_256MB_ok.
  - apply one_small_released_serving.
  - vm_compute. left. reflexivity.
  - vm_compute. reflexivity.
Defined.
